(* ===== verification/_CoqProject ===== *)
-Q . S2P
Prelude.v
Triples.v
GoLib.v
Base64.v
Contracts.v
Http.v
Tokens.v
Backpressure.v
BlobStore.v
UploadStore.v
UploadServer.v
UploadProofs.v
Bucket.v
Landing.v
LandingProofs.v
Jobs.v
FFmpeg.v
OrchStore.v
Events.v
OrchApi.v
Landed.v
Scheduler.v
OrchProofs.v
RunnerProofs.v
LandedProofs.v
SchedLoop.v
CrossService.v
Calendar.v
TenancyStore.v
Tenancy.v
MeteredQuota.v
QuotaClient.v
Metering.v
ApiKeys.v
Workspaces.v
Oidc.v
AuthFlow.v
TenancyServer.v
TenancyProofs.v
Web.v
Routes.v
AuthProofs.v
Hub.v
HubProofs.v
Aggregator.v
Floats.v
Sampler.v
Telemetry.v
Config.v
Startup.v
ObjStore.v
Migrate.v
Streams.v
Process.v
Mains.v
MainProofs.v
Farm.v
FarmOwn.v
FarmProofs.v
EndToEnd.v
ClientUpload.v
