(* ===== verification/Prelude.v ===== *)
(** * aether-edit: a verification development

    The Go services of aether-edit, under src/services: four HTTP services and the
    contracts they share.
      - upload takes files in chunks into an S3 bucket, verifies and assembles them,
        and announces each landed object;
      - orchestrator turns landed objects and API requests into transcode jobs, runs
        them through ffmpeg in a bounded number of slots, and stores the outputs;
      - tenancy owns users, workspaces, memberships, API keys, sessions, the plan
        quotas and the metering rollups, and signs the tokens all services verify;
      - telemetry fans out hardware samples, job state and logs as server-sent events.
    They meet in Postgres (one schema each), in the bucket, in the NATS subjects of
    services/contracts, in the HS256 key and in tenancy's internal quota endpoint.

    ** How the code is modelled

    A function that talks to the outside is a [prog E A]: a tree of calls of the
    interface [E] (the store, S3, NATS, the clock, the child process, ...), written in
    the order of the source with its guards and early returns.  Everything pure is a
    function.  The same program is given meaning in several ways, all in this file:
    [run] executes it against a handler; [pool_step] interleaves any number of them at
    every call; [exec] and [steps] give its traces for an environment that answers
    anything; [nrun] and [wp] run it on a specification of the calls; [rg] is
    rely-guarantee reasoning for concurrent programs with sessions of their own and
    blocking calls, and Triples.v makes a program logic of it.  A call may fail before or after it took effect ([faulty],
    [up_to_fault]); an [error] is a [gerror], which keeps the values the code tests
    for and the text of the others.

    [int64], [int32] and [uint64] wrap ([i64], [i32], [u64]) where the source computes
    with them; a [float64] is a [spec_float] of precision 53; a string is its bytes; a
    string-typed enum is a string; a time is its nanoseconds since 1970.

    ** The files

      - GoLib, Base64, Http, Floats, Calendar: the parts of the standard library the
        services use, requests and responses.
      - Contracts (contracts/contracts.go, configquota.go): the shared types and the
        config-driven quota; [QuotaChecker] is a type class with three instances.
      - Tokens (upload/auth.go, both internal/auth/auth.go, tenancy/tokens.go).
      - upload: Backpressure (backpressure.go), BlobStore (blobstore.go), UploadStore
        (store.go, postgres.go: the class [StoreImpl] is the contract of the session
        store and [postgres_store] its SQL instance), UploadServer (server.go: one
        definition per handler, [serve] for the routes), UploadProofs; Bucket (S3 as the
        relation [s3_do]), Landing (the handlers over the programs of BlobStore, with the
        bucket, any [StoreImpl] and the event stream as one world, [land_do]),
        LandingProofs.
      - orchestrator: Jobs (internal/jobs), FFmpeg (internal/engine), OrchStore
        (internal/store/store.go), Events (internal/events, quota, metering, and the
        interface [orchE] of its workers), OrchApi (internal/httpapi), Landed
        (internal/consumer), Scheduler and SchedLoop (internal/scheduler: [runJob], and
        the claim loop, slots and cancellation, whose lookup and call of the cancel
        function are two steps, as a step relation [sched_do]), ObjStore
        (internal/objstore), OrchProofs, RunnerProofs, LandedProofs.
      - tenancy: TenancyStore (store.go, postgres.go), Tenancy (helpers of server.go),
        MeteredQuota (tiers.go, quota.go), QuotaClient (quotaclient), Metering
        (metering.go), ApiKeys (apikeys.go and the bearer middleware), Workspaces
        (workspaces.go), Oidc (oidc.go), AuthFlow (authflow.go), TenancyServer (the
        routes), TenancyProofs, AuthProofs.
      - telemetry: Hub (internal/hub, [sse_do]), HubProofs, Aggregator (internal/jobs),
        Sampler (internal/sampler), Telemetry (internal/logstream, pipeline, server).
      - start-up: Config (the four configuration loaders), Startup (what each main
        hands to its components), Migrate (both schema migrations), Streams (who owns
        the JetStream streams), Process (a Go process: its goroutines, contexts,
        channels, HTTP server, deferred calls and exit, with what is open, as the step
        relation [proc_do]), Mains (the four main functions and the constructors they
        call), MainProofs.
      - Web, Routes: what stands between net/http and the handlers of upload and tenancy
        (the context, the response writer, [statusRecorder], [logState], the bearer
        middleware and [requestLogger]), with any number of requests as [web_do].
      - CrossService: the landed event between upload and orchestrator.
      - the orchestrator as a whole: Farm (its workers, the job table, the bucket, the
        local disk and ffmpeg as one world, the relation [farm_do]: the calls of the
        object store and of the engine are replaced by the programs that implement
        them), FarmOwn (who owns which keys and directories), FarmProofs.
      - ClientUpload: a client of the upload service as a program of requests, and the
        world of Landing without faults, [calm_do].
      - EndToEnd: the worlds of Landing and of Farm around one bucket, the relation
        [whole_do]: a step of either side changes what the other finds in the bucket,
        and each relies on what the other side guarantees.

    ** What the theorems show

      - Upload: a session completes only after its events were acknowledged and stays in
        its workspace; requests that run one after the other move it only forward, and
        interleaved ones never lose a finished chunk or make it active again; the
        Postgres store refines its contract; the gauge never exceeds its ceiling; large copies
        tile the object.  All of it composed with the bucket: every landed event is about
        an object that is there, made of exactly what clients sent for its chunks, under a
        key named after its SHA-256.  And when nothing fails, a client that follows
        the protocol succeeds: its file is in the bucket, announced once.
      - Orchestrator: every job history is a chain of legal transitions under every
        interleaving of every component; a run settles its job once; a delivery is
        settled as the first failure demands and acknowledged when there is none;
        redelivery queues once; admission asks the quota; callers see their own workspace; slots bound
        the encodes, and a cancellation reported as delivered reached a run that was live
        when it was looked up; the object store stays within
        its keys, and a download is all or nothing.  All of it composed: a completed job
        has, for each rung of its preset, what ffmpeg made of exactly its source in the
        bucket under the recorded key, and nothing but outputs is ever written.
      - Tenancy: changes are authorized by a role looked up in the same request, refresh
        tokens are single-use, the tokens a family has when a logout is done are dead,
        login takes a verified identity, owners remain while requests run one after the
        other, the metering rollups are the sums of the events recorded, of which none is
        lost, a minted API key authenticates as its record, and the remote quota check
        agrees with the local one (on an empty workspace, which the endpoint refuses, it
        is an error).  The statements keep the tables within their schema.
      - Upload and tenancy: every request is answered by its handler, with the identity of
        its own credentials, and logged once, as it was answered.
      - Telemetry: a subscriber's frames and drop counter account for every event, no
        wake-up is lost, and the aggregate counts the active jobs.
      - Upload and orchestrator around one bucket: every completed job's outputs were
        encoded from exactly the chunks that clients sent, whatever else runs; that no
        two contents sent have the same SHA-256 is a hypothesis ([no_collision]).
      - Together: services configured with one secret accept each other's tokens;
        migrations are applied once and in order however many instances start; the
        order in which the services first start decides who owns the event streams.
      - Processes, under every interleaving of main, its goroutines, the requests and
        the signal: the upload service serves the requests it accepted before it gives
        anything up, telemetry's pipeline never meets a closed NVML, at every exit of the
        orchestrator or of telemetry all that was opened is given up (only a NATS
        connection may still be draining, which no process waits for), and the
        orchestrator does nothing before the license gate and the migrations.
    Where the code does not do what it means to, the theorem carries the hypothesis
    that is missing or states what holds instead, and an [Example] runs the failing case:
    [complete_cancel_race], [inflight_chunk_claimed_again], [cancel_after_the_end],
    [base_with_a_path], [upload_exits_while_nats_drains],
    [telemetry_exits_while_nats_drains],
    [last_owner_race], [logout_misses_concurrent_refresh], [one_refresh_wins],
    [second_run_cannot_be_canceled], [late_progress_leaks], [stale_aggregate],
    [storage_sum_overflows], [default_object_limit_exceeds_parts],
    [fallback_without_subject],
    [tenancy_exits_under_requests], [pool_closes_under_the_scheduler].

    ** Bounds and fuel

    Fuel appears where Go loops over a string ([duration_groups] in Config.v, white
    space in GoLib.v); it is the length of the string, and every round consumes at
    least a byte ([duration_group_shorter], [duration_groups_fuel]).  Loops over the
    network are recursions over the list they process or over the retry count of the
    source; the loop of a multipart copy has as fuel the parts of the object and one
    ([copy_fuel]), and the theorems about objects are for sizes up to 2^59 bytes, where
    no offset or part number wraps.  Theorems that need a size to stay within its machine width say so in a
    hypothesis, and the finding says what happens beyond it.

    ** Not modelled

    Third-party code is a parameter with the laws of its documentation, or an
    interface whose calls answer arbitrarily: golang-jwt, argon2id, go-nvml, the AWS
    SDK, pgx, nats.go; so are the JSON decoders and encoders, HMAC and SHA-256,
    [uuid.Parse], [strconv.ParseFloat] and [url.Parse].  A decoded body is an input of
    its handler.  Left out: log lines other than the request log; the connections inside
    a pool; the deadlines of a shutdown, which may give up at any time; keep-alive (a
    connection counts as busy from its acceptance until its request is answered, or it
    closes without one, and a second request on it is a second acceptance); the
    sub-microsecond rounding of timestamptz; case folding outside ASCII; the body of an
    HTTP redirect; the
    response headers of an event stream and its reply to a writer that cannot flush. *)
From Stdlib Require Export Ascii String ZArith Lia.
From stdpp Require Export base gmap strings list fin_maps pretty.

#[export] Set Default Goal Selector "!".

(** ** Go errors and fallible results *)

(** The [error] values the services distinguish with [errors.Is]; every
    other error is only logged or formatted, so it keeps its text. *)
Inductive gerror :=
| ENotFound
| EConflict
| EDuplicate
| ECanceled
| EMsg (msg : string).

#[export] Instance gerror_eq_dec : EqDecision gerror.
Proof. solve_decision. Defined.

Inductive result (A : Type) :=
| Ok (a : A)
| Err (e : gerror).
Arguments Ok {_} _.
Arguments Err {_} _.

#[export] Instance result_eq_dec {A} `{EqDecision A} : EqDecision (result A).
Proof. solve_decision. Defined.

#[export] Instance result_ret : MRet result := @Ok.
#[export] Instance result_bind : MBind result := fun A B f r =>
  match r with Ok a => f a | Err e => Err e end.
#[export] Instance result_fmap : FMap result := fun A B f r =>
  match r with Ok a => Ok (f a) | Err e => Err e end.

Definition is_ok {A} (r : result A) : bool :=
  match r with Ok _ => true | Err _ => false end.

(** ** Programs over an interface

    A Go function that talks to the outside (a store, an object store, a
    publisher, a clock) is a [prog E A]: a finite tree of calls [E X] whose
    continuation consumes the value the call returned.  [E] is the union of
    the Go interfaces the function is given. *)
Inductive prog (E : Type -> Type) (A : Type) : Type :=
| Ret (a : A)
| Vis (X : Type) (e : E X) (k : X -> prog E A).
Arguments Ret {_ _} _.
Arguments Vis {_ _ _} _ _.

Fixpoint pbind {E A B} (p : prog E A) (f : A -> prog E B) : prog E B :=
  match p with
  | Ret a => f a
  | Vis e k => Vis e (fun x => pbind (k x) f)
  end.

#[export] Instance prog_ret E : MRet (prog E) := fun A a => Ret a.
#[export] Instance prog_bind E : MBind (prog E) := fun A B f p => pbind p f.

Definition call {E X} (e : E X) : prog E X := Vis e Ret.

(** Changing the interface: a component's program run inside a service that
    offers more calls. *)
Fixpoint embed {E F A} (i : forall X, E X -> F X) (p : prog E A) : prog F A :=
  match p with
  | Ret a => Ret a
  | Vis e k => Vis (i _ e) (fun x => embed i (k x))
  end.

(** Compiling a program to the interface below: every call becomes the program that
    implements it. *)
Fixpoint interp {E F A} (i : forall X, E X -> prog F X) (p : prog E A) : prog F A :=
  match p with
  | Ret a => Ret a
  | Vis e k => pbind (i _ e) (fun x => interp i (k x))
  end.

(** A semantics of the interface: what a call returns and how it changes the
    world. *)
Definition sem (E : Type -> Type) (W : Type) : Type := forall X, E X -> W -> X * W.

Fixpoint run {E W A} (h : sem E W) (p : prog E A) (w : W) : A * W :=
  match p with
  | Ret a => (a, w)
  | Vis e k => let '(x, w') := h _ e w in run h (k x) w'
  end.

Lemma run_bind {E W A B} (h : sem E W) (p : prog E A) (f : A -> prog E B) w :
  run h (p ≫= f) w = let '(a, w') := run h p w in run h (f a) w'.
Proof.
  revert w. induction p as [a|X e k IH]; intros w; simpl; [done|].
  destruct (h X e w) as [x w']. apply IH.
Qed.

Lemma run_call {E W X} (h : sem E W) (e : E X) w : run h (call e) w = h X e w.
Proof. unfold call. simpl. by destruct (h X e w). Qed.

(** ** Reasoning rules *)

(** A relation on worlds that every call respects, and that is a preorder,
    holds between the start and the end of any program. *)
Lemma run_preorder {E W A} (h : sem E W) (R : W -> W -> Prop) `{!PreOrder R} :
  (forall X (e : E X) w, R w (h X e w).2) ->
  forall (p : prog E A) w, R w (run h p w).2.
Proof.
  intros Hstep p. induction p as [a|X e k IH]; intros w; simpl; [done|].
  specialize (Hstep X e w). destruct (h X e w) as [x w'] eqn:E'. simpl in *.
  etrans; [exact Hstep | apply IH].
Qed.

Lemma run_invariant {E W A} (h : sem E W) (I : W -> Prop) :
  (forall X (e : E X) w, I w -> I (h X e w).2) ->
  forall (p : prog E A) w, I w -> I (run h p w).2.
Proof.
  intros Hstep p. induction p as [a|X e k IH]; intros w Hw; simpl; [done|].
  specialize (Hstep X e w Hw). destruct (h X e w) as [x w'] eqn:E'. simpl in *.
  by apply IH.
Qed.

(** ** Interleavings

    Requests are served by concurrent goroutines; each external call is one
    atomic step and the scheduler picks any goroutine that is not done. *)
Definition pool (E : Type -> Type) (A W : Type) : Type := list (prog E A) * W.

Inductive pool_step {E A W} (h : sem E W) : pool E A W -> pool E A W -> Prop :=
| pool_step_at i X (e : E X) k x ps w w' :
    ps !! i = Some (Vis e k) ->
    h X e w = (x, w') ->
    pool_step h (ps, w) (<[i := k x]> ps, w').

Lemma pool_preorder {E A W} (h : sem E W) (R : W -> W -> Prop) `{!PreOrder R} :
  (forall X (e : E X) w, R w (h X e w).2) ->
  forall s s' : pool E A W, rtc (pool_step h) s s' -> R s.2 s'.2.
Proof.
  intros Hstep s s' Hr. induction Hr as [s|s1 s2 s3 H12 _ IH]; [done|].
  etrans; [|exact IH]. destruct H12 as [i X e k x ps w w' _ Hh]. simpl.
  specialize (Hstep X e w). by rewrite Hh in Hstep.
Qed.

(** One program among the others, in states that all of them keep within [I]. *)
Fixpoint under {E A W} (h : sem E W) (I : W -> Prop) (Q : A -> Prop) (p : prog E A) : Prop :=
  match p with
  | Ret a => Q a
  | Vis e k => forall w, I w -> under h I Q (k (h _ e w).1)
  end.

Lemma pool_under {E A W} (h : sem E W) (I : W -> Prop) (Q : A -> Prop) i (p : prog E A) (s s' : pool E A W) :
  (forall X (e : E X) w, I w -> I (h X e w).2) ->
  I s.2 -> s.1 !! i = Some p -> under h I Q p -> rtc (pool_step h) s s' ->
  I s'.2 /\ exists p', s'.1 !! i = Some p' /\ under h I Q p'.
Proof.
  intros Hstep Hs Hi Hp Hr. revert p Hs Hi Hp. induction Hr as [s|s1 s2 s3 H12 _ IH]; intros p Hs Hi Hp.
  { split; [done|]. by exists p. }
  destruct H12 as [j X e k x ps w w' Hj Hh]. simpl in *.
  assert (Hw' : I w') by (specialize (Hstep X e w Hs); by rewrite Hh in Hstep).
  destruct (decide (j = i)) as [->|Hne].
  - simplify_eq. apply (IH (k x)); [done| |].
    + simpl. apply list_lookup_insert_eq. by eapply lookup_lt_Some.
    + specialize (Hp w Hs). by rewrite Hh in Hp.
  - apply (IH p); [done| |done]. simpl. by rewrite list_lookup_insert_ne.
Qed.

(** Running the pool by an explicit schedule, for concrete interleavings. *)
Fixpoint run_sched {E A W} (h : sem E W) (sch : list nat) (s : pool E A W)
    : pool E A W :=
  match sch with
  | [] => s
  | i :: sch' =>
      match s.1 !! i with
      | Some (Vis e k) =>
          let '(x, w') := h _ e s.2 in run_sched h sch' (<[i := k x]> s.1, w')
      | _ => run_sched h sch' s
      end
  end.

Lemma run_sched_reachable {E A W} (h : sem E W) sch (s : pool E A W) :
  rtc (pool_step h) s (run_sched h sch s).
Proof.
  revert s. induction sch as [|i sch IH]; intros [ps w]; simpl; [done|].
  destruct (ps !! i) as [[a|X e k]|] eqn:Hi; [apply IH| |apply IH].
  destruct (h X e w) as [x w'] eqn:Hh. eapply rtc_l; [|apply IH].
  by eapply pool_step_at.
Qed.

(** ** Faults of external calls

    A call over the network succeeds, fails before it took effect, or fails
    after it took effect (the reply is lost).  A world carries the outcomes of
    its future calls; when the list is exhausted calls succeed. *)
Inductive fault := FOk | FBefore | FAfter.

#[export] Instance fault_eq_dec : EqDecision fault.
Proof. solve_decision. Defined.

Definition next_fault (fs : list fault) : fault * list fault :=
  match fs with
  | [] => (FOk, [])
  | f :: fs' => (f, fs')
  end.

(** An effectful call on a state: the plain outcome, or an error with or
    without the effect. *)
Definition faulty {S X} (f : fault) (e : gerror) (s : S) (ok : result X * S)
    : result X * S :=
  match f with
  | FOk => ok
  | FBefore => (Err e, s)
  | FAfter => (Err e, ok.2)
  end.

(** ** Tactics *)

(** Split every [match]/[if]/[let] in the hypothesis [H] and close the branches
    whose outcome contradicts the rest. *)
Ltac break_match H :=
  repeat (match type of H with
          | context [match ?x with _ => _ end] =>
              first [ is_var x; destruct x | destruct x eqn:? ]
          end; simplify_eq/=; try done).

Ltac break_goal :=
  repeat (case_match; simplify_eq/=; try done).

(** Turn boolean comparisons into propositions. *)
Ltac bool_prop :=
  repeat match goal with
  | H : _ && _ = true |- _ => apply andb_true_iff in H as [? ?]
  | H : _ && _ = false |- _ => apply andb_false_iff in H
  | H : _ || _ = true |- _ => apply orb_true_iff in H
  | H : _ || _ = false |- _ => apply orb_false_iff in H as [? ?]
  | H : negb _ = true |- _ => apply negb_true_iff in H
  | H : negb _ = false |- _ => apply negb_false_iff in H
  | H : Z.leb _ _ = true |- _ => apply Z.leb_le in H
  | H : Z.leb _ _ = false |- _ => apply Z.leb_gt in H
  | H : Z.ltb _ _ = true |- _ => apply Z.ltb_lt in H
  | H : Z.ltb _ _ = false |- _ => apply Z.ltb_ge in H
  | H : Z.eqb _ _ = true |- _ => apply Z.eqb_eq in H
  | H : Z.eqb _ _ = false |- _ => apply Z.eqb_neq in H
  | H : String.eqb _ _ = true |- _ => apply String.eqb_eq in H
  | H : String.eqb _ _ = false |- _ => apply String.eqb_neq in H
  | H : bool_decide _ = true |- _ => apply bool_decide_eq_true in H
  | H : bool_decide _ = false |- _ => apply bool_decide_eq_false in H
  end.

(** ** Fallible interfaces

    Most Go methods return a value and an [error]; [res E] is the interface
    whose calls [E Y] return a [result Y]. *)
Inductive res (E : Type -> Type) : Type -> Type :=
| R (Y : Type) (e : E Y) : res E (result Y).
Arguments R {_ _} _.

(** What the caller may rely on when calls can fail: the nominal outcome, or an
    error with the old or with the new state. *)
Definition up_to_fault {Y S} (nominal : result Y * S) (s : S) (r : result Y) (s' : S) : Prop :=
  (r, s') = nominal \/ (exists e, r = Err e /\ (s' = s \/ s' = nominal.2)).

Lemma up_to_fault_ok {Y S} (n : result Y * S) s (y : Y) s' :
  up_to_fault n s (Ok y) s' -> n = (Ok y, s').
Proof. intros [<-|(e & [=] & _)]. done. Qed.

Lemma up_to_fault_read {Y S} (r0 r : result Y) (s s' : S) :
  up_to_fault (r0, s) s r s' -> s' = s.
Proof. intros [[= _ ->]|(e & _ & [->| ->])]; done. Qed.

Lemma faulty_up_to_fault {Y S} f e (s : S) (n : result Y * S) :
  up_to_fault n s (faulty f e s n).1 (faulty f e s n).2.
Proof. destruct n as [r s'], f; simpl; unfold up_to_fault; simpl; naive_solver. Qed.

(** A relation on states that the nominal operations respect is respected under
    faults, when it is reflexive. *)
Lemma up_to_fault_rel {Y S} (R : S -> S -> Prop) `{!Reflexive R} (n : result Y * S) s r s' :
  R s n.2 -> up_to_fault n s r s' -> R s s'.
Proof. intros Hn [<-|(e & _ & [->| ->])]; done. Qed.

(** ** Traces

    Everything a program may do, for an environment that answers arbitrarily:
    the calls it makes, each with the answer it got, and its result. *)
Inductive event (E : Type -> Type) : Type :=
| Ev (X : Type) (e : E X) (x : X).
Arguments Ev {_ _} _ _.

Fixpoint exec {E A} (p : prog E A) (tr : list (event E)) (a : A) : Prop :=
  match p with
  | Ret b => tr = [] /\ a = b
  | Vis e k => exists x tr', tr = Ev e x :: tr' /\ exec (k x) tr' a
  end.

Lemma exec_ret {E A} (b : A) tr (a : A) : exec (Ret (E:=E) b) tr a <-> tr = [] /\ a = b.
Proof. done. Qed.

Lemma exec_bind {E A B} (p : prog E A) (f : A -> prog E B) tr b :
  exec (p ≫= f) tr b <->
  exists t1 t2 a, tr = t1 ++ t2 /\ exec p t1 a /\ exec (f a) t2 b.
Proof.
  revert tr. induction p as [a|X e k IH]; intros tr; simpl.
  - split.
    + intros H. by exists [], tr, a.
    + intros (t1 & t2 & a' & -> & [-> ->] & H). done.
  - split.
    + intros (x & tr' & -> & H). apply IH in H as (t1 & t2 & a & -> & H1 & H2).
      exists (Ev e x :: t1), t2, a. split; [done|]. split; [|done]. by exists x, t1.
    + intros (t1 & t2 & a & -> & (x & tr' & -> & H1) & H2).
      exists x, (tr' ++ t2). split; [done|]. apply IH. by exists tr', t2, a.
Qed.

Lemma exec_call {E X} (e : E X) tr x : exec (call e) tr x <-> tr = [Ev e x].
Proof.
  unfold call; simpl. split.
  - intros (y & tr' & -> & -> & ->). done.
  - intros ->. exists x, []. done.
Qed.

(** The trace of a program run inside a service. *)
Definition lift_event {E F} (i : forall X, E X -> F X) (ev : event E) : event F :=
  match ev with Ev e x => Ev (i _ e) x end.

Lemma exec_embed {E F A} (i : forall X, E X -> F X) (p : prog E A) tr a :
  exec (embed i p) tr a <-> exists tr', tr = lift_event i <$> tr' /\ exec p tr' a.
Proof.
  revert tr. induction p as [b|X e k IH]; intros tr; simpl.
  - split; [intros [-> ->]; by exists []|]. intros (tr' & -> & [-> ->]). done.
  - split.
    + intros (x & tr' & -> & (t & -> & H)%IH). exists (Ev e x :: t). split; [done|]. by exists x, t.
    + intros (tr' & -> & (x & t & -> & H)). exists x, (lift_event i <$> t). split; [done|]. apply IH. eauto.
Qed.

(** The trace of a run. *)
Fixpoint run_log {E W A} (h : sem E W) (p : prog E A) (w : W) : list (event E) :=
  match p with
  | Ret _ => []
  | Vis e k => let '(x, w') := h _ e w in Ev e x :: run_log h (k x) w'
  end.

Lemma run_log_exec {E W A} (h : sem E W) (p : prog E A) w :
  exec p (run_log h p w) (run h p w).1.
Proof.
  revert w. induction p as [a|X e k IH]; intros w; simpl; [done|].
  specialize (IH). destruct (h X e w) as [x w']. exists x, (run_log h (k x) w'). split; [done|apply IH].
Qed.

Lemma run_log_answers {E W A} (h : sem E W) (ok : event E -> Prop) (p : prog E A) w :
  (forall X (e : E X) w, ok (Ev e (h X e w).1)) -> Forall ok (run_log h p w).
Proof.
  intros Hok. revert w. induction p as [a|X e k IH]; intros w; simpl; [done|].
  specialize (Hok X e w). destruct (h X e w) as [x w']. by constructor.
Qed.

(** A run is a trace of its program. *)
Lemma run_exec {E W A} (h : sem E W) (p : prog E A) w :
  exists tr, exec p tr (run h p w).1.
Proof.
  revert w. induction p as [a|X e k IH]; intros w; simpl; [by exists []|].
  destruct (h X e w) as [x w']. destruct (IH x w') as [tr Htr].
  exists (Ev e x :: tr), x, tr. done.
Qed.

#[global] Arguments exec : simpl never.
#[global] Arguments pbind : simpl never.
#[global] Arguments prog_bind : simpl never.

(** Go on after a call whose answer is known. *)
Ltac go_on H :=
  repeat match type of H with
  | context [@pbind ?E ?A ?B (Ret ?x) ?f] => change (@pbind E A B (Ret x) f) with (f x) in H
  | context [prog_bind ?E ?A ?B ?f (Ret ?x)] => change (prog_bind E A B f (Ret x)) with (f x) in H
  end; cbn [negb andb orb fst snd] in H.

(** Walk through a trace: one call or one branch at a time. *)
Ltac exec_step :=
  match goal with
  | H : exec (mbind _ _) _ _ |- _ =>
      apply exec_bind in H as (? & ? & ? & ? & ? & ?); subst
  | H : exec (pbind _ _) _ _ |- _ =>
      apply (exec_bind (A:=_)) in H as (? & ? & ? & ? & ? & ?); subst
  | H : exec (Vis _ _) _ _ |- _ => destruct H as (? & ? & ? & ?); subst
  | H : exec (call _) _ _ |- _ => apply exec_call in H; subst
  | H : exec (Ret _) _ _ |- _ => destruct H as [? ?]; subst
  | H : exec (mret _) _ _ |- _ => destruct H as [? ?]; subst
  | H : exec (match ?x with _ => _ end) _ _ |- _ =>
      first [ is_var x; destruct x | destruct x eqn:? ]; simplify_eq/=
  end.
Ltac exec_steps := repeat exec_step.

(** ** Specification runs

    The runs of a program on an abstract state, for a semantics that only says
    which outcomes a call may have.  [run_nrun] carries what holds of them to
    every implementation that refines it. *)
Definition nsem (E : Type -> Type) (W : Type) : Type := forall X, E X -> W -> X -> W -> Prop.

Fixpoint nrun {E W A} (h : nsem E W) (p : prog E A) (w : W) (a : A) (w' : W) : Prop :=
  match p with
  | Ret b => a = b /\ w' = w
  | Vis e k => exists x w1, h _ e w x w1 /\ nrun h (k x) w1 a w'
  end.
#[global] Arguments nrun : simpl never.

Lemma nrun_bind {E W A B} (h : nsem E W) (p : prog E A) (f : A -> prog E B) w b w' :
  nrun h (p ≫= f) w b w' <-> exists a w1, nrun h p w a w1 /\ nrun h (f a) w1 b w'.
Proof.
  revert w. induction p as [a|X e k IH]; intros w; simpl.
  - split; [by exists a, w|]. by intros (a' & w1 & [-> ->] & H).
  - split.
    + intros (x & w1 & Hx & H). apply IH in H as (a & w2 & H1 & H2).
      exists a, w2. split; [|done]. by exists x, w1.
    + intros (a & w2 & (x & w1 & Hx & H1) & H2). exists x, w1. split; [done|].
      apply IH. by exists a, w2.
Qed.

Lemma nrun_Ret {E W A} (h : nsem E W) (b : A) w a w' :
  nrun h (Ret b) w a w' <-> a = b /\ w' = w.
Proof. done. Qed.

Lemma nrun_Vis {E W A X} (h : nsem E W) (e : E X) (k : X -> prog E A) w a w' :
  nrun h (Vis e k) w a w' <-> exists x w1, h X e w x w1 /\ nrun h (k x) w1 a w'.
Proof. done. Qed.

Lemma nrun_preorder {E W A} (h : nsem E W) (R : W -> W -> Prop) `{!PreOrder R} (p : prog E A) :
  (forall X (e : E X) w x w', h X e w x w' -> R w w') ->
  forall w a w', nrun h p w a w' -> R w w'.
Proof.
  intros Hstep. induction p as [b|X e k IH]; intros w a w'; [by intros [_ ->]|].
  intros (x & w1 & Hx & H). etrans; [by eapply Hstep|by eapply IH].
Qed.

Lemma run_nrun {E C W A} (h : sem E C) (n : nsem E W) (rel : C -> W -> Prop) :
  (forall X (e : E X) c w, rel c w ->
     exists w', n X e w (h X e c).1 w' /\ rel (h X e c).2 w') ->
  forall (p : prog E A) c w, rel c w ->
    exists w', nrun n p w (run h p c).1 w' /\ rel (run h p c).2 w'.
Proof.
  intros Hstep. induction p as [a|X e k IH]; intros c w Hr; [by exists w|].
  destruct (Hstep X e c w Hr) as (w1 & Hn & Hr1). simpl.
  destruct (h X e c) as [x c1]. destruct (IH x c1 w1 Hr1) as (w' & Hrun & Hr').
  exists w'. split; [|done]. by exists x, w1.
Qed.

(** An executable semantics that stays within a specification. *)
Lemma run_refines {E W A} (h : sem E W) (n : nsem E W) (p : prog E A) w :
  (forall X (e : E X) w, n X e w (h X e w).1 (h X e w).2) -> nrun n p w (run h p w).1 (run h p w).2.
Proof.
  intros Hh. revert w. induction p as [a|X e k IH]; intros w; [done|]. simpl.
  specialize (Hh X e w). specialize (IH). destruct (h X e w) as [x w1]. exists x, w1. split; [done|apply IH].
Qed.

(** One call, or one branch, of a specification run in the context. *)
Ltac nstep :=
  match goal with
  | H : nrun _ (Ret _) _ _ _ |- _ => destruct H as [? ?]; subst
  | H : nrun _ (mret _) _ _ _ |- _ => destruct H as [? ?]; subst
  | H : nrun _ (mbind _ (call _)) _ _ _ |- _ =>
      let x := fresh "x" in let w := fresh "w" in let Hs := fresh "Hs" in
      destruct H as (x & w & Hs & H); simpl in Hs; cbv beta in H; simpl in H
  | H : nrun _ (pbind (call _) _) _ _ _ |- _ =>
      let x := fresh "x" in let w := fresh "w" in let Hs := fresh "Hs" in
      destruct H as (x & w & Hs & H); simpl in Hs; cbv beta in H; simpl in H
  | H : nrun _ (mbind _ _) _ _ _ |- _ =>
      let x := fresh "x" in let w := fresh "w" in let H1 := fresh "H" in
      apply nrun_bind in H as (x & w & H1 & H); cbv beta in H
  | H : nrun _ (pbind _ _) _ _ _ |- _ =>
      let x := fresh "x" in let w := fresh "w" in let H1 := fresh "H" in
      apply (nrun_bind (A:=_)) in H as (x & w & H1 & H); cbv beta in H
  | H : nrun _ (Vis _ _) _ _ _ |- _ =>
      let x := fresh "x" in let w := fresh "w" in let Hs := fresh "Hs" in
      destruct H as (x & w & Hs & H); simpl in Hs; simpl in H
  | H : nrun _ (match ?x with _ => _ end) _ _ _ |- _ =>
      first [ is_var x; destruct x | destruct x eqn:? ]; simpl in H; simplify_eq/=
  end.

(** ** Which calls a program can make *)

Fixpoint all_calls {E A} (P : forall X, E X -> Prop) (p : prog E A) : Prop :=
  match p with
  | Ret _ => True
  | Vis e k => P _ e /\ forall x, all_calls P (k x)
  end.

Lemma all_calls_bind {E A B} (P : forall X, E X -> Prop) (p : prog E A) (f : A -> prog E B) :
  all_calls P p -> (forall a, all_calls P (f a)) -> all_calls P (p ≫= f).
Proof.
  induction p as [a|X e k IH]; [by intros _ Hf; apply Hf|].
  intros [He Hk] Hf. split; [done|]. intros x. by apply IH.
Qed.

Lemma all_calls_call {E X} (P : forall X, E X -> Prop) (e : E X) : P _ e -> all_calls P (call e).
Proof. by split. Qed.

(** What a program can return. *)
Fixpoint returns {E A} (Q : A -> Prop) (p : prog E A) : Prop :=
  match p with
  | Ret a => Q a
  | Vis e k => forall x, returns Q (k x)
  end.

Lemma returns_bind {E A B} (Q : B -> Prop) (p : prog E A) (f : A -> prog E B) :
  (forall a, returns Q (f a)) -> returns Q (p ≫= f).
Proof.
  intros Hf. induction p as [a|X e k IH]; [apply Hf|]. intros x. apply IH.
Qed.

Lemma returns_bind_post {E A B} (Q : B -> Prop) (p : prog E A) (f : A -> prog E B) :
  returns (fun a => returns Q (f a)) p -> returns Q (p ≫= f).
Proof. induction p as [a|X e k IH]; [done|]. intros H x. by apply IH. Qed.

Lemma returns_call_bind {E X B} (Q : B -> Prop) (e : E X) (f : X -> prog E B) :
  (forall x, returns Q (f x)) -> returns Q (call e ≫= f).
Proof. done. Qed.

Lemma run_returns {E W A} (h : sem E W) (Q : A -> Prop) (p : prog E A) w a w' :
  run h p w = (a, w') -> returns Q p -> Q a.
Proof.
  revert w. induction p as [b|X e k IH]; intros w; simpl; [by intros [= -> ->]|].
  intros Hr HQ. destruct (h X e w) as [x w1]. by eapply IH.
Qed.

Lemma all_calls_bind_post {E A B} (P : forall X, E X -> Prop) (Q : A -> Prop) (p : prog E A)
    (f : A -> prog E B) :
  all_calls P p -> returns Q p -> (forall a, Q a -> all_calls P (f a)) -> all_calls P (p ≫= f).
Proof.
  induction p as [a|X e k IH]; [by intros _ HQ Hf; apply Hf|].
  intros [He Hk] HQ Hf. split; [done|]. intros x. apply IH; [done|apply HQ|done].
Qed.

Lemma all_calls_impl {E A} (P Q : forall X, E X -> Prop) (p : prog E A) :
  (forall X e, P X e -> Q X e) -> all_calls P p -> all_calls Q p.
Proof. intros HPQ. induction p as [a|X e k IH]; [done|]. intros [He Hk]. split; auto. Qed.

Lemma nrun_all_calls {E W A} (h : nsem E W) (P : forall X, E X -> Prop) (R : W -> W -> Prop)
    `{!PreOrder R} (p : prog E A) :
  all_calls P p -> (forall X (e : E X) w x w', P _ e -> h X e w x w' -> R w w') ->
  forall w a w', nrun h p w a w' -> R w w'.
Proof.
  intros Hp Hstep. induction p as [b|X e k IH]; intros w a w'; [by intros [_ ->]|].
  destruct Hp as [He Hk]. intros (x & w1 & Hx & H).
  etrans; [by eapply Hstep|by eapply IH].
Qed.

Lemma run_all_calls {E W A} (h : sem E W) (P : forall X, E X -> Prop) (R : W -> W -> Prop)
    `{!PreOrder R} (p : prog E A) :
  all_calls P p -> (forall X (e : E X) w, P _ e -> R w (h X e w).2) ->
  forall w, R w (run h p w).2.
Proof.
  intros Hp Hstep. induction p as [a|X e k IH]; intros w; simpl; [done|].
  destruct Hp as [He Hk]. specialize (Hstep X e w He).
  destruct (h X e w) as [x w'] eqn:E'. simpl in *. etrans; [exact Hstep|by apply IH].
Qed.

(** Decompose a program into its calls; sub-programs with their own lemma are
    given as hints in [calls]. *)
Create HintDb calls discriminated.
Ltac calls_tac :=
  repeat first
    [ done
    | progress intros
    | solve [eauto with calls nocore]
    | apply all_calls_bind
    | apply all_calls_call
    | case_match ].
Ltac returns_tac :=
  repeat first [ done | progress intros | apply returns_bind | case_match ].

(** ** Weakest preconditions

    [wp h p Q w]: every specification run of [p] from [w] ends in [Q]. *)
Fixpoint wp {E W A} (h : nsem E W) (p : prog E A) (Q : A -> W -> Prop) (w : W) : Prop :=
  match p with
  | Ret a => Q a w
  | Vis e k => forall x w1, h _ e w x w1 -> wp h (k x) Q w1
  end.
#[global] Arguments wp : simpl never.

Lemma wp_ret {E W A} (h : nsem E W) (a : A) Q w : Q a w -> wp h (Ret a) Q w.
Proof. done. Qed.

Lemma wp_nrun {E W A} (h : nsem E W) (p : prog E A) Q w :
  wp h p Q w <-> forall a w', nrun h p w a w' -> Q a w'.
Proof.
  revert w. induction p as [b|X e k IH]; intros w.
  - split; [by intros HQ a w' [-> ->]|]. intros H. by apply H.
  - split.
    + intros H a w' (x & w1 & Hx & Hr). by eapply IH; [apply H|].
    + intros H x w1 Hx. apply IH. intros a w' Hr. apply H. by exists x, w1.
Qed.

Lemma wp_mono {E W A} (h : nsem E W) (p : prog E A) (Q Q' : A -> W -> Prop) w :
  wp h p Q w -> (forall a w', Q a w' -> Q' a w') -> wp h p Q' w.
Proof. rewrite !wp_nrun. eauto. Qed.

Lemma wp_bind {E W A B} (h : nsem E W) (p : prog E A) (f : A -> prog E B) Q w :
  wp h p (fun a w1 => wp h (f a) Q w1) w -> wp h (p ≫= f) Q w.
Proof.
  revert w. induction p as [a|X e k IH]; intros w H; [done|].
  intros x w1 Hx. by apply IH, H.
Qed.

Lemma wp_call_bind {E W X B} (h : nsem E W) (e : E X) (f : X -> prog E B) Q w :
  (forall x w1, h X e w x w1 -> wp h (f x) Q w1) -> wp h (call e ≫= f) Q w.
Proof. intros H x w1 Hx. by apply H. Qed.

Lemma wp_call {E W X} (h : nsem E W) (e : E X) Q w :
  (forall x w1, h X e w x w1 -> Q x w1) -> wp h (call e) Q w.
Proof. intros H x w1 Hx. by apply H. Qed.

(** ** Interleavings of programs with known calls *)

Lemma pool_all_calls {E A W} (h : sem E W) (P : forall X, E X -> Prop) (R : W -> W -> Prop)
    `{!PreOrder R} (ps ps' : list (prog E A)) w w' :
  Forall (all_calls P) ps -> (forall X (e : E X) w, P _ e -> R w (h X e w).2) ->
  rtc (pool_step h) (ps, w) (ps', w') -> R w w'.
Proof.
  intros Hps Hstep Hr. remember (ps, w) as s eqn:Hs. remember (ps', w') as s' eqn:Hs'.
  revert ps w Hps Hs. induction Hr as [s|s1 s2 s3 H12 _ IH]; intros ps w Hps ->; [by simplify_eq|].
  inversion H12 as [i X e k x ? ? w1 Hi Hh]; subst.
  rewrite Forall_lookup in Hps. pose proof (Hps _ _ Hi) as [He Hk].
  transitivity w1; [specialize (Hstep X e w He); by rewrite Hh in Hstep|].
  eapply IH; [done| |done]. apply Forall_insert; [by apply Forall_lookup|done].
Qed.

(** Programs whose calls rely on what earlier calls answered. *)
Fixpoint calls_under {E A} (ans : forall X, E X -> X -> Prop) (P : forall X, E X -> Prop)
    (p : prog E A) : Prop :=
  match p with
  | Ret _ => True
  | Vis e k => P _ e /\ forall x, ans _ e x -> calls_under ans P (k x)
  end.

Lemma calls_under_bind {E A B} ans P (p : prog E A) (f : A -> prog E B) :
  calls_under ans P p -> (forall a, calls_under ans P (f a)) -> calls_under ans P (p ≫= f).
Proof.
  induction p as [a|X e k IH]; [by intros _ Hf; apply Hf|].
  intros [He Hk] Hf. split; [done|]. intros x Hx. by apply IH; [apply Hk|].
Qed.

Lemma calls_under_call {E X B} ans P (e : E X) (f : X -> prog E B) :
  P _ e -> (forall x, ans _ e x -> calls_under ans P (f x)) -> calls_under ans P (call e ≫= f).
Proof. by split. Qed.

Lemma all_calls_under {E A} ans P (p : prog E A) : all_calls P p -> calls_under ans P p.
Proof. induction p as [a|X e k IH]; [done|]. intros [He Hk]. split; [done|]. intros x _. by apply IH. Qed.

Lemma pool_calls_under {E A W} (h : sem E W) ans (P : forall X, E X -> Prop) (R : W -> W -> Prop)
    `{!PreOrder R} (ps ps' : list (prog E A)) w w' :
  Forall (calls_under ans P) ps ->
  (forall X (e : E X) w, ans X e (h X e w).1) ->
  (forall X (e : E X) w, P _ e -> R w (h X e w).2) ->
  rtc (pool_step h) (ps, w) (ps', w') -> R w w'.
Proof.
  intros Hps Hans Hstep Hr. remember (ps, w) as s eqn:Hs. remember (ps', w') as s' eqn:Hs'.
  revert ps w Hps Hs. induction Hr as [s|s1 s2 s3 H12 _ IH]; intros ps w Hps ->; [by simplify_eq|].
  inversion H12 as [i X e k x ? ? w1 Hi Hh]; subst.
  rewrite Forall_lookup in Hps. pose proof (Hps _ _ Hi) as [He Hk].
  specialize (Hstep X e w He). specialize (Hans X e w). rewrite Hh in Hstep, Hans.
  transitivity w1; [done|]. eapply IH; [done| |done].
  apply Forall_insert; [by apply Forall_lookup|by apply Hk].
Qed.

#[export] Instance implied_preorder {W} (I : W -> Prop) : PreOrder (fun w w' => I w -> I w').
Proof. split; [by intros x|]. intros x y z Hxy Hyz Hx. by apply Hyz, Hxy. Qed.

Lemma pool_calls_invariant {E A W} (h : sem E W) (P : forall X, E X -> Prop) (I : W -> Prop)
    (ps ps' : list (prog E A)) w w' :
  Forall (all_calls P) ps -> (forall X (e : E X) w, P _ e -> I w -> I (h X e w).2) ->
  rtc (pool_step h) (ps, w) (ps', w') -> I w -> I w'.
Proof.
  intros Hps Hstep. by apply (pool_all_calls h P (fun w w' => I w -> I w')).
Qed.

(** ** Reasoning along a trace

    [steps ok P Q past p]: after the events [past], every event of [p] satisfies
    [P] with the events before it, and its result satisfies [Q] with all of them,
    for answers satisfying [ok]. *)
Fixpoint steps {E A} (ok : event E -> Prop) (P : list (event E) -> event E -> Prop)
    (Q : list (event E) -> A -> Prop) (past : list (event E)) (p : prog E A) : Prop :=
  match p with
  | Ret a => Q past a
  | Vis e k => forall x, ok (Ev e x) -> P past (Ev e x) /\ steps ok P Q (past ++ [Ev e x]) (k x)
  end.
#[global] Arguments steps : simpl never.

Section steps.
Context {E : Type -> Type} (ok : event E -> Prop) (P : list (event E) -> event E -> Prop).

Lemma steps_ret {A} (Q : list (event E) -> A -> Prop) past a : Q past a -> steps ok P Q past (Ret a).
Proof. done. Qed.

Lemma steps_mono {A} (Q Q' : list (event E) -> A -> Prop) past p :
  steps ok P Q past p -> (forall tr a, Q tr a -> Q' tr a) -> steps ok P Q' past p.
Proof.
  intros H HQ. revert past H. induction p as [a|X e k IH]; intros past H; [by apply HQ|].
  intros x Hx. destruct (H x Hx) as [HP Hk]. split; [done|]. by apply IH.
Qed.

Lemma steps_bind {A B} Q past (p : prog E A) (f : A -> prog E B) :
  steps ok P (fun tr a => steps ok P Q tr (f a)) past p -> steps ok P Q past (p ≫= f).
Proof.
  revert past. induction p as [a|X e k IH]; intros past H; [done|].
  intros x Hx. destruct (H x Hx) as [HP Hk]. split; [done|]. by apply IH.
Qed.

Lemma steps_call_bind {X B} Q past (e : E X) (f : X -> prog E B) :
  (forall x, ok (Ev e x) -> P past (Ev e x) /\ steps ok P Q (past ++ [Ev e x]) (f x)) ->
  steps ok P Q past (call e ≫= f).
Proof. done. Qed.

Lemma steps_call {X} Q past (e : E X) :
  (forall x, ok (Ev e x) -> P past (Ev e x) /\ Q (past ++ [Ev e x]) x) -> steps ok P Q past (call e).
Proof. done. Qed.

Lemma steps_calls {A} (C : forall X, E X -> Prop) Q past (p : prog E A) :
  all_calls C p -> (forall tr X e x, C X e -> P tr (Ev e x)) ->
  (forall t a, Forall (fun ev => match ev with Ev e _ => C _ e end) t -> Q (past ++ t) a) ->
  steps ok P Q past p.
Proof.
  intros Hp HP. revert past. induction p as [a|X e k IH]; intros past HQ.
  - apply steps_ret. rewrite <-(app_nil_r past). by apply HQ.
  - destruct Hp as [He Hk]. intros x _. split; [by apply HP|]. apply IH; [done|].
    intros t a Ht. rewrite <-app_assoc. apply HQ. by constructor.
Qed.

Lemma steps_exec {A} Q past (p : prog E A) tr a :
  steps ok P Q past p -> exec p tr a -> Forall ok tr ->
  Q (past ++ tr) a /\ forall t1 ev t2, tr = t1 ++ ev :: t2 -> P (past ++ t1) ev.
Proof.
  revert past tr. induction p as [b|X e k IH]; intros past tr H.
  - intros [-> ->] _. rewrite app_nil_r. split; [done|]. intros [|? t1] ev t2; done.
  - intros (x & tr' & -> & Hk) [Hok Hoks]%Forall_cons. destruct (H x Hok) as [HP Hs].
    destruct (IH x _ _ Hs Hk Hoks) as [HQ Hall]. rewrite <-app_assoc in HQ. split; [done|].
    intros [|ev1 t1] ev t2; simpl; intros [= <- Ht].
    + by rewrite app_nil_r.
    + specialize (Hall _ _ _ Ht). by rewrite <-app_assoc in Hall.
Qed.
End steps.

Lemma Forall_True {A} (l : list A) : Forall (fun _ => True) l.
Proof. by apply Forall_forall. Qed.

(** One call or branch of a [steps] goal. *)
Ltac steps_step :=
  match goal with
  | |- steps _ _ _ _ (Ret _) => apply steps_ret
  | |- steps _ _ _ _ (mret _) => apply steps_ret
  | |- steps _ _ _ _ (mbind _ (call _)) =>
      apply steps_call_bind; let x := fresh "x" in let Hok := fresh "Hok" in
      intros x Hok; cbv beta; split
  | |- steps _ _ _ _ (call _) =>
      apply steps_call; let x := fresh "x" in let Hok := fresh "Hok" in
      intros x Hok; cbv beta; split
  | |- steps _ _ _ _ (let '_ := ?x in _) => destruct x eqn:?
  | |- steps _ _ _ _ (match ?x with _ => _ end) =>
      first [ is_var x; destruct x | destruct x eqn:? ]; cbv beta
  end.

(** ** Calls whose error ends the program *)

Definition try {E Y B} (e : E (result Y)) (k : Y -> prog E (result B)) : prog E (result B) :=
  x ← call e; match x with Err err => Ret (Err err) | Ok y => k y end.

(** The same, with a message of its own. *)
Definition try_as {E Y B} (msg : string) (e : E (result Y)) (k : Y -> prog E (result B))
    : prog E (result B) :=
  x ← call e; match x with Err _ => Ret (Err (EMsg msg)) | Ok y => k y end.

Lemma try_wp {E W Y B} (h : nsem E W) (e : E (result Y)) (k : Y -> prog E (result B)) Q w :
  (forall x w', h _ e w x w' -> match x with Err err => Q (Err err) w' | Ok y => wp h (k y) Q w' end) ->
  wp h (try e k) Q w.
Proof. intros H. apply wp_call_bind. intros x w' Hx. specialize (H x w' Hx). by destruct x. Qed.

Lemma try_as_wp {E W Y B} (h : nsem E W) msg (e : E (result Y)) (k : Y -> prog E (result B)) Q w :
  (forall x w', h _ e w x w' ->
     match x with Err _ => Q (Err (EMsg msg)) w' | Ok y => wp h (k y) Q w' end) ->
  wp h (try_as msg e k) Q w.
Proof. intros H. apply wp_call_bind. intros x w' Hx. specialize (H x w' Hx). by destruct x. Qed.

Lemma run_try_as {E W Y B} (h : sem E W) msg (e : E (result Y)) (k : Y -> prog E (result B)) w :
  run h (try_as msg e k) w =
  match h _ e w with (Ok y, w') => run h (k y) w' | (Err _, w') => (Err (EMsg msg), w') end.
Proof. unfold try_as. rewrite run_bind, run_call. by destruct (h _ e w) as [[y|] w']. Qed.

(** ** Rely and guarantee

    Concurrent programs over a shared state [S], each with a state [L] of its own
    (a database session, say), whose calls may block: a call that has no outcome
    in the current state is not enabled. *)
Inductive lpool_step {E A S L} (h : nat -> nsem E (S * L)) :
    list (prog E A * L) * S -> list (prog E A * L) * S -> Prop :=
| lpool_step_at i X (e : E X) k l x ts s s' l' :
    ts !! i = Some (Vis e k, l) -> h i X e (s, l) x (s', l') ->
    lpool_step h (ts, s) (<[i := (k x, l')]> ts, s').

Section rely_guarantee.
Context {E : Type -> Type} {S L : Type} (h : nat -> nsem E (S * L)).
(** What each program relies on: how the others may change the shared state. *)
Context (rely : nat -> S -> S -> Prop) `{rely_pre : forall i, PreOrder (rely i)}.

(** Every step of the [i]th program, from whatever state the others made of [s],
    is one the others can rely on, and its result satisfies [Q] from then on. *)
Fixpoint rg {A} (i : nat) (Q : A -> S -> L -> Prop) (p : prog E A) (s : S) (l : L) : Prop :=
  match p with
  | Ret a => forall s2, rely i s s2 -> Q a s2 l
  | Vis e k => forall s2 x s' l', rely i s s2 -> h i _ e (s2, l) x (s', l') ->
      (forall j, j <> i -> rely j s2 s') /\ rg i Q (k x) s' l'
  end.

Lemma rg_stable {A} i (Q : A -> S -> L -> Prop) p s l s2 : rg i Q p s l -> rely i s s2 -> rg i Q p s2 l.
Proof.
  intros Hp Hr. destruct p as [a|X e k].
  - intros s3 Hr'. apply Hp. by etrans.
  - intros s3 x s' l' Hr' Hx. apply (Hp s3); [by etrans|done].
Qed.

Lemma rg_result {A} i (Q : A -> S -> L -> Prop) a s l : rg i Q (Ret a) s l -> Q a s l.
Proof. intros Ha. apply Ha. reflexivity. Qed.

Lemma rg_mono {A} i (Q Q' : A -> S -> L -> Prop) p s l :
  rg i Q p s l -> (forall a s l, Q a s l -> Q' a s l) -> rg i Q' p s l.
Proof.
  intros Hp HQ. revert s l Hp. induction p as [a|X e k IH]; intros s l Hp.
  - intros s2 Hr. by apply HQ, Hp.
  - intros s2 x s' l' Hr Hx. destruct (Hp s2 x s' l' Hr Hx) as [Hg Hk]. split; [done|]. by apply IH.
Qed.

Lemma rg_bind {A B} i (Q : B -> S -> L -> Prop) (p : prog E A) (f : A -> prog E B) s l :
  rg i (fun a s l => rg i Q (f a) s l) p s l -> rg i Q (p ≫= f) s l.
Proof.
  revert s l. induction p as [a|X e k IH]; intros s l Hp.
  { exact (rg_result i (fun a s l => rg i Q (f a) s l) a s l Hp). }
  intros s2 x s' l' Hr Hx. destruct (Hp s2 x s' l' Hr Hx) as [Hg Hk]. split; [done|]. by apply IH.
Qed.

Lemma rg_call_bind {X B} i (Q : B -> S -> L -> Prop) (e : E X) (f : X -> prog E B) s l :
  (forall s2 x s' l', rely i s s2 -> h i _ e (s2, l) x (s', l') ->
     (forall j, j <> i -> rely j s2 s') /\ rg i Q (f x) s' l') ->
  rg i Q (call e ≫= f) s l.
Proof. done. Qed.

Lemma rg_try {Y B} i (Q : result B -> S -> L -> Prop) (e : E (result Y)) (k : Y -> prog E (result B)) s l :
  (forall s2 x s' l', rely i s s2 -> h i _ e (s2, l) x (s', l') ->
     (forall j, j <> i -> rely j s2 s') /\
     match x with Err err => rg i Q (Ret (Err err)) s' l' | Ok y => rg i Q (k y) s' l' end) ->
  rg i Q (try e k) s l.
Proof.
  intros Hx. apply rg_call_bind. intros s2 x s' l' Hr Hh. specialize (Hx s2 x s' l' Hr Hh).
  by destruct x.
Qed.

Lemma rg_sound {A} (Q : nat -> A -> S -> L -> Prop) ts s ts' s' :
  (forall i p l, ts !! i = Some (p, l) -> rg i (Q i) p s l) ->
  rtc (lpool_step h) (ts, s) (ts', s') ->
  forall i p l, ts' !! i = Some (p, l) -> rg i (Q i) p s' l.
Proof.
  intros Hts Hr. remember (ts, s) as c eqn:Hc. remember (ts', s') as c' eqn:Hc'.
  revert ts s Hts Hc. induction Hr as [c|c1 c2 c3 H12 _ IH]; intros ts s Hts ->; [by simplify_eq|].
  inversion H12 as [i X e k l x ? ? s1 l1 Hi Hh]; subst. eapply IH; [done| |done].
  destruct (Hts i _ _ Hi s x s1 l1 ltac:(reflexivity) Hh) as [Hg Hk]. intros j p lj Hj.
  destruct (decide (j = i)) as [->|Hne].
  - rewrite list_lookup_insert_eq in Hj by (by eapply lookup_lt_Some). by simplify_eq.
  - rewrite list_lookup_insert_ne in Hj by done. eapply rg_stable; [by apply Hts|by apply Hg].
Qed.

(** Seen from outside, the programs together do what each lets the others rely on. *)
Lemma rg_observed {A} (Q : nat -> A -> S -> L -> Prop) ts s ts' s' j :
  (forall i p l, ts !! i = Some (p, l) -> rg i (Q i) p s l) ->
  rtc (lpool_step h) (ts, s) (ts', s') -> (length ts <= j)%nat -> rely j s s'.
Proof.
  intros Hts Hr Hj. remember (ts, s) as c eqn:Hc. remember (ts', s') as c' eqn:Hc'.
  revert ts s Hts Hj Hc. induction Hr as [c|c1 c2 c3 H12 Hrest IH]; intros ts s Hts Hj ->; [by simplify_eq|].
  pose proof (rg_sound Q ts s c2.1 c2.2 Hts) as Hsound. inversion H12 as [i X e k l x ? ? s1 l1 Hi Hh]; subst.
  destruct (Hts i _ _ Hi s x s1 l1 ltac:(reflexivity) Hh) as [Hg _].
  transitivity s1; [apply Hg|].
  - apply lookup_lt_Some in Hi. lia.
  - eapply IH; [done| |by rewrite length_insert|done]. apply Hsound, rtc_once. by econstructor.
Qed.
End rely_guarantee.
#[global] Arguments rg : simpl never.

(** Running programs with states of their own by an explicit schedule, for an
    executable semantics of the calls. *)
Fixpoint lrun_sched {E A S L} (h : nat -> sem E (S * L)) (sch : list nat)
    (c : list (prog E A * L) * S) : list (prog E A * L) * S :=
  match sch with
  | [] => c
  | i :: sch' =>
      match c.1 !! i with
      | Some (Vis e k, l) =>
          let '(x, (s', l')) := h i _ e (c.2, l) in lrun_sched h sch' (<[i := (k x, l')]> c.1, s')
      | _ => lrun_sched h sch' c
      end
  end.

Lemma lrun_sched_reachable {E A S L} (h : nat -> sem E (S * L)) (n : nat -> nsem E (S * L)) sch
    (c : list (prog E A * L) * S) :
  (forall i X e w, n i X e w (h i X e w).1 (h i X e w).2) ->
  rtc (lpool_step n) c (lrun_sched h sch c).
Proof.
  intros Hh. revert c. induction sch as [|i sch IH]; intros [ts s]; simpl; [done|].
  destruct (ts !! i) as [[[a|X e k] l]|] eqn:Hi; [apply IH| |apply IH].
  specialize (Hh i X e (s, l)). destruct (h i X e (s, l)) as [x [s' l']].
  eapply rtc_l; [|apply IH]. by eapply lpool_step_at.
Qed.
