(* ===== verification/Triples.v ===== *)
(** * A program logic for concurrent programs over an invariant

    [tri i P p Q]: run as the [i]th of several programs, from a state satisfying the
    invariant and [P], the program [p] makes only steps that keep the invariant and that
    the others can rely on, and ends in [Q], whatever the others do meanwhile.  The rules
    are those of the rely-guarantee judgement [rg] of Prelude.v. *)
From S2P Require Export Prelude.

(** What the programs rely on is a preorder that keeps the invariant. *)
Class Relied {S : Type} (inv : S -> Prop) (rely : nat -> S -> S -> Prop) := {
  relied_pre : forall i, PreOrder (rely i);
  relied_inv : forall i s s', inv s -> rely i s s' -> inv s'
}.
#[export] Existing Instance relied_pre.

Section triples.
Context {E : Type -> Type} {S L : Type} {h : nat -> nsem E (S * L)}.
Context {inv : S -> Prop} {rely : nat -> S -> S -> Prop} `{!Relied inv rely}.

Definition assertion : Type := S -> L -> Prop.

Definition tri (i : nat) {A} (P : assertion) (p : prog E A) (Q : A -> assertion) : Prop :=
  forall s l, inv s -> P s l -> rg h rely i (fun a s l => inv s /\ Q a s l) p s l.

(** The others keep it. *)
Definition stable (i : nat) (P : assertion) : Prop :=
  forall s s' l, inv s -> P s l -> rely i s s' -> P s' l.

Lemma tri_weaken i {A} (P P' : assertion) (p : prog E A) (Q Q' : A -> assertion) :
  (forall s l, inv s -> P s l -> P' s l) -> tri i P' p Q -> (forall a s l, Q a s l -> Q' a s l) -> tri i P p Q'.
Proof.
  intros HP Hp HQ s l Hs Hpre. eapply rg_mono; [by apply Hp; auto|]. intros a s' l' [Hw H]. auto.
Qed.

Lemma tri_ret i {A} (a : A) (P : assertion) (Q : A -> assertion) :
  stable i P -> (forall s l, inv s -> P s l -> Q a s l) -> tri i P (Ret a) Q.
Proof.
  intros Hst HQ s l Hs Hp s2 Hr. assert (Hs2 : inv s2) by (by eapply relied_inv).
  split; [done|]. apply HQ; [done|]. by apply (Hst s s2).
Qed.

Lemma tri_bind i {A B} (P : assertion) (R : A -> assertion) (Q : B -> assertion) (p : prog E A) k :
  tri i P p R -> (forall a, tri i (R a) (k a) Q) -> tri i P (pbind p k) Q.
Proof.
  intros Hp Hk s l Hs Hpre. apply (rg_bind h rely i). eapply rg_mono; [by apply Hp|].
  intros a s' l' [Hw HR]. by apply Hk.
Qed.

(** A call whose step the others can rely on. *)
Lemma tri_vis i {X B} (e : E X) (P : assertion) (R : X -> assertion) (Q : B -> assertion) k :
  stable i P ->
  (forall s l x s' l', inv s -> P s l -> h i X e (s, l) x (s', l') ->
     inv s' /\ (forall j, j <> i -> rely j s s') /\ R x s' l') ->
  (forall x, tri i (R x) (k x) Q) -> tri i P (Vis e k) Q.
Proof.
  intros Hst HR Hk s l Hs Hp s2 x s' l' Hr Hx. assert (Hs2 : inv s2) by (by eapply relied_inv).
  destruct (HR s2 l x s' l' Hs2 (Hst _ _ _ Hs Hp Hr) Hx) as (Hs' & Hg & HRx). split; [done|]. by apply Hk.
Qed.

(** ** Assertions *)

Lemma tri_pure i {A} (P : assertion) (phi : Prop) (p : prog E A) Q :
  (phi -> tri i P p Q) -> tri i (fun s l => phi /\ P s l) p Q.
Proof. intros H s l Hs [Hphi Hp]. by apply H. Qed.

Lemma tri_exists i {A V} (P : V -> assertion) (p : prog E A) Q :
  (forall v, tri i (P v) p Q) -> tri i (fun s l => exists v, P v s l) p Q.
Proof. intros H s l Hs [v Hp]. by apply (H v). Qed.

Lemma stable_pure i (phi : Prop) P : stable i P -> stable i (fun s l => phi /\ P s l).
Proof. intros H s s' l Hs [Hphi Hp] Hr. split; [done|]. by apply (H s s'). Qed.

Lemma stable_and i P P' : stable i P -> stable i P' -> stable i (fun s l => P s l /\ P' s l).
Proof. intros H H' s s' l Hs [Hp Hp'] Hr. split; [by apply (H s s')|by apply (H' s s')]. Qed.

Lemma stable_exists i {V} (P : V -> assertion) : (forall v, stable i (P v)) -> stable i (fun s l => exists v, P v s l).
Proof. intros H s s' l Hs [v Hp] Hr. exists v. by apply (H v s s'). Qed.

(** What only concerns the program's own state. *)
Lemma stable_own i (phi : L -> Prop) : stable i (fun _ l => phi l).
Proof. by intros s s' l _ Hl _. Qed.

Lemma stable_True i : stable i (fun _ _ => True).
Proof. done. Qed.

(** ** Programs written against another interface

    [interp c p] replaces the calls of [p] by the programs [c] that implement them. *)
Lemma rg_bind_inv {A B} i (Q : B -> assertion) (p : prog E A) (k : A -> prog E B) s l :
  rg h rely i Q (pbind p k) s l -> rg h rely i (fun a s l => rg h rely i Q (k a) s l) p s l.
Proof.
  revert s l. induction p as [a|X e k' IH]; intros s l H.
  - intros s2 Hr. by eapply rg_stable; [apply relied_pre|exact H|].
  - intros s2 x s' l' Hr Hx. destruct (H s2 x s' l' Hr Hx) as [Hg Hk]. split; [done|]. by apply IH.
Qed.

Lemma tri_interp_bind {F} (c : forall X, F X -> prog E X) i {A B} (P : assertion) (R : A -> assertion)
    (Q : B -> assertion) (p : prog F A) k :
  tri i P (interp c p) R -> (forall a, tri i (R a) (interp c (k a)) Q) -> tri i P (interp c (p ≫= k)) Q.
Proof.
  intros Hp Hk s l Hs Hpre.
  assert (H : rg h rely i (fun a s l => rg h rely i (fun b s l => inv s /\ Q b s l) (interp c (k a)) s l) (interp c p) s l).
  { eapply rg_mono; [by apply Hp|]. intros a s' l' [Hw HR]. by apply Hk. }
  clear -H Relied0. revert s l H. induction p as [a|X e k' IH]; intros s l H.
  - apply (rg_result h rely i _ a s l H).
  - apply (rg_bind h rely i). simpl in H. apply rg_bind_inv in H. eapply rg_mono; [exact H|].
    intros x s' l' Hx. by apply IH.
Qed.

Lemma tri_interp_call {F} (c : forall X, F X -> prog E X) i {X B} (e : F X) (P : assertion) (R : X -> assertion)
    (Q : B -> assertion) k :
  tri i P (c X e) R -> (forall x, tri i (R x) (interp c (k x)) Q) -> tri i P (interp c (call e ≫= k)) Q.
Proof. intros He Hk. by eapply tri_bind. Qed.

(** A program whose calls are all of a kind that keeps [P]. *)
Lemma tri_interp_calls {F} (c : forall X, F X -> prog E X) (C : forall X, F X -> Prop) i {A} (P : assertion)
    (p : prog F A) :
  stable i P -> all_calls C p -> (forall X (e : F X), C X e -> tri i P (c X e) (fun _ => P)) ->
  tri i P (interp c p) (fun _ => P).
Proof.
  intros Hst Hc HC. induction p as [a|X e k IH]; [by apply tri_ret|]. destruct Hc as [He Hk].
  eapply tri_bind; [by apply HC|]. intros x. by apply IH.
Qed.

(** The same for the calls a component's program makes itself. *)
Lemma tri_embed_bind {F} (c : forall X, F X -> E X) i {A B} (P : assertion) (R : A -> assertion)
    (Q : B -> assertion) (p : prog F A) k :
  tri i P (embed c p) R -> (forall a, tri i (R a) (embed c (k a)) Q) -> tri i P (embed c (p ≫= k)) Q.
Proof.
  intros Hp Hk s l Hs Hpre.
  assert (H : rg h rely i (fun a s l => rg h rely i (fun b s l => inv s /\ Q b s l) (embed c (k a)) s l) (embed c p) s l).
  { eapply rg_mono; [by apply Hp|]. intros a s' l' [Hw HR]. by apply Hk. }
  clear -H Relied0. revert s l H. induction p as [a|X e k' IH]; intros s l H.
  - apply (rg_result h rely i _ a s l H).
  - intros s2 x s' l' Hr Hx. destruct (H s2 x s' l' Hr Hx) as [Hg Hn]. split; [done|]. by apply IH.
Qed.

(** ** All programs together *)

Lemma tri_sound {A} (Q : nat -> A -> assertion) (ps : list (prog E A * L)) s ts s' :
  inv s -> (forall i p l, ps !! i = Some (p, l) -> exists P : assertion, P s l /\ tri i P p (Q i)) ->
  rtc (lpool_step h) (ps, s) (ts, s') ->
  inv s' /\ (forall j, (length ps <= j)%nat -> rely j s s') /\
  (forall i a l, ts !! i = Some (Ret a, l) -> Q i a s' l).
Proof.
  intros Hs Hps Hr.
  assert (Hrg : forall i p l, ps !! i = Some (p, l) -> rg h rely i (fun a s l => inv s /\ Q i a s l) p s l).
  { intros i p l Hi. destruct (Hps i p l Hi) as (P & HP & Hp). by apply Hp. }
  assert (Hj : forall j, (length ps <= j)%nat -> rely j s s') by (intros j Hlen; by eapply (rg_observed h rely (fun i a s l => inv s /\ Q i a s l))).
  split_and!; [by eapply (relied_inv (length ps)); [|apply Hj]|exact Hj|].
  intros i a l Hi. 
  apply (rg_result h rely i (fun a s l => inv s /\ Q i a s l) a s' l).
  exact (rg_sound h rely (fun i a s l => inv s /\ Q i a s l) _ _ _ _ Hrg Hr i _ _ Hi).
Qed.
End triples.

#[global] Arguments assertion : clear implicits.
#[global] Arguments tri {_ _ _} _ _ _ _ {_} _ _ _ : simpl never.
#[global] Arguments stable {_ _} _ _ _ _.
