(* ===== verification/GoLib.v ===== *)
(** * The parts of Go and its standard library the services use

    Byte strings and the [strings] functions on them, character-class regular
    expressions, decimal formatting, 64-bit integers,
    floats and instants.  A Go string
    is a byte sequence, so it is a [string] here and [len] is its number of
    bytes. *)
From S2P Require Export Prelude.
From Stdlib Require Export SpecFloat.

#[global] Open Scope Z_scope.

(** ** Machine integers *)

(** Two's complement wrap-around of [int64] (and of [int], which is 64 bits
    wide on the platforms the services are built for). *)
Definition i64 (z : Z) : Z := (z + 2 ^ 63) mod 2 ^ 64 - 2 ^ 63.
Definition u64 (z : Z) : Z := z mod 2 ^ 64.
Definition max_i64 : Z := 2 ^ 63 - 1.

Lemma i64_id z : - 2 ^ 63 <= z < 2 ^ 63 -> i64 z = z.
Proof. intros H. unfold i64. rewrite Z.mod_small; lia. Qed.

Lemma i64_bounds z : - 2 ^ 63 <= i64 z < 2 ^ 63.
Proof.
  unfold i64. pose proof (Z.mod_pos_bound (z + 2 ^ 63) (2 ^ 64)). lia.
Qed.

(** A left shift of a signed 64-bit value; Go gives 0 when the count is 64 or
    more. *)
Definition shl64 (z n : Z) : Z := if 64 <=? n then 0 else i64 (Z.shiftl z n).

Lemma i64_congr z : exists k, i64 z = z + k * 2 ^ 64.
Proof.
  exists (- ((z + 2 ^ 63) / 2 ^ 64)). unfold i64.
  pose proof (Z.div_mod (z + 2 ^ 63) (2 ^ 64)). lia.
Qed.

Lemma i64_add_k z k : i64 (z + k * 2 ^ 64) = i64 z.
Proof.
  unfold i64. replace (z + k * 2 ^ 64 + 2 ^ 63) with (z + 2 ^ 63 + k * 2 ^ 64) by lia.
  by rewrite Z.mod_add.
Qed.

(** Additions of wrapped values wrap to the same result. *)
Lemma i64_add a b : i64 (i64 a + i64 b) = i64 (a + b).
Proof.
  destruct (i64_congr a) as [j ->], (i64_congr b) as [k ->].
  replace (a + j * 2 ^ 64 + (b + k * 2 ^ 64)) with (a + b + (j + k) * 2 ^ 64) by lia.
  apply i64_add_k.
Qed.

Definition i32 (z : Z) : Z := (z + 2 ^ 31) mod 2 ^ 32 - 2 ^ 31.

Lemma i32_id z : - 2 ^ 31 <= z < 2 ^ 31 -> i32 z = z.
Proof. intros H. unfold i32. rewrite Z.mod_small; lia. Qed.

(** ** Strings *)

#[global] Arguments String.append !_ _ / : simpl nomatch.

Definition slen (s : string) : Z := Z.of_nat (String.length s).

Lemma slen_nonneg s : 0 <= slen s.
Proof. unfold slen. lia. Qed.

Lemma slen_app s t : slen (s +:+ t) = slen s + slen t.
Proof.
  unfold slen. rewrite <-Nat2Z.inj_add. f_equal.
  induction s as [|c s IH]; simpl; [done|by rewrite IH].
Qed.

Lemma sapp_nil_r s : s +:+ "" = s.
Proof. induction s as [|c s IH]; simpl; [done|by rewrite IH]. Qed.

Lemma sapp_assoc s t u : (s +:+ t) +:+ u = s +:+ (t +:+ u).
Proof. induction s as [|c s IH]; simpl; [done|by rewrite IH]. Qed.

Lemma slen_zero s : slen s = 0 <-> s = "".
Proof. destruct s; unfold slen; simpl; split; intros; try done; lia. Qed.

Fixpoint strip_prefix (p s : string) : option string :=
  match p, s with
  | EmptyString, _ => Some s
  | String _ _, EmptyString => None
  | String a p', String b s' => if Ascii.eqb a b then strip_prefix p' s' else None
  end.

Lemma strip_prefix_Some p s r : strip_prefix p s = Some r <-> s = p +:+ r.
Proof.
  revert s r. induction p as [|a p IH]; intros s r; simpl.
  - split; congruence.
  - destruct s as [|b s]; [split; discriminate|].
    destruct (Ascii.eqb_spec a b) as [->|Hne].
    + rewrite IH. split; congruence.
    + split; [discriminate|]. intros [=]. congruence.
Qed.

Lemma strip_prefix_app p r : strip_prefix p (p +:+ r) = Some r.
Proof. by apply strip_prefix_Some. Qed.

Definition HasPrefix (s p : string) : bool := bool_decide (is_Some (strip_prefix p s)).
Definition TrimPrefix (s p : string) : string := default s (strip_prefix p s).

Definition srev (s : string) : string :=
  string_of_list_ascii (rev (list_ascii_of_string s)).

Lemma srev_app a b : srev (a +:+ b) = srev b +:+ srev a.
Proof.
  unfold srev. assert (Hl : forall x y, list_ascii_of_string (x +:+ y) = list_ascii_of_string x ++ list_ascii_of_string y).
  { intros x y. induction x as [|c x IH]; [done|]. simpl. by f_equal. }
  assert (Hs : forall l l', string_of_list_ascii (l ++ l') = string_of_list_ascii l +:+ string_of_list_ascii l').
  { intros l l'. induction l as [|c l IH]; [done|]. simpl. by rewrite IH. }
  by rewrite Hl, rev_app_distr, Hs.
Qed.

Definition HasSuffix (s p : string) : bool := HasPrefix (srev s) (srev p).
Lemma HasSuffix_app a b : HasSuffix (a +:+ b) b = true.
Proof.
  unfold HasSuffix, HasPrefix. apply bool_decide_eq_true. exists (srev a).
  apply strip_prefix_Some. apply srev_app.
Qed.
Definition TrimSuffix (s p : string) : string :=
  if HasSuffix s p then srev (TrimPrefix (srev s) (srev p)) else s.

(** [strings.Cut]: around the first occurrence of [sep]. *)
Fixpoint Cut (s sep : string) : option (string * string) :=
  match strip_prefix sep s with
  | Some r => Some ("", r)
  | None =>
      match s with
      | EmptyString => None
      | String c s' =>
          match Cut s' sep with
          | Some (a, b) => Some (String c a, b)
          | None => None
          end
      end
  end.

Definition Contains (s sub : string) : bool := bool_decide (is_Some (Cut s sub)).

Fixpoint all_chars (f : ascii -> bool) (s : string) : bool :=
  match s with
  | EmptyString => true
  | String c s' => f c && all_chars f s'
  end.

Definition no_char (c : ascii) (s : string) : bool :=
  all_chars (fun d => negb (Ascii.eqb c d)) s.

Lemma all_chars_app f s t : all_chars f (s +:+ t) = all_chars f s && all_chars f t.
Proof. induction s as [|c s IH]; simpl; [done|]. by rewrite IH, andb_assoc. Qed.

Lemma all_chars_impl f g s :
  (forall c, f c = true -> g c = true) -> all_chars f s = true -> all_chars g s = true.
Proof.
  intros Hfg. induction s as [|c s IH]; simpl; [done|].
  intros [Hc Hs]%andb_true_iff. by rewrite Hfg, IH.
Qed.

(** The cut is at the separator, and the first part holds none of it when the
    separator is one byte. *)
Lemma Cut_Some s sep a b : Cut s sep = Some (a, b) -> s = a +:+ sep +:+ b.
Proof.
  revert a b. induction s as [|c s IH]; intros a b; simpl;
    destruct (strip_prefix sep _) as [r|] eqn:Hp; intros Hc; simplify_eq.
  - by apply strip_prefix_Some in Hp.
  - by apply strip_prefix_Some in Hp.
  - destruct (Cut s sep) as [[a' b']|]; simplify_eq. simpl. f_equal. by apply IH.
Qed.

Lemma Cut_char c a b :
  no_char c a = true -> Cut (a +:+ String c b) (String c "") = Some (a, b).
Proof.
  induction a as [|d a IH]; simpl.
  - intros _. by rewrite Ascii.eqb_refl.
  - intros [Hd Ha]%andb_true_iff. apply negb_true_iff in Hd. rewrite Hd.
    by rewrite IH.
Qed.

Lemma Cut_char_no c s a b : Cut s (String c "") = Some (a, b) -> no_char c a = true.
Proof.
  revert a b. induction s as [|d s IH]; intros a b; simpl; [discriminate|].
  destruct (Ascii.eqb c d) eqn:Hd; [by intros [= <- <-]|].
  destruct (Cut s (String c "")) as [[a' b']|] eqn:HC; intros [= <- <-].
  unfold no_char. simpl. rewrite Hd. simpl. by eapply IH.
Qed.

(** [strings.Split] for a one-byte separator. *)
Fixpoint Split (c : ascii) (s : string) : list string :=
  match s with
  | EmptyString => [""]
  | String d s' =>
      if Ascii.eqb c d then "" :: Split c s'
      else match Split c s' with
           | [] => [String d ""]
           | x :: xs => String d x :: xs
           end
  end.

Fixpoint join (c : ascii) (l : list string) : string :=
  match l with
  | [] => ""
  | [x] => x
  | x :: l' => x +:+ String c (join c l')
  end.

Lemma Split_nonempty c s : Split c s <> [].
Proof. destruct s as [|d s]; simpl; [done|]. repeat case_match; done. Qed.

Lemma Split_no_char c s : no_char c s = true -> Split c s = [s].
Proof.
  induction s as [|d s IH]; simpl; [done|].
  intros [Hd Hs]%andb_true_iff. apply negb_true_iff in Hd. by rewrite Hd, IH.
Qed.

Lemma Split_app c a b :
  no_char c a = true -> Split c (a +:+ String c b) = a :: Split c b.
Proof.
  induction a as [|d a IH]; simpl.
  - intros _. by rewrite Ascii.eqb_refl.
  - intros [Hd Ha]%andb_true_iff. apply negb_true_iff in Hd. by rewrite Hd, IH.
Qed.

Lemma join_Split c s : join c (Split c s) = s.
Proof.
  induction s as [|d s IH]; simpl; [done|].
  destruct (Ascii.eqb_spec c d) as [->|Hne].
  - simpl. pose proof (Split_nonempty d s). destruct (Split d s); [done|].
    by rewrite IH.
  - pose proof (Split_nonempty c s). destruct (Split c s) as [|x [|y l]]; [done| |];
      simpl in *; by rewrite IH.
Qed.

Lemma Split_app_sep c a b : Split c (a +:+ String c b) = Split c a ++ Split c b.
Proof.
  induction a as [|d a IH].
  - change ("" +:+ String c b) with (String c b). cbn [Split]. by rewrite Ascii.eqb_refl.
  - change (String d a +:+ String c b) with (String d (a +:+ String c b)). cbn [Split].
    rewrite IH. destruct (Ascii.eqb c d); [done|].
    pose proof (Split_nonempty c a). by destruct (Split c a).
Qed.

(** Text up to the first separator, or from the last one on, is determined. *)
Lemma cut_first c a b x y :
  no_char c a = true -> no_char c b = true -> a +:+ String c x = b +:+ String c y -> a = b /\ x = y.
Proof.
  intros Ha Hb Heq. apply (f_equal (Split c)) in Heq. rewrite !Split_app in Heq by done.
  injection Heq as -> Hs. split; [done|]. by rewrite <-(join_Split c x), <-(join_Split c y), Hs.
Qed.

Lemma cut_last c a b x y :
  no_char c x = true -> no_char c y = true -> a +:+ String c x = b +:+ String c y -> a = b /\ x = y.
Proof.
  intros Hx Hy Heq. apply (f_equal (Split c)) in Heq.
  rewrite !Split_app_sep, (Split_no_char _ x), (Split_no_char _ y) in Heq by done.
  apply app_inj_tail in Heq as [Ha ->]. split; [|done]. by rewrite <-(join_Split c a), <-(join_Split c b), Ha.
Qed.

Lemma Split_pieces c s : Forall (fun x => no_char c x = true) (Split c s).
Proof.
  induction s as [|d s IH]; simpl; [by constructor|].
  destruct (Ascii.eqb c d) eqn:Hd; [by constructor|].
  destruct (Split c s) as [|x l]; simplify_eq/=; inversion IH as [|? ? Hx Hl]; subst;
    constructor; try done; unfold no_char in *; simpl; by rewrite Hd.
Qed.

(** ** White space *)

(** The UTF-8 encodings of the runes [unicode.IsSpace] accepts. *)
Definition bytes (l : list nat) : string :=
  string_of_list_ascii (map ascii_of_nat l).

Definition space_runes : list string :=
  map bytes ([[9]; [10]; [11]; [12]; [13]; [32]; [194; 133]; [194; 160];
    [225; 154; 128]; [226; 128; 168]; [226; 128; 169]; [226; 128; 175];
    [226; 129; 159]; [227; 128; 128]]
    ++ map (fun k => [226; 128; 128 + k]) (seq 0 11))%nat.

Definition strip_space (rs : list string) (s : string) : option string :=
  list_find (fun r => is_Some (strip_prefix r s)) rs ≫= fun p => strip_prefix p.2 s.

Fixpoint trim_left_fuel (rs : list string) (n : nat) (s : string) : string :=
  match n with
  | O => s
  | S n' => match strip_space rs s with
            | Some s' => trim_left_fuel rs n' s'
            | None => s
            end
  end.

(** Every step removes at least one byte, so the length is enough fuel. *)
Definition trim_left (rs : list string) (s : string) : string :=
  trim_left_fuel rs (String.length s) s.

Definition TrimSpace (s : string) : string :=
  srev (trim_left (map srev space_runes) (srev (trim_left space_runes s))).

(** [strings.Fields]: the maximal runs of non-space runes. *)
Fixpoint fields_fuel (n : nat) (cur s : string) : list string :=
  let flush := match cur with EmptyString => [] | _ => [srev cur] end in
  match n with
  | O => flush
  | S n' =>
      match strip_space space_runes s with
      | Some s' => flush ++ fields_fuel n' "" s'
      | None => match s with
                | EmptyString => flush
                | String c s' => fields_fuel n' (String c cur) s'
                end
      end
  end.
Definition Fields (s : string) : list string :=
  fields_fuel (S (String.length s)) "" s.

(** [strings.ToLower] on ASCII; other bytes are kept. *)
Definition lower_char (c : ascii) : ascii :=
  let n := nat_of_ascii c in
  if ((65 <=? n) && (n <=? 90))%nat then ascii_of_nat (n + 32) else c.
Fixpoint ToLower (s : string) : string :=
  match s with
  | EmptyString => ""
  | String c s' => String (lower_char c) (ToLower s')
  end.

Lemma ToLower_idem s : ToLower (ToLower s) = ToLower s.
Proof.
  induction s as [|c s IH]; [done|]. cbn [ToLower]. rewrite IH. f_equal.
  destruct c as [[][][][][][][][]]; reflexivity.
Qed.

(** [%d] and [strconv.Itoa]. *)
Definition itoa (z : Z) : string := pretty z.

(** [strconv.Atoi] and [ParseInt(s, 10, 64)]: an optional sign, one or more
    digits, and the value in the range of [int64]. *)
Fixpoint digits_value (acc : Z) (s : string) : option Z :=
  match s with
  | EmptyString => Some acc
  | String c s' =>
      let d := Z.of_nat (nat_of_ascii c) - 48 in
      if (0 <=? d) && (d <=? 9) then digits_value (acc * 10 + d) s' else None
  end.
Definition parse_digits (s : string) : option Z :=
  match s with EmptyString => None | _ => digits_value 0 s end.
Definition Atoi (s : string) : option Z :=
  let v := match s with
           | String "-" s' => Z.opp <$> parse_digits s'
           | String "+" s' => parse_digits s'
           | _ => parse_digits s
           end in
  z ← v; if (- 2 ^ 63 <=? z) && (z <=? max_i64) then Some z else None.

(** ** Regular expressions of the form [^[class]{lo,hi}$] *)

Definition in_range (c : ascii) (lo hi : ascii) : bool :=
  ((nat_of_ascii lo <=? nat_of_ascii c) && (nat_of_ascii c <=? nat_of_ascii hi))%nat.
Definition one_of (cs : string) (c : ascii) : bool :=
  existsb (Ascii.eqb c) (list_ascii_of_string cs).
Definition is_upper (c : ascii) := in_range c "A" "Z".
Definition is_lower (c : ascii) := in_range c "a" "z".
Definition is_digit (c : ascii) := in_range c "0" "9".
Definition is_alnum (c : ascii) := is_upper c || is_lower c || is_digit c.
Definition is_hex (c : ascii) := is_digit c || in_range c "a" "f".

Definition match_class (f : ascii -> bool) (lo hi : Z) (s : string) : bool :=
  (lo <=? slen s) && (slen s <=? hi) && all_chars f s.

Lemma match_class_spec f lo hi s :
  match_class f lo hi s = true <-> lo <= slen s <= hi /\ all_chars f s = true.
Proof.
  unfold match_class. rewrite !andb_true_iff, !Z.leb_le. naive_solver.
Qed.

Definition hex64 (s : string) : bool := match_class is_hex 64 64 s.

(** ** [float64]: IEEE binary64 *)

Definition f64_of_Z (z : Z) : spec_float := binary_normalize 53 1024 z 0 false.
Definition fadd := SFadd 53 1024.
Definition fsub := SFsub 53 1024.
Definition fmul := SFmul 53 1024.
Definition fdiv := SFdiv 53 1024.
Definition flt (a b : spec_float) : bool := SFltb a b.
Definition fle (a b : spec_float) : bool := SFleb a b.
Definition f0 : spec_float := f64_of_Z 0.
Definition f100 : spec_float := f64_of_Z 100.
Definition f1e6 : spec_float := f64_of_Z 1000000.
Definition is_nan (f : spec_float) : bool := match f with S754_nan => true | _ => false end.

(** ** Instants and durations, in nanoseconds since the Unix epoch *)

Definition time := Z.
Definition duration := Z.
Definition Millisecond : duration := 1000000.
Definition Second : duration := 1000000000.
Definition unix_sec (t : time) : Z := t / Second.

(** The zero [time.Time] is midnight of January 1 of year 1, UTC. *)
Definition zero_time : time := -62135596800 * Second.
Definition IsZero (t : time) : bool := t =? zero_time.
