(* ===== verification/Base64.v ===== *)
(** * encoding/base64 RawURLEncoding

    The unpadded URL-safe alphabet, as every service uses it for keys and tokens.
    The decoder skips line breaks, refuses padding and a lone last character, and
    does not check the unused bits of the last one, as Go's does. *)
From S2P Require Export GoLib.

Definition byte_of (c : ascii) : Z := Z.of_nat (nat_of_ascii c).
Definition char_of (b : Z) : ascii := ascii_of_nat (Z.to_nat b).

Lemma byte_range c : 0 <= byte_of c < 256.
Proof. unfold byte_of. pose proof (nat_ascii_bounded c). lia. Qed.

Lemma char_byte c : char_of (byte_of c) = c.
Proof. unfold char_of, byte_of. by rewrite Nat2Z.id, ascii_nat_embedding. Qed.

Lemma byte_char b : 0 <= b < 256 -> byte_of (char_of b) = b.
Proof. intros H. unfold char_of, byte_of. rewrite nat_ascii_embedding; lia. Qed.

(** [A-Z a-z 0-9 - _] *)
Definition sextet_char (s : Z) : ascii :=
  if s <? 26 then char_of (65 + s)
  else if s <? 52 then char_of (71 + s)
  else if s <? 62 then char_of (s - 4)
  else if s =? 62 then "-"%char else "_"%char.

Definition char_sextet (c : ascii) : option Z :=
  let b := byte_of c in
  if (65 <=? b) && (b <=? 90) then Some (b - 65)
  else if (97 <=? b) && (b <=? 122) then Some (b - 71)
  else if (48 <=? b) && (b <=? 57) then Some (b + 4)
  else if b =? 45 then Some 62
  else if b =? 95 then Some 63
  else None.

Lemma char_sextet_char s : 0 <= s < 64 -> char_sextet (sextet_char s) = Some s.
Proof.
  intros H.
  assert (Hall : forallb (fun n => bool_decide (char_sextet (sextet_char (Z.of_nat n)) = Some (Z.of_nat n)))
            (seq 0 64) = true) by (vm_compute; reflexivity).
  rewrite forallb_forall in Hall. specialize (Hall (Z.to_nat s)).
  rewrite Z2Nat.id in Hall by lia.
  eapply bool_decide_eq_true_1, Hall, in_seq. lia.
Qed.

Fixpoint EncodeToString (s : string) : string :=
  match s with
  | EmptyString => ""
  | String a EmptyString =>
      let a := byte_of a in
      String (sextet_char (a / 4)) (String (sextet_char (a mod 4 * 16)) "")
  | String a (String b EmptyString) =>
      let a := byte_of a in let b := byte_of b in
      String (sextet_char (a / 4)) (String (sextet_char (a mod 4 * 16 + b / 16))
        (String (sextet_char (b mod 16 * 4)) ""))
  | String a (String b (String c s')) =>
      let a := byte_of a in let b := byte_of b in let c := byte_of c in
      String (sextet_char (a / 4)) (String (sextet_char (a mod 4 * 16 + b / 16))
        (String (sextet_char (b mod 16 * 4 + c / 64)) (String (sextet_char (c mod 64))
          (EncodeToString s'))))
  end.

Fixpoint strip_breaks (s : string) : string :=
  match s with
  | EmptyString => ""
  | String c s' => if (byte_of c =? 10) || (byte_of c =? 13) then strip_breaks s'
                   else String c (strip_breaks s')
  end.

Fixpoint sextets (s : string) : option (list Z) :=
  match s with
  | EmptyString => Some []
  | String c s' => x ← char_sextet c; xs ← sextets s'; Some (x :: xs)
  end.

Fixpoint quanta (l : list Z) : option string :=
  match l with
  | [] => Some ""
  | [_] => None
  | [w; x] => Some (String (char_of (w * 4 + x / 16)) "")
  | [w; x; y] => Some (String (char_of (w * 4 + x / 16))
                   (String (char_of (x mod 16 * 16 + y / 4)) ""))
  | w :: x :: y :: z :: l' =>
      r ← quanta l';
      Some (String (char_of (w * 4 + x / 16)) (String (char_of (x mod 16 * 16 + y / 4))
              (String (char_of (y mod 4 * 64 + z)) r)))
  end.

Definition DecodeString (s : string) : option string :=
  l ← sextets (strip_breaks s); quanta l.

(** ** Round trip *)

Definition is_b64 (c : ascii) : bool := bool_decide (is_Some (char_sextet c)).

Lemma sextet_is_b64 s : 0 <= s < 64 -> is_b64 (sextet_char s) = true.
Proof. intros H. unfold is_b64. apply bool_decide_eq_true. rewrite char_sextet_char by done. eauto. Qed.

Lemma string_ind3 (P : string -> Prop) :
  P "" -> (forall a, P (String a "")) -> (forall a b, P (String a (String b ""))) ->
  (forall a b c s, P s -> P (String a (String b (String c s)))) -> forall s, P s.
Proof.
  intros H0 H1 H2 H3. fix IH 1. intros [|a [|b [|c s]]]; [done|done|done|]. apply H3, IH.
Qed.

(** The sextets of the encoding, and that they reassemble to the bytes. *)
Fixpoint encode_sextets (s : string) : list Z :=
  match s with
  | EmptyString => []
  | String a EmptyString => [byte_of a / 4; byte_of a mod 4 * 16]
  | String a (String b EmptyString) =>
      [byte_of a / 4; byte_of a mod 4 * 16 + byte_of b / 16; byte_of b mod 16 * 4]
  | String a (String b (String c s')) =>
      byte_of a / 4 :: byte_of a mod 4 * 16 + byte_of b / 16
      :: byte_of b mod 16 * 4 + byte_of c / 64 :: byte_of c mod 64 :: encode_sextets s'
  end.

Ltac byte_bounds :=
  repeat match goal with
  | c : ascii |- _ =>
      lazymatch goal with
      | _ : 0 <= byte_of c < 256 |- _ => fail
      | _ => pose proof (byte_range c)
      end
  end.
Ltac div_lia := byte_bounds; Z.to_euclidean_division_equations; lia.

Lemma encode_sextets_range s : Forall (fun x => 0 <= x < 64) (encode_sextets s).
Proof.
  induction s as [|a|a b|a b c s IH] using string_ind3; simpl; repeat constructor; try div_lia; done.
Qed.

Lemma encode_string s :
  EncodeToString s = string_of_list_ascii (map sextet_char (encode_sextets s)).
Proof.
  induction s as [|a|a b|a b c s IH] using string_ind3; simpl; [done..|]. by rewrite IH.
Qed.

Lemma quanta_encode s : quanta (encode_sextets s) = Some s.
Proof.
  induction s as [|a|a b|a b c s IH] using string_ind3; cbn [encode_sextets quanta]; [done|..].
  - replace (byte_of a / 4 * 4 + byte_of a mod 4 * 16 / 16) with (byte_of a) by div_lia.
    by rewrite char_byte.
  - replace (byte_of a / 4 * 4 + (byte_of a mod 4 * 16 + byte_of b / 16) / 16) with (byte_of a) by div_lia.
    replace ((byte_of a mod 4 * 16 + byte_of b / 16) mod 16 * 16 + byte_of b mod 16 * 4 / 4)
      with (byte_of b) by div_lia.
    by rewrite !char_byte.
  - rewrite IH. cbn.
    replace (byte_of a / 4 * 4 + (byte_of a mod 4 * 16 + byte_of b / 16) / 16) with (byte_of a) by div_lia.
    replace ((byte_of a mod 4 * 16 + byte_of b / 16) mod 16 * 16 + (byte_of b mod 16 * 4 + byte_of c / 64) / 4)
      with (byte_of b) by div_lia.
    replace ((byte_of b mod 16 * 4 + byte_of c / 64) mod 4 * 64 + byte_of c mod 64) with (byte_of c) by div_lia.
    by rewrite !char_byte.
Qed.

Lemma sextets_map l :
  Forall (fun x => 0 <= x < 64) l ->
  let s := string_of_list_ascii (map sextet_char l) in
  sextets s = Some l /\ strip_breaks s = s /\ all_chars is_b64 s = true.
Proof.
  induction 1 as [|x l Hx Hl (IH1 & IH2 & IH3)]; [done|]. simpl in *.
  rewrite IH1, IH2, IH3, char_sextet_char, sextet_is_b64 by done. simpl. split_and!; try done.
  assert (Hb : forallb (fun n => negb ((byte_of (sextet_char (Z.of_nat n)) =? 10)
              || (byte_of (sextet_char (Z.of_nat n)) =? 13))) (seq 0 64) = true) by (vm_compute; reflexivity).
  rewrite forallb_forall in Hb. specialize (Hb (Z.to_nat x)). rewrite Z2Nat.id in Hb by lia.
  assert (Hin : In (Z.to_nat x) (seq 0 64)) by (apply in_seq; lia).
  specialize (Hb Hin). apply negb_true_iff in Hb. by rewrite Hb.
Qed.

Lemma DecodeString_EncodeToString s : DecodeString (EncodeToString s) = Some s.
Proof.
  rewrite encode_string. unfold DecodeString.
  destruct (sextets_map _ (encode_sextets_range s)) as (H1 & -> & _).
  rewrite H1. apply quanta_encode.
Qed.

Lemma EncodeToString_b64 s : all_chars is_b64 (EncodeToString s) = true.
Proof. rewrite encode_string. apply (sextets_map _ (encode_sextets_range s)). Qed.

Lemma EncodeToString_no_dot s : no_char "." (EncodeToString s) = true.
Proof.
  eapply all_chars_impl; [|apply EncodeToString_b64]. intros c Hc.
  destruct (Ascii.eqb_spec "." c) as [<-|]; [by vm_compute in Hc|done].
Qed.
