(* ===== verification/Contracts.v ===== *)
(** * services/contracts: the frozen cross-service types and the config quota

    [contracts.go]: the landed-object and metering events, the quota decision
    and the [QuotaChecker] interface (a type class here: three components
    implement it).  [configquota.go]: the file-backed checker [ConfigQuota]. *)
From S2P Require Export GoLib.

(** ** contracts.go *)

Definition SubjectUploadLanded : string := "aether.ft.upload.landed.v1".
Definition SubjectMetering : string := "aether.ft.metering.v1".

Record LandedObjectEvent := {
  le_UploadID : string;
  le_WorkspaceID : string;
  le_UserID : string;
  le_ObjectKey : string;
  le_SHA256 : string;
  le_SizeBytes : Z;
  le_Mime : string;
  le_LandedAt : time
}.

(** [MeteringKind] is a Go string type: a payload may carry any string, the
    six constants are the kinds the contract allows. *)
Definition MeteringKind := string.
Definition MeteringUploadSessionCreated : MeteringKind := "upload_session_created".
Definition MeteringUploadCompleted : MeteringKind := "upload_completed".
Definition MeteringJobQueued : MeteringKind := "job_queued".
Definition MeteringJobStarted : MeteringKind := "job_started".
Definition MeteringJobCompleted : MeteringKind := "job_completed".
Definition MeteringJobFailed : MeteringKind := "job_failed".

Record MeteringEvent := {
  me_EventID : string;
  me_WorkspaceID : string;
  me_UserID : string;
  me_Kind : MeteringKind;
  me_Bytes : option Z;
  me_EncodeSeconds : option spec_float;
  me_JobID : string;
  me_At : time
}.

Record QuotaDecision := { Allowed : bool; Reason : string }.

#[export] Instance QuotaDecision_eq_dec : EqDecision QuotaDecision.
Proof. solve_decision. Defined.

(** The quota hook.  The first argument is [ctx.Err()]; [Q] is the checker with
    whatever it reads. *)
Class QuotaChecker (Q : Type) := {
  CheckUploadSession : option gerror -> string -> Z -> Q -> result QuotaDecision * Q;
  CheckJobAdmission : option gerror -> string -> Q -> result QuotaDecision * Q
}.

Definition allow : QuotaDecision := {| Allowed := true; Reason := "" |}.
Definition deny (r : string) : QuotaDecision := {| Allowed := false; Reason := r |}.

(** ** configquota.go *)

Definition ReasonUploadSizeExceeded : string := "quota_upload_size_exceeded".
Definition ReasonUploadsDisabled : string := "quota_uploads_disabled".
Definition ReasonJobsDisabled : string := "quota_jobs_disabled".
Definition ReasonWorkspaceUnknown : string := "quota_workspace_unknown".

Record WorkspaceQuota := {
  MaxUploadBytes : option Z;
  AllowUploads : option bool;
  AllowJobs : option bool
}.

Record QuotaConfigFile := {
  DenyUnknownWorkspaces : bool;
  Defaults : WorkspaceQuota;
  Workspaces : gmap string WorkspaceQuota
}.

Record ConfigQuota := { cfg : QuotaConfigFile }.

Definition validateWorkspaceQuota (name : string) (wq : WorkspaceQuota) : result () :=
  match MaxUploadBytes wq with
  | Some m =>
      if m <? 0 then
        Err (EMsg ("quota config: workspace " +:+ name
                   +:+ ": maxUploadBytes must not be negative"))
      else Ok ()
  | None => Ok ()
  end.

(** The loop over the workspace entries (Go visits a map in any order; which of
    several bad entries is reported is therefore unspecified). *)
Fixpoint validateEntries (l : list (string * WorkspaceQuota)) : result () :=
  match l with
  | [] => Ok ()
  | (name, wq) :: l' =>
      if String.eqb name "" then Err (EMsg "quota config: empty workspace id key")
      else match validateWorkspaceQuota name wq with
           | Err e => Err e
           | Ok _ => validateEntries l'
           end
  end.

Definition NewConfigQuota (c : QuotaConfigFile) : result ConfigQuota :=
  match validateWorkspaceQuota "defaults" (Defaults c) with
  | Err e => Err e
  | Ok _ =>
      match validateEntries (map_to_list (Workspaces c)) with
      | Err e => Err e
      | Ok _ => Ok {| cfg := c |}
      end
  end.

(** [filepath.Ext]: from the last dot of the last path element. *)
Fixpoint ext_of (s : string) (acc : option string) : string :=
  match s with
  | EmptyString => default "" acc
  | String c s' =>
      ext_of s' (if Ascii.eqb c "/" then None
                 else if Ascii.eqb c "." then Some s else acc)
  end.

(** [LoadConfigQuota]: the file's bytes and the two strict decoders are given. *)
Definition LoadConfigQuota (readFile : string -> result string)
    (yamlDecode jsonDecode : string -> result QuotaConfigFile) (path : string)
    : result ConfigQuota :=
  match readFile path with
  | Err e => Err e
  | Ok raw =>
      let ext := ToLower (ext_of path None) in
      if String.eqb ext ".yaml" || String.eqb ext ".yml" then
        match yamlDecode raw with Err e => Err e | Ok c => NewConfigQuota c end
      else if String.eqb ext ".json" then
        match jsonDecode raw with Err e => Err e | Ok c => NewConfigQuota c end
      else Err (EMsg ("quota config " +:+ path +:+ ": unsupported extension "
                      +:+ ext +:+ " (want .yaml, .yml, or .json)"))
  end.

(** A set field of the workspace entry replaces the one of the defaults. *)
Definition override {A} (ws dflt : option A) : option A :=
  match ws with Some v => Some v | None => dflt end.

Definition effective (c : ConfigQuota) (workspaceID : string) : WorkspaceQuota * bool :=
  let eff := Defaults (cfg c) in
  match Workspaces (cfg c) !! workspaceID with
  | None => (eff, false)
  | Some wq =>
      ({| MaxUploadBytes := override (MaxUploadBytes wq) (MaxUploadBytes eff);
          AllowUploads := override (AllowUploads wq) (AllowUploads eff);
          AllowJobs := override (AllowJobs wq) (AllowJobs eff) |}, true)
  end.

Definition ConfigQuota_CheckUploadSession (ctx : option gerror) (workspaceID : string)
    (sizeHintBytes : Z) (c : ConfigQuota) : result QuotaDecision :=
  match ctx with
  | Some e => Err e
  | None =>
      let '(eff, known) := effective c workspaceID in
      if DenyUnknownWorkspaces (cfg c) && negb known then Ok (deny ReasonWorkspaceUnknown)
      else match AllowUploads eff with
           | None | Some false => Ok (deny ReasonUploadsDisabled)
           | Some true =>
               match MaxUploadBytes eff with
               | Some m =>
                   if m =? 0 then Ok (deny ReasonUploadsDisabled)
                   else if m <? sizeHintBytes then Ok (deny ReasonUploadSizeExceeded)
                   else Ok allow
               | None => Ok allow
               end
           end
  end.

Definition ConfigQuota_CheckJobAdmission (ctx : option gerror) (workspaceID : string)
    (c : ConfigQuota) : result QuotaDecision :=
  match ctx with
  | Some e => Err e
  | None =>
      let '(eff, known) := effective c workspaceID in
      if DenyUnknownWorkspaces (cfg c) && negb known then Ok (deny ReasonWorkspaceUnknown)
      else match AllowJobs eff with
           | None | Some false => Ok (deny ReasonJobsDisabled)
           | Some true => Ok allow
           end
  end.

#[export] Instance ConfigQuota_checker : QuotaChecker ConfigQuota := {|
  CheckUploadSession ctx ws size c := (ConfigQuota_CheckUploadSession ctx ws size c, c);
  CheckJobAdmission ctx ws c := (ConfigQuota_CheckJobAdmission ctx ws c, c)
|}.

(** ** What the checker promises *)

(** The policy that applies to a workspace, stated on the file itself. *)
Definition policy {A} (f : WorkspaceQuota -> option A) (c : QuotaConfigFile) (ws : string)
    : option A :=
  match Workspaces c !! ws ≫= f with Some v => Some v | None => f (Defaults c) end.

Lemma effective_policy c ws :
  let '(eff, known) := effective c ws in
  MaxUploadBytes eff = policy MaxUploadBytes (cfg c) ws /\
  AllowUploads eff = policy AllowUploads (cfg c) ws /\
  AllowJobs eff = policy AllowJobs (cfg c) ws /\
  known = bool_decide (is_Some (Workspaces (cfg c) !! ws)).
Proof.
  unfold effective, policy. destruct (Workspaces (cfg c) !! ws) as [wq|]; simpl.
  - unfold override. repeat split; by case_match.
  - done.
Qed.

Lemma validateWorkspaceQuota_ok name wq :
  validateWorkspaceQuota name wq = Ok () <-> (forall m, MaxUploadBytes wq = Some m -> 0 <= m).
Proof.
  unfold validateWorkspaceQuota. destruct (MaxUploadBytes wq) as [m|]; [|naive_solver].
  destruct (Z.ltb_spec m 0) as [Hlt|Hge].
  - split; [discriminate|]. intros Hm. specialize (Hm m eq_refl). lia.
  - split; [|done]. intros _ m' [= <-]. lia.
Qed.

Lemma validateEntries_ok l :
  validateEntries l = Ok () <->
  Forall (fun p => p.1 <> "" /\ validateWorkspaceQuota p.1 p.2 = Ok ()) l.
Proof.
  induction l as [|[name wq] l IH]; simpl; [naive_solver|].
  rewrite Forall_cons, <-IH. simpl.
  destruct (String.eqb_spec name ""); [intuition congruence|].
  destruct (validateWorkspaceQuota name wq) as [[]|]; intuition congruence.
Qed.

(** A checker that was built has no negative limit, for any workspace. *)
Lemma NewConfigQuota_limits c q ws m :
  NewConfigQuota c = Ok q ->
  cfg q = c /\ (policy MaxUploadBytes c ws = Some m -> 0 <= m).
Proof.
  unfold NewConfigQuota. intros H.
  destruct (validateWorkspaceQuota "defaults" (Defaults c)) as [[]|] eqn:Hd; [|done].
  destruct (validateEntries _) as [[]|] eqn:He; simplify_eq. split; [done|].
  rewrite validateWorkspaceQuota_ok in Hd. apply validateEntries_ok in He.
  unfold policy. destruct (Workspaces c !! ws) as [wq|] eqn:Hw; simpl; [|by auto].
  apply elem_of_map_to_list in Hw. rewrite Forall_forall in He.
  destruct (He _ Hw) as [_ Hv]. simpl in Hv. rewrite validateWorkspaceQuota_ok in Hv.
  destruct (MaxUploadBytes wq) as [m'|] eqn:Hm; naive_solver.
Qed.

(** [ConfigQuota.CheckUploadSession] is fail closed, exactly: with a live
    context it admits an upload if and only if the workspace is known whenever
    unknown ones are refused, the layered policy sets [allowUploads] to true,
    and a layered [maxUploadBytes] is non-zero and not below the declared size. *)
Theorem config_upload_admits_iff c ws size :
  (CheckUploadSession None ws size c).1 = Ok allow <->
  (DenyUnknownWorkspaces (cfg c) = true -> is_Some (Workspaces (cfg c) !! ws)) /\
  policy AllowUploads (cfg c) ws = Some true /\
  (forall m, policy MaxUploadBytes (cfg c) ws = Some m -> m <> 0 /\ size <= m).
Proof.
  simpl. unfold ConfigQuota_CheckUploadSession.
  pose proof (effective_policy c ws) as He. destruct (effective c ws) as [eff known].
  destruct He as (<- & <- & _ & ->).
  destruct (DenyUnknownWorkspaces (cfg c)), (decide (is_Some (Workspaces (cfg c) !! ws)));
    rewrite ?bool_decide_true, ?bool_decide_false by done; simpl;
    destruct (AllowUploads eff) as [[]|]; try naive_solver;
    destruct (MaxUploadBytes eff) as [m|]; try naive_solver;
    destruct (Z.eqb_spec m 0), (Z.ltb_spec m size); naive_solver lia.
Qed.

(** the job gate is fail closed in the same way, and a configuration that
    says nothing refuses every upload and every job of every workspace. *)
Theorem config_job_admits_iff c ws :
  ((CheckJobAdmission None ws c).1 = Ok allow <->
   (DenyUnknownWorkspaces (cfg c) = true -> is_Some (Workspaces (cfg c) !! ws)) /\
   policy AllowJobs (cfg c) ws = Some true) /\
  (Defaults (cfg c) = Build_WorkspaceQuota None None None -> Workspaces (cfg c) = ∅ ->
   forall size, (CheckJobAdmission None ws c).1 <> Ok allow /\
                (CheckUploadSession None ws size c).1 <> Ok allow).
Proof.
  assert (Hjob : (CheckJobAdmission None ws c).1 = Ok allow <->
   (DenyUnknownWorkspaces (cfg c) = true -> is_Some (Workspaces (cfg c) !! ws)) /\
   policy AllowJobs (cfg c) ws = Some true).
  { simpl. unfold ConfigQuota_CheckJobAdmission.
    pose proof (effective_policy c ws) as He. destruct (effective c ws) as [eff known].
    destruct He as (_ & _ & <- & ->).
    destruct (DenyUnknownWorkspaces (cfg c)), (decide (is_Some (Workspaces (cfg c) !! ws)));
      rewrite ?bool_decide_true, ?bool_decide_false by done; simpl;
      destruct (AllowJobs eff) as [[]|]; naive_solver. }
  split; [exact Hjob|]. intros Hd Hw size. rewrite Hjob.
  split; [|simpl; unfold ConfigQuota_CheckUploadSession, effective];
    unfold policy; rewrite Hw, lookup_empty, Hd; simpl; [naive_solver|].
  destruct (DenyUnknownWorkspaces (cfg c)); done.
Qed.

Definition demo_config : QuotaConfigFile := {|
  DenyUnknownWorkspaces := true;
  Defaults := {| MaxUploadBytes := Some 100; AllowUploads := Some true; AllowJobs := None |};
  Workspaces := {[ "ws" := {| MaxUploadBytes := None; AllowUploads := None;
                              AllowJobs := Some true |} ]}
|}.

(** The two gates on a concrete file, and the hypotheses of the last part on the
    empty one. *)
Lemma config_job_admits_iff_witness :
  ConfigQuota_CheckUploadSession None "ws" 100 {| cfg := demo_config |} = Ok allow /\
  ConfigQuota_CheckUploadSession None "ws" 101 {| cfg := demo_config |}
    = Ok (deny ReasonUploadSizeExceeded) /\
  (let c := {| cfg := Build_QuotaConfigFile false (Build_WorkspaceQuota None None None) ∅ |} in
   (CheckJobAdmission None "ws" c).1 <> Ok allow /\
   (CheckUploadSession None "ws" 1 c).1 <> Ok allow).
Proof.
  split; [vm_compute; reflexivity|]. split; [vm_compute; reflexivity|].
  exact (proj2 (config_job_admits_iff
    {| cfg := Build_QuotaConfigFile false (Build_WorkspaceQuota None None None) ∅ |} "ws")
    eq_refl eq_refl 1).
Defined.
