(* ===== verification/Http.v ===== *)
(** * Requests and responses shared by the HTTP services

    The JSON values the handlers write ([map[string]any] and tagged structs, as
    the key/value lists the source gives), the response a handler leaves on the
    [ResponseWriter], and the authenticated caller the middlewares put in the
    request context.  [writeJSON] and [writeError] are the helpers each service
    declares for itself. *)
From S2P Require Export GoLib Contracts.

Inductive json :=
| JNull
| JBool (b : bool)
| JNum (z : Z)
| JFloat (f : spec_float)
| JStr (s : string)
| JArr (l : list json)
| JObj (fields : list (string * json)).

Definition jfield (k : string) (j : json) : option json :=
  match j with
  | JObj fs => (fun q => q.2.2) <$> list_find (fun p => p.1 = k) fs
  | _ => None
  end.

Record response := {
  rs_status : Z;
  rs_headers : list (string * string);
  rs_body : option json
}.

Definition writeJSON (status : Z) (v : json) : response :=
  {| rs_status := status; rs_headers := []; rs_body := Some v |}.

Definition writeError (status : Z) (code message : string) : response :=
  writeJSON status (JObj [("error", JObj [("code", JStr code); ("message", JStr message)])]).

Definition writeHeader (status : Z) : response :=
  {| rs_status := status; rs_headers := []; rs_body := None |}.

Record Identity := { id_WorkspaceID : string; id_UserID : string }.

(** The stream behind an [io.Reader]: its bytes, and the error it ends with. *)
Record stream := { st_bytes : string; st_err : option gerror }.

Fixpoint stake (n : nat) (s : string) : string :=
  match n, s with
  | S n', String c s' => String c (stake n' s')
  | _, _ => ""
  end.

(** [io.ReadAll(io.LimitReader(r, n))] *)
Definition read_limited (n : Z) (st : stream) : string * option gerror :=
  if n <=? slen (st_bytes st) then (stake (Z.to_nat n) (st_bytes st), None)
  else (st_bytes st, st_err st).

(** [json.Marshal] of a [time.Time] fails for years outside [0, 9999]. *)
Definition marshal_time_ok (t : time) : bool :=
  (-62167219200 * Second <=? t) && (t <? 253402300800 * Second).
