(* ===== verification/Tokens.v ===== *)
(** * Bearer tokens: tenancy signs, four services verify

    [upload/auth.go] verifies compact JWS by hand; [orchestrator/internal/auth],
    [telemetry/internal/auth] and [tenancy/tokens.go] go through golang-jwt, and
    [tenancy/tokens.go] mints.  HMAC, SHA-256 and the JSON decoding of a header
    and of a claim set are functions of the section; golang-jwt is a third-party
    package and enters as functions with the laws of its documentation. *)
From S2P Require Export Base64 Http.

Inductive token_error := errTokenFormat | errTokenAlg | errTokenSignature | errTokenExpired | errTokenClaims.

Record tokenClaims := { Sub : string; tc_WorkspaceID : string; Exp : Z; Nbf : Z }.

Definition bearer : string := "Bearer ".

(** ** services/upload/auth.go *)

Section upload_auth.
Context (hmac_sha256 : string -> string -> string).
(** [json.Unmarshal] into [tokenHeader] (its [alg]) and into [tokenClaims]. *)
Context (json_alg : string -> option string) (json_claims : string -> option tokenClaims).

Definition VerifyHS256 (token key : string) (now : time) : token_error + Identity :=
  match Split "." token with
  | [p0; p1; p2] =>
      match DecodeString p0 with
      | None => inl errTokenFormat
      | Some headerRaw =>
      match json_alg headerRaw with
      | None => inl errTokenFormat
      | Some alg =>
      if negb (String.eqb alg "HS256") then inl errTokenAlg
      else match DecodeString p2 with
      | None => inl errTokenFormat
      | Some sig =>
      if negb (String.eqb sig (hmac_sha256 key (p0 +:+ "." +:+ p1))) then inl errTokenSignature
      else match DecodeString p1 with
      | None => inl errTokenFormat
      | Some claimsRaw =>
      match json_claims claimsRaw with
      | None => inl errTokenFormat
      | Some c =>
      if (Exp c =? 0) || (Exp c <=? unix_sec now) then inl errTokenExpired
      else if negb (Nbf c =? 0) && (unix_sec now <? Nbf c) then inl errTokenExpired
      else if String.eqb (Sub c) "" || String.eqb (tc_WorkspaceID c) "" then inl errTokenClaims
      else inr {| id_WorkspaceID := tc_WorkspaceID c; id_UserID := Sub c |}
      end end end end end
  | _ => inl errTokenFormat
  end.

(** The identity placed in the request context, or the 401 written. *)
Definition AuthMiddleware (key header : string) (now : time) : response + Identity :=
  if negb (HasPrefix header bearer)
  then inl (writeError 401 "unauthorized" "missing bearer token")
  else match VerifyHS256 (TrimPrefix header bearer) key now with
       | inl _ => inl (writeError 401 "unauthorized" "invalid bearer token")
       | inr id => inr id
       end.

(** A compact token: three base64url parts, the third the MAC of the first two. *)
Definition compact (key header claims : string) : string :=
  let signing := EncodeToString header +:+ "." +:+ EncodeToString claims in
  signing +:+ "." +:+ EncodeToString (hmac_sha256 key signing).

(** What a claim set must satisfy at [now] to yield [id]. *)
Definition claims_valid (c : tokenClaims) (now : time) (id : Identity) : Prop :=
  Exp c <> 0 /\ unix_sec now < Exp c /\ (Nbf c <> 0 -> Nbf c <= unix_sec now) /\
  Sub c <> "" /\ tc_WorkspaceID c <> "" /\
  id = {| id_WorkspaceID := tc_WorkspaceID c; id_UserID := Sub c |}.

Lemma no_char_Split3 a b c p0 p1 p2 :
  Split "." (a +:+ "." +:+ b +:+ "." +:+ c) = [p0; p1; p2] ->
  no_char "." a = true -> no_char "." b = true -> no_char "." c = true ->
  p0 = a /\ p1 = b /\ p2 = c.
Proof.
  intros H Ha Hb Hc. change (a +:+ "." +:+ b +:+ "." +:+ c) with
    (a +:+ String "." (b +:+ String "." c)) in H.
  rewrite Split_app, Split_app, Split_no_char in H by done. by simplify_eq.
Qed.

(** the upload service authenticates a caller exactly when the token is a
    three-part compact JWS whose header names HS256, whose third part is the
    HMAC of the other two under the service key, and whose claims are in force
    (expiry present and in the future, not-before reached) and name a user and a
    workspace; the identity is those two claims. *)
Theorem VerifyHS256_exact token key now id :
  VerifyHS256 token key now = inr id <->
  exists p0 p1 p2 h cl c,
    token = p0 +:+ "." +:+ p1 +:+ "." +:+ p2 /\
    no_char "." p0 = true /\ no_char "." p1 = true /\ no_char "." p2 = true /\
    DecodeString p0 = Some h /\ json_alg h = Some "HS256" /\
    DecodeString p2 = Some (hmac_sha256 key (p0 +:+ "." +:+ p1)) /\
    DecodeString p1 = Some cl /\ json_claims cl = Some c /\ claims_valid c now id.
Proof.
  unfold VerifyHS256, claims_valid. split.
  - destruct (Split "." token) as [|p0 [|p1 [|p2 [|]]]] eqn:Hsp; try done.
    destruct (DecodeString p0) as [h|] eqn:Hh; [|done].
    destruct (json_alg h) as [alg|] eqn:Ha; [|done].
    destruct (String.eqb_spec alg "HS256") as [->|]; cbn [negb]; [|done].
    destruct (DecodeString p2) as [sig|] eqn:Hs; [|done].
    destruct (String.eqb_spec sig (hmac_sha256 key (p0 +:+ "." +:+ p1))) as [->|]; cbn [negb]; [|done].
    destruct (DecodeString p1) as [cl|] eqn:Hcl; [|done].
    destruct (json_claims cl) as [c|] eqn:Hc; [|done].
    destruct ((Exp c =? 0) || (Exp c <=? unix_sec now)) eqn:He; [done|].
    destruct (negb (Nbf c =? 0) && (unix_sec now <? Nbf c)) eqn:Hn; [done|].
    destruct (String.eqb (Sub c) "" || String.eqb (tc_WorkspaceID c) "") eqn:Hw; [done|].
    intros [= <-]. bool_prop. exists p0, p1, p2, h, cl, c.
    pose proof (join_Split "." token) as Hj. rewrite Hsp in Hj. simpl in Hj.
    pose proof (Split_pieces "." token) as Hp. rewrite Hsp in Hp.
    rewrite !Forall_cons in Hp. destruct Hp as (Hp0 & Hp1 & Hp2 & _).
    split_and!; try done.
    intros Hnz. destruct Hn as [Hn|Hn]; bool_prop; [congruence|lia].
  - intros (p0 & p1 & p2 & h & cl & c & -> & H0 & H1 & H2 & Hh & Ha & Hs & Hcl & Hc &
            He & Hex & Hn & Hsub & Hws & ->).
    change (p0 +:+ "." +:+ p1 +:+ "." +:+ p2) with (p0 +:+ String "." (p1 +:+ String "." p2)).
    rewrite !Split_app, Split_no_char by done. rewrite Hh, Ha.
    rewrite String.eqb_refl. cbn [negb]. rewrite Hs, String.eqb_refl. cbn [negb]. rewrite Hcl, Hc.
    rewrite (proj2 (Z.eqb_neq _ _) He), (proj2 (Z.leb_gt _ _) Hex). simpl.
    destruct (Z.eqb_spec (Nbf c) 0); simpl;
      [|rewrite (proj2 (Z.ltb_ge _ _) (Hn ltac:(done)))];
    by rewrite (proj2 (String.eqb_neq _ _) Hsub), (proj2 (String.eqb_neq _ _) Hws).
Qed.
End upload_auth.

(** ** golang-jwt v5

    [RegisteredClaims] with the workspace claim, dates in whole seconds (the
    package's [TimePrecision]), and the options of [ParseWithClaims] the services
    pass. *)
Record jwt_claims := {
  jc_WorkspaceID : string;
  jc_Issuer : string;
  jc_Subject : string;
  jc_IssuedAt : option Z;
  jc_NotBefore : option Z;
  jc_ExpiresAt : option Z;
  jc_ID : string
}.

#[export] Instance jwt_claims_eq_dec : EqDecision jwt_claims.
Proof. solve_decision. Defined.

Record parse_options := {
  ValidMethods : list string;
  ExpirationRequired : bool;
  TimeFunc : time
}.

(** The key for an algorithm, or the refusal of the algorithm. *)
Definition keyfunc := string -> result string.

Definition hs256_keyfunc (key : string) : keyfunc := fun alg =>
  if negb (String.eqb alg "HS256") then Err (EMsg ("unexpected signing method " +:+ alg))
  else Ok key.

Definition hs256_options (now : time) : parse_options :=
  {| ValidMethods := ["HS256"]; ExpirationRequired := true; TimeFunc := now |}.

Section golang_jwt.
Context (ParseWithClaims : string -> keyfunc -> parse_options -> result jwt_claims).
Context (NewWithClaims_SignedString : string -> jwt_claims -> string -> result string).

(** *** orchestrator/internal/auth *)

Definition orch_NewVerifier (secretB64 : string) : result string :=
  if String.eqb secretB64 "" then Err (EMsg "auth: JWT secret is required")
  else match DecodeString secretB64 with
       | None => Err (EMsg "auth: JWT secret must be base64url without padding")
       | Some key => if slen key <? 32 then Err (EMsg "auth: JWT secret must decode to at least 32 bytes")
                     else Ok key
       end.

Definition orch_Verify (secret token : string) (now : time) : result Identity :=
  match ParseWithClaims token (hs256_keyfunc secret) (hs256_options now) with
  | Err e => Err e
  | Ok c =>
      if String.eqb (jc_Subject c) "" then Err (EMsg "token missing sub claim")
      else if String.eqb (jc_WorkspaceID c) "" then Err (EMsg "token missing workspaceId claim")
      else Ok {| id_WorkspaceID := jc_WorkspaceID c; id_UserID := jc_Subject c |}
  end.

Definition orch_unauthorized (msg : string) : response :=
  {| rs_status := 401; rs_headers := [("WWW-Authenticate", "Bearer")];
     rs_body := Some (JObj [("error", JStr msg)]) |}.

Definition orch_Middleware (secret h : string) (now : time) : response + Identity :=
  if negb (HasPrefix h bearer) then inl (orch_unauthorized "missing bearer token")
  else match orch_Verify secret (TrimPrefix h bearer) now with
       | Err _ => inl (orch_unauthorized "invalid bearer token")
       | Ok id => inr id
       end.

(** *** telemetry/internal/auth *)

Definition tele_NewVerifier (key : string) : result string :=
  if slen key <? 32 then Err (EMsg "auth: HS256 key must be at least 32 bytes") else Ok key.

Definition tele_Verify (key token : string) (now : time) : result Identity :=
  match ParseWithClaims token (hs256_keyfunc key) (hs256_options now) with
  | Err e => Err e
  | Ok c =>
      if String.eqb (jc_Subject c) "" then Err (EMsg "token missing sub claim")
      else if String.eqb (jc_WorkspaceID c) "" then Err (EMsg "token missing workspaceId claim")
      else Ok {| id_WorkspaceID := jc_WorkspaceID c; id_UserID := jc_Subject c |}
  end.

Definition unauthorized : response :=
  {| rs_status := 401;
     rs_headers := [("Content-Type", "application/json"); ("WWW-Authenticate", "Bearer")];
     rs_body := Some (JObj [("error", JStr "unauthorized")]) |}.

Definition tele_Middleware (key h : string) (now : time) : response + Identity :=
  if negb (HasPrefix h bearer) then inl unauthorized
  else match tele_Verify key (TrimPrefix h bearer) now with
       | Err _ => inl unauthorized
       | Ok id => inr id
       end.

(** *** tenancy/tokens.go *)

Definition tokenIssuer : string := "aether-tenancy".

Definition newHS256Signer (key : string) : result string :=
  if slen key <? 32 then Err (EMsg "hs256 signer: key must be at least 32 bytes") else Ok key.

(** [jti] is the fresh [uuid.NewString()]. *)
Definition mint_claims (userID workspaceID : string) (now : time) (ttl : duration) (jti : string)
    : jwt_claims :=
  {| jc_WorkspaceID := workspaceID; jc_Issuer := tokenIssuer; jc_Subject := userID;
     jc_IssuedAt := Some (unix_sec now); jc_NotBefore := Some (unix_sec now);
     jc_ExpiresAt := Some (unix_sec (now + ttl)); jc_ID := jti |}.

Definition Mint (key userID workspaceID : string) (now : time) (ttl : duration) (jti : string)
    : result string :=
  if String.eqb userID "" || String.eqb workspaceID ""
  then Err (EMsg "mint: userID and workspaceID are required")
  else match NewWithClaims_SignedString "HS256" (mint_claims userID workspaceID now ttl jti) key with
       | Err e => Err e
       | Ok signed => Ok signed
       end.

Definition tenancy_Verify (key token : string) (now : time) : result Identity :=
  match ParseWithClaims token (hs256_keyfunc key) (hs256_options now) with
  | Err e => Err e
  | Ok c =>
      if String.eqb (jc_Subject c) "" || String.eqb (jc_WorkspaceID c) ""
      then Err (EMsg "verify: missing sub or workspaceId claim")
      else Ok {| id_WorkspaceID := jc_WorkspaceID c; id_UserID := jc_Subject c |}
  end.

(** ** A minted token is accepted by every service, and only while in force *)

Context (hmac_sha256 : string -> string -> string).
Context (json_alg : string -> option string) (json_claims : string -> option tokenClaims).

(** golang-jwt as documented: [SignedString] gives the compact serialization of
    RFC 7515, whose JSON parts say what was put in; [ParseWithClaims] returns the
    claims of a token signed with the key for a permitted method while they are
    in force, and an error otherwise. *)
Record jwt_laws := {
  jwt_sign : forall c key, exists header payload,
    NewWithClaims_SignedString "HS256" c key = Ok (compact hmac_sha256 key header payload) /\
    json_alg header = Some "HS256" /\
    json_claims payload = Some {| Sub := jc_Subject c; tc_WorkspaceID := jc_WorkspaceID c;
                                  Exp := default 0 (jc_ExpiresAt c);
                                  Nbf := default 0 (jc_NotBefore c) |};
  jwt_parse : forall c key tok opts exp nbf,
    NewWithClaims_SignedString "HS256" c key = Ok tok ->
    ValidMethods opts = ["HS256"] -> jc_ExpiresAt c = Some exp -> jc_NotBefore c = Some nbf ->
    if (unix_sec (TimeFunc opts) <? exp) && (nbf <=? unix_sec (TimeFunc opts))
    then ParseWithClaims tok (hs256_keyfunc key) opts = Ok c
    else exists e, ParseWithClaims tok (hs256_keyfunc key) opts = Err e
}.

Definition accepted (r : result Identity) (id : Identity) (ok : bool) : Prop :=
  if ok then r = Ok id else is_ok r = false.

Definition upload_result (r : token_error + Identity) : result Identity :=
  match r with inl _ => Err (EMsg "token") | inr id => Ok id end.

(** What the upload verifier does with a compact token whose parts decode. *)
Lemma Verify_compact key header payload c t id :
  json_alg header = Some "HS256" -> json_claims payload = Some c ->
  VerifyHS256 hmac_sha256 json_alg json_claims (compact hmac_sha256 key header payload) key t = inr id
  <-> claims_valid c t id.
Proof.
  intros Ha Hc. rewrite VerifyHS256_exact. unfold compact.
  set (p0 := EncodeToString header). set (p1 := EncodeToString payload).
  set (sig := hmac_sha256 key (p0 +:+ "." +:+ p1)). rewrite !sapp_assoc.
  split.
  - intros (q0 & q1 & q2 & h & cl & c' & Heq & H0 & H1 & H2 & Hh & _ & _ & Hcl & Hc' & Hv).
    assert (Hsp : Split "." (p0 +:+ "." +:+ p1 +:+ "." +:+ EncodeToString sig) = [q0; q1; q2]).
    { rewrite Heq. change (q0 +:+ "." +:+ q1 +:+ "." +:+ q2)
        with (q0 +:+ String "." (q1 +:+ String "." q2)).
      by rewrite !Split_app, Split_no_char. }
    apply no_char_Split3 in Hsp as (-> & -> & _); [|apply EncodeToString_no_dot..].
    unfold p1 in Hcl. rewrite DecodeString_EncodeToString in Hcl. simplify_eq. congruence.
  - intros Hv. exists p0, p1, (EncodeToString sig), header, payload, c.
    split_and!; try apply EncodeToString_no_dot; try apply DecodeString_EncodeToString; done.
Qed.

(** the auth contract across services.  A token tenancy mints for a user and
    a workspace is accepted by the hand-written verifier of the upload service
    and by the golang-jwt verifiers of the orchestrator, telemetry and tenancy,
    each with exactly that identity, from the second it was minted to the second
    before it expires; outside that window each of them rejects it. *)
Theorem minted_token_accepted_everywhere key user ws now ttl jti t :
  jwt_laws -> user <> "" -> ws <> "" -> Second <= now -> 0 <= ttl ->
  let id := {| id_WorkspaceID := ws; id_UserID := user |} in
  let live := (unix_sec now <=? unix_sec t) && (unix_sec t <? unix_sec (now + ttl)) in
  exists tok, Mint key user ws now ttl jti = Ok tok /\
    accepted (orch_Verify key tok t) id live /\
    accepted (tele_Verify key tok t) id live /\
    accepted (tenancy_Verify key tok t) id live /\
    accepted (upload_result (VerifyHS256 hmac_sha256 json_alg json_claims tok key t)) id live.
Proof.
  intros [Hsign Hparse] Hu Hw Hnow Httl id live.
  set (c := mint_claims user ws now ttl jti).
  destruct (Hsign c key) as (header & payload & Htok & Halg & Hclaims).
  set (tok := compact hmac_sha256 key header payload) in *. exists tok.
  assert (Hmint : Mint key user ws now ttl jti = Ok tok).
  { unfold Mint. fold c. rewrite (proj2 (String.eqb_neq _ _) Hu), (proj2 (String.eqb_neq _ _) Hw).
    cbn [orb]. by rewrite Htok. }
  split; [done|].
  pose proof (Hparse c key tok (hs256_options t) _ _ Htok eq_refl eq_refl eq_refl) as Hp.
  cbn [TimeFunc hs256_options] in Hp. rewrite andb_comm in Hp. fold live in Hp.
  assert (Hv : accepted (orch_Verify key tok t) id live /\ accepted (tele_Verify key tok t) id live /\
               accepted (tenancy_Verify key tok t) id live).
  { unfold orch_Verify, tele_Verify, tenancy_Verify, accepted.
    destruct live; [rewrite Hp|destruct Hp as [e ->]; done]. simpl.
    by rewrite (proj2 (String.eqb_neq _ _) Hu), (proj2 (String.eqb_neq _ _) Hw). }
  destruct Hv as (Ho & Ht & Hte). split; [done|]. split; [done|]. split; [done|].
  assert (Hsec : 1 <= unix_sec now) by (unfold unix_sec; apply Z.div_le_lower_bound; unfold Second in *; lia).
  assert (Hval : forall id', VerifyHS256 hmac_sha256 json_alg json_claims tok key t = inr id' <->
            live = true /\ id' = id).
  { intros id'. unfold tok. rewrite (Verify_compact _ _ _ _ _ _ Halg Hclaims). unfold claims_valid, live.
    cbn. rewrite andb_true_iff, Z.leb_le, Z.ltb_lt. fold id.
    assert (unix_sec now <= unix_sec (now + ttl)).
    { unfold unix_sec. apply Z.div_le_mono; unfold Second; lia. }
    intuition lia. }
  unfold accepted, upload_result.
  destruct (VerifyHS256 _ _ _ tok key t) as [err|id'] eqn:HV.
  - destruct live eqn:Hl; [|done]. discriminate (proj2 (Hval id) (conj eq_refl eq_refl)).
  - destruct (proj1 (Hval id') eq_refl) as [-> ->]. done.
Qed.
End golang_jwt.

(** ** The laws have a model *)

Module ToyJwt.
Fixpoint pos_string (p : positive) : string :=
  match p with xH => "" | xO p => String "0" (pos_string p) | xI p => String "1" (pos_string p) end.
Fixpoint string_pos (s : string) : positive :=
  match s with
  | EmptyString => xH
  | String c s => if Ascii.eqb c "0" then xO (string_pos s) else xI (string_pos s)
  end.
Lemma string_pos_string p : string_pos (pos_string p) = p.
Proof. induction p as [p IH|p IH|]; simpl; congruence. Qed.

Definition tuple (c : jwt_claims) :=
  (jc_WorkspaceID c, jc_Issuer c, jc_Subject c, jc_IssuedAt c, jc_NotBefore c, jc_ExpiresAt c, jc_ID c).
Definition enc (c : jwt_claims) : string := pos_string (encode (tuple c)).
Definition dec (s : string) : option jwt_claims :=
  (fun t : string * string * string * option Z * option Z * option Z * string =>
     let '(ws, iss, sub, iat, nbf, exp, jti) := t in
     {| jc_WorkspaceID := ws; jc_Issuer := iss; jc_Subject := sub; jc_IssuedAt := iat;
        jc_NotBefore := nbf; jc_ExpiresAt := exp; jc_ID := jti |}) <$> decode (string_pos s).
Lemma dec_enc c : dec (enc c) = Some c.
Proof. unfold dec, enc. rewrite string_pos_string, decode_encode. by destruct c. Qed.

Definition mac (key m : string) : string := key +:+ m.
Definition claims (s : string) : option tokenClaims :=
  (fun c => {| Sub := jc_Subject c; tc_WorkspaceID := jc_WorkspaceID c;
               Exp := default 0 (jc_ExpiresAt c); Nbf := default 0 (jc_NotBefore c) |}) <$> dec s.
Definition sign (alg : string) (c : jwt_claims) (key : string) : result string :=
  Ok (compact mac key alg (enc c)).
Definition parse (tok : string) (kf : keyfunc) (opts : parse_options) : result jwt_claims :=
  match Split "." tok with
  | [p0; p1; p2] =>
      match kf (default "" (DecodeString p0)), DecodeString p1 ≫= dec with
      | Ok key, Some c =>
          let exp := default 0 (jc_ExpiresAt c) in let nbf := default 0 (jc_NotBefore c) in
          if bool_decide (DecodeString p2 = Some (mac key (p0 +:+ "." +:+ p1)))
             && ((unix_sec (TimeFunc opts) <? exp) && (nbf <=? unix_sec (TimeFunc opts)))
          then Ok c else Err (EMsg "token")
      | _, _ => Err (EMsg "token")
      end
  | _ => Err (EMsg "token")
  end.

Lemma laws : jwt_laws parse sign mac Some claims.
Proof.
  split.
  - intros c key. exists "HS256", (enc c). split; [done|]. split; [done|].
    unfold claims. by rewrite dec_enc.
  - intros c key tok opts exp nbf [= <-] _ Hexp Hnbf. unfold parse, compact.
    rewrite !sapp_assoc.
    change (?a +:+ "." +:+ ?b +:+ "." +:+ ?d) with (a +:+ String "." (b +:+ String "." d)).
    rewrite !Split_app, Split_no_char by apply EncodeToString_no_dot.
    rewrite !DecodeString_EncodeToString. cbn [mbind option_bind]. rewrite dec_enc, Hexp, Hnbf.
    replace (hs256_keyfunc key (default "" (Some "HS256"))) with (Ok key) by done.
    rewrite bool_decide_eq_true_2 by done. cbn. case_match; eauto.
Qed.
End ToyJwt.

Lemma minted_token_accepted_everywhere_witness :
  exists tok, Mint ToyJwt.sign "k" "alice" "ws1" (1000 * Second) (60 * Second) "j" = Ok tok /\
    VerifyHS256 ToyJwt.mac Some ToyJwt.claims tok "k" (1030 * Second)
    = inr {| id_WorkspaceID := "ws1"; id_UserID := "alice" |}.
Proof.
  destruct (minted_token_accepted_everywhere ToyJwt.parse ToyJwt.sign ToyJwt.mac Some ToyJwt.claims
    "k" "alice" "ws1" (1000 * Second) (60 * Second) "j" (1030 * Second) ToyJwt.laws)
    as (tok & Hm & _ & _ & _ & Hv); [done|done|vm_compute; discriminate|vm_compute; discriminate|].
  exists tok. split; [exact Hm|].
  unfold accepted in Hv. change ((unix_sec (1000 * Second) <=? unix_sec (1030 * Second)) &&
    (unix_sec (1030 * Second) <? unix_sec (1000 * Second + 60 * Second))) with true in Hv.
  destruct (VerifyHS256 _ _ _ tok "k" (1030 * Second)); simpl in Hv; congruence.
Defined.
