(* ===== verification/Backpressure.v ===== *)
(** * services/upload/backpressure.go: the inflight gauge and the backoff director

    The gauge is shared by all request goroutines and is only touched through
    atomic loads, compare-and-swaps and adds, so its behaviour is given as a step
    relation over any number of threads; [TryAcquire] and [Release] are the same
    steps taken without interference, which is what one request does to it. *)
From S2P Require Export GoLib.

(** ** InflightGauge *)

Record InflightGauge := { ceiling : Z; current : Z }.

Definition NewInflightGauge (c : Z) : InflightGauge := {| ceiling := c; current := 0 |}.

Definition set_current (g : InflightGauge) (c : Z) : InflightGauge :=
  {| ceiling := ceiling g; current := c |}.

(** One iteration of the [TryAcquire] loop is a load with the ceiling test, then
    a compare-and-swap against the loaded value. *)
Definition tryAcquire_load (n : Z) (g : InflightGauge) : option Z :=
  let cur := current g in
  if ceiling g <? i64 (cur + n) then None else Some cur.

Definition tryAcquire_cas (n cur : Z) (g : InflightGauge) : bool * InflightGauge :=
  if current g =? cur then (true, set_current g (i64 (cur + n))) else (false, g).

Definition TryAcquire (n : Z) (g : InflightGauge) : bool * InflightGauge :=
  match tryAcquire_load n g with
  | None => (false, g)
  | Some cur => tryAcquire_cas n cur g
  end.

Definition Release (n : Z) (g : InflightGauge) : InflightGauge :=
  set_current g (i64 (current g + i64 (- n))).

(** *** Threads sharing one gauge *)

Inductive gthread :=
| TIdle                       (* no request *)
| TTry (n : Z)                (* in TryAcquire(n), about to load *)
| TLoaded (n cur : Z)         (* loaded cur, about to swap *)
| THold (n : Z).              (* admitted; Release(n) is deferred *)

Inductive gauge_step : InflightGauge * list gthread -> InflightGauge * list gthread -> Prop :=
| gs_request i n g ts :
    ts !! i = Some TIdle -> 0 <= n ->
    gauge_step (g, ts) (g, <[i := TTry n]> ts)
| gs_denied i n g ts :
    ts !! i = Some (TTry n) -> tryAcquire_load n g = None ->
    gauge_step (g, ts) (g, <[i := TIdle]> ts)
| gs_load i n cur g ts :
    ts !! i = Some (TTry n) -> tryAcquire_load n g = Some cur ->
    gauge_step (g, ts) (g, <[i := TLoaded n cur]> ts)
| gs_cas i n cur g g' ok ts :
    ts !! i = Some (TLoaded n cur) -> tryAcquire_cas n cur g = (ok, g') ->
    gauge_step (g, ts) (g', <[i := if ok then THold n else TTry n]> ts)
| gs_release i n g ts :
    ts !! i = Some (THold n) ->
    gauge_step (g, ts) (Release n g, <[i := TIdle]> ts).

Definition held (t : gthread) : Z := match t with THold n => n | _ => 0 end.
Definition total_held (ts : list gthread) : Z := foldr (fun t s => held t + s) 0 ts.

Definition thread_ok (maxn ceil : Z) (t : gthread) : Prop :=
  match t with
  | TIdle => True
  | TTry n | THold n => 0 <= n <= maxn
  | TLoaded n cur => 0 <= n <= maxn /\ 0 <= cur /\ cur + n <= ceil
  end.

Lemma total_held_insert ts i t t' :
  ts !! i = Some t -> total_held (<[i := t']> ts) = total_held ts - held t + held t'.
Proof.
  revert i. induction ts as [|u ts IH]; intros [|i] Hi; simplify_eq/=; [lia|].
  rewrite (IH _ Hi). lia.
Qed.

Lemma total_held_nonneg maxn ceil ts : Forall (thread_ok maxn ceil) ts -> 0 <= total_held ts.
Proof. induction 1 as [|[] ts Ht _ IH]; simpl in *; lia. Qed.

Lemma total_held_idle k : total_held (replicate k TIdle) = 0.
Proof. induction k as [|k IH]; simpl; [done|]. by rewrite IH. Qed.

Lemma held_le_total maxn ceil ts i t :
  Forall (thread_ok maxn ceil) ts -> ts !! i = Some t -> held t <= total_held ts.
Proof.
  intros Hok. revert i. induction Hok as [|u ts Hu Hts IH]; intros [|i] Hi; simplify_eq/=.
  - pose proof (total_held_nonneg _ _ _ Hts). lia.
  - specialize (IH _ Hi). destruct u; simpl in *; lia.
Qed.

Definition gauge_inv (maxn ceil : Z) (s : InflightGauge * list gthread) : Prop :=
  ceiling s.1 = ceil /\ current s.1 = total_held s.2 /\ 0 <= current s.1 <= ceil /\
  Forall (thread_ok maxn ceil) s.2.

(** The requests in flight ask for at most [maxn] bytes each. *)
Definition bounded_step (maxn : Z) (s s' : InflightGauge * list gthread) : Prop :=
  gauge_step s s' /\ (forall i n, s'.2 !! i = Some (TTry n) -> n <= maxn).

Lemma gauge_inv_step maxn ceil s s' :
  0 <= maxn -> ceil + maxn < 2 ^ 63 ->
  gauge_inv maxn ceil s -> bounded_step maxn s s' -> gauge_inv maxn ceil s'.
Proof.
  intros Hm Hc (Hceil & Hcur & Hb & Hok) [Hs Hnew].
  assert (Hlen : forall i t (ts : list gthread) t', ts !! i = Some t ->
            <[i:=t']> ts !! i = Some t').
  { intros i t ts t' Hi. apply list_lookup_insert_eq. by eapply lookup_lt_Some. }
  destruct Hs as [i n g ts Hi Hn|i n g ts Hi Hl|i n cur g ts Hi Hl|i n cur g g' ok ts Hi Hcas|i n g ts Hi];
    simpl in *; unfold gauge_inv; simpl;
    pose proof (Forall_lookup_1 _ _ _ _ Hok Hi) as Ht; simpl in Ht.
  - rewrite (total_held_insert _ _ _ _ Hi). simpl. repeat split; try lia.
    apply Forall_insert; [done|]. simpl. split; [lia|]. apply (Hnew i). eauto.
  - rewrite (total_held_insert _ _ _ _ Hi). simpl. repeat split; try lia.
    by apply Forall_insert.
  - rewrite (total_held_insert _ _ _ _ Hi). simpl. repeat split; try lia.
    apply Forall_insert; [done|]. simpl. unfold tryAcquire_load in Hl.
    rewrite i64_id in Hl by lia. destruct (Z.ltb_spec (ceiling g) (current g + n)); simplify_eq.
    lia.
  - unfold tryAcquire_cas in Hcas. destruct (Z.eqb_spec (current g) cur) as [Hcc|Hcc]; simplify_eq;
      simpl; rewrite (total_held_insert _ _ _ _ Hi); simpl.
    + rewrite i64_id by lia. repeat split; try lia. apply Forall_insert; [done|]. simpl. lia.
    + repeat split; try lia. apply Forall_insert; [done|]. simpl. lia.
  - pose proof (held_le_total _ _ _ _ _ Hok Hi) as Hle. simpl in Hle.
    rewrite (i64_id (- n)) by lia. rewrite i64_id by lia.
    rewrite (total_held_insert _ _ _ _ Hi). simpl. repeat split; try lia.
    by apply Forall_insert.
Qed.

(** C40: whatever the interleaving of the atomic operations of any number of
    request goroutines, the gauge always equals the sum of the admitted and not
    yet released byte counts, is never negative and never passes the ceiling
    (requests of at most [maxn] bytes, with [ceiling + maxn] inside int64). *)
Theorem gauge_never_exceeds_ceiling maxn ceil k s :
  0 <= maxn -> 0 <= ceil -> ceil + maxn < 2 ^ 63 ->
  rtc (bounded_step maxn) (NewInflightGauge ceil, replicate k TIdle) s ->
  current s.1 = total_held s.2 /\ 0 <= current s.1 <= ceil.
Proof.
  intros Hm Hc Hov Hr.
  assert (Hinv : gauge_inv maxn ceil s).
  { assert (H0 : gauge_inv maxn ceil (NewInflightGauge ceil, replicate k TIdle)).
    { unfold gauge_inv; simpl. split; [done|].
      rewrite total_held_idle.
      repeat split; try lia. by apply Forall_replicate. }
    clear Hc. induction Hr as [x|x y z Hxy _ IH]; [done|]. apply IH.
    by eapply gauge_inv_step. }
  destruct Hinv as (_ & Hcur & Hb & _). auto.
Qed.

Lemma gauge_never_exceeds_ceiling_witness :
  let s := ({| ceiling := 10; current := 7 |}, [THold 7; TIdle]) in
  rtc (bounded_step 8) (NewInflightGauge 10, replicate 2 TIdle) s /\
  current s.1 = total_held s.2 /\ 0 <= current s.1 <= 10.
Proof.
  assert (Hr : rtc (bounded_step 8) (NewInflightGauge 10, replicate 2 TIdle)
                 ({| ceiling := 10; current := 7 |}, [THold 7; TIdle])).
  { apply (rtc_l _ _ (NewInflightGauge 10, [TTry 7; TIdle])).
    { split; [by apply (gs_request 0 7 _ [TIdle; TIdle])|]. intros [|[|i]] n [=]; lia. }
    apply (rtc_l _ _ (NewInflightGauge 10, [TLoaded 7 0; TIdle])).
    { split; [by apply (gs_load 0 7 0 _ [TTry 7; TIdle])|]. intros [|[|i]] n [=]; lia. }
    apply (rtc_l _ _ ({| ceiling := 10; current := 7 |}, [THold 7; TIdle])); [|done].
    split; [by apply (gs_cas 0 7 0 (NewInflightGauge 10) {| ceiling := 10; current := 7 |} true [TLoaded 7 0; TIdle])|]. intros [|[|i]] n [=]; lia. }
  split; [exact Hr|].
  apply (gauge_never_exceeds_ceiling 8 10 2); [lia..|exact Hr].
Defined.

(** Acquire then release is the identity on the gauge, whatever the size: what
    the deferred [Release] of a request gives back. *)
Lemma TryAcquire_Release n g g' :
  - 2 ^ 63 <= current g < 2 ^ 63 -> TryAcquire n g = (true, g') -> Release n g' = g.
Proof.
  intros Hg. unfold TryAcquire, tryAcquire_load, tryAcquire_cas, Release.
  destruct (ceiling g <? _); [done|]. rewrite Z.eqb_refl. intros [= <-]. simpl.
  rewrite i64_add. replace (current g + n + - n) with (current g) by lia. rewrite (i64_id (current g)) by lia.
  by destruct g.
Qed.

(** ** BackoffDirector *)

Record BackoffDirector := {
  levels : gmap string Z;
  base : duration;
  bmax : duration
}.

Definition NewBackoffDirector (b m : duration) : BackoffDirector :=
  {| levels := ∅; base := b; bmax := m |}.

Definition set_levels (b : BackoffDirector) (l : gmap string Z) : BackoffDirector :=
  {| levels := l; base := base b; bmax := bmax b |}.

Definition delay (b : BackoffDirector) (level : Z) : duration :=
  let d := shl64 (base b) (u64 level) in
  if (bmax b <? d) || (d <=? 0) then bmax b else d.

Definition Deny (id : string) (b : BackoffDirector) : duration * BackoffDirector :=
  let level := default 0 (levels b !! id) in
  (delay b level, set_levels b (<[id := i64 (level + 1)]> (levels b))).

Definition Reset (id : string) (b : BackoffDirector) : BackoffDirector :=
  set_levels b (delete id (levels b)).

(** The director [main.go] builds. *)
Definition production_director : BackoffDirector := NewBackoffDirector Second (60 * Second).

Fixpoint deny_times (k : nat) (id : string) (b : BackoffDirector) : BackoffDirector :=
  match k with O => b | S k' => deny_times k' id (Deny id b).2 end.

Lemma delay_production b level :
  base b = Second -> bmax b = 60 * Second -> 0 <= level < 2 ^ 64 ->
  delay b level = Z.min (60 * Second) (Second * 2 ^ level).
Proof.
  intros Hb Hm Hl. unfold delay. rewrite Hb, Hm. unfold u64. rewrite Z.mod_small by lia.
  destruct (Z.le_gt_cases 64 level) as [Hge|Hlt].
  - unfold shl64. rewrite (proj2 (Z.leb_le _ _) Hge). simpl.
    assert (2 ^ 64 <= 2 ^ level) by (apply Z.pow_le_mono_r; lia).
    unfold Second. lia.
  - assert (Hall : forallb (fun l => let l := Z.of_nat l in
        let d := shl64 Second l in
        Z.eqb (if (60 * Second <? d) || (d <=? 0) then 60 * Second else d)
              (Z.min (60 * Second) (Second * 2 ^ l))) (seq 0 64) = true)
      by (vm_compute; reflexivity).
    rewrite forallb_forall in Hall. specialize (Hall (Z.to_nat level)).
    rewrite Z2Nat.id in Hall by lia. apply Z.eqb_eq, Hall, in_seq. lia.
Qed.

Lemma deny_times_level k id b n :
  levels b !! id = Some n \/ (levels b !! id = None /\ n = 0) ->
  0 <= n -> n + Z.of_nat k < 2 ^ 63 ->
  let b' := deny_times k id b in
  default 0 (levels b' !! id) = n + Z.of_nat k /\ base b' = base b /\ bmax b' = bmax b /\
  (forall id', id' <> id -> levels b' !! id' = levels b !! id').
Proof.
  revert b n. induction k as [|k IH]; intros b n Hn H0 Hov; simpl.
  - split; [|done]. destruct Hn as [->|[-> ->]]; simpl; lia.
  - assert (Hd : default 0 (levels b !! id) = n) by (destruct Hn as [->|[-> ->]]; done).
    destruct (IH (Deny id b).2 (n + 1)) as (H1 & H2 & H3 & H4).
    + left. unfold Deny; simpl. rewrite lookup_insert_eq, Hd, i64_id; [done|lia].
    + lia.
    + lia.
    + split; [etrans; [exact H1|lia]|]. split; [done|]. split; [done|]. intros id' Hne. rewrite H4 by done.
      unfold Deny; simpl. by rewrite lookup_insert_ne.
Qed.

(** with the production parameters the delay after [k] denials of a session is
    exactly min(60 s, 2^k s): the int64 shift overflows from level 34 on, and
    the guards make that invisible.  Other sessions keep their delay, and a reset
    brings the session back to one second. *)
Theorem backoff_exponential_capped k id id' :
  Z.of_nat k < 2 ^ 63 -> id' <> id ->
  let b := deny_times k id production_director in
  (Deny id b).1 = Z.min (60 * Second) (Second * 2 ^ Z.of_nat k) /\
  (Deny id' b).1 = Second /\
  (Deny id (Reset id b)).1 = Second.
Proof.
  intros Hk Hne b.
  destruct (deny_times_level k id production_director 0) as (Hl & Hb & Hm & Ho);
    [by right|lia..|]. fold b in Hl, Hb, Hm, Ho.
  unfold Deny; simpl. split; [|split].
  - rewrite Hl, delay_production by (done || lia). by rewrite Z.add_0_l.
  - rewrite Ho by done. simpl. by rewrite delay_production by (done || lia).
  - rewrite lookup_delete_eq. simpl. rewrite delay_production; [|done..|lia]. done.
Qed.

Lemma backoff_exponential_capped_witness :
  let b := deny_times 40 "a" production_director in
  (Deny "a" b).1 = 60 * Second /\ (Deny "b" b).1 = Second /\
  (Deny "a" (Reset "a" b)).1 = Second.
Proof. apply (backoff_exponential_capped 40 "a" "b"); [lia|discriminate]. Defined.
