(* ===== verification/BlobStore.v ===== *)
(** * services/upload/blobstore.go: object storage

    [blobE] is the [BlobStore] interface.  [S3BlobStore] implements it by calls
    on the S3 client ([s3E], a third-party SDK whose answers are arbitrary): a
    part list sorted before completion, a missing upload treated as aborted, a
    missing object as absence, and server-side copies above 5 GiB cut into
    512 MiB ranges. *)
From S2P Require Export Http.
From stdpp Require Export sorting list_numbers.
#[local] Open Scope Z_scope.

Record CompletedPart := { PartNumber : Z; cp_ETag : string }.

#[export] Instance CompletedPart_eq_dec : EqDecision CompletedPart.
Proof. solve_decision. Defined.

Inductive blobE : Type -> Type :=
| CreateMultipart (key mime : string) : blobE string
| UploadPart (key uploadID : string) (partNumber : Z) (body : string) : blobE string
| CompleteMultipart (key uploadID : string) (parts : list CompletedPart) : blobE ()
| AbortMultipart (key uploadID : string) : blobE ()
| GetObject (key : string) : blobE stream
| HeadObject (key : string) : blobE (Z * bool)
| Copy (srcKey dstKey : string) (sizeBytes : Z) : blobE ()
| Delete (key : string) : blobE ().

Definition copyPartSize : Z := Z.shiftl 512 20.
Definition singleCopyLimit : Z := Z.shiftl 5 30.

(** ** The S3 client *)

(** What [errors.As] tells apart in an SDK error. *)
Inductive s3_err := NoSuchUpload | NotFound | S3Other (msg : string).

(** The operations of the client.  An answer is an SDK error or the output field
    the code reads, [None] for a nil pointer. *)
Inductive s3E : Type -> Type :=
| CreateMultipartUpload (Bucket Key : string) (ContentType : option string)
    : s3E (s3_err + option string)
| s3_UploadPart (Bucket Key UploadId : string) (PartNumber : Z) (Body : string)
    : s3E (s3_err + option string)
| UploadPartCopy (Bucket Key UploadId : string) (PartNumber : Z) (CopySource CopySourceRange : string)
    : s3E (s3_err + option string)
| CompleteMultipartUpload (Bucket Key UploadId : string) (Parts : list (Z * option string))
    : s3E (s3_err + ())
| AbortMultipartUpload (Bucket Key UploadId : string) : s3E (s3_err + ())
| s3_GetObject (Bucket Key : string) : s3E (s3_err + stream)
| s3_HeadObject (Bucket Key : string) : s3E (s3_err + option Z)
| CopyObject (Bucket Key CopySource : string) : s3E (s3_err + ())
| DeleteObject (Bucket Key : string) : s3E (s3_err + ()).

Definition wrapped {Y} (what : string) : result Y := Err (EMsg what).

Section S3BlobStore.
Context (bucket : string).
(** [url.PathEscape] of the bucket and the source key. *)
Context (PathEscape : string -> string).

Definition s3_CreateMultipart (key mime : string) : prog s3E (result string) :=
  out ← call (CreateMultipartUpload bucket key (Some mime));
  match out with
  | inl _ => Ret (wrapped "create multipart")
  | inr uploadId => Ret (Ok (default "" uploadId))
  end.

Definition s3_UploadPart_ (key uploadID : string) (partNumber : Z) (body : string)
    : prog s3E (result string) :=
  out ← call (s3_UploadPart bucket key uploadID partNumber body);
  match out with
  | inl _ => Ret (wrapped ("upload part " +:+ itoa partNumber))
  | inr etag => Ret (Ok (default "" etag))
  end.

(** The parts in ascending part-number order; the caller's list is copied. *)
Definition part_le (p q : CompletedPart) : Prop := PartNumber p <= PartNumber q.
#[export] Instance part_le_dec : RelDecision part_le.
Proof. intros p q. unfold part_le. apply _. Defined.

Definition completed (parts : list CompletedPart) : list (Z * option string) :=
  (fun p => (PartNumber p, Some (cp_ETag p))) <$> merge_sort part_le parts.

Definition s3_CompleteMultipart (key uploadID : string) (parts : list CompletedPart)
    : prog s3E (result ()) :=
  out ← call (CompleteMultipartUpload bucket key uploadID (completed parts));
  match out with
  | inl _ => Ret (wrapped "complete multipart")
  | inr _ => Ret (Ok ())
  end.

Definition s3_AbortMultipart (key uploadID : string) : prog s3E (result ()) :=
  out ← call (AbortMultipartUpload bucket key uploadID);
  match out with
  | inl NoSuchUpload => Ret (Ok ())
  | inl _ => Ret (wrapped "abort multipart")
  | inr _ => Ret (Ok ())
  end.

Definition s3_GetObject_ (key : string) : prog s3E (result stream) :=
  out ← call (s3_GetObject bucket key);
  match out with
  | inl _ => Ret (wrapped "get object")
  | inr body => Ret (Ok body)
  end.

Definition s3_HeadObject_ (key : string) : prog s3E (result (Z * bool)) :=
  out ← call (s3_HeadObject bucket key);
  match out with
  | inl NotFound => Ret (Ok (0, false))
  | inl _ => Ret (wrapped "head object")
  | inr len => Ret (Ok (default 0 len, true))
  end.

(** The range header of one part copy; [end] is inclusive. *)
Definition part_end (offset sizeBytes : Z) : Z :=
  let e := i64 (offset + copyPartSize - 1) in
  if sizeBytes <=? e then sizeBytes - 1 else e.

Definition range_header (offset e : Z) : string :=
  "bytes=" +:+ itoa offset +:+ "-" +:+ itoa e.

Fixpoint copy_loop (fuel : nat) (source dstKey uploadID : string) (sizeBytes offset partNumber : Z)
    (parts : list (Z * option string)) : prog s3E (result (list (Z * option string))) :=
  match fuel with
  | O => Ret (wrapped "copy: out of fuel")
  | S fuel' =>
      if negb (offset <? sizeBytes) then Ret (Ok parts)
      else
        out ← call (UploadPartCopy bucket dstKey uploadID partNumber source
                      (range_header offset (part_end offset sizeBytes)));
        match out with
        | inl _ =>
            _ ← s3_AbortMultipart dstKey uploadID;
            Ret (wrapped ("copy part " +:+ itoa partNumber))
        | inr etag =>
            copy_loop fuel' source dstKey uploadID sizeBytes (i64 (offset + copyPartSize))
              (i32 (partNumber + 1)) (parts ++ [(partNumber, etag)])
        end
  end.

(** One iteration per part and one for the exit test. *)
Definition copy_fuel (sizeBytes : Z) : nat := Z.to_nat (sizeBytes / copyPartSize + 2).

Definition s3_Copy (srcKey dstKey : string) (sizeBytes : Z) : prog s3E (result ()) :=
  let source := PathEscape (bucket +:+ "/" +:+ srcKey) in
  if sizeBytes <=? singleCopyLimit then
    out ← call (CopyObject bucket dstKey source);
    match out with
    | inl _ => Ret (wrapped "copy object")
    | inr _ => Ret (Ok ())
    end
  else
    create ← call (CreateMultipartUpload bucket dstKey None);
    match create with
    | inl _ => Ret (wrapped "copy create multipart")
    | inr id =>
        let uploadID := default "" id in
        copied ← copy_loop (copy_fuel sizeBytes) source dstKey uploadID sizeBytes 0 1 [];
        match copied with
        | Err e => Ret (Err e)
        | Ok parts =>
            out ← call (CompleteMultipartUpload bucket dstKey uploadID parts);
            match out with
            | inl _ =>
                _ ← s3_AbortMultipart dstKey uploadID;
                Ret (wrapped "copy complete multipart")
            | inr _ => Ret (Ok ())
            end
        end
    end.

Definition s3_Delete (key : string) : prog s3E (result ()) :=
  out ← call (DeleteObject bucket key);
  match out with
  | inl _ => Ret (wrapped "delete object")
  | inr _ => Ret (Ok ())
  end.

Definition S3BlobStore {Y} (e : blobE Y) : prog s3E (result Y) :=
  match e in blobE Y return prog s3E (result Y) with
  | CreateMultipart key mime => s3_CreateMultipart key mime
  | UploadPart key id n body => s3_UploadPart_ key id n body
  | CompleteMultipart key id parts => s3_CompleteMultipart key id parts
  | AbortMultipart key id => s3_AbortMultipart key id
  | GetObject key => s3_GetObject_ key
  | HeadObject key => s3_HeadObject_ key
  | Copy src dst size => s3_Copy src dst size
  | Delete key => s3_Delete key
  end.
End S3BlobStore.

(** ** Multipart copies tile the object *)

Record copied_part := { cpt_n : Z; cpt_from : Z; cpt_to : Z; cpt_etag : option string }.

(** Consecutive non-empty ranges of at most [copyPartSize] bytes, numbered from
    [n], that cover the bytes from [off] up to [size]. *)
Fixpoint tiles (off n size : Z) (l : list copied_part) : Prop :=
  match l with
  | [] => off = size
  | p :: l' =>
      cpt_n p = n /\ cpt_from p = off /\ off <= cpt_to p < off + copyPartSize /\
      tiles (cpt_to p + 1) (n + 1) size l'
  end.

Definition part_event (bucket dst id source : string) (p : copied_part) : event s3E :=
  Ev (UploadPartCopy bucket dst id (cpt_n p) source (range_header (cpt_from p) (cpt_to p)))
     (inr (cpt_etag p)).

Definition part_pair (p : copied_part) : Z * option string := (cpt_n p, cpt_etag p).

Lemma copy_loop_exec bucket fuel source dst id size offset n parts tr r :
  0 <= offset <= 2 ^ 60 -> 0 < size <= 2 ^ 59 -> 1 <= n -> n + Z.of_nat fuel <= 2 ^ 31 - 1 ->
  (1 <= fuel)%nat -> size - offset <= (Z.of_nat fuel - 1) * copyPartSize ->
  exec (copy_loop bucket fuel source dst id size offset n parts) tr r ->
  (exists l, r = Ok (parts ++ (part_pair <$> l)) /\ tr = part_event bucket dst id source <$> l /\
             tiles (Z.min offset size) n size l) \/
  (exists e tr' x, r = Err e /\ tr = tr' ++ [Ev (AbortMultipartUpload bucket dst id) x]).
Proof.
  assert (Hcp : copyPartSize = 2 ^ 29) by done.
  revert offset n parts tr. induction fuel as [|fuel IH]; intros offset n parts tr Hoff Hsize Hn Hf H1 Hfuel H.
  { lia. }
  simpl in H. destruct (Z.ltb_spec offset size) as [Hlt|Hge]; simpl in H.
  2:{ destruct H as [-> ->]. left. exists []. simpl. rewrite app_nil_r. split; [done|]. split; [done|]. lia. }
  destruct H as (x & tr' & -> & H). go_on H. destruct x as [x|etag].
  - right. destruct H as (y & tr2 & -> & H).
    eexists _, [_], y. destruct y as [[]|]; destruct H as [-> ->]; done.
  - rewrite (i64_id (offset + copyPartSize)) in H by lia. rewrite (i32_id (n + 1)) in H by lia.
    apply IH in H; try lia.
    assert (Hend : part_end offset size = Z.min (offset + copyPartSize) size - 1).
    { unfold part_end. rewrite i64_id by lia. destruct (Z.leb_spec size (offset + copyPartSize - 1)); lia. }
    destruct H as [(l & -> & -> & Ht)|(e & tr2 & x & -> & ->)].
    + left. exists ({| cpt_n := n; cpt_from := offset; cpt_to := part_end offset size; cpt_etag := etag |} :: l).
      rewrite fmap_cons. split; [by rewrite <-app_assoc|]. split; [done|].
      simpl. rewrite Hend. split; [done|]. split; [lia|]. split; [lia|].
      by replace (Z.min (offset + copyPartSize) size - 1 + 1) with (Z.min (offset + copyPartSize) size) by lia.
    + right. eexists e, (_ :: tr2), x. done.
Qed.

Lemma exec_Vis {E A X} (e : E X) (k : X -> prog E A) tr a :
  exec (Vis e k) tr a <-> exists x tr', tr = Ev e x :: tr' /\ exec (k x) tr' a.
Proof. done. Qed.

(** A server-side copy above the single-copy limit that succeeds has asked S3
    for non-empty inclusive byte ranges of at most 512 MiB that tile the object
    exactly, numbered 1, 2, .. without a gap, and completes the upload with
    precisely those parts and their ETags; when it fails after the multipart
    upload was created, the last call aborts that upload.  For every object up to
    2^59 bytes: the [int64] and [int32] counters do not wrap and the fuel of the
    loop is never exhausted. *)
Theorem copy_tiles_object bucket PathEscape src dst size tr r :
  singleCopyLimit < size <= 2 ^ 59 ->
  exec (s3_Copy bucket PathEscape src dst size) tr r ->
  let source := PathEscape (bucket +:+ "/" +:+ src) in
  exists create tr', tr = Ev (CreateMultipartUpload bucket dst None) create :: tr' /\
  match create with
  | inl _ => is_ok r = false /\ tr' = []
  | inr id =>
      let id := default "" id in
      match r with
      | Ok _ => exists l,
          tiles 0 1 size l /\
          tr' = (part_event bucket dst id source <$> l)
                ++ [Ev (CompleteMultipartUpload bucket dst id (part_pair <$> l)) (inr ())]
      | Err _ => exists tr2 x, tr' = tr2 ++ [Ev (AbortMultipartUpload bucket dst id) x]
      end
  end.
Proof.
  intros Hsize H source. unfold s3_Copy in H.
  destruct (Z.leb_spec size singleCopyLimit) as [Hle|_]; [lia|].
  destruct H as (create & tr' & -> & H). exists create, tr'. split; [done|]. go_on H.
  destruct create as [x|id]; [by destruct H as [-> ->]|].
  apply (exec_bind (A:=_)) in H as (t1 & t2 & c & -> & H1 & H).
  assert (Hcp : copyPartSize = 2 ^ 29) by done.
  assert (Hlim : singleCopyLimit = 5 * 2 ^ 30) by done.
  apply copy_loop_exec in H1.
  2-7: unfold copy_fuel; pose proof (Z.div_mod size copyPartSize);
    pose proof (Z.mod_pos_bound size copyPartSize); rewrite ?Z2Nat.id by (rewrite Hcp; lia);
    rewrite Hcp in *; lia.
  destruct H1 as [(l & -> & -> & Ht)|(e & tr3 & x & -> & ->)].
  - simpl in H. destruct H as (y & t3 & -> & H). go_on H. destruct y as [y|[]].
    + destruct H as (z & t4 & -> & H). go_on H.
      destruct z as [[]|]; destruct H as [-> ->]; eexists (_ ++ [_]), _; by rewrite <-app_assoc.
    + destruct H as [-> ->]. exists l. by replace (Z.min 0 size) with 0 in Ht by lia.
  - destruct H as [-> ->]. exists tr3, x. by rewrite app_nil_r.
Qed.

(** An object store where every request succeeds. *)
Definition s3_all_ok : sem s3E () := fun X e w =>
  match e in s3E X return X * () with
  | CreateMultipartUpload _ _ _ => (inr (Some "mp-1"), w)
  | s3_UploadPart _ _ _ _ _ | UploadPartCopy _ _ _ _ _ _ => (inr (Some "etag"), w)
  | CompleteMultipartUpload _ _ _ _ | AbortMultipartUpload _ _ _ => (inr (), w)
  | s3_GetObject _ _ => (inr {| st_bytes := ""; st_err := None |}, w)
  | s3_HeadObject _ _ => (inr (Some 0), w)
  | CopyObject _ _ _ | DeleteObject _ _ => (inr (), w)
  end.

Lemma copy_tiles_object_witness :
  exists tr l, exec (s3_Copy "b" id "staging/u" "assets/u" (6 * 2 ^ 30)) tr (Ok ()) /\
    tiles 0 1 (6 * 2 ^ 30) l.
Proof.
  destruct (run_exec s3_all_ok (s3_Copy "b" id "staging/u" "assets/u" (6 * 2 ^ 30)) ())
    as [tr H].
  assert (Hr : (run s3_all_ok (s3_Copy "b" id "staging/u" "assets/u" (6 * 2 ^ 30)) ()).1 = Ok ())
    by (vm_compute; reflexivity).
  rewrite Hr in H.
  assert (Hsz : singleCopyLimit < 6 * 2 ^ 30 <= 2 ^ 59) by (vm_compute; split; [done|discriminate]).
  destruct (copy_tiles_object "b" id "staging/u" "assets/u" (6 * 2 ^ 30) tr (Ok ()) Hsz H)
    as (create & tr' & -> & Hc).
  destruct create as [x|o]; [destruct Hc as [Hc _]; discriminate Hc|].
  destruct Hc as (l & Ht & _). eexists _, l. split; [exact H | exact Ht].
Defined.

(** Completion sends the parts in strictly ascending order, each once, whatever
    order they were collected in (S3 rejects any other). *)
Lemma completed_sorted parts :
  NoDup (PartNumber <$> parts) ->
  StronglySorted Z.lt ((completed parts).*1) /\
  completed parts ≡ₚ (fun p => (PartNumber p, Some (cp_ETag p))) <$> parts.
Proof.
  intros Hnd. unfold completed. split; [|by rewrite merge_sort_Permutation].
  rewrite <-list_fmap_compose.
  assert (Hs : StronglySorted part_le (merge_sort part_le parts)).
  { apply StronglySorted_merge_sort; [intros a b c; unfold part_le; lia|intros a b; unfold part_le; lia]. }
  assert (Hnd' : NoDup (PartNumber <$> merge_sort part_le parts)) by by rewrite merge_sort_Permutation.
  revert Hs Hnd'. generalize (merge_sort part_le parts). intros l.
  induction 1 as [|p l Hl IH Hall]; [constructor|].
  rewrite !fmap_cons, NoDup_cons. intros [Hp Hndl]. constructor; [by apply IH|].
  apply Forall_fmap, Forall_forall. intros q Hq. simpl.
  apply (proj1 (Forall_forall _ _) Hall) in Hq as Hle. unfold part_le in Hle.
  assert (PartNumber p <> PartNumber q); [|lia].
  intros Heq. apply Hp. rewrite Heq. by apply list_elem_of_fmap_2.
Qed.
