(* ===== verification/UploadStore.v ===== *)
(** * services/upload/store.go and postgres.go: sessions and chunk maps

    [store.go] gives the interface: its calls are [storeE], and [store_nominal]
    is what each of them promises on the persisted upload sessions, each with
    its chunk map.  [postgres.go] implements it by SQL on two tables; the class
    [StoreImpl] is the contract, and [postgres_store] proves that the SQL meets
    it, lost replies and failed statements included.  The audit columns
    [created_at] and [updated_at] are written but never read by the service and
    are left out. *)
From S2P Require Export GoLib.
From stdpp Require Export sorting list_numbers.
#[local] Open Scope Z_scope.

(** ** Data *)

Inductive SessionState :=
| SessionActive | SessionAssembled | SessionCompleted | SessionCancelled.

Inductive ChunkState := ChunkPending | ChunkInflight | ChunkDone | ChunkRetry.

#[export] Instance SessionState_eq_dec : EqDecision SessionState.
Proof. solve_decision. Defined.
#[export] Instance ChunkState_eq_dec : EqDecision ChunkState.
Proof. solve_decision. Defined.

Definition SessionState_string (s : SessionState) : string :=
  match s with
  | SessionActive => "ACTIVE"
  | SessionAssembled => "ASSEMBLED"
  | SessionCompleted => "COMPLETED"
  | SessionCancelled => "CANCELLED"
  end.

Record Session := {
  ID : string;
  WorkspaceID : string;
  UserID : string;
  Filename : string;
  SizeBytes : Z;
  Mime : string;
  ChunkSizeBytes : Z;
  ChunkCount : Z;
  State : SessionState;
  S3UploadID : string;
  StagingKey : string;
  SHA256 : string;
  ObjectKey : string
}.

Record Chunk := {
  Index : Z;
  CState : ChunkState;
  CSHA256 : string;
  ETag : string;
  CSizeBytes : Z
}.

#[export] Instance Session_eq_dec : EqDecision Session.
Proof. solve_decision. Defined.
#[export] Instance Chunk_eq_dec : EqDecision Chunk.
Proof. solve_decision. Defined.

Inductive ClaimResult := ClaimAcquired | ClaimAlreadyDone.

Definition set_state (s : Session) (st : SessionState) : Session :=
  {| ID := ID s; WorkspaceID := WorkspaceID s; UserID := UserID s;
     Filename := Filename s; SizeBytes := SizeBytes s; Mime := Mime s;
     ChunkSizeBytes := ChunkSizeBytes s; ChunkCount := ChunkCount s; State := st;
     S3UploadID := S3UploadID s; StagingKey := StagingKey s; SHA256 := SHA256 s;
     ObjectKey := ObjectKey s |}.

Definition set_assembled (s : Session) (sha key : string) : Session :=
  {| ID := ID s; WorkspaceID := WorkspaceID s; UserID := UserID s;
     Filename := Filename s; SizeBytes := SizeBytes s; Mime := Mime s;
     ChunkSizeBytes := ChunkSizeBytes s; ChunkCount := ChunkCount s;
     State := SessionAssembled;
     S3UploadID := S3UploadID s; StagingKey := StagingKey s; SHA256 := sha;
     ObjectKey := key |}.

Definition set_cstate (c : Chunk) (st : ChunkState) : Chunk :=
  {| Index := Index c; CState := st; CSHA256 := CSHA256 c; ETag := ETag c;
     CSizeBytes := CSizeBytes c |}.

Definition set_done (c : Chunk) (sha etag : string) (size : Z) : Chunk :=
  {| Index := Index c; CState := ChunkDone; CSHA256 := sha; ETag := etag;
     CSizeBytes := size |}.

(** ** The interface *)

Inductive storeE : Type -> Type :=
| CreateSession (s : Session) : storeE ()
| GetSession (id : string) : storeE Session
| GetChunks (id : string) : storeE (list Chunk)
| ClaimChunk (id : string) (index : Z) : storeE ClaimResult
| MarkChunkDone (id : string) (index : Z) (sha256Hex etag : string) (sizeBytes : Z) : storeE ()
| MarkChunkRetry (id : string) (index : Z) : storeE ()
| SetSessionAssembled (id sha256Hex objectKey : string) : storeE ()
| SetSessionState (id : string) (state : SessionState) : storeE ().

(** A persisted session with its chunk map, indexed from 0. *)
Record entry := { en_session : Session; en_chunks : list Chunk }.

Definition pending (i : Z) : Chunk :=
  {| Index := i; CState := ChunkPending; CSHA256 := ""; ETag := ""; CSizeBytes := 0 |}.

(** The column constraints of the schema. *)
Definition row_ok (s : Session) : bool :=
  (0 <? SizeBytes s) && (0 <? ChunkSizeBytes s)
  && (0 <? ChunkCount s) && (ChunkCount s <? 2 ^ 31).

(** The columns of a fresh row: [sha256] and [object_key] take their default. *)
Definition fresh_row (s : Session) : Session :=
  {| ID := ID s; WorkspaceID := WorkspaceID s; UserID := UserID s;
     Filename := Filename s; SizeBytes := SizeBytes s; Mime := Mime s;
     ChunkSizeBytes := ChunkSizeBytes s; ChunkCount := ChunkCount s; State := State s;
     S3UploadID := S3UploadID s; StagingKey := StagingKey s; SHA256 := "";
     ObjectKey := "" |}.

Definition chunk_at (en : entry) (i : Z) : option Chunk :=
  if i <? 0 then None else en_chunks en !! Z.to_nat i.

Definition set_chunk (en : entry) (i : Z) (c : Chunk) : entry :=
  {| en_session := en_session en; en_chunks := <[Z.to_nat i := c]> (en_chunks en) |}.

Definition set_session (en : entry) (s : Session) : entry :=
  {| en_session := s; en_chunks := en_chunks en |}.

(** What the methods of [PostgresStore] promise; [ClaimChunk] moves a non DONE chunk
    (its comment in postgres.go), which is more than the interface documents: see
    [store_documented]. *)
Definition store_nominal {Y} (e : storeE Y) (m : gmap string entry)
    : result Y * gmap string entry :=
  match e in storeE Y return result Y * gmap string entry with
  | CreateSession s =>
      if negb (row_ok s) then (Err (EMsg "insert session"), m)
      else match m !! ID s with
           | Some _ => (Err (EMsg "insert session"), m)
           | None => (Ok (), <[ID s := {| en_session := fresh_row s;
                                          en_chunks := pending <$> seqZ 0 (ChunkCount s) |}]> m)
           end
  | GetSession id =>
      match m !! id with Some en => (Ok (en_session en), m) | None => (Err ENotFound, m) end
  | GetChunks id =>
      match m !! id with Some en => (Ok (en_chunks en), m) | None => (Ok [], m) end
  | ClaimChunk id i =>
      match m !! id ≫= fun en => (en,.) <$> chunk_at en i with
      | None => (Err ENotFound, m)
      | Some (en, c) =>
          if decide (CState c = ChunkDone) then (Ok ClaimAlreadyDone, m)
          else (Ok ClaimAcquired, <[id := set_chunk en i (set_cstate c ChunkInflight)]> m)
      end
  | MarkChunkDone id i sha etag size =>
      match m !! id ≫= fun en => (en,.) <$> chunk_at en i with
      | None => (Err ENotFound, m)
      | Some (en, c) => (Ok (), <[id := set_chunk en i (set_done c sha etag size)]> m)
      end
  | MarkChunkRetry id i =>
      match m !! id ≫= fun en => (en,.) <$> chunk_at en i with
      | None => (Err ENotFound, m)
      | Some (en, c) =>
          if decide (CState c = ChunkDone) then (Err ENotFound, m)
          else (Ok (), <[id := set_chunk en i (set_cstate c ChunkRetry)]> m)
      end
  | SetSessionAssembled id sha key =>
      match m !! id with
      | None => (Err ENotFound, m)
      | Some en => (Ok (), <[id := set_session en (set_assembled (en_session en) sha key)]> m)
      end
  | SetSessionState id st =>
      match m !! id with
      | None => (Err ENotFound, m)
      | Some en => (Ok (), <[id := set_session en (set_state (en_session en) st)]> m)
      end
  end.

(** The contract between the service and its store. *)
Class StoreImpl (S : Type) := {
  store_exec : forall Y, storeE Y -> S -> result Y * S;
  store_wf : S -> Prop;
  store_abs : S -> gmap string entry;
  store_exec_ok : forall Y (e : storeE Y) (s : S), store_wf s ->
    store_wf (store_exec Y e s).2 /\
    up_to_fault (store_nominal e (store_abs s)) (store_abs s)
      (store_exec Y e s).1 (store_abs (store_exec Y e s).2);
  store_ids : forall (s : S) id en, store_wf s -> store_abs s !! id = Some en ->
    ID (en_session en) = id
}.

(** ** postgres.go *)

Record tables := {
  upload_sessions : gmap string Session;
  upload_chunks : gmap (string * Z) Chunk
}.

Definition with_sessions (t : tables) (m : gmap string Session) : tables :=
  {| upload_sessions := m; upload_chunks := upload_chunks t |}.
Definition with_chunks (t : tables) (m : gmap (string * Z) Chunk) : tables :=
  {| upload_sessions := upload_sessions t; upload_chunks := m |}.

(** [UPDATE upload_chunks SET .. WHERE session_id = .. AND chunk_index = .. AND p]:
    the number of rows it affected, and the tables after it. *)
Definition update_chunk (id : string) (i : Z) (p : Chunk -> bool) (f : Chunk -> Chunk)
    (t : tables) : Z * tables :=
  match upload_chunks t !! (id, i) with
  | Some c => if p c then (1, with_chunks t (<[(id, i) := f c]> (upload_chunks t))) else (0, t)
  | None => (0, t)
  end.

Definition update_session (id : string) (f : Session -> Session) (t : tables) : Z * tables :=
  match upload_sessions t !! id with
  | Some s => (1, with_sessions t (<[id := f s]> (upload_sessions t)))
  | None => (0, t)
  end.

Definition not_done (c : Chunk) : bool := negb (bool_decide (CState c = ChunkDone)).

Definition chunk_rows (s : Session) : list ((string * Z) * Chunk) :=
  (fun i => ((ID s, i), pending i)) <$> seqZ 0 (ChunkCount s).

Definition pg_CreateSession (s : Session) (t : tables) : result () * tables :=
  if negb (row_ok s) then (Err (EMsg "insert session"), t)
  else match upload_sessions t !! ID s with
       | Some _ => (Err (EMsg "insert session"), t)
       | None => (Ok (), {| upload_sessions := <[ID s := fresh_row s]> (upload_sessions t);
                            upload_chunks := list_to_map (chunk_rows s) ∪ upload_chunks t |})
       end.

Definition pg_GetSession (id : string) (t : tables) : result Session :=
  match upload_sessions t !! id with Some s => Ok s | None => Err ENotFound end.

(** The rows of a session in index order. *)
Definition index_le (c d : Chunk) : Prop := Index c <= Index d.
#[export] Instance index_le_dec : RelDecision index_le.
Proof. intros c d. unfold index_le. apply _. Defined.

Definition pg_GetChunks (id : string) (t : tables) : list Chunk :=
  merge_sort index_le
    (snd <$> filter (fun p => p.1.1 = id) (map_to_list (upload_chunks t))).

Definition pg_ClaimChunk (id : string) (i : Z) (t : tables) : result ClaimResult * tables :=
  let '(rows, t') := update_chunk id i not_done (fun c => set_cstate c ChunkInflight) t in
  if rows =? 1 then (Ok ClaimAcquired, t')
  else match upload_chunks t' !! (id, i) with
       | None => (Err ENotFound, t')
       | Some c =>
           if decide (CState c = ChunkDone) then (Ok ClaimAlreadyDone, t')
           else (Err (EMsg "claim chunk: unexpected state"), t')
       end.

Definition pg_MarkChunkDone (id : string) (i : Z) (sha etag : string) (size : Z) (t : tables)
    : result () * tables :=
  let '(rows, t') := update_chunk id i (fun _ => true) (fun c => set_done c sha etag size) t in
  if rows =? 1 then (Ok (), t') else (Err ENotFound, t').

Definition pg_MarkChunkRetry (id : string) (i : Z) (t : tables) : result () * tables :=
  let '(rows, t') := update_chunk id i not_done (fun c => set_cstate c ChunkRetry) t in
  if rows =? 1 then (Ok (), t') else (Err ENotFound, t').

Definition pg_SetSessionAssembled (id sha key : string) (t : tables) : result () * tables :=
  let '(rows, t') := update_session id (fun s => set_assembled s sha key) t in
  if rows =? 1 then (Ok (), t') else (Err ENotFound, t').

Definition pg_SetSessionState (id : string) (st : SessionState) (t : tables)
    : result () * tables :=
  let '(rows, t') := update_session id (fun s => set_state s st) t in
  if rows =? 1 then (Ok (), t') else (Err ENotFound, t').

Definition pg_apply {Y} (e : storeE Y) (t : tables) : result Y * tables :=
  match e in storeE Y return result Y * tables with
  | CreateSession s => pg_CreateSession s t
  | GetSession id => (pg_GetSession id t, t)
  | GetChunks id => (Ok (pg_GetChunks id t), t)
  | ClaimChunk id i => pg_ClaimChunk id i t
  | MarkChunkDone id i sha etag size => pg_MarkChunkDone id i sha etag size t
  | MarkChunkRetry id i => pg_MarkChunkRetry id i t
  | SetSessionAssembled id sha key => pg_SetSessionAssembled id sha key t
  | SetSessionState id st => pg_SetSessionState id st t
  end.

(** The pool with the outcomes of its future statements. *)
Record postgres := { pg_tables : tables; pg_faults : list fault }.

Definition pg_exec (Y : Type) (e : storeE Y) (p : postgres) : result Y * postgres :=
  let '(f, fs) := next_fault (pg_faults p) in
  let '(r, t) := faulty f (EMsg "postgres") (pg_tables p) (pg_apply e (pg_tables p)) in
  (r, {| pg_tables := t; pg_faults := fs |}).

(** ** The SQL meets the interface *)

Definition entry_of (t : tables) (s : Session) : entry :=
  {| en_session := s;
     en_chunks := (fun i => default (pending i) (upload_chunks t !! (ID s, i)))
                    <$> seqZ 0 (ChunkCount s) |}.

Definition tables_abs (t : tables) : gmap string entry := entry_of t <$> upload_sessions t.

Record tables_wf (t : tables) : Prop := {
  wf_id : forall id s, upload_sessions t !! id = Some s -> ID s = id;
  wf_chunk : forall id i c, upload_chunks t !! (id, i) = Some c ->
    Index c = i /\ exists s, upload_sessions t !! id = Some s /\ 0 <= i < ChunkCount s;
  wf_total : forall id s i, upload_sessions t !! id = Some s -> 0 <= i < ChunkCount s ->
    is_Some (upload_chunks t !! (id, i))
}.

Lemma abs_lookup t id : tables_abs t !! id = entry_of t <$> upload_sessions t !! id.
Proof. apply lookup_fmap. Qed.

Lemma chunk_at_entry t id s i :
  tables_wf t -> upload_sessions t !! id = Some s ->
  chunk_at (entry_of t s) i = upload_chunks t !! (id, i).
Proof.
  intros Hwf Hs. pose proof (wf_id _ Hwf _ _ Hs) as Hid. unfold chunk_at; simpl.
  destruct (decide (0 <= i < ChunkCount s)) as [Hi|Hi].
  - destruct (Z.ltb_spec i 0); [lia|]. rewrite list_lookup_fmap, lookup_seqZ_lt by lia.
    destruct (wf_total _ Hwf _ _ _ Hs Hi) as [c Hc]. simpl.
    by rewrite Hid, Z.add_0_l, Z2Nat.id, Hc by lia.
  - assert (upload_chunks t !! (id, i) = None) as ->.
    { apply eq_None_not_Some. intros [c Hc].
      destruct (wf_chunk _ Hwf _ _ _ Hc) as (_ & s' & Hs' & Hi'). naive_solver. }
    destruct (Z.ltb_spec i 0); [done|].
    by rewrite list_lookup_fmap, lookup_seqZ_ge by lia.
Qed.

Lemma abs_chunk t id i :
  tables_wf t ->
  (tables_abs t !! id ≫= fun en => (en,.) <$> chunk_at en i)
  = c ← upload_chunks t !! (id, i); s ← upload_sessions t !! id; Some (entry_of t s, c).
Proof.
  intros Hwf. rewrite abs_lookup. destruct (upload_sessions t !! id) as [s|] eqn:Hs; simpl.
  - rewrite (chunk_at_entry _ _ _ _ Hwf Hs). by destruct (upload_chunks t !! (id, i)).
  - destruct (upload_chunks t !! (id, i)) as [c|] eqn:Hc; [|done].
    destruct (wf_chunk _ Hwf _ _ _ Hc) as (_ & s & Hs' & _). congruence.
Qed.

Lemma entry_of_update t id i c s :
  tables_wf t -> upload_sessions t !! id = Some s -> 0 <= i < ChunkCount s ->
  entry_of (with_chunks t (<[(id, i) := c]> (upload_chunks t))) s
  = set_chunk (entry_of t s) i c.
Proof.
  intros Hwf Hs Hi. pose proof (wf_id _ Hwf _ _ Hs) as Hid.
  unfold entry_of, set_chunk; simpl. f_equal. apply list_eq. intros k.
  destruct (decide (k = Z.to_nat i)) as [->|Hk].
  - rewrite list_lookup_insert_eq by (rewrite length_fmap, length_seqZ; lia).
    rewrite list_lookup_fmap, lookup_seqZ_lt by lia. simpl.
    by rewrite Hid, Z.add_0_l, Z2Nat.id, lookup_insert_eq by lia.
  - rewrite list_lookup_insert_ne, !list_lookup_fmap by done.
    destruct (seqZ 0 (ChunkCount s) !! k) as [j|] eqn:Hj; [|done]. simpl.
    apply lookup_seqZ in Hj as [-> _]. rewrite lookup_insert_ne; [done|].
    intros [= ?]. lia.
Qed.

Lemma abs_update_chunk t id i c s :
  tables_wf t -> upload_sessions t !! id = Some s -> 0 <= i < ChunkCount s ->
  tables_abs (with_chunks t (<[(id, i) := c]> (upload_chunks t)))
  = <[id := set_chunk (entry_of t s) i c]> (tables_abs t).
Proof.
  intros Hwf Hs Hi. apply map_eq. intros id'. rewrite abs_lookup. simpl.
  destruct (decide (id = id')) as [<-|Hne].
  - rewrite lookup_insert_eq, Hs. simpl. f_equal. by apply entry_of_update.
  - rewrite lookup_insert_ne, abs_lookup by done.
    destruct (upload_sessions t !! id') as [s'|] eqn:Hs'; [|done]. simpl. f_equal.
    pose proof (wf_id _ Hwf _ _ Hs') as Hid'. unfold entry_of; simpl. f_equal.
    apply list_fmap_ext. intros k j _. rewrite lookup_insert_ne; [done|]. congruence.
Qed.

Lemma abs_update_session t id s s' :
  upload_sessions t !! id = Some s -> ID s' = ID s -> ChunkCount s' = ChunkCount s ->
  tables_abs (with_sessions t (<[id := s']> (upload_sessions t)))
  = <[id := set_session (entry_of t s) s']> (tables_abs t).
Proof.
  intros Hs Hid Hc. apply map_eq. intros id'. rewrite abs_lookup. simpl.
  destruct (decide (id = id')) as [<-|Hne].
  - rewrite !lookup_insert_eq. simpl. unfold entry_of, set_session; simpl. by rewrite Hid, Hc.
  - by rewrite !lookup_insert_ne, abs_lookup by done.
Qed.

Lemma wf_update_chunk t id i c c' :
  tables_wf t -> upload_chunks t !! (id, i) = Some c -> Index c' = Index c ->
  tables_wf (with_chunks t (<[(id, i) := c']> (upload_chunks t))).
Proof.
  intros Hwf Hc Hix. split; simpl.
  - apply (wf_id _ Hwf).
  - intros id' i' d Hd. destruct (decide ((id, i) = (id', i'))) as [[= <- <-]|Hne].
    + rewrite lookup_insert_eq in Hd. simplify_eq. rewrite Hix. by apply (wf_chunk _ Hwf).
    + rewrite lookup_insert_ne in Hd by done. by apply (wf_chunk _ Hwf).
  - intros id' s i' Hs Hi. destruct (decide ((id, i) = (id', i'))) as [[= <- <-]|Hne].
    + rewrite lookup_insert_eq. by eexists.
    + rewrite lookup_insert_ne by done. by eapply (wf_total _ Hwf).
Qed.

Lemma wf_update_session t id s s' :
  tables_wf t -> upload_sessions t !! id = Some s -> ID s' = ID s ->
  ChunkCount s' = ChunkCount s ->
  tables_wf (with_sessions t (<[id := s']> (upload_sessions t))).
Proof.
  intros Hwf Hs Hid Hcc. split; simpl.
  - intros id' s2 H. destruct (decide (id = id')) as [<-|Hne].
    + rewrite lookup_insert_eq in H. simplify_eq. rewrite Hid. by apply (wf_id _ Hwf).
    + rewrite lookup_insert_ne in H by done. by apply (wf_id _ Hwf).
  - intros id' i c Hc. destruct (wf_chunk _ Hwf _ _ _ Hc) as (Hix & s2 & Hs2 & Hi).
    split; [done|]. destruct (decide (id = id')) as [<-|Hne].
    + rewrite lookup_insert_eq. simplify_eq. eexists; split; [done|lia].
    + rewrite lookup_insert_ne by done. eauto.
  - intros id' s2 i H Hi. destruct (decide (id = id')) as [<-|Hne].
    + rewrite lookup_insert_eq in H. simplify_eq. eapply (wf_total _ Hwf); [done|lia].
    + rewrite lookup_insert_ne in H by done. by eapply (wf_total _ Hwf).
Qed.

Lemma rows_elem t id c :
  c ∈ snd <$> filter (fun p : (string * Z) * Chunk => p.1.1 = id) (map_to_list (upload_chunks t))
  <-> exists i, upload_chunks t !! (id, i) = Some c.
Proof.
  rewrite list_elem_of_fmap. split.
  - intros [[[id' i] c'] [-> Hin]]. apply list_elem_of_filter in Hin as [Hid Hin].
    simpl in Hid; subst id'. exists i. by apply elem_of_map_to_list in Hin.
  - intros [i Hi]. exists ((id, i), c). split; [done|].
    apply list_elem_of_filter. split; [done|]. by apply elem_of_map_to_list.
Qed.

Lemma entry_chunks_elem t id s c :
  tables_wf t -> upload_sessions t !! id = Some s ->
  c ∈ en_chunks (entry_of t s) <-> exists i, upload_chunks t !! (id, i) = Some c.
Proof.
  intros Hwf Hs. pose proof (wf_id _ Hwf _ _ Hs) as Hid. simpl. rewrite list_elem_of_fmap. split.
  - intros [i [-> Hi]]. exists i. apply elem_of_seqZ in Hi.
    destruct (wf_total _ Hwf _ _ i Hs) as [c Hc]; [lia|]. by rewrite Hid, Hc.
  - intros [i Hc]. destruct (wf_chunk _ Hwf _ _ _ Hc) as (_ & s' & Hs' & Hi). simplify_eq.
    exists i. split; [by rewrite Hc|]. apply elem_of_seqZ. lia.
Qed.

Lemma seqZ_sorted m n : StronglySorted Z.lt (seqZ m n).
Proof.
  destruct (Z.le_gt_cases n 0) as [Hn|Hn]; [rewrite seqZ_nil by lia; constructor|].
  revert m. assert (H0 : 0 <= n) by lia. clear Hn. revert n H0.
  refine (natlike_ind _ _ _).
  - intros m. rewrite seqZ_nil by lia. constructor.
  - intros n Hn IH m. rewrite seqZ_cons by lia. rewrite Z.pred_succ. constructor; [apply IH|].
    apply Forall_forall. intros j Hj%elem_of_seqZ. lia.
Qed.

Lemma entry_chunks_sorted t id s :
  tables_wf t -> upload_sessions t !! id = Some s ->
  StronglySorted index_le (en_chunks (entry_of t s)) /\ NoDup (en_chunks (entry_of t s)).
Proof.
  intros Hwf Hs. pose proof (wf_id _ Hwf _ _ Hs) as Hid. simpl.
  assert (Hix : forall i, i ∈ seqZ 0 (ChunkCount s) ->
            Index (default (pending i) (upload_chunks t !! (ID s, i))) = i).
  { intros i Hi. apply elem_of_seqZ in Hi.
    destruct (wf_total _ Hwf _ _ i Hs) as [c Hc]; [lia|]. rewrite Hid, Hc. simpl.
    by apply (wf_chunk _ Hwf _ _ _ Hc). }
  split.
  - assert (Hsrt : forall l : list Z, (forall i, i ∈ l -> i ∈ seqZ 0 (ChunkCount s)) ->
              StronglySorted Z.lt l -> StronglySorted index_le
                ((fun i => default (pending i) (upload_chunks t !! (ID s, i))) <$> l)).
    { intros l Hl. induction 1 as [|i l Hlt IH Hall]; [constructor|].
      rewrite fmap_cons. constructor; [apply IH; set_solver|].
      apply Forall_forall. intros c [j [-> Hj]]%list_elem_of_fmap.
      unfold index_le. rewrite !Hix by set_solver.
      apply (proj1 (Forall_forall _ _) Hall) in Hj. lia. }
    apply Hsrt; [done|apply seqZ_sorted].
  - apply NoDup_fmap_2_strong; [|apply NoDup_seqZ].
    intros i j Hi Hj Heq. rewrite <-(Hix i Hi), <-(Hix j Hj). by rewrite Heq.
Qed.

Lemma index_inj t id c d :
  tables_wf t -> (exists i, upload_chunks t !! (id, i) = Some c) ->
  (exists i, upload_chunks t !! (id, i) = Some d) -> Index c = Index d -> c = d.
Proof.
  intros Hwf [i Hc] [j Hd] Heq. destruct (wf_chunk _ Hwf _ _ _ Hc) as [Hi _].
  destruct (wf_chunk _ Hwf _ _ _ Hd) as [Hj _]. congruence.
Qed.

#[local] Instance index_le_total : Total index_le.
Proof. intros c d. unfold index_le. lia. Qed.
#[local] Instance index_le_trans : Transitive index_le.
Proof. intros a b c. unfold index_le. lia. Qed.

(** The rows in index order are the session's chunk map. *)
Lemma pg_GetChunks_entry t id s :
  tables_wf t -> upload_sessions t !! id = Some s ->
  pg_GetChunks id t = en_chunks (entry_of t s).
Proof.
  intros Hwf Hs. destruct (entry_chunks_sorted _ _ _ Hwf Hs) as [Hsort Hnd].
  unfold pg_GetChunks. set (l := snd <$> _).
  assert (Hl : forall c, c ∈ l <-> exists i, upload_chunks t !! (id, i) = Some c)
    by (intros c; apply rows_elem).
  assert (Hndl : NoDup l).
  { subst l. apply NoDup_fmap_2_strong; [|apply NoDup_filter, NoDup_map_to_list].
    intros [[i1 k1] c1] [[i2 k2] c2] [E1 H1]%list_elem_of_filter [E2 H2]%list_elem_of_filter Heq.
    simpl in *. subst. apply elem_of_map_to_list in H1, H2.
    destruct (wf_chunk _ Hwf _ _ _ H1) as [<- _]. by destruct (wf_chunk _ Hwf _ _ _ H2) as [<- _]. }
  assert (Hp : l ≡ₚ en_chunks (entry_of t s)).
  { apply NoDup_Permutation; [done|done|]. intros c.
    by rewrite Hl, (entry_chunks_elem _ _ _ _ Hwf Hs). }
  eapply (StronglySorted_unique_strong index_le).
  - intros c d Hc Hd Hcd Hdc. rewrite merge_sort_Permutation in Hc.
    rewrite Hl in Hc. rewrite <-Hp in Hd. rewrite Hl in Hd.
    eapply index_inj; [done..|]. unfold index_le in *. lia.
  - by apply StronglySorted_merge_sort; apply _.
  - done.
  - by rewrite merge_sort_Permutation.
Qed.

Lemma chunk_rows_lookup s id i :
  (list_to_map (chunk_rows s) : gmap (string * Z) Chunk) !! (id, i)
  = if decide (id = ID s /\ 0 <= i < ChunkCount s) then Some (pending i) else None.
Proof.
  assert (Hk : (chunk_rows s).*1 = (fun i => (ID s, i)) <$> seqZ 0 (ChunkCount s)).
  { unfold chunk_rows. by rewrite <-list_fmap_compose. }
  case_decide as Hd.
  - destruct Hd as [-> Hi]. apply elem_of_list_to_map_1.
    + rewrite Hk. apply NoDup_fmap_2; [by intros ?? [=]|apply NoDup_seqZ].
    + apply list_elem_of_fmap. exists i. split; [done|]. apply elem_of_seqZ. lia.
  - apply not_elem_of_list_to_map_1. rewrite Hk. intros [j [[= -> ->] Hj]]%list_elem_of_fmap.
    apply elem_of_seqZ in Hj. apply Hd. split; [done|lia].
Qed.

Section create.
Context (t : tables) (s : Session).
Hypothesis Hwf : tables_wf t.
Hypothesis Hok : row_ok s = true.
Hypothesis Hnew : upload_sessions t !! ID s = None.

Let t' : tables := {| upload_sessions := <[ID s := fresh_row s]> (upload_sessions t);
                      upload_chunks := list_to_map (chunk_rows s) ∪ upload_chunks t |}.

Lemma create_chunks id i :
  upload_chunks t' !! (id, i)
  = if decide (id = ID s /\ 0 <= i < ChunkCount s) then Some (pending i)
    else upload_chunks t !! (id, i).
Proof.
  simpl. destruct (decide (id = ID s /\ 0 <= i < ChunkCount s)) as [Hd|Hd].
  - apply lookup_union_Some_l. rewrite chunk_rows_lookup. by rewrite decide_True.
  - apply lookup_union_r. rewrite chunk_rows_lookup. by rewrite decide_False.
Qed.

Lemma no_old_chunks i : upload_chunks t !! (ID s, i) = None.
Proof.
  apply eq_None_not_Some. intros [c Hc].
  destruct (wf_chunk _ Hwf _ _ _ Hc) as (_ & s' & Hs' & _). congruence.
Qed.

Lemma create_wf : tables_wf t'.
Proof.
  split.
  - simpl. intros id s' H. destruct (decide (ID s = id)) as [<-|Hne].
    + rewrite lookup_insert_eq in H. by simplify_eq.
    + rewrite lookup_insert_ne in H by done. by apply (wf_id _ Hwf).
  - intros id i c. rewrite create_chunks. case_decide as Hd.
    + intros [= <-]. destruct Hd as [-> Hi]. split; [done|]. exists (fresh_row s).
      simpl. rewrite lookup_insert_eq. done.
    + intros Hc. destruct (wf_chunk _ Hwf _ _ _ Hc) as (Hi & s' & Hs' & Hr).
      split; [done|]. exists s'. simpl. rewrite lookup_insert_ne; [done|congruence].
  - intros id s' i. rewrite create_chunks. simpl. case_decide as Hd; [done|].
    destruct (decide (ID s = id)) as [<-|Hne].
    + rewrite lookup_insert_eq. intros [= <-]. simpl. tauto.
    + rewrite lookup_insert_ne by done. apply (wf_total _ Hwf).
Qed.

Lemma create_abs :
  tables_abs t' = <[ID s := {| en_session := fresh_row s;
                               en_chunks := pending <$> seqZ 0 (ChunkCount s) |}]> (tables_abs t).
Proof.
  apply map_eq. intros id. rewrite abs_lookup. simpl.
  destruct (decide (ID s = id)) as [<-|Hne].
  - rewrite !lookup_insert_eq. simpl. f_equal. unfold entry_of. f_equal.
    apply list_fmap_ext. intros k i Hi%list_elem_of_lookup_2%elem_of_seqZ.
    rewrite create_chunks, decide_True; [done|]. simpl. split; [done|lia].
  - rewrite !lookup_insert_ne, abs_lookup by done.
    destruct (upload_sessions t !! id) as [s'|] eqn:Hs'; [|done]. simpl. f_equal.
    unfold entry_of. f_equal. apply list_fmap_ext. intros k i _.
    rewrite (wf_id _ Hwf _ _ Hs'). rewrite create_chunks, decide_False; [done|]. naive_solver.
Qed.
End create.

(** ** Every statement does what the interface says *)

Definition refines {Y} (e : storeE Y) (t : tables) : Prop :=
  tables_wf (pg_apply e t).2 /\
  ((pg_apply e t).1, tables_abs (pg_apply e t).2) = store_nominal e (tables_abs t).

Lemma refines_chunk_update t id i p f (c : Chunk) s :
  tables_wf t -> upload_chunks t !! (id, i) = Some c -> upload_sessions t !! id = Some s ->
  (forall d, Index (f d) = Index d) ->
  update_chunk id i p f t
    = (if p c then (1, with_chunks t (<[(id, i) := f c]> (upload_chunks t))) else (0, t)) /\
  tables_wf (with_chunks t (<[(id, i) := f c]> (upload_chunks t))) /\
  tables_abs (with_chunks t (<[(id, i) := f c]> (upload_chunks t)))
    = <[id := set_chunk (entry_of t s) i (f c)]> (tables_abs t).
Proof.
  intros Hwf Hc Hs Hf. split; [by unfold update_chunk; rewrite Hc|].
  destruct (wf_chunk _ Hwf _ _ _ Hc) as (_ & s' & Hs' & Hi). simplify_eq.
  split; [by eapply wf_update_chunk|]. by apply abs_update_chunk.
Qed.

Lemma refines_session_update t id f s :
  tables_wf t -> upload_sessions t !! id = Some s ->
  ID (f s) = ID s -> ChunkCount (f s) = ChunkCount s ->
  update_session id f t = (1, with_sessions t (<[id := f s]> (upload_sessions t))) /\
  tables_wf (with_sessions t (<[id := f s]> (upload_sessions t))) /\
  tables_abs (with_sessions t (<[id := f s]> (upload_sessions t)))
    = <[id := set_session (entry_of t s) (f s)]> (tables_abs t).
Proof.
  intros Hwf Hs Hid Hcc. split; [by unfold update_session; rewrite Hs|].
  split; [by eapply wf_update_session|]. by apply abs_update_session.
Qed.

(** The row a chunk statement looks for, with its session. *)
Lemma chunk_row_cases t id i :
  tables_wf t ->
  (upload_chunks t !! (id, i) = None /\
   (tables_abs t !! id ≫= fun en => (en,.) <$> chunk_at en i) = None) \/
  exists c s, upload_chunks t !! (id, i) = Some c /\ upload_sessions t !! id = Some s /\
    (tables_abs t !! id ≫= fun en => (en,.) <$> chunk_at en i) = Some (entry_of t s, c).
Proof.
  intros Hwf. rewrite (abs_chunk _ _ _ Hwf).
  destruct (upload_chunks t !! (id, i)) as [c|] eqn:Hc; [right|by left].
  destruct (wf_chunk _ Hwf _ _ _ Hc) as (_ & s & Hs & _).
  exists c, s. by rewrite Hs.
Qed.

Lemma refines_ClaimChunk t id i : tables_wf t -> refines (ClaimChunk id i) t.
Proof.
  intros Hwf. unfold refines; simpl. unfold pg_ClaimChunk.
  destruct (chunk_row_cases t id i Hwf) as [[Hc ->]|(c & s & Hc & Hs & ->)].
  - unfold update_chunk. rewrite Hc. simpl. by rewrite Hc.
  - destruct (refines_chunk_update t id i not_done (fun c => set_cstate c ChunkInflight)
                c s Hwf Hc Hs ltac:(done)) as (-> & Hw & Ha).
    unfold not_done. case_bool_decide as Hd; simpl.
    + rewrite Hc, !decide_True by done. done.
    + rewrite decide_False by done. by rewrite Ha.
Qed.

Lemma refines_MarkChunkDone t id i sha etag size :
  tables_wf t -> refines (MarkChunkDone id i sha etag size) t.
Proof.
  intros Hwf. unfold refines; simpl. unfold pg_MarkChunkDone.
  destruct (chunk_row_cases t id i Hwf) as [[Hc ->]|(c & s & Hc & Hs & ->)].
  - unfold update_chunk. by rewrite Hc.
  - destruct (refines_chunk_update t id i (fun _ => true) (fun c => set_done c sha etag size)
                c s Hwf Hc Hs ltac:(done)) as (-> & Hw & Ha). simpl. by rewrite Ha.
Qed.

Lemma refines_MarkChunkRetry t id i : tables_wf t -> refines (MarkChunkRetry id i) t.
Proof.
  intros Hwf. unfold refines; simpl. unfold pg_MarkChunkRetry.
  destruct (chunk_row_cases t id i Hwf) as [[Hc ->]|(c & s & Hc & Hs & ->)].
  - unfold update_chunk. by rewrite Hc.
  - destruct (refines_chunk_update t id i not_done (fun c => set_cstate c ChunkRetry)
                c s Hwf Hc Hs ltac:(done)) as (-> & Hw & Ha).
    unfold not_done. case_bool_decide as Hd; simpl.
    + by rewrite decide_True by done.
    + rewrite decide_False by done. by rewrite Ha.
Qed.

Lemma refines_SetSessionAssembled t id sha key :
  tables_wf t -> refines (SetSessionAssembled id sha key) t.
Proof.
  intros Hwf. unfold refines; simpl. unfold pg_SetSessionAssembled. rewrite abs_lookup.
  destruct (upload_sessions t !! id) as [s|] eqn:Hs; simpl.
  - destruct (refines_session_update t id (fun s => set_assembled s sha key) s Hwf Hs)
      as (-> & Hw & Ha); [done..|]. simpl. by rewrite Ha.
  - unfold update_session. by rewrite Hs.
Qed.

Lemma refines_SetSessionState t id st :
  tables_wf t -> refines (SetSessionState id st) t.
Proof.
  intros Hwf. unfold refines; simpl. unfold pg_SetSessionState. rewrite abs_lookup.
  destruct (upload_sessions t !! id) as [s|] eqn:Hs; simpl.
  - destruct (refines_session_update t id (fun s => set_state s st) s Hwf Hs)
      as (-> & Hw & Ha); [done..|]. simpl. by rewrite Ha.
  - unfold update_session. by rewrite Hs.
Qed.

Lemma pg_apply_refines {Y} (e : storeE Y) t : tables_wf t -> refines e t.
Proof.
  intros Hwf. destruct e.
  - unfold refines; simpl. unfold pg_CreateSession.
    destruct (row_ok s) eqn:Hok; simpl; [|done].
    rewrite abs_lookup. destruct (upload_sessions t !! ID s) as [s0|] eqn:Hs; simpl; [done|].
    split; [by apply create_wf|]. by rewrite (create_abs _ _ Hwf).
  - unfold refines; simpl. unfold pg_GetSession. rewrite abs_lookup.
    by destruct (upload_sessions t !! id).
  - unfold refines; simpl. rewrite abs_lookup.
    destruct (upload_sessions t !! id) as [s|] eqn:Hs; simpl.
    + by rewrite (pg_GetChunks_entry _ _ _ Hwf Hs).
    + split; [done|]. do 2 f_equal. unfold pg_GetChunks.
      apply Permutation_nil_r. rewrite merge_sort_Permutation. apply Permutation_nil_r.
      apply elem_of_nil_inv. intros c [i Hc]%rows_elem.
      destruct (wf_chunk _ Hwf _ _ _ Hc) as (_ & s & Hs' & _). congruence.
  - by apply refines_ClaimChunk.
  - by apply refines_MarkChunkDone.
  - by apply refines_MarkChunkRetry.
  - by apply refines_SetSessionAssembled.
  - by apply refines_SetSessionState.
Qed.

Definition no_tables : tables := {| upload_sessions := ∅; upload_chunks := ∅ |}.

Lemma no_tables_wf : tables_wf no_tables.
Proof. split; simpl; intros *; rewrite lookup_empty; done. Qed.

Lemma pg_exec_ok Y (e : storeE Y) (p : postgres) :
  tables_wf (pg_tables p) ->
  tables_wf (pg_tables (pg_exec Y e p).2) /\
  up_to_fault (store_nominal e (tables_abs (pg_tables p))) (tables_abs (pg_tables p))
    (pg_exec Y e p).1 (tables_abs (pg_tables (pg_exec Y e p).2)).
Proof.
  intros Hwf. destruct (pg_apply_refines e _ Hwf) as [Hw Ha]. rewrite <-Ha.
  unfold pg_exec. destruct (next_fault _) as [[] fs]; simpl;
    destruct (pg_apply e (pg_tables p)) as [r t] eqn:Hp; simpl; split; try done;
    unfold up_to_fault; simpl; naive_solver.
Qed.

Lemma tables_ids t id en : tables_wf t -> tables_abs t !! id = Some en -> ID (en_session en) = id.
Proof.
  intros Hwf. rewrite abs_lookup. intros (s & Hs & ->)%fmap_Some. by apply (wf_id _ Hwf).
Qed.

#[export] Instance postgres_store : StoreImpl postgres := {
  store_exec := pg_exec;
  store_wf p := tables_wf (pg_tables p);
  store_abs p := tables_abs (pg_tables p);
  store_exec_ok := pg_exec_ok;
  store_ids p id en := tables_ids (pg_tables p) id en
}.

(** ** The documented claim

    The comment on [Store.ClaimChunk] (store.go) lets a claim take a PENDING or RETRY
    chunk, or a [stale] INFLIGHT one; it does not say which those are, and a claim of
    any other chunk does not move it. *)
Definition fresh_inflight (stale : string -> Z -> bool) {Y} (e : storeE Y) (m : gmap string entry) : bool :=
  match e with
  | ClaimChunk id i =>
      match m !! id ≫= fun en => chunk_at en i with
      | Some c => bool_decide (CState c = ChunkInflight) && negb (stale id i)
      | None => false
      end
  | _ => false
  end.

Definition store_documented (stale : string -> Z -> bool) {Y} (e : storeE Y) (m : gmap string entry)
    (out : result Y * gmap string entry) : Prop :=
  if fresh_inflight stale e m then is_ok out.1 = false /\ out.2 = m else out = store_nominal e m.

(** The statements promise what the comment says, but for the claim of a chunk that
    is INFLIGHT and not stale: it succeeds. *)
Lemma nominal_documented stale {Y} (e : storeE Y) m :
  store_documented stale e m (store_nominal e m) <-> fresh_inflight stale e m = false.
Proof.
  unfold store_documented. destruct (fresh_inflight stale e m) eqn:Hf; [|done].
  split; [|done]. intros [Hok _]. exfalso. destruct e; try discriminate Hf. simpl in *.
  destruct (m !! id) as [en|]; [|discriminate Hf]. simpl in *.
  destruct (chunk_at en index) as [c|]; [|discriminate Hf]. simpl in *.
  apply andb_true_iff in Hf as [Hc%bool_decide_eq_true _].
  rewrite decide_False in Hok by congruence. discriminate Hok.
Qed.

(** C33: every sequence of statements on the SQL tables, started on the empty
    schema and cut short or left unacknowledged by faults anywhere, keeps the
    tables consistent (ids match keys, every session has exactly its chunk rows)
    and, when no statement is faulted, returns statement by statement what
    [store_nominal] says, the contract the handlers are verified against.  That is the
    contract documented at the interface, whichever in-flight chunks count as stale, in
    every case but one: a claim of a chunk that is INFLIGHT and not stale should not
    take it, and does. *)
Theorem postgres_refines_store Y (e : storeE Y) A (p : prog (res storeE) A) fs :
  let w := (run (fun X (c : res storeE X) => match c with R e => pg_exec _ e end) p
              {| pg_tables := no_tables; pg_faults := fs |}).2 in
  let out := ((pg_exec Y e w).1, tables_abs (pg_tables (pg_exec Y e w).2)) in
  tables_wf (pg_tables w) /\
  up_to_fault (store_nominal e (tables_abs (pg_tables w))) (tables_abs (pg_tables w)) out.1 out.2 /\
  (pg_faults w = [] ->
   out = store_nominal e (tables_abs (pg_tables w)) /\
   forall stale, store_documented stale e (tables_abs (pg_tables w)) out <->
                 fresh_inflight stale e (tables_abs (pg_tables w)) = false).
Proof.
  intros w out. assert (Hwf : tables_wf (pg_tables w)).
  { apply (run_invariant _ (fun w => tables_wf (pg_tables w))); [|apply no_tables_wf].
    intros X [Z e'] w' Hw. by apply pg_exec_ok. }
  split; [done|]. split; [by apply pg_exec_ok|]. intros Hfs.
  assert (Hout : out = store_nominal e (tables_abs (pg_tables w))).
  { destruct (pg_apply_refines e _ Hwf) as [_ Ha]. rewrite <-Ha. unfold out, pg_exec. rewrite Hfs. simpl.
    by destruct (pg_apply e (pg_tables w)). }
  split; [exact Hout|]. intros stale. rewrite Hout. apply nominal_documented.
Qed.

Definition example_session : Session :=
  {| ID := "u1"; WorkspaceID := "ws"; UserID := "user"; Filename := "f"; SizeBytes := 6;
     Mime := "video/mp4"; ChunkSizeBytes := 4; ChunkCount := 2; State := SessionActive;
     S3UploadID := "mp"; StagingKey := "staging/u1"; SHA256 := ""; ObjectKey := "" |}.

(** After a creation whose acknowledgement was lost, the chunk is claimed. *)
Lemma postgres_refines_store_witness :
  let w := (run (fun X (c : res storeE X) => match c with R e => pg_exec _ e end)
              (call (R (CreateSession example_session)))
              {| pg_tables := no_tables; pg_faults := [FAfter] |}).2 in
  pg_faults w = [] /\
  ((pg_exec _ (ClaimChunk "u1" 1) w).1,
   tables_abs (pg_tables (pg_exec _ (ClaimChunk "u1" 1) w).2))
  = store_nominal (ClaimChunk "u1" 1) (tables_abs (pg_tables w)).
Proof.
  split; [vm_compute; reflexivity|].
  apply (postgres_refines_store _ (ClaimChunk "u1" 1) _
           (call (R (CreateSession example_session))) [FAfter]).
  vm_compute. reflexivity.
Defined.

(** Two claims of one chunk both own the write, though the first is under way. *)
Example inflight_chunk_claimed_again :
  let exec := fun X (c : res storeE X) => match c with R e => pg_exec _ e end in
  (run exec (_ ← call (R (CreateSession example_session));
             a ← call (R (ClaimChunk "u1" 0)); b ← call (R (ClaimChunk "u1" 0)); Ret (a, b))
     {| pg_tables := no_tables; pg_faults := [] |}).1 = (Ok ClaimAcquired, Ok ClaimAcquired).
Proof. vm_compute. reflexivity. Qed.
