(* ===== verification/UploadServer.v ===== *)
(** * services/upload/server.go: the upload session API

    Each handler is a program over [upE], the union of what a [Server] holds: the
    session store, the object store, the quota checker, the publisher, the shared
    inflight gauge and backoff director, the clock and the id generator.  The
    handler's result is the response; logging is left out. *)
From S2P Require Export Http Backpressure UploadStore BlobStore.
#[local] Open Scope Z_scope.

Record Server := { maxObjectBytes : Z; publishRetries : nat; chunkSize : Z }.

Definition ChunkSizeBytes_default : Z := Z.shiftl 64 20.

Definition NewServer (maxObject : Z) : Server :=
  {| maxObjectBytes := maxObject; publishRetries := 3; chunkSize := ChunkSizeBytes_default |}.

(** An event before it is marshalled. *)
Inductive payload := PLanded (e : LandedObjectEvent) | PMetering (e : MeteringEvent).

Inductive upE : Type -> Type :=
| Store {Y} (e : storeE Y) : upE (result Y)
| Blob {Y} (e : blobE Y) : upE (result Y)
| Quota (workspaceID : string) (size : Z) : upE (result QuotaDecision)
| Publish (subject : string) (data : payload) : upE (result ())
| Gauge_TryAcquire (n : Z) : upE bool
| Gauge_Release (n : Z) : upE ()
| Backoff_Deny (id : string) : upE duration
| Backoff_Reset (id : string) : upE ()
| NewV7 : upE (result string)
| Now : upE time
| WaitDone (d : duration) : upE (option gerror).
(* [WaitDone d]: the [select] of ctx.Done() against a timer. *)

(** What the handlers read of a request.  [rq_decode] is the outcome of the strict
    JSON decoding of the first value of the body, [rq_more] whether data follows
    it, and [rq_body] the raw stream of a chunk body. *)
Record createRequest := { cr_Filename : string; cr_SizeBytes : Z; cr_Mime : string }.

Record request := {
  rq_identity : option Identity;
  rq_id : string;
  rq_n : string;
  rq_decode : result createRequest;
  rq_more : bool;
  rq_ContentLength : Z;
  rq_ChunkSha256 : string;
  rq_body : stream
}.

(** [^[A-Za-z0-9!#$&^_.+-]{1,127}/[A-Za-z0-9!#$&^_.+-]{1,127}$] *)
Definition mime_char (c : ascii) : bool := is_alnum c || one_of "!#$&^_.+-" c.
Definition mimePattern (s : string) : bool :=
  match Cut s "/" with
  | Some (a, b) => match_class mime_char 1 127 a && match_class mime_char 1 127 b
  | None => false
  end.

(** Control characters and [/]: all below 0x80, so bytes and runes agree. *)
Definition filename_char (c : ascii) : bool :=
  negb (Ascii.eqb c "/") && (32 <=? nat_of_ascii c)%nat.

Definition validateCreate (req : createRequest) (maxObject : Z) : string :=
  if (slen (cr_Filename req) =? 0) || (512 <? slen (cr_Filename req))
  then "filename must be 1..512 characters"
  else if negb (all_chars filename_char (cr_Filename req))
  then "filename must not contain path separators or control characters"
  else if cr_SizeBytes req <=? 0 then "sizeBytes must be positive"
  else if maxObject <? cr_SizeBytes req
  then "sizeBytes exceeds service maximum " +:+ itoa maxObject
  else if negb (mimePattern (cr_Mime req)) then "mime must be a type/subtype token"
  else "".

Section handlers.
(** SHA-256 in lowercase hex, and [uuid.Parse] giving the canonical text. *)
Context (sha256hex : string -> string).
Context (uuid_Parse : string -> option string).
Context (srv : Server).

(** ** Publishing *)

Definition marshal_ok (v : payload) : bool :=
  match v with
  | PLanded e => marshal_time_ok (le_LandedAt e)
  | PMetering e => marshal_time_ok (me_At e)
  end.

Fixpoint publish_loop (left : nat) (attempt : Z) (last : result ()) (subject : string)
    (data : payload) : prog upE (result ()) :=
  match left with
  | O => Ret last
  | S left' =>
      sent ← call (Publish subject data);
      match sent with
      | Ok _ => Ret (Ok ())
      | Err e =>
          stop ← call (WaitDone ((attempt + 1) * 100 * Millisecond));
          match stop with
          | Some ctx_err => Ret (Err ctx_err)
          | None => publish_loop left' (attempt + 1) (Err e) subject data
          end
      end
  end.

Definition publishJSON (subject : string) (v : payload) : prog upE (result ()) :=
  if negb (marshal_ok v) then Ret (Err (EMsg ("marshal " +:+ subject)))
  else publish_loop (publishRetries srv) 0 (Ok ()) subject v.

Definition publishMetering (id : Identity) (kind : MeteringKind) (bytes : option Z)
    (jobID : string) : prog upE (result ()) :=
  eventID ← call NewV7;
  match eventID with
  | Err e => Ret (Err e)
  | Ok eventID =>
      now ← call Now;
      publishJSON SubjectMetering (PMetering
        {| me_EventID := eventID; me_WorkspaceID := id_WorkspaceID id;
           me_UserID := id_UserID id; me_Kind := kind; me_Bytes := bytes;
           me_EncodeSeconds := None; me_JobID := jobID; me_At := now |})
  end.

(** ** POST /v1/uploads *)

Definition chunk_count (size : Z) : Z := Z.quot (i64 (size + chunkSize srv - 1)) (chunkSize srv).

Definition new_session (sessionID : string) (id : Identity) (req : createRequest)
    (s3UploadID : string) : Session :=
  {| ID := sessionID; WorkspaceID := id_WorkspaceID id; UserID := id_UserID id;
     Filename := cr_Filename req; SizeBytes := cr_SizeBytes req; Mime := cr_Mime req;
     ChunkSizeBytes := chunkSize srv; ChunkCount := chunk_count (cr_SizeBytes req);
     State := SessionActive; S3UploadID := s3UploadID;
     StagingKey := "staging/" +:+ sessionID; SHA256 := ""; ObjectKey := "" |}.

(** What follows the persisted session: the metering event, or the rollback. *)
Definition create_publish (id : Identity) (sess : Session) : prog upE response :=
  metered ← publishMetering id MeteringUploadSessionCreated (Some (SizeBytes sess)) "";
  match metered with
  | Err _ =>
      cancelled ← call (Store (SetSessionState (ID sess) SessionCancelled));
      _ ← match cancelled with
          | Err _ => Ret (Ok ())
          | Ok _ => call (Blob (AbortMultipart (StagingKey sess) (S3UploadID sess)))
          end;
      Ret (writeError 503 "event_publish_failed" "could not emit metering event; retry")
  | Ok _ =>
      Ret (writeJSON 201 (JObj [("uploadId", JStr (ID sess));
                                ("chunkSizeBytes", JNum (chunkSize srv));
                                ("chunkCount", JNum (ChunkCount sess))]))
  end.

Definition handleCreate (r : request) : prog upE response :=
  match rq_identity r with
  | None => Ret (writeError 401 "unauthorized" "no identity")
  | Some id =>
  match rq_decode r with
  | Err _ => Ret (writeError 400 "invalid_body" "body must be a JSON object with filename, sizeBytes, mime")
  | Ok req =>
  if rq_more r then Ret (writeError 400 "invalid_body" "trailing data after JSON object")
  else let msg := validateCreate req (maxObjectBytes srv) in
  if negb (String.eqb msg "") then Ret (writeError 400 "invalid_body" msg)
  else
    decision ← call (Quota (id_WorkspaceID id) (cr_SizeBytes req));
    match decision with
    | Err _ => Ret (writeError 500 "quota_error" "quota check failed")
    | Ok decision =>
    if negb (Allowed decision) then Ret (writeError 403 "quota_denied" (Reason decision))
    else
      uid ← call NewV7;
      match uid with
      | Err _ => Ret (writeError 500 "internal" "id generation failed")
      | Ok sessionID =>
        let stagingKey := "staging/" +:+ sessionID in
        mp ← call (Blob (CreateMultipart stagingKey (cr_Mime req)));
        match mp with
        | Err _ => Ret (writeError 502 "storage_error" "object storage unavailable")
        | Ok s3UploadID =>
            let sess := new_session sessionID id req s3UploadID in
            created ← call (Store (CreateSession sess));
            match created with
            | Err _ =>
                _ ← call (Blob (AbortMultipart stagingKey s3UploadID));
                Ret (writeError 500 "store_error" "could not persist session")
            | Ok _ => create_publish id sess
            end
        end
      end
    end
  end
  end.

(** ** Ownership *)

(** The session and the caller, or the response already written. *)
Definition loadOwnedSession (r : request) : prog upE (response + Session * Identity) :=
  match rq_identity r with
  | None => Ret (inl (writeError 401 "unauthorized" "no identity"))
  | Some id =>
  match uuid_Parse (rq_id r) with
  | None => Ret (inl (writeError 400 "invalid_id" "upload id must be a UUID"))
  | Some sessionID =>
    sess ← call (Store (GetSession sessionID));
    match sess with
    | Err ENotFound => Ret (inl (writeError 404 "not_found" "no such upload"))
    | Err _ => Ret (inl (writeError 500 "store_error" "could not load session"))
    | Ok sess =>
        if negb (String.eqb (WorkspaceID sess) (id_WorkspaceID id))
        then Ret (inl (writeError 404 "not_found" "no such upload"))
        else Ret (inr (sess, id))
    end
  end
  end.

Definition with_session (r : request) (k : Session -> Identity -> prog upE response)
    : prog upE response :=
  owned ← loadOwnedSession r;
  match owned with
  | inl resp => Ret resp
  | inr (sess, id) => k sess id
  end.

(** ** GET /v1/uploads/{id} *)

Definition done_count (chunks : list Chunk) : Z :=
  Z.of_nat (length (filter (fun c => CState c = ChunkDone) chunks)).

Definition ChunkState_string (s : ChunkState) : string :=
  match s with
  | ChunkPending => "PENDING" | ChunkInflight => "INFLIGHT"
  | ChunkDone => "DONE" | ChunkRetry => "RETRY"
  end.

Definition get_body (sess : Session) (chunks : list Chunk) : json :=
  JObj ([("uploadId", JStr (ID sess)); ("filename", JStr (Filename sess));
         ("sizeBytes", JNum (SizeBytes sess)); ("mime", JStr (Mime sess));
         ("chunkSizeBytes", JNum (ChunkSizeBytes sess)); ("chunkCount", JNum (ChunkCount sess));
         ("state", JStr (SessionState_string (State sess)));
         ("doneChunks", JNum (done_count chunks));
         ("chunks", JArr ((fun c => JObj [("index", JNum (Index c));
                                          ("state", JStr (ChunkState_string (CState c)))])
                            <$> chunks))]
        ++ (if negb (String.eqb (SHA256 sess) "")
            then [("sha256", JStr (SHA256 sess)); ("objectKey", JStr (ObjectKey sess))]
            else [])).

Definition handleGet (r : request) : prog upE response :=
  with_session r (fun sess _ =>
    chunks ← call (Store (GetChunks (ID sess)));
    match chunks with
    | Err _ => Ret (writeError 500 "store_error" "could not load chunk map")
    | Ok chunks => Ret (writeJSON 200 (get_body sess chunks))
    end).

(** ** PUT /v1/uploads/{id}/chunks/{n} *)

Definition expected_size (sess : Session) (n : Z) : Z :=
  if n =? ChunkCount sess - 1
  then i64 (SizeBytes sess - i64 (ChunkSizeBytes sess * (ChunkCount sess - 1)))
  else ChunkSizeBytes sess.

Definition chunk_ok (n : Z) : response :=
  writeJSON 200 (JObj [("chunkIndex", JNum n); ("state", JStr "DONE")]).
Definition chunk_noop (n : Z) : response :=
  writeJSON 200 (JObj [("chunkIndex", JNum n); ("state", JStr "DONE"); ("noop", JBool true)]).

(** [Ceil] of the delay in seconds; delays are far below 2^53 seconds, where the
    float division is exact enough for this to be the integer ceiling. *)
Definition retry_seconds (d : duration) : Z := (d + Second - 1) / Second.

Definition saturated (d : duration) : response :=
  {| rs_status := 429;
     rs_headers := [("Retry-After", itoa (retry_seconds d))];
     rs_body := Some (JObj
       [("error", JObj [("code", JStr "saturated");
           ("message", JStr "inflight byte ceiling reached; retry after the hinted delay")]);
        ("backoff", JObj [("retryAfterMs", JNum (Z.quot d Millisecond))])]) |}.

(** The admitted part of the handler, run with the bytes acquired. *)
Definition put_admitted (sess : Session) (n expected : Z) (wantSHA : string) (body : stream)
    : prog upE response :=
  claim ← call (Store (ClaimChunk (ID sess) n));
  match claim with
  | Err _ => Ret (writeError 500 "store_error" "could not claim chunk")
  | Ok ClaimAlreadyDone => Ret (chunk_noop n)
  | Ok ClaimAcquired =>
      let '(data, rerr) := read_limited (expected + 1) body in
      if bool_decide (rerr <> None) || negb (slen data =? expected) then
        _ ← call (Store (MarkChunkRetry (ID sess) n));
        Ret (writeError 400 "chunk_body_truncated"
               ("chunk " +:+ itoa n +:+ " body did not match Content-Length"))
      else let gotSHA := sha256hex data in
      if negb (String.eqb gotSHA wantSHA) then
        _ ← call (Store (MarkChunkRetry (ID sess) n));
        Ret (writeError 422 "chunk_checksum_mismatch"
               ("chunk " +:+ itoa n +:+ " sha256 does not match X-Chunk-Sha256"))
      else
        etag ← call (Blob (UploadPart (StagingKey sess) (S3UploadID sess) (i32 (n + 1)) data));
        match etag with
        | Err _ =>
            _ ← call (Store (MarkChunkRetry (ID sess) n));
            Ret (writeError 502 "storage_error" "object storage write failed")
        | Ok etag =>
            marked ← call (Store (MarkChunkDone (ID sess) n gotSHA etag expected));
            match marked with
            | Err _ => Ret (writeError 500 "store_error" "could not record chunk")
            | Ok _ =>
                _ ← call (Backoff_Reset (ID sess));
                Ret (chunk_ok n)
            end
        end
  end.

Definition put_chunk (r : request) (sess : Session) : prog upE response :=
  match Atoi (rq_n r) with
  | None => Ret (writeError 400 "invalid_chunk_index"
                   ("chunk index must be an integer in [0," +:+ itoa (ChunkCount sess) +:+ ")"))
  | Some n =>
  if (n <? 0) || (ChunkCount sess <=? n)
  then Ret (writeError 400 "invalid_chunk_index"
              ("chunk index must be an integer in [0," +:+ itoa (ChunkCount sess) +:+ ")"))
  else if negb (bool_decide (State sess = SessionActive))
  then Ret (writeError 409 "session_not_active"
              ("session is " +:+ SessionState_string (State sess)))
  else let expected := expected_size sess n in
  if rq_ContentLength r <? 0
  then Ret (writeError 411 "length_required" "Content-Length is required")
  else if negb (rq_ContentLength r =? expected)
  then Ret (writeError 400 "chunk_size_mismatch"
              ("chunk " +:+ itoa n +:+ " must be exactly " +:+ itoa expected +:+ " bytes"))
  else let wantSHA := ToLower (rq_ChunkSha256 r) in
  if negb (hex64 wantSHA)
  then Ret (writeError 400 "invalid_checksum_header"
              "X-Chunk-Sha256 must be 64 lowercase hex characters")
  else
    admitted ← call (Gauge_TryAcquire expected);
    if negb admitted then
      d ← call (Backoff_Deny (ID sess));
      Ret (saturated d)
    else
      resp ← put_admitted sess n expected wantSHA (rq_body r);
      _ ← call (Gauge_Release expected);
      Ret resp
  end.

Definition handlePutChunk (r : request) : prog upE response :=
  with_session r (fun sess _ => put_chunk r sess).

(** ** POST /v1/uploads/{id}/complete *)

Definition completeResponse (sess : Session) : json :=
  JObj [("uploadId", JStr (ID sess)); ("objectKey", JStr (ObjectKey sess));
        ("sha256", JStr (SHA256 sess)); ("sizeBytes", JNum (SizeBytes sess));
        ("state", JStr (SessionState_string (State sess)))].

(** The first hundred chunks that are not DONE, and the parts of the others. *)
Fixpoint sort_chunks (chunks : list Chunk) (missing : list Z) (parts : list CompletedPart)
    : list Z * list CompletedPart :=
  match chunks with
  | [] => (missing, parts)
  | c :: chunks' =>
      if negb (bool_decide (CState c = ChunkDone))
      then sort_chunks chunks'
             (if (length missing <? 100)%nat then missing ++ [Index c] else missing) parts
      else sort_chunks chunks' missing
             (parts ++ [{| PartNumber := i32 (Index c + 1); cp_ETag := ETag c |}])
  end.

Definition incomplete (missing : list Z) : response :=
  writeJSON 409 (JObj
    [("error", JObj [("code", JStr "upload_incomplete"); ("message", JStr "not all chunks are DONE")]);
     ("missingChunks", match missing with [] => JNull | _ => JArr (JNum <$> missing) end)]).

Definition object_key (workspaceID shaHex : string) : string :=
  "assets/" +:+ workspaceID +:+ "/sha256/" +:+ shaHex.

(** From the readable staging object to the persisted ASSEMBLED session. *)
Definition assemble_staged (sess : Session) : prog upE (result Session) :=
  body ← call (Blob (GetObject (StagingKey sess)));
  match body with
  | Err e => Ret (Err e)
  | Ok body =>
      match st_err body with
      | Some e => Ret (Err e)
      | None =>
      if negb (slen (st_bytes body) =? SizeBytes sess)
      then Ret (Err (EMsg "assembled size does not match declared"))
      else
        let shaHex := sha256hex (st_bytes body) in
        let objectKey := object_key (WorkspaceID sess) shaHex in
        copied ← call (Blob (Copy (StagingKey sess) objectKey (SizeBytes sess)));
        match copied with
        | Err e => Ret (Err e)
        | Ok _ =>
            _ ← call (Blob (Delete (StagingKey sess)));
            stored ← call (Store (SetSessionAssembled (ID sess) shaHex objectKey));
            match stored with
            | Err e => Ret (Err e)
            | Ok _ => Ret (Ok (set_assembled sess shaHex objectKey))
            end
        end
      end
  end.

(** The caller's session is returned with the fields [assemble] assigns. *)
Definition assemble (sess : Session) (parts : list CompletedPart) : prog upE (result Session) :=
  done ← call (Blob (CompleteMultipart (StagingKey sess) (S3UploadID sess) parts));
  match done with
  | Ok _ => assemble_staged sess
  | Err e =>
      head ← call (Blob (HeadObject (StagingKey sess)));
      match head with
      | Ok (size, true) =>
          if size =? SizeBytes sess then assemble_staged sess else Ret (Err e)
      | _ => Ret (Err e)
      end
  end.

Definition landed_event (sess : Session) (now : time) : LandedObjectEvent :=
  {| le_UploadID := ID sess; le_WorkspaceID := WorkspaceID sess; le_UserID := UserID sess;
     le_ObjectKey := ObjectKey sess; le_SHA256 := SHA256 sess; le_SizeBytes := SizeBytes sess;
     le_Mime := Mime sess; le_LandedAt := now |}.

(** Emit the events and finalize an assembled session. *)
Definition finalize (sess : Session) : prog upE response :=
  now ← call Now;
  landed ← publishJSON SubjectUploadLanded (PLanded (landed_event sess now));
  match landed with
  | Err _ => Ret (writeError 503 "event_publish_failed" "could not emit landed event; retry complete")
  | Ok _ =>
      metered ← publishMetering
        {| id_WorkspaceID := WorkspaceID sess; id_UserID := UserID sess |}
        MeteringUploadCompleted (Some (SizeBytes sess)) "";
      match metered with
      | Err _ => Ret (writeError 503 "event_publish_failed" "could not emit metering event; retry complete")
      | Ok _ =>
          stored ← call (Store (SetSessionState (ID sess) SessionCompleted));
          match stored with
          | Err _ => Ret (writeError 500 "store_error" "could not finalize session")
          | Ok _ => Ret (writeJSON 200 (completeResponse (set_state sess SessionCompleted)))
          end
      end
  end.

(** An ACTIVE or ASSEMBLED session. *)
Definition complete_open (sess : Session) : prog upE response :=
  chunks ← call (Store (GetChunks (ID sess)));
  match chunks with
  | Err _ => Ret (writeError 500 "store_error" "could not load chunk map")
  | Ok chunks =>
      let '(missing, parts) := sort_chunks chunks [] [] in
      if negb (bool_decide (missing = [])) || negb (Z.of_nat (length parts) =? ChunkCount sess)
      then Ret (incomplete missing)
      else if bool_decide (State sess = SessionActive) then
        assembled ← assemble sess parts;
        match assembled with
        | Err _ => Ret (writeError 502 "assembly_failed" "object assembly failed; retry complete")
        | Ok sess' => finalize sess'
        end
      else finalize sess
  end.

Definition complete (sess : Session) : prog upE response :=
  match State sess with
  | SessionCancelled => Ret (writeError 409 "session_cancelled" "session was cancelled")
  | SessionCompleted => Ret (writeJSON 200 (completeResponse sess))
  | _ => complete_open sess
  end.

Definition handleComplete (r : request) : prog upE response :=
  with_session r (fun sess _ => complete sess).

(** ** DELETE /v1/uploads/{id} *)

Definition cancel_persist (sess : Session) : prog upE response :=
  stored ← call (Store (SetSessionState (ID sess) SessionCancelled));
  match stored with
  | Err _ => Ret (writeError 500 "store_error" "could not record cancellation")
  | Ok _ => Ret (writeHeader 204)
  end.

Definition cancel (sess : Session) : prog upE response :=
  match State sess with
  | SessionCompleted => Ret (writeError 409 "session_completed" "completed sessions cannot be cancelled")
  | SessionCancelled =>
      _ ← call (Blob (AbortMultipart (StagingKey sess) (S3UploadID sess)));
      Ret (writeHeader 204)
  | _ =>
    aborted ← call (Blob (AbortMultipart (StagingKey sess) (S3UploadID sess)));
    match aborted with
    | Err _ => Ret (writeError 502 "storage_error" "could not garbage collect parts; retry cancel")
    | Ok _ =>
        head ← call (Blob (HeadObject (StagingKey sess)));
        match head with
        | Ok (_, true) =>
            deleted ← call (Blob (Delete (StagingKey sess)));
            match deleted with
            | Err _ => Ret (writeError 502 "storage_error"
                              "could not garbage collect staging object; retry cancel")
            | Ok _ => cancel_persist sess
            end
        | _ => cancel_persist sess
        end
    end
  end.

Definition handleCancel (r : request) : prog upE response :=
  with_session r (fun sess _ => cancel sess).

(** ** The routes behind the bearer middleware *)

Inductive route := RCreate | RGet | RPutChunk | RComplete | RCancel.

Definition serve (rt : route) (r : request) : prog upE response :=
  match rt with
  | RCreate => handleCreate r
  | RGet => handleGet r
  | RPutChunk => handlePutChunk r
  | RComplete => handleComplete r
  | RCancel => handleCancel r
  end.
End handlers.

(* Steps through a handler keep the sub-programs folded. *)
#[global] Arguments put_admitted : simpl never.
#[global] Arguments put_chunk : simpl never.
#[global] Arguments assemble_staged : simpl never.
#[global] Arguments assemble : simpl never.
#[global] Arguments finalize : simpl never.
#[global] Arguments publishJSON : simpl never.
#[global] Arguments publishMetering : simpl never.
#[global] Arguments create_publish : simpl never.
#[global] Arguments cancel_persist : simpl never.
#[global] Arguments complete : simpl never.
#[global] Arguments cancel : simpl never.
