(* ===== verification/UploadProofs.v ===== *)
(** * The upload service: what its handlers guarantee

    The chunk layout, the gauge accounting, what a 200 means, the isolation of
    workspaces, the session life cycle and its behaviour under concurrency, for
    every store that meets [StoreImpl] and every behaviour of the other
    dependencies.  [upload_spec] is the specification semantics: store calls do
    what [store_nominal] says up to a fault, everything else answers anything. *)
From S2P Require Export UploadServer.
#[local] Open Scope Z_scope.

(** ** Semantics *)

Definition upload_spec : nsem upE (gmap string entry) := fun X e =>
  match e in upE X return gmap string entry -> X -> gmap string entry -> Prop with
  | Store e => fun m r m' => up_to_fault (store_nominal e m) m r m'
  | _ => fun m _ m' => m' = m
  end.

Section world.
Context {S V : Type} `{!StoreImpl S} (env : sem upE V).

(** A store and an environment that answers the other calls. *)
Definition upload_sem : sem upE (S * V) := fun X e w =>
  match e in upE X return X * (S * V) with
  | Store e => let '(r, s) := store_exec _ e w.1 in (r, (s, w.2))
  | e => let '(x, v) := env _ e w.2 in (x, (w.1, v))
  end.

Definition represents (w : S * V) (m : gmap string entry) : Prop :=
  store_wf w.1 /\ store_abs w.1 = m.

Lemma upload_sem_spec X (e : upE X) w m :
  represents w m -> exists m', upload_spec X e m (upload_sem X e w).1 m' /\
                               represents (upload_sem X e w).2 m'.
Proof.
  intros [Hwf <-]. destruct e; simpl;
    try (destruct (env _ _ _); simpl; by exists (store_abs w.1)).
  pose proof (store_exec_ok _ e w.1 Hwf) as [Hw He].
  destruct (store_exec Y e w.1) as [r s]. simpl in *. by exists (store_abs s).
Qed.

Lemma upload_run_spec {A} (p : prog upE A) w :
  store_wf w.1 ->
  nrun upload_spec p (store_abs w.1) (run upload_sem p w).1 (store_abs (run upload_sem p w).2.1) /\
  store_wf (run upload_sem p w).2.1.
Proof.
  intros Hwf. destruct (run_nrun upload_sem upload_spec represents upload_sem_spec p w
    (store_abs w.1) (conj Hwf eq_refl)) as (m' & H & Hw & <-). done.
Qed.
End world.

(** ** Relations between store states *)

(** What no operation changes of a session: all but state, digest and key. *)
Definition fixed (s : Session) : Session := set_state (fresh_row s) SessionActive.

Definition entry_rel (Rs : Session -> Session -> Prop) (Rc : Chunk -> Chunk -> Prop)
    (en en' : entry) : Prop :=
  fixed (en_session en') = fixed (en_session en) /\ Rs (en_session en) (en_session en') /\
  Forall2 Rc (en_chunks en) (en_chunks en').

Definition store_rel Rs Rc (m m' : gmap string entry) : Prop :=
  forall id en, m !! id = Some en -> exists en', m' !! id = Some en' /\ entry_rel Rs Rc en en'.

#[export] Instance store_rel_preorder Rs Rc `{!PreOrder Rs} `{!PreOrder Rc} :
  PreOrder (store_rel Rs Rc).
Proof.
  split.
  - intros m id en Hm. exists en. split; [done|]. by split_and!.
  - intros m1 m2 m3 H12 H23 id en Hm. destruct (H12 _ _ Hm) as (en2 & H2 & F2 & S2_ & C2).
    destruct (H23 _ _ H2) as (en3 & H3 & F3 & S3_ & C3). exists en3. split; [done|].
    split_and!; [congruence|by etrans|by etrans].
Qed.

Lemma store_rel_insert Rs Rc `{!PreOrder Rs} `{!PreOrder Rc} m id en en' :
  m !! id = Some en -> entry_rel Rs Rc en en' -> store_rel Rs Rc m (<[id := en']> m).
Proof.
  intros Hm Hen id2 en2 H2. destruct (decide (id = id2)) as [<-|Hne].
  - rewrite lookup_insert_eq. simplify_eq. eauto.
  - rewrite lookup_insert_ne by done. exists en2. split; [done|]. by split_and!.
Qed.

Lemma entry_rel_chunk Rs Rc `{!PreOrder Rs} `{!PreOrder Rc} en i c c' :
  chunk_at en i = Some c -> Rc c c' -> entry_rel Rs Rc en (set_chunk en i c').
Proof.
  intros Hc Hcc. split_and!; [done|done|]. simpl. unfold chunk_at in Hc.
  destruct (i <? 0); [done|]. apply Forall2_same_length_lookup. split.
  - by rewrite length_insert.
  - intros k x y Hx Hy. destruct (decide (k = Z.to_nat i)) as [->|Hne].
    + rewrite list_lookup_insert_eq in Hy by by apply lookup_lt_Some in Hx. by simplify_eq.
    + rewrite list_lookup_insert_ne in Hy by done. by simplify_eq.
Qed.

Lemma entry_rel_session Rs Rc `{!PreOrder Rc} en s :
  fixed s = fixed (en_session en) -> Rs (en_session en) s ->
  entry_rel Rs Rc en (set_session en s).
Proof. intros Hf Hs. by split_and!. Qed.

(** The chunk an operation addresses. *)
Lemma chunk_target (m : gmap string entry) id i en c :
  (m !! id ≫= fun en => (en,.) <$> chunk_at en i) = Some (en, c) ->
  m !! id = Some en /\ chunk_at en i = Some c.
Proof.
  destruct (m !! id) as [en'|]; [|done]. simpl.
  destruct (chunk_at en' i) eqn:Hc; [|done]. intros [= -> ->]. done.
Qed.

(** DONE is absorbing for a chunk; its index never changes. *)
Definition chunk_mono (c c' : Chunk) : Prop :=
  Index c' = Index c /\ (CState c = ChunkDone -> CState c' = ChunkDone).

#[export] Instance chunk_mono_preorder : PreOrder chunk_mono.
Proof. split; [by intros c|]. intros a b c [? ?] [? ?]. split; [congruence|auto]. Qed.

Definition any_session (s s' : Session) : Prop := True.
#[export] Instance any_session_preorder : PreOrder any_session.
Proof. done. Qed.

Lemma nominal_chunk_mono {Y} (e : storeE Y) m :
  store_rel any_session chunk_mono m (store_nominal e m).2.
Proof.
  assert (Hrefl : store_rel any_session chunk_mono m m) by done.
  destruct e; simpl; repeat case_match; simpl; try done; subst;
    try (apply chunk_target in H as [? ?]);
    try (eapply store_rel_insert; [apply _|apply _|eassumption|];
         first [ eapply entry_rel_chunk; [apply _|apply _|eassumption|] ; split; simpl; congruence || done
               | apply entry_rel_session; [apply _|done|done] ]).
  intros id en Hm. exists en. rewrite lookup_insert_ne by congruence. by split_and!.
Qed.

Section upload.
Context (sha256hex : string -> string) (uuid_Parse : string -> option string).
Context (srv : Server).
Abbreviation serve := (serve sha256hex uuid_Parse srv).

(** ** Concurrency: what no interleaving can undo *)

(** However the requests of any number of clients interleave, whatever the
    dependencies answer and wherever the store faults, a session is never lost,
    its identity, size and chunk layout never change, and a chunk that was
    acknowledged DONE stays DONE. *)
Theorem done_chunks_stay_done {S V} `{!StoreImpl S} (env : sem upE V)
    (reqs : list (route * request)) (w w' : S * V) ps :
  store_wf w.1 ->
  rtc (pool_step (upload_sem env)) ((fun q => serve q.1 q.2) <$> reqs, w) (ps, w') ->
  store_wf w'.1 /\ store_rel any_session chunk_mono (store_abs w.1) (store_abs w'.1).
Proof.
  intros Hwf Hr.
  pose (R := fun w w' : S * V => store_wf w.1 ->
    store_wf w'.1 /\ store_rel any_session chunk_mono (store_abs w.1) (store_abs w'.1)).
  assert (PreOrder R).
  { split; [by intros x Hx|]. intros x y z Hxy Hyz Hx. destruct (Hxy Hx) as [Hy Rxy].
    destruct (Hyz Hy) as [Hz Ryz]. split; [done|]. by etrans. }
  eapply (pool_preorder (upload_sem env) R) in Hr; [by apply Hr|].
  clear. intros X e w Hw. destruct (upload_sem_spec env X e w _ (conj Hw eq_refl))
    as (m' & Hs & Hw' & Ha). split; [done|]. rewrite Ha.
  destruct e; simpl in Hs; try by subst.
  eapply up_to_fault_rel; [apply _|apply nominal_chunk_mono|exact Hs].
Qed.

(** ** Ownership *)

(** [loadOwnedSession] changes nothing, and hands on the stored session of the
    caller's workspace only. *)
Lemma loadOwned_spec r m x m' :
  nrun upload_spec (loadOwnedSession uuid_Parse r) m x m' ->
  m' = m /\
  match x with
  | inl _ => True
  | inr (sess, id) => rq_identity r = Some id /\ WorkspaceID sess = id_WorkspaceID id /\
      exists k en, uuid_Parse (rq_id r) = Some k /\ m !! k = Some en /\ sess = en_session en
  end.
Proof.
  unfold loadOwnedSession. intros H.
  destruct (rq_identity r) as [id|]; [|by destruct H as [-> ->]].
  destruct (uuid_Parse (rq_id r)) as [k|] eqn:Hk; [|by destruct H as [-> ->]].
  destruct H as (s & m1 & Hs & H). simpl in Hs; go_on H.
  destruct (m !! k) as [en|] eqn:Hm.
  all: assert (m1 = m) as -> by (destruct Hs as [[= _ ->]|(? & _ & [->| ->])]; done).
  - destruct s as [sess|e].
    + assert (sess = en_session en) as -> by
        (destruct Hs as [[= ->]|(e & [=] & _)]; done).
      destruct (String.eqb_spec (WorkspaceID (en_session en)) (id_WorkspaceID id));
        simpl in H; destruct H as [-> ->]; [|done]. eauto 10.
    + by destruct e; destruct H as [-> ->].
  - destruct s as [sess|e]; [by destruct Hs as [[=]|(e & [=] & _)]|].
    by destruct e; destruct H as [-> ->].
Qed.

(** ** What a 200 on a chunk means *)

Lemma with_session_exec r k tr resp :
  exec (with_session uuid_Parse r k) tr resp ->
  (400 <= rs_status resp /\ tr = [] \/
   400 <= rs_status resp /\ exists key x, tr = [Ev (Store (GetSession key)) x]) \/
  exists id key sess tr', rq_identity r = Some id /\ uuid_Parse (rq_id r) = Some key /\
    WorkspaceID sess = id_WorkspaceID id /\
    tr = Ev (Store (GetSession key)) (Ok sess) :: tr' /\ exec (k sess id) tr' resp.
Proof.
  unfold with_session, loadOwnedSession. intros H.
  destruct (rq_identity r) as [id|]; [|destruct H as [-> ->]; by left; left].
  destruct (uuid_Parse (rq_id r)) as [key|]; [|destruct H as [-> ->]; by left; left].
  destruct H as (x & tr' & -> & H). go_on H. destruct x as [sess|e].
  - destruct (String.eqb_spec (WorkspaceID sess) (id_WorkspaceID id)); simpl in H.
    + right. by exists id, key, sess, tr'.
    + destruct H as [-> ->]. left. right. simpl. split; [lia|eauto].
  - left; right. destruct e; destruct H as [-> ->]; simpl; split; (lia || eauto).
Qed.

Lemma put_admitted_exec sess n ex want body tr resp :
  exec (put_admitted sha256hex sess n ex want body) tr resp -> rs_status resp = 200 ->
  tr = [Ev (Store (ClaimChunk (ID sess) n)) (Ok ClaimAlreadyDone)] \/
  exists data etag, read_limited (ex + 1) body = (data, None) /\ slen data = ex /\
    sha256hex data = want /\
    tr = [Ev (Store (ClaimChunk (ID sess) n)) (Ok ClaimAcquired);
          Ev (Blob (UploadPart (StagingKey sess) (S3UploadID sess) (i32 (n + 1)) data)) (Ok etag);
          Ev (Store (MarkChunkDone (ID sess) n (sha256hex data) etag ex)) (Ok ());
          Ev (Backoff_Reset (ID sess)) ()].
Proof.
  unfold put_admitted. intros (claim & t1 & -> & H) Hst. go_on H.
  destruct claim as [[]|e]; [|by destruct H as [-> ->]; left|by destruct H as [-> ->]].
  destruct (read_limited (ex + 1) body) as [data rerr] eqn:Hrd.
  destruct (bool_decide (rerr <> None)) eqn:Hrerr; simpl in H;
    [by destruct H as (? & ? & -> & -> & ->)|].
  apply bool_decide_eq_false in Hrerr. destruct rerr; [by destruct Hrerr|].
  destruct (Z.eqb_spec (slen data) ex) as [Hlen|]; simpl in H;
    [|by destruct H as (? & ? & -> & -> & ->)].
  destruct (String.eqb_spec (sha256hex data) want) as [Hsha|]; simpl in H;
    [|by destruct H as (? & ? & -> & -> & ->)].
  destruct H as (etag & t2 & -> & H). go_on H.
  destruct etag as [etag|e]; [|by destruct H as (? & ? & -> & -> & ->)].
  destruct H as (marked & t3 & -> & H). go_on H.
  destruct marked as [[]|e]; [|by destruct H as [-> ->]].
  destruct H as ([] & t4 & -> & -> & ->). right. exists data, etag. done.
Qed.

Lemma put_chunk_exec r sess tr resp :
  exec (put_chunk sha256hex r sess) tr resp -> rs_status resp = 200 ->
  exists n, let ex := expected_size sess n in
    Atoi (rq_n r) = Some n /\ 0 <= n < ChunkCount sess /\ State sess = SessionActive /\
    rq_ContentLength r = ex /\ hex64 (ToLower (rq_ChunkSha256 r)) = true /\
    exists tr', tr = Ev (Gauge_TryAcquire ex) true :: tr' ++ [Ev (Gauge_Release ex) ()] /\
      exec (put_admitted sha256hex sess n ex (ToLower (rq_ChunkSha256 r)) (rq_body r)) tr' resp.
Proof.
  unfold put_chunk. intros H Hst.
  destruct (Atoi (rq_n r)) as [n|]; [|by destruct H as [-> ->]].
  destruct ((n <? 0) || (ChunkCount sess <=? n)) eqn:Hn; [by destruct H as [-> ->]|].
  destruct (bool_decide (State sess = SessionActive)) eqn:Hs; simpl in H; [|by destruct H as [-> ->]].
  destruct (rq_ContentLength r <? 0) eqn:Hc; [by destruct H as [-> ->]|].
  destruct (Z.eqb_spec (rq_ContentLength r) (expected_size sess n)); simpl in H;
    [|by destruct H as [-> ->]].
  destruct (hex64 (ToLower (rq_ChunkSha256 r))) eqn:Hh; simpl in H; [|by destruct H as [-> ->]].
  destruct H as (adm & t1 & -> & H). go_on H.
  destruct adm; simpl in H; [|by destruct H as (d & ? & -> & -> & ->)].
  apply (exec_bind (A:=_)) in H as (t2 & t3 & resp' & -> & Ha & ([] & ? & -> & -> & ->)).
  bool_prop. exists n. split_and!; try done. by exists t2.
Qed.

(** Every 200 of a chunk upload comes from exactly one of two conversations
    with the dependencies.  Either the chunk was already DONE and nothing was
    written; or the body had exactly the length the layout prescribes, hashed to
    the announced digest, was stored as part [n+1] of the session's multipart
    upload, and then (with S3's ETag, before the reply) was recorded DONE.  Both
    happen only on an ACTIVE session of the caller's workspace, inside the
    admitted gauge bytes, which are given back. *)
Theorem put_chunk_success r tr resp :
  exec (handlePutChunk sha256hex uuid_Parse r) tr resp -> rs_status resp = 200 ->
  exists id k sess n,
    let ex := expected_size sess n in
    rq_identity r = Some id /\ uuid_Parse (rq_id r) = Some k /\
    WorkspaceID sess = id_WorkspaceID id /\ State sess = SessionActive /\
    Atoi (rq_n r) = Some n /\ 0 <= n < ChunkCount sess /\ rq_ContentLength r = ex /\
    (tr = [Ev (Store (GetSession k)) (Ok sess); Ev (Gauge_TryAcquire ex) true;
           Ev (Store (ClaimChunk (ID sess) n)) (Ok ClaimAlreadyDone);
           Ev (Gauge_Release ex) ()] \/
     exists data etag,
       read_limited (ex + 1) (rq_body r) = (data, None) /\ slen data = ex /\
       sha256hex data = ToLower (rq_ChunkSha256 r) /\ hex64 (sha256hex data) = true /\
       tr = [Ev (Store (GetSession k)) (Ok sess); Ev (Gauge_TryAcquire ex) true;
             Ev (Store (ClaimChunk (ID sess) n)) (Ok ClaimAcquired);
             Ev (Blob (UploadPart (StagingKey sess) (S3UploadID sess) (i32 (n + 1)) data)) (Ok etag);
             Ev (Store (MarkChunkDone (ID sess) n (sha256hex data) etag ex)) (Ok ());
             Ev (Backoff_Reset (ID sess)) (); Ev (Gauge_Release ex) ()]).
Proof.
  intros H Hst. apply with_session_exec in H as [[(Hge & _)|(Hge & _)]|(id & k & sess & tr' & Hid & Hk & Hw & -> & H)].
  1-2: lia.
  apply put_chunk_exec in H as (n & Hn & Hr & Hs & Hl & Hx & tr2 & -> & H); [|done].
  apply put_admitted_exec in H; [|done].
  exists id, k, sess, n. split_and!; try done; try lia.
  destruct H as [->|(data & etag & H1 & H2 & H3 & ->)]; [by left|right].
  exists data, etag. rewrite H3. split_and!; done.
Qed.

(** ** The chunk layout *)

Definition zsum (l : list Z) : Z := foldr Z.add 0 l.

Lemma zsum_const (f : Z -> Z) c l : Forall (fun n => f n = c) l -> zsum (f <$> l) = c * Z.of_nat (length l).
Proof. induction 1 as [|n l Hn Hl IH]; [simpl; lia|]. rewrite fmap_cons. unfold zsum in *. cbn [foldr length]. rewrite Hn, IH. nia. Qed.

Lemma zsum_app l1 l2 : zsum (l1 ++ l2) = zsum l1 + zsum l2.
Proof. unfold zsum. induction l1 as [|x l1 IH]; simpl; [done|]. rewrite IH. lia. Qed.

(** The chunk layout of a created session. *)
Lemma session_chunks id req mp sid :
  0 < chunkSize srv -> 0 < cr_SizeBytes req -> cr_SizeBytes req + chunkSize srv <= 2 ^ 63 ->
  let sess := new_session srv sid id req mp in
  let k := ChunkCount sess in
  1 <= k /\ chunkSize srv * (k - 1) < cr_SizeBytes req <= chunkSize srv * k /\
  forall n, expected_size sess n =
    if n =? k - 1 then cr_SizeBytes req - chunkSize srv * (k - 1) else chunkSize srv.
Proof.
  intros Hc Hs Hov sess k. set (c := chunkSize srv) in *. set (sz := cr_SizeBytes req) in *.
  assert (Hcount : k = (sz + c - 1) / c).
  { unfold k, sess; simpl. unfold chunk_count. fold c sz. rewrite i64_id by lia.
    by rewrite Z.quot_div_nonneg by lia. }
  assert (Hk : c * (k - 1) < sz <= c * k).
  { pose proof (Z.div_mod (sz + c - 1) c). pose proof (Z.mod_pos_bound (sz + c - 1) c). nia. }
  assert (Hk1 : 1 <= k) by nia. split; [done|]. split; [done|]. intros n.
  unfold expected_size. fold k. destruct (n =? k - 1); [|done]. simpl. fold c sz.
  assert (0 <= c * (k - 1)) by nia. rewrite (i64_id (c * _)), i64_id by lia. done.
Qed.

(** the chunks of a created session partition the declared bytes: at least
    one chunk, none empty, none larger than the chunk size, all but the last
    exactly that size, and together exactly [sizeBytes], without overflow of the
    [int64] arithmetic. *)
Theorem chunks_partition_object id req mp sid :
  0 < chunkSize srv -> 0 < cr_SizeBytes req -> cr_SizeBytes req + chunkSize srv <= 2 ^ 63 ->
  let sess := new_session srv sid id req mp in
  1 <= ChunkCount sess /\
  (forall n, 0 <= n < ChunkCount sess ->
     0 < expected_size sess n <= chunkSize srv /\
     (n < ChunkCount sess - 1 -> expected_size sess n = chunkSize srv)) /\
  zsum (expected_size sess <$> seqZ 0 (ChunkCount sess)) = cr_SizeBytes req.
Proof.
  intros Hc Hs Hov sess. destruct (session_chunks id req mp sid Hc Hs Hov) as (Hk1 & Hk & Hex).
  fold sess in Hk1, Hk, Hex. set (c := chunkSize srv) in *. set (k := ChunkCount sess) in *.
  split; [done|]. split.
  - intros n Hn. rewrite Hex. destruct (Z.eqb_spec n (k - 1)); split; nia.
  - replace k with (k - 1 + 1) at 1 by lia. rewrite seqZ_app by lia.
    rewrite fmap_app, zsum_app. rewrite (zsum_const _ c).
    + rewrite length_seqZ, (seqZ_cons _ 1), (seqZ_nil _ (Z.pred 1)) by lia. simpl.
      unfold zsum. simpl. rewrite Hex, (proj2 (Z.eqb_eq _ _)) by lia. rewrite Z2Nat.id by lia. lia.
    + apply Forall_forall. intros n Hn%elem_of_seqZ. rewrite Hex.
      by rewrite (proj2 (Z.eqb_neq _ _)) by lia.
Qed.

(** ** The gauge *)

Definition touches_gauge {X} (e : upE X) : bool :=
  match e with Gauge_TryAcquire _ | Gauge_Release _ => true | _ => false end.

Definition no_gauge {A} : prog upE A -> Prop :=
  all_calls (fun X e => touches_gauge e = false).

(** Calls that are neither to the store nor to the gauge: publishing only makes
    such calls. *)
Definition pure_call {X} (e : upE X) : bool :=
  match e with Store _ | Gauge_TryAcquire _ | Gauge_Release _ => false | _ => true end.

Lemma publish_loop_calls left attempt last subject data :
  all_calls (fun X e => pure_call e = true) (publish_loop left attempt last subject data).
Proof.
  revert attempt last. induction left as [|left IH]; intros attempt last; [done|].
  cbn [publish_loop]. calls_tac.
Qed.
Hint Resolve publish_loop_calls : calls.

Lemma publishJSON_calls subject v :
  all_calls (fun X e => pure_call e = true) (publishJSON srv subject v).
Proof. unfold publishJSON. calls_tac. Qed.
Hint Resolve publishJSON_calls : calls.

Lemma publishMetering_calls id kind b j :
  all_calls (fun X e => pure_call e = true) (publishMetering srv id kind b j).
Proof. unfold publishMetering. calls_tac. Qed.

Section calls_lifted.
Context (P : forall X, upE X -> Prop) (HP : forall X (e : upE X), pure_call e = true -> P X e).
Lemma publishJSON_calls_P subject v : all_calls P (publishJSON srv subject v).
Proof. eapply all_calls_impl; [exact HP|apply publishJSON_calls]. Qed.
Lemma publishMetering_calls_P id kind b j : all_calls P (publishMetering srv id kind b j).
Proof. eapply all_calls_impl; [exact HP|apply publishMetering_calls]. Qed.
End calls_lifted.

Lemma pure_no_gauge X (e : upE X) : pure_call e = true -> touches_gauge e = false.
Proof. by destruct e. Qed.
Hint Resolve publishJSON_calls_P publishMetering_calls_P pure_no_gauge : calls.

Lemma no_gauge_serve rt r : rt <> RPutChunk -> no_gauge (serve rt r).
Proof.
  unfold no_gauge. destruct rt; intros Hrt; [| |done| |]; cbn [UploadServer.serve].
  - unfold handleCreate, create_publish. calls_tac.
  - unfold handleGet, with_session, loadOwnedSession. calls_tac.
  - unfold handleComplete, with_session, loadOwnedSession, complete, complete_open,
      assemble, assemble_staged, finalize. calls_tac.
  - unfold handleCancel, with_session, loadOwnedSession, cancel, cancel_persist. calls_tac.
Qed.

Lemma no_gauge_put_admitted sess n ex want body : no_gauge (put_admitted sha256hex sess n ex want body).
Proof. unfold put_admitted, no_gauge. calls_tac. Qed.

(** The process-local state: the gauge and the director the code shares between
    requests, next to whatever [env] answers the other calls from. *)
Definition local_sem {V} (env : sem upE V) : sem upE (V * InflightGauge * BackoffDirector) :=
  fun X e w =>
  match e in upE X return X * (V * InflightGauge * BackoffDirector) with
  | Gauge_TryAcquire n => let '(ok, g) := TryAcquire n w.1.2 in (ok, ((w.1.1, g), w.2))
  | Gauge_Release n => ((), ((w.1.1, Release n w.1.2), w.2))
  | Backoff_Deny id => let '(d, b) := Deny id w.2 in (d, (w.1, b))
  | Backoff_Reset id => ((), (w.1, Reset id w.2))
  | e => let '(x, v) := env _ e w.1.1 in (x, ((v, w.1.2), w.2))
  end.

Lemma no_gauge_run {V A} (env : sem upE V) (p : prog upE A) w :
  no_gauge p -> (run (local_sem env) p w).2.1.2 = w.1.2.
Proof.
  intros Hp. symmetry. 
  apply (run_all_calls (local_sem env) _ (fun w w' => w.1.2 = w'.1.2) (PreOrder0 := ltac:(split; [done|intros ???; congruence])) p Hp).
  clear. intros X e w He. destruct e; try discriminate He; simpl; repeat case_match; by simplify_eq/=.
Qed.

(** a request gives back exactly the gauge bytes it took, on every path: when
    a handler returns, whatever it answered and whatever the store, S3, the quota
    or NATS did, the inflight gauge is what it was when the request arrived. *)
Theorem request_restores_gauge {V} (env : sem upE V) rt r v g b :
  - 2 ^ 63 <= current g < 2 ^ 63 ->
  (run (local_sem env) (serve rt r) (v, g, b)).2.1.2 = g.
Proof.
  intros Hg. assert (rt = RPutChunk \/ rt <> RPutChunk) as [->|Hne] by (destruct rt; auto);
    [|by rewrite no_gauge_run by by apply no_gauge_serve].
  simpl. unfold handlePutChunk, with_session. rewrite run_bind.
  destruct (run (local_sem env) (loadOwnedSession uuid_Parse r) (v, g, b)) as [o w] eqn:Ho.
  assert (Hw : w.1.2 = g).
  { replace w with (run (local_sem env) (loadOwnedSession uuid_Parse r) (v, g, b)).2 by by rewrite Ho.
    rewrite no_gauge_run; [done|]. unfold loadOwnedSession, no_gauge. calls_tac. }
  destruct o as [resp|[sess id]]; [done|]. unfold put_chunk.
  repeat (case_match; try done).
  rewrite run_bind, run_call. cbn [local_sem].
  destruct (TryAcquire _ _) as [ok g1] eqn:Ht. destruct ok; cbn [negb].
  - rewrite run_bind. destruct (run _ (put_admitted _ _ _ _ _ _) _) as [resp w2] eqn:Hp.
    simpl. assert (w2.1.2 = g1) as ->.
    { change w2 with (resp, w2).2. rewrite <-Hp. rewrite no_gauge_run; [done|].
      apply no_gauge_put_admitted. }
    rewrite Hw in Ht. by eapply TryAcquire_Release.
  - rewrite run_bind, run_call. cbn [local_sem]. destruct (Deny _ _) as [d b']. simpl.
    unfold TryAcquire, tryAcquire_cas in Ht. repeat case_match; by simplify_eq.
Qed.

(** ** Completion *)

(** The call that makes a session COMPLETED. *)
Definition commits (ev : event upE) : bool :=
  match ev with
  | Ev e _ => match e with
              | Store e' => match e' with
                            | SetSessionState _ SessionCompleted => true
                            | _ => false
                            end
              | _ => false
              end
  end.

Definition no_commit (tr : list (event upE)) : Prop := Forall (fun ev => commits ev = false) tr.

(** A delivered event: the publish call was acknowledged. *)
Definition delivered (subject : string) (v : payload) (tr : list (event upE)) : Prop :=
  Ev (Publish subject v) (Ok ()) ∈ tr.

Lemma publishJSON_exec subject v tr x :
  exec (publishJSON srv subject v) tr x -> (0 < publishRetries srv)%nat ->
  no_commit tr /\ (x = Ok () -> delivered subject v tr).
Proof.
  unfold publishJSON. intros H Hr. destruct (negb (marshal_ok v)).
  { destruct H as [-> ->]. split; [constructor|done]. }
  assert (Hl : forall left attempt last, (x = Ok () -> (0 < left)%nat \/ last <> Ok ()) ->
    forall tr, exec (publish_loop left attempt last subject v) tr x ->
    no_commit tr /\ (x = Ok () -> delivered subject v tr)).
  2:{ eapply Hl; [|exact H]. by left. }
  clear. induction left as [|left IH]; intros attempt last Hlast tr H; cbn [publish_loop] in H.
  - destruct H as [-> ->]. split; [constructor|]. intros ->. destruct (Hlast eq_refl); [lia|done].
  - destruct H as (sent & t1 & -> & H). go_on H. destruct sent as [[]|e].
    + destruct H as [-> ->]. split; [by repeat constructor|]. intros _. by apply list_elem_of_here.
    + destruct H as (stop & t2 & -> & H). go_on H. destruct stop as [ce|].
      * destruct H as [-> ->]. split; [by repeat constructor|done].
      * apply IH in H as [H1 H2]; [|by right]. split; [by repeat constructor|].
        intros Hx. unfold delivered. set_solver.
Qed.

Lemma publishMetering_exec id kind b j tr x :
  exec (publishMetering srv id kind b j) tr x -> (0 < publishRetries srv)%nat ->
  no_commit tr /\
  (x = Ok () -> exists ev, delivered SubjectMetering (PMetering ev) tr /\
     me_WorkspaceID ev = id_WorkspaceID id /\ me_UserID ev = id_UserID id /\
     me_Kind ev = kind /\ me_Bytes ev = b).
Proof.
  unfold publishMetering. intros (eid & t1 & -> & H) Hr. go_on H.
  destruct eid as [eid|e]; [|destruct H as [-> ->]; split; [by repeat constructor|done]].
  destruct H as (now & t2 & -> & H). go_on H.
  apply publishJSON_exec in H as [H1 H2]; [|done]. split; [by repeat constructor|].
  intros Hx. unfold delivered in *.
  eexists. split; [apply list_elem_of_further, list_elem_of_further, H2, Hx|done].
Qed.

(** The event that announces an object, and the metering of the upload. *)
Definition announced (sess : Session) (tr : list (event upE)) : Prop :=
  (exists now, delivered SubjectUploadLanded (PLanded (landed_event sess now)) tr) /\
  (exists ev, delivered SubjectMetering (PMetering ev) tr /\
     me_WorkspaceID ev = WorkspaceID sess /\ me_UserID ev = UserID sess /\
     me_Kind ev = MeteringUploadCompleted /\ me_Bytes ev = Some (SizeBytes sess)).

Definition finished (sess : Session) (tr : list (event upE)) (resp : response) : Prop :=
  (no_commit tr /\ 500 <= rs_status resp) \/
  exists t x, tr = t ++ [Ev (Store (SetSessionState (ID sess) SessionCompleted)) x] /\
    no_commit t /\ announced sess t /\
    resp = (if is_ok x then writeJSON 200 (completeResponse (set_state sess SessionCompleted))
            else writeError 500 "store_error" "could not finalize session").

Lemma no_commit_app t1 t2 : no_commit (t1 ++ t2) <-> no_commit t1 /\ no_commit t2.
Proof. apply Forall_app. Qed.

Lemma finalize_exec sess tr resp :
  exec (finalize srv sess) tr resp -> (0 < publishRetries srv)%nat -> finished sess tr resp.
Proof.
  unfold finalize. intros (now & t0 & -> & H) Hr. go_on H.
  apply (exec_bind (A:=_)) in H as (t1 & t2 & l & -> & H1 & H).
  apply publishJSON_exec in H1 as [Hn1 Hd1]; [|done].
  destruct l as [[]|e];
    [|destruct H as [-> ->]; left; split; [|simpl; lia]; rewrite app_nil_r; by constructor].
  go_on H. apply (exec_bind (A:=_)) in H as (t3 & t4 & mt & -> & H2 & H).
  apply publishMetering_exec in H2 as [Hn2 Hd2]; [|done].
  destruct mt as [[]|e]; [|destruct H as [-> ->]; left; split; [|simpl; lia]].
  2:{ rewrite app_nil_r. constructor; [done|]. by apply no_commit_app. }
  destruct H as (x & t5 & -> & H). go_on H. right.
  exists (Ev Now now :: t1 ++ t3), x. split_and!.
  - destruct x as [[]|]; destruct H as [-> ->]; cbn; by rewrite <-app_assoc.
  - constructor; [done|]. by apply no_commit_app.
  - specialize (Hd1 eq_refl). destruct (Hd2 eq_refl) as (ev & Hd & ? & ? & ? & ?).
    unfold delivered in *. split; [exists now; unfold delivered; set_solver|].
    exists ev. split_and!; [unfold delivered; set_solver|done..].
  - destruct x as [[]|]; by destruct H as [-> ->].
Qed.

(** The session [sess'] is [sess] assembled: its digest is that of the bytes the
    staging object streamed, of the declared size, copied under the
    content-addressed key before the state was stored. *)
Definition minted (sess sess' : Session) (tr : list (event upE)) : Prop :=
  exists data,
    let sha := sha256hex data in
    let key := "assets/" +:+ WorkspaceID sess +:+ "/sha256/" +:+ sha in
    slen data = SizeBytes sess /\ sess' = set_assembled sess sha key /\
    Ev (Blob (GetObject (StagingKey sess))) (Ok {| st_bytes := data; st_err := None |}) ∈ tr /\
    Ev (Blob (Copy (StagingKey sess) key (SizeBytes sess))) (Ok ()) ∈ tr /\
    Ev (Store (SetSessionAssembled (ID sess) sha key)) (Ok ()) ∈ tr.

Lemma assemble_staged_exec sess tr x :
  exec (assemble_staged sha256hex sess) tr x ->
  no_commit tr /\ (forall sess', x = Ok sess' -> minted sess sess' tr).
Proof.
  unfold assemble_staged. intros (body & t1 & -> & H). go_on H.
  destruct body as [[data err]|e]; [|destruct H as [-> ->]; by split; repeat constructor].
  cbn [st_err st_bytes] in H. destruct err as [e|]; [destruct H as [-> ->]; by split; repeat constructor|].
  destruct (Z.eqb_spec (slen data) (SizeBytes sess)) as [Hlen|]; go_on H;
    [|destruct H as [-> ->]; by split; repeat constructor].
  destruct H as (copied & t2 & -> & H). go_on H.
  destruct copied as [[]|e]; [|destruct H as [-> ->]; by split; repeat constructor].
  destruct H as (del & t3 & -> & H). go_on H. destruct H as (stored & t4 & -> & H). go_on H.
  destruct stored as [[]|e]; destruct H as [-> ->]; [|by split; repeat constructor].
  split; [by repeat constructor|]. intros sess' [= <-]. exists data. split_and!; try done; set_solver.
Qed.

Lemma assemble_exec sess parts tr x :
  exec (assemble sha256hex sess parts) tr x ->
  no_commit tr /\ (forall sess', x = Ok sess' -> minted sess sess' tr).
Proof.
  assert (Hcons : forall ev t, commits ev = false -> 
    no_commit t /\ (forall sess', x = Ok sess' -> minted sess sess' t) ->
    no_commit (ev :: t) /\ (forall sess', x = Ok sess' -> minted sess sess' (ev :: t))).
  { intros ev t Hev [H1 H2]. split; [by constructor|]. intros s' Hs.
    destruct (H2 s' Hs) as (d & ? & ? & ? & ? & ?). exists d. split_and!; try done; set_solver. }
  unfold assemble. intros (mp & t1 & -> & H). go_on H. apply Hcons; [done|].
  destruct mp as [[]|e]; [by apply assemble_staged_exec|].
  destruct H as (head & t2 & -> & H). go_on H. apply Hcons; [done|].
  destruct head as [[size []]|e']; [|destruct H as [-> ->]; by split; repeat constructor..].
  destruct (size =? SizeBytes sess); [by apply assemble_staged_exec|].
  destruct H as [-> ->]; by split; repeat constructor.
Qed.

(** A 200 answer of [complete] on the session it loaded, or no success. *)
Definition completion (sess : Session) (tr : list (event upE)) (resp : response) : Prop :=
  (State sess = SessionCompleted /\ tr = [] /\ resp = writeJSON 200 (completeResponse sess)) \/
  (no_commit tr /\ 400 <= rs_status resp) \/
  exists t1 t2 sess', tr = t1 ++ t2 /\ no_commit t1 /\ finished sess' t2 resp /\
    ((State sess = SessionAssembled /\ sess' = sess) \/
     (State sess = SessionActive /\ minted sess sess' t1)).

Lemma complete_exec sess tr resp :
  exec (complete sha256hex srv sess) tr resp -> (0 < publishRetries srv)%nat ->
  completion sess tr resp.
Proof.
  unfold complete. intros H Hr.
  assert (Hgo : State sess = SessionActive \/ State sess = SessionAssembled ->
    exec (complete_open sha256hex srv sess) tr resp -> completion sess tr resp).
  2:{ destruct (State sess) eqn:Hst; [by apply Hgo; auto|by apply Hgo; auto| |];
        destruct H as [-> ->]; [by left|]. right; left. split; [constructor|simpl; lia]. }
  clear H. intros Hst (chunks & t1 & -> & H). go_on H. right.
  destruct chunks as [chunks|e];
    [|destruct H as [-> ->]; left; split; [by repeat constructor|simpl; lia]].
  destruct (sort_chunks chunks [] []) as [missing parts].
  case_match; [destruct H as [-> ->]; left; split; [by repeat constructor|simpl; lia]|].
  case_bool_decide as Hact.
  - apply (exec_bind (A:=_)) in H as (t2 & t3 & a & -> & H1 & H).
    apply assemble_exec in H1 as [Hn Hm]. destruct a as [sess'|e].
    + right. exists (Ev (Store (GetChunks (ID sess))) (Ok chunks) :: t2), t3, sess'.
      split; [done|]. split; [by constructor|]. split; [by apply finalize_exec|].
      right. split; [done|]. destruct (Hm _ eq_refl) as (d & ? & ? & ? & ? & ?).
      exists d. split_and!; try done; set_solver.
    + destruct H as [-> ->]. left. split; [|simpl; lia]. rewrite app_nil_r. by constructor.
  - right. exists [Ev (Store (GetChunks (ID sess))) (Ok chunks)], t1, sess.
    split; [done|]. split; [by repeat constructor|]. split; [by apply finalize_exec|].
    left. split; [|done]. by destruct Hst.
Qed.

(** C1: a session becomes COMPLETED only after its object was announced.  Take any
    run of the complete handler.  Either it makes no call that sets COMPLETED,
    and then it answers 200 only for a session that was COMPLETED already; or
    that call is its last one, exactly once, preceded by an acknowledged landed
    event and an acknowledged metering event for the session [sess'], where
    [sess'] is the loaded session if it was ASSEMBLED and otherwise the session
    just assembled: of the declared size, its SHA-256 that of the bytes S3
    streamed back, copied to [assets/<ws>/sha256/<sha>].  It then answers 200
    exactly when the call succeeded. *)
Theorem completed_only_after_landed r tr resp :
  (0 < publishRetries srv)%nat ->
  exec (handleComplete sha256hex uuid_Parse srv r) tr resp ->
  (no_commit tr /\
   (rs_status resp = 200 -> exists k sess, tr = [Ev (Store (GetSession k)) (Ok sess)] /\
      State sess = SessionCompleted /\ resp = writeJSON 200 (completeResponse sess))) \/
  exists k sess sess' t1 t2 x,
    tr = Ev (Store (GetSession k)) (Ok sess) :: t1 ++ t2
         ++ [Ev (Store (SetSessionState (ID sess') SessionCompleted)) x] /\
    no_commit (t1 ++ t2) /\ announced sess' t2 /\
    ((State sess = SessionAssembled /\ sess' = sess) \/
     (State sess = SessionActive /\ minted sess sess' t1)) /\
    (rs_status resp = 200 <-> x = Ok ()).
Proof.
  intros Hr H. apply with_session_exec in H
    as [[(Hge & ->)|(Hge & k & x & ->)]|(id & k & sess & tr' & Hid & Hk & Hw & -> & H)].
  { left. split; [constructor|lia]. }
  { left. split; [by repeat constructor|lia]. }
  apply complete_exec in H; [|done]. destruct H as [(Hst & -> & ->)|[(Hn & Hge)|H]].
  - left. split; [by repeat constructor|]. intros _. by exists k, sess.
  - left. split; [by constructor|lia].
  - destruct H as (t1 & t2 & sess' & -> & Hn & [(Hn2 & Hge)|(t & x & -> & Hn2 & Ha & ->)] & Hs).
    + left. split; [constructor; [done|by apply no_commit_app]|lia].
    + right. exists k, sess, sess', t1, t, x. split; [done|].
      split; [by apply no_commit_app|]. split; [done|]. split; [done|].
      destruct x as [[]|]; simpl; split; done || lia.
Qed.

(** ** Isolation *)

(** The call changes at most the session [k]. *)
Definition writes_only (k : string) {X} (e : upE X) : Prop :=
  match e with
  | Store e =>
      match e with
      | CreateSession s => ID s = k
      | GetSession _ | GetChunks _ => True
      | ClaimChunk id _ | MarkChunkDone id _ _ _ _ | MarkChunkRetry id _
      | SetSessionAssembled id _ _ | SetSessionState id _ => id = k
      end
  | _ => True
  end.

Definition same_but (k : string) (m m' : gmap string entry) : Prop :=
  forall k', k' <> k -> m' !! k' = m !! k'.
#[local] Instance same_but_preorder k : PreOrder (same_but k).
Proof. split; [by intros m ? ?|]. intros a b c H1 H2 k' Hk. by rewrite H2, H1. Qed.

Lemma writes_only_step k X (e : upE X) m x m' :
  writes_only k e -> upload_spec X e m x m' -> same_but k m m'.
Proof.
  intros Hw Hs. destruct e; simpl in Hs; try (by subst m').
  eapply up_to_fault_rel; [apply _| |exact Hs].
  destruct e; simpl in Hw |- *; repeat case_match; simpl; try done; subst;
    intros k' Hk; by rewrite lookup_insert_ne.
Qed.

Lemma writes_only_pure k X (e : upE X) : pure_call e = true -> writes_only k e.
Proof. by destruct e. Qed.
Hint Resolve writes_only_pure : calls.

(** Creating a session never touches an existing one, rollback included. *)
Lemma create_keeps r m x m' :
  nrun upload_spec (handleCreate srv r) m x m' -> m ⊆ m'.
Proof.
  intros H. unfold handleCreate in H.
  destruct (rq_identity r) as [id|]; [|by destruct H as [_ ->]].
  destruct (rq_decode r) as [req|]; [|by destruct H as [_ ->]].
  destruct (rq_more r); [by destruct H as [_ ->]|]. cbv zeta in H.
  destruct (negb _); [by destruct H as [_ ->]|].
  destruct H as (dec & m1 & -> & H). go_on H.
  destruct dec as [dec|]; [|by destruct H as [_ ->]].
  destruct (negb _); [by destruct H as [_ ->]|].
  destruct H as (uid & m2 & -> & H). go_on H.
  destruct uid as [sid|]; [|by destruct H as [_ ->]].
  destruct H as (mp & m3 & -> & H). go_on H.
  destruct mp as [mp|]; [|by destruct H as [_ ->]].
  set (sess := new_session srv sid id req mp) in *.
  destruct H as (cr & m4 & Hs & H). go_on H.
  assert (Hnew : m ⊆ m4).
  { eapply up_to_fault_rel; [apply _| |exact Hs]. cbn [store_nominal].
    repeat case_match; try done; by apply insert_subseteq. }
  destruct cr as [[]|e].
  - apply up_to_fault_ok in Hs. cbn [store_nominal] in Hs.
    destruct (negb (row_ok sess)); [done|]. destruct (m !! ID sess) eqn:Hnone; [done|]. simplify_eq.
    assert (Hso : same_but sid (<[sid := {| en_session := fresh_row sess;
       en_chunks := pending <$> seqZ 0 (chunk_count srv (cr_SizeBytes req)) |}]> m) m').
    { eapply (nrun_all_calls upload_spec (fun X e => writes_only sid e)); [apply _| | |exact H].
      - unfold create_publish. calls_tac.
      - intros. by eapply writes_only_step. }
    apply map_subseteq_spec. intros k en Hk. assert (k <> sid) by (intros ->; change (m !! sid = None) in Hnone; congruence).
    rewrite Hso by done. by rewrite lookup_insert_ne by done.
  - destruct H as (ab & m5 & -> & H). go_on H. destruct H as [_ ->]. done.
Qed.

Definition session_route (rt : route) : bool := match rt with RCreate => false | _ => true end.

Lemma assemble_returns sess parts :
  returns (fun x => match x with Ok s => ID s = ID sess | Err _ => True end)
    (assemble sha256hex sess parts).
Proof. unfold assemble, assemble_staged. returns_tac. Qed.

Lemma finalize_calls sess : all_calls (fun X e => writes_only (ID sess) e) (finalize srv sess).
Proof. unfold finalize. calls_tac. Qed.

Lemma complete_calls sess :
  all_calls (fun X e => writes_only (ID sess) e) (complete sha256hex srv sess).
Proof.
  unfold complete, complete_open.
  destruct (State sess); [| |done..];
    (apply all_calls_bind; [by apply all_calls_call|]; intros [chunks|]; [|done];
     destruct (sort_chunks chunks [] []) as [missing parts]; case_match; [done|];
     case_match; [|apply finalize_calls];
     eapply all_calls_bind_post; [unfold assemble, assemble_staged; calls_tac|apply assemble_returns|];
     intros [s|] Hs; [rewrite <-Hs; apply finalize_calls|done]).
Qed.

(** Everything after [loadOwnedSession] writes the loaded session only. *)
Lemma session_route_calls rt r :
  session_route rt = true ->
  exists k, serve rt r = with_session uuid_Parse r k /\
    forall sess id, all_calls (fun X e => writes_only (ID sess) e) (k sess id).
Proof.
  destruct rt; intros Hrt; try discriminate Hrt; eexists; (split; [reflexivity|]);
    intros sess id; cbn beta.
  - calls_tac.
  - unfold put_chunk, put_admitted. calls_tac.
  - apply complete_calls.
  - unfold cancel, cancel_persist. calls_tac.
Qed.

Lemma loadOwned_foreign r m x m' k id en :
  rq_identity r = Some id -> uuid_Parse (rq_id r) = Some k -> m !! k = Some en ->
  WorkspaceID (en_session en) <> id_WorkspaceID id ->
  nrun upload_spec (loadOwnedSession uuid_Parse r) m x m' ->
  x = inl (writeError 404 "not_found" "no such upload") \/
  x = inl (writeError 500 "store_error" "could not load session").
Proof.
  intros Hid Hk Hm Hne H. unfold loadOwnedSession in H. rewrite Hid, Hk in H.
  destruct H as (s & m1 & Hs & H). go_on H. destruct s as [sess|e].
  - apply up_to_fault_ok in Hs. simpl in Hs. rewrite Hm in Hs. simplify_eq.
    destruct (String.eqb_spec (WorkspaceID (en_session en)) (id_WorkspaceID id)); [done|].
    destruct H as [-> ->]. by left.
  - destruct e; destruct H as [-> ->]; auto.
Qed.

(** C37: workspaces are isolated.  One request of any kind, on any store meeting
    the contract and with the other dependencies answering anything, leaves every
    session of another workspace as it was; and a request for a session of
    another workspace gets the answer of a missing one (404, or 500 when the
    store fails) and changes nothing at all. *)
Theorem workspaces_are_isolated {S V} `{!StoreImpl S} (env : sem upE V) rt r (w : S * V) :
  store_wf w.1 ->
  let out := run (upload_sem env) (serve rt r) w in
  forall k en, store_abs w.1 !! k = Some en ->
    (forall id, rq_identity r = Some id -> WorkspaceID (en_session en) <> id_WorkspaceID id) ->
    store_abs out.2.1 !! k = Some en /\
    (session_route rt = true -> uuid_Parse (rq_id r) = Some k -> rq_identity r <> None ->
     store_abs out.2.1 = store_abs w.1 /\
     (out.1 = writeError 404 "not_found" "no such upload" \/
      out.1 = writeError 500 "store_error" "could not load session")).
Proof.
  intros Hwf out k en Hk Hfor.
  destruct (upload_run_spec env (serve rt r) w Hwf) as [H Hwf']. fold out in H, Hwf'.
  destruct (session_route rt) eqn:Hrt.
  2:{ destruct rt; try discriminate Hrt. split; [|done].
      apply create_keeps in H. by eapply lookup_weaken. }
  destruct (session_route_calls rt r Hrt) as (body & Heq & Hcalls). rewrite Heq in H.
  apply nrun_bind in H as (o & m1 & H1 & H). pose proof (loadOwned_spec _ _ _ _ H1) as [-> Ho].
  destruct o as [resp|[sess id]].
  - destruct H as [-> Hm]. rewrite Hm. split; [done|]. intros _ Hid Hne.
    split; [done|]. destruct (rq_identity r) as [id|] eqn:Hi; [|done].
    destruct (loadOwned_foreign _ _ _ _ _ _ _ Hi Hid Hk (Hfor _ eq_refl) H1) as [[= ->]|[= ->]]; auto.
  - destruct Ho as (Hid & Hws & k2 & en2 & Hk2 & Hm2 & ->).
    assert (Hne : k <> k2) by (intros ->; simplify_eq; by apply (Hfor _ Hid)).
    pose proof (store_ids _ _ _ Hwf Hm2) as Hkey.
    assert (Hsb : same_but k2 (store_abs w.1) (store_abs out.2.1)).
    { eapply (nrun_all_calls upload_spec (fun X e => writes_only k2 e)); [apply _| | |exact H].
      - rewrite <-Hkey. apply Hcalls.
      - intros. by eapply writes_only_step. }
    split; [by rewrite Hsb|]. intros _ Hk3 _. congruence.
Qed.

(** ** The session life cycle *)

Definition may (s s' : SessionState) : bool :=
  match s, s' with
  | SessionActive, _ => true
  | SessionAssembled, SessionActive => false
  | SessionAssembled, _ => true
  | SessionCompleted, SessionCompleted => true
  | SessionCancelled, SessionCancelled => true
  | _, _ => false
  end.

(** Legal change of a session: the state only moves forward, and digest and key
    are final once minted. *)
Definition life (s s' : Session) : Prop :=
  may (State s) (State s') = true /\
  (State s <> SessionActive -> SHA256 s' = SHA256 s /\ ObjectKey s' = ObjectKey s).

#[local] Instance life_preorder : PreOrder life.
Proof.
  split; [intros s; split; [by destruct (State s)|done]|].
  intros a b c [H1 H2] [H3 H4]. split; [by destruct (State a), (State b), (State c)|].
  intros Ha. destruct (H2 Ha) as [<- <-]. apply H4.
  destruct (State a), (State b); simpl in *; congruence.
Qed.

(** Calls that change no session state. *)
Definition gentle {X} (e : upE X) : bool :=
  match e with
  | Store e => match e with
               | SetSessionAssembled _ _ _ | SetSessionState _ _ => false
               | _ => true
               end
  | _ => true
  end.

Lemma gentle_step X (e : upE X) m x m' :
  gentle e = true -> upload_spec X e m x m' -> store_rel life chunk_mono m m'.
Proof.
  intros Hg Hs. destruct e; simpl in Hs; try by subst.
  eapply up_to_fault_rel; [apply _| |exact Hs].
  destruct e; try discriminate Hg; cbn [store_nominal]; repeat case_match; try done; subst;
    try (match goal with Hq : _ = Some (_, _) |- _ => apply chunk_target in Hq as [? ?] end;
         eapply store_rel_insert; [apply _|apply _|eassumption|];
         eapply entry_rel_chunk; [apply _|apply _|eassumption|]; split; simpl; congruence || done).
  intros id en Hm. exists en. cbn [snd]. rewrite lookup_insert_ne by congruence. by split_and!.
Qed.

Lemma pure_gentle X (e : upE X) : pure_call e = true -> gentle e = true.
Proof. by destruct e. Qed.
Hint Resolve pure_gentle : calls.

Lemma gentle_run {A} (p : prog upE A) m x m' :
  all_calls (fun X e => gentle e = true) p -> nrun upload_spec p m x m' ->
  store_rel life chunk_mono m m'.
Proof.
  intros Hp. eapply (nrun_all_calls upload_spec (fun X e => gentle e = true)); [apply _|done|].
  intros. by eapply gentle_step.
Qed.

(** Publishing leaves the store alone. *)
Lemma pure_run {A} (p : prog upE A) m x m' :
  all_calls (fun X e => pure_call e = true) p -> nrun upload_spec p m x m' -> m' = m.
Proof.
  intros Hp H. symmetry.
  eapply (nrun_all_calls upload_spec (fun X e => pure_call e = true) eq) in H; [done|done|].
  intros X e w y w' He Hs. by destruct e; simpl in Hs; subst.
Qed.

Lemma set_state_step m k en st x m' :
  m !! k = Some en -> upload_spec _ (Store (SetSessionState k st)) m x m' ->
  may (State (en_session en)) st = true -> store_rel life chunk_mono m m'.
Proof.
  intros Hm Hs Hmay. eapply up_to_fault_rel; [apply _| |exact Hs]. simpl. rewrite Hm.
  eapply store_rel_insert; [apply _|apply _|done|]. by apply entry_rel_session; [apply _|..].
Qed.

Lemma finalize_life sess m x m' en :
  m !! ID sess = Some en -> may (State (en_session en)) SessionCompleted = true ->
  nrun upload_spec (finalize srv sess) m x m' -> store_rel life chunk_mono m m'.
Proof.
  intros Hm Hmay H. unfold finalize in H. destruct H as (now & m1 & -> & H). go_on H.
  apply (nrun_bind (A:=_)) in H as (l & m1 & H1 & H).
  apply pure_run in H1 as ->; [|apply publishJSON_calls].
  destruct l as [[]|e]; [|by destruct H as [_ ->]]. go_on H.
  apply (nrun_bind (A:=_)) in H as (mt & m1 & H1 & H).
  apply pure_run in H1 as ->; [|apply publishMetering_calls].
  destruct mt as [[]|e]; [|by destruct H as [_ ->]].
  destruct H as (y & m1 & Hs & H). go_on H.
  assert (m' = m1) as -> by (destruct y as [[]|]; by destruct H as [_ ->]).
  by eapply set_state_step.
Qed.

(** Assembling moves the stored session to ASSEMBLED or leaves it. *)
Definition assembled_from (m : gmap string entry) (sess : Session) en (x : result Session)
    (m' : gmap string entry) : Prop :=
  match x with
  | Ok s => State s = SessionAssembled /\ ID s = ID sess /\
      m' = <[ID sess := set_session en (set_assembled (en_session en) (SHA256 s) (ObjectKey s))]> m
  | Err _ => store_rel life chunk_mono m m'
  end.

Lemma assembled_err m sess en e : assembled_from m sess en (Err e) m.
Proof. unfold assembled_from. reflexivity. Qed.

Lemma assemble_staged_life sess m x m' en :
  m !! ID sess = Some en -> State (en_session en) = SessionActive ->
  nrun upload_spec (assemble_staged sha256hex sess) m x m' ->
  assembled_from m sess en x m'.
Proof.
  intros Hm Hst H. unfold assemble_staged in H. destruct H as (b & m1 & -> & H). go_on H.
  destruct b as [[data err]|e]; [|destruct H as [-> ->]; apply assembled_err]. cbn [st_err st_bytes] in H.
  destruct err as [e|]; [destruct H as [-> ->]; apply assembled_err|].
  destruct (negb _); [destruct H as [-> ->]; apply assembled_err|].
  destruct H as (c & m1 & -> & H). go_on H. destruct c as [[]|e]; [|destruct H as [-> ->]; apply assembled_err].
  destruct H as (d & m1 & -> & H). go_on H. destruct H as (y & m1 & Hs & H). go_on H.
  destruct y as [[]|e]; destruct H as [-> ->].
  - apply up_to_fault_ok in Hs. simpl in Hs. rewrite Hm in Hs. by simplify_eq.
  - unfold assembled_from. eapply up_to_fault_rel; [apply _| |exact Hs]. simpl. rewrite Hm.
    eapply store_rel_insert; [apply _|apply _|done|]. apply entry_rel_session; [apply _|done|].
    split; simpl; [by rewrite Hst|congruence].
Qed.

Lemma assemble_life sess parts m x m' en :
  m !! ID sess = Some en -> State (en_session en) = SessionActive ->
  nrun upload_spec (assemble sha256hex sess parts) m x m' -> assembled_from m sess en x m'.
Proof.
  intros Hm Hst H. unfold assemble in H. destruct H as (b & m1 & -> & H). go_on H.
  destruct b as [[]|e]; [by apply assemble_staged_life|].
  destruct H as (h & m1 & -> & H). go_on H.
  destruct h as [[size []]|]; [|destruct H as [-> ->]; apply assembled_err..].
  destruct (size =? _); [by apply assemble_staged_life|]. destruct H as [-> ->]; apply assembled_err.
Qed.

Lemma complete_life sess m x m' en :
  m !! ID sess = Some en -> sess = en_session en ->
  nrun upload_spec (complete sha256hex srv sess) m x m' -> store_rel life chunk_mono m m'.
Proof.
  intros Hm Hsess H. unfold complete in H.
  assert (Ho : State sess = SessionActive \/ State sess = SessionAssembled ->
    nrun upload_spec (complete_open sha256hex srv sess) m x m' -> store_rel life chunk_mono m m').
  2:{ destruct (State sess) eqn:Hst; [by apply Ho; auto|by apply Ho; auto|by destruct H as [_ ->]..]. }
  clear H. intros Hst (ch & m1 & Hs & H). go_on H.
  assert (m1 = m) as -> by (cbn [upload_spec store_nominal] in Hs; rewrite Hm in Hs;
    by apply up_to_fault_read in Hs).
  destruct ch as [ch|]; [|by destruct H as [_ ->]].
  destruct (sort_chunks ch [] []) as [missing parts].
  destruct (negb (bool_decide _) || _); [by destruct H as [_ ->]|].
  case_bool_decide as Hact.
  - apply (nrun_bind (A:=_)) in H as (a & m1 & H1 & H).
    eapply assemble_life in H1; [|exact Hm|congruence]. destruct a as [s|e].
    + destruct H1 as (Has & Hid & ->). etrans; [|eapply finalize_life; [| |exact H]].
      * eapply store_rel_insert; [apply _|apply _|exact Hm|].
        apply entry_rel_session; [apply _|done|]. split; simpl; [|congruence].
        by rewrite <-Hsess, Hact.
      * rewrite Hid, lookup_insert_eq. reflexivity.
      * done.
    + by destruct H as [_ ->].
  - eapply finalize_life; [exact Hm| |exact H]. rewrite <-Hsess. by destruct Hst as [H0|H0]; rewrite H0.
Qed.

Lemma cancel_life sess m x m' en :
  m !! ID sess = Some en -> sess = en_session en ->
  nrun upload_spec (cancel sess) m x m' -> store_rel life chunk_mono m m'.
Proof.
  intros Hm Hsess H.
  assert (Hp : forall m x m', m !! ID sess = Some en ->
    State sess = SessionActive \/ State sess = SessionAssembled ->
    nrun upload_spec (cancel_persist sess) m x m' -> store_rel life chunk_mono m m').
  { clear m x m' Hm H. intros m x m' Hm Hst (y & m1 & Hs & H). go_on H.
    assert (m' = m1) as -> by (destruct y as [[]|]; by destruct H as [_ ->]).
    eapply set_state_step; [exact Hm|exact Hs|]. rewrite <-Hsess. by destruct Hst as [-> | ->]. }
  unfold cancel in H. destruct (State sess) eqn:Hst; [| |by destruct H as [_ ->]|].
  3:{ destruct H as (a & m1 & -> & H). go_on H. by destruct H as [_ ->]. }
  all: destruct H as (a & m1 & -> & H); go_on H; destruct a as [[]|]; [|by destruct H as [_ ->]];
    destruct H as (h & m1 & -> & H); go_on H;
    destruct h as [[size []]|]; try (eapply Hp; [exact Hm| |exact H]; by auto);
    destruct H as (d & m1 & -> & H); go_on H; destruct d as [[]|]; [|by destruct H as [_ ->]];
    eapply Hp; [exact Hm| |exact H]; auto.
Qed.

Lemma create_life r m x m' :
  nrun upload_spec (handleCreate srv r) m x m' -> store_rel life chunk_mono m m'.
Proof.
  intros H. unfold handleCreate in H.
  destruct (rq_identity r) as [id|]; [|by destruct H as [_ ->]].
  destruct (rq_decode r) as [req|]; [|by destruct H as [_ ->]].
  destruct (rq_more r); [by destruct H as [_ ->]|]. cbv zeta in H.
  destruct (negb _); [by destruct H as [_ ->]|].
  destruct H as (dec & m1 & -> & H). go_on H.
  destruct dec as [dec|]; [|by destruct H as [_ ->]].
  destruct (negb _); [by destruct H as [_ ->]|].
  destruct H as (uid & m2 & -> & H). go_on H.
  destruct uid as [sid|]; [|by destruct H as [_ ->]].
  destruct H as (mp & m3 & -> & H). go_on H.
  destruct mp as [mp|]; [|by destruct H as [_ ->]].
  set (sess := new_session srv sid id req mp) in *.
  destruct H as (cr & m4 & Hs & H). go_on H.
  assert (Hg : store_rel life chunk_mono m m4)
    by (by eapply gentle_step; [|exact Hs]).
  etrans; [exact Hg|]. destruct cr as [[]|e].
  - apply up_to_fault_ok in Hs. cbn [store_nominal] in Hs.
    destruct (negb (row_ok sess)); [done|]. destruct (m !! ID sess) eqn:Hnone; [done|].
    assert (Hn : m4 !! ID sess = Some {| en_session := fresh_row sess;
                   en_chunks := pending <$> seqZ 0 (ChunkCount sess) |})
      by (simplify_eq; apply lookup_insert_eq).
    clear Hs Hg. unfold create_publish in H. apply nrun_bind in H as (mt & m5 & H1 & H).
    apply pure_run in H1 as ->; [|apply publishMetering_calls].
    destruct mt as [[]|e]; [by destruct H as [_ ->]|].
    destruct H as (c & m5 & Hs & H). go_on H.
    assert (m' = m5) as ->.
    { destruct c as [[]|]; [|by destruct H as [_ ->]].
      destruct H as (a & m6 & -> & H). go_on H. by destruct H as [_ ->]. }
    by eapply set_state_step.
  - destruct H as (a & m5 & -> & H). go_on H. by destruct H as [_ ->].
Qed.

(** One request run alone. *)
Lemma request_life {S V} `{!StoreImpl S} (env : sem upE V) rt r (w : S * V) :
  store_wf w.1 ->
  store_rel life chunk_mono (store_abs w.1) (store_abs (run (upload_sem env) (serve rt r) w).2.1).
Proof.
  intros Hwf. destruct (upload_run_spec env (serve rt r) w Hwf) as [H _].
  revert H. generalize (run (upload_sem env) (serve rt r) w).2.1. intros s' H.
  assert (Hs : forall k, (forall sess id m x m' en, m !! ID sess = Some en -> sess = en_session en ->
      nrun upload_spec (k sess id) m x m' -> store_rel life chunk_mono m m') ->
    nrun upload_spec (with_session uuid_Parse r k) (store_abs w.1)
      (run (upload_sem env) (serve rt r) w).1 (store_abs s') ->
    store_rel life chunk_mono (store_abs w.1) (store_abs s')).
  { clear H. intros k Hk H. apply nrun_bind in H as (o & m1 & H1 & H).
    apply loadOwned_spec in H1 as [-> Ho]. destruct o as [resp|[sess id]];
      [by destruct H as [_ ->]|].
    destruct Ho as (_ & _ & key & en & _ & Hm & ->).
    pose proof (store_ids _ _ _ Hwf Hm) as Hkey. eapply Hk; [|done|exact H]. by rewrite Hkey. }
  destruct rt.
  - by eapply create_life.
  - eapply Hs; [|exact H]. intros sess id m x m' en _ _. apply gentle_run. calls_tac.
  - eapply Hs; [|exact H]. intros sess id m x m' en _ _. apply gentle_run.
    unfold put_chunk, put_admitted. calls_tac.
  - eapply Hs; [|exact H]. intros sess id m x m' en Hm He. by eapply complete_life.
  - eapply Hs; [|exact H]. intros sess id m x m' en Hm He. by eapply cancel_life.
Qed.

(** Requests one after the other. *)
Fixpoint serial {S V} `{!StoreImpl S} (env : sem upE V) (reqs : list (route * request)) (w : S * V) : S * V :=
  match reqs with
  | [] => w
  | (rt, r) :: reqs' => serial env reqs' (run (upload_sem env) (serve rt r) w).2
  end.

(** What is left of the life cycle when requests interleave. *)
Definition no_revival (s s' : Session) : Prop := State s' = SessionActive -> State s = SessionActive.

#[local] Instance no_revival_preorder : PreOrder no_revival.
Proof. unfold no_revival. split; [by intros s|]. intros a b c H1 H2. auto. Qed.

(** No handler asks for the state ACTIVE. *)
Definition not_reviving (X : Type) (e : upE X) : Prop :=
  match e with Store (SetSessionState _ st) => st <> SessionActive | _ => True end.

Lemma not_reviving_pure X (e : upE X) : pure_call e = true -> not_reviving X e.
Proof. by destruct e. Qed.
Hint Resolve not_reviving_pure : calls.

Lemma serve_not_reviving rt r : all_calls not_reviving (serve rt r).
Proof.
  destruct rt; cbn [UploadServer.serve].
  - unfold handleCreate, create_publish. calls_tac.
  - unfold handleGet, with_session, loadOwnedSession. calls_tac.
  - unfold handlePutChunk, with_session, loadOwnedSession, put_chunk, put_admitted. calls_tac.
  - unfold handleComplete, with_session, loadOwnedSession, complete, complete_open,
      assemble, assemble_staged, finalize. calls_tac.
  - unfold handleCancel, with_session, loadOwnedSession, cancel, cancel_persist. calls_tac.
Qed.

Lemma not_reviving_nominal {Y} (e : storeE Y) m :
  not_reviving _ (Store e) -> store_rel no_revival chunk_mono m (store_nominal e m).2.
Proof.
  intros He. assert (Hrefl : store_rel no_revival chunk_mono m m) by done.
  destruct e; simpl; repeat case_match; simpl; try done; subst;
    try (apply chunk_target in H as [? ?]);
    try (eapply store_rel_insert; [apply _|apply _|eassumption|];
         first [ eapply entry_rel_chunk; [apply _|apply _|eassumption|] ; split; simpl; congruence || done
               | apply entry_rel_session; [apply _|done|unfold no_revival; simpl in *; congruence] ]).
  intros id en Hm. exists en. rewrite lookup_insert_ne by congruence. by split_and!.
Qed.

(** C9: the life cycle.  On any store meeting the contract, with faults anywhere and
    every other dependency answering anything: while requests run one after the other,
    of any routes and in any number, each session only moves forward: ACTIVE to
    ASSEMBLED, COMPLETED or CANCELLED, ASSEMBLED to COMPLETED or CANCELLED; COMPLETED
    and CANCELLED are final, the digest and object key never change once minted, and no
    session disappears or changes its layout.  When requests interleave at their calls,
    finality is lost ([complete_cancel_race]: [complete] and [cancel] store
    unconditionally), but no session disappears or changes its layout, an acknowledged
    chunk stays DONE, and a session that has left ACTIVE never becomes ACTIVE again. *)
Theorem session_life_cycle {S V} `{!StoreImpl S} (env : sem upE V) (reqs : list (route * request)) (w : S * V) :
  store_wf w.1 ->
  store_rel life chunk_mono (store_abs w.1) (store_abs (serial env reqs w).1) /\
  forall ps w', rtc (pool_step (upload_sem env)) ((fun q => serve q.1 q.2) <$> reqs, w) (ps, w') ->
    store_rel no_revival chunk_mono (store_abs w.1) (store_abs w'.1).
Proof.
  intros Hwf. split.
  - revert w Hwf. induction reqs as [|[rt r] reqs IH]; intros w Hwf; [reflexivity|]. simpl.
    etrans; [by apply (request_life env rt r)|]. apply IH. by apply upload_run_spec.
  - intros ps w' Hr.
    pose (R := fun w w' : S * V => store_wf w.1 ->
      store_wf w'.1 /\ store_rel no_revival chunk_mono (store_abs w.1) (store_abs w'.1)).
    assert (PreOrder R).
    { split; [by intros x Hx|]. intros x y z Hxy Hyz Hx. destruct (Hxy Hx) as [Hy Rxy].
      destruct (Hyz Hy) as [Hz Ryz]. split; [done|]. by etrans. }
    eapply (pool_all_calls (upload_sem env) not_reviving R) in Hr; [by apply Hr| |].
    + apply Forall_fmap, Forall_forall. intros q _. apply serve_not_reviving.
    + clear. intros X e w He Hw. destruct (upload_sem_spec env X e w _ (conj Hw eq_refl))
        as (m' & Hs & Hw' & Ha). split; [done|]. rewrite Ha.
      destruct e; simpl in Hs; try by subst.
      eapply up_to_fault_rel; [apply _|by apply not_reviving_nominal|exact Hs].
Qed.
End upload.

(** ** Concrete runs *)

Definition ex_sha (_ : string) : string :=
  "0123456789abcdef0123456789abcdef0123456789abcdef0123456789abcdef".
Definition ex_srv : Server := {| maxObjectBytes := 100; publishRetries := 3; chunkSize := 4 |}.

(** Every dependency works; S3 hands back the six bytes that were staged. *)
Definition ex_env : sem upE () := fun X e v =>
  match e in upE X return X * () with
  | Store e => (Err (EMsg "not the store"), v)
  | Blob e =>
      (match e in blobE Y return result Y with
       | CreateMultipart _ _ => Ok "mp"
       | UploadPart _ _ _ _ => Ok "etag"
       | CompleteMultipart _ _ _ | AbortMultipart _ _ | Copy _ _ _ | Delete _ => Ok ()
       | GetObject _ => Ok {| st_bytes := "abcdef"; st_err := None |}
       | HeadObject _ => Ok (0, false)
       end, v)
  | Quota _ _ => (Ok allow, v)
  | Publish _ _ => (Ok (), v)
  | Gauge_TryAcquire _ => (true, v)
  | Gauge_Release _ | Backoff_Reset _ => ((), v)
  | Backoff_Deny _ => (Second, v)
  | NewV7 => (Ok "u1", v)
  | Now => (0, v)
  | WaitDone _ => (None, v)
  end.

Definition ex_id : Identity := {| id_WorkspaceID := "ws"; id_UserID := "user" |}.
Definition ex_req (n : string) (len : Z) (data : string) : request :=
  {| rq_identity := Some ex_id; rq_id := "u1"; rq_n := n;
     rq_decode := Ok {| cr_Filename := "f"; cr_SizeBytes := 6; cr_Mime := "video/mp4" |};
     rq_more := false; rq_ContentLength := len; rq_ChunkSha256 := ex_sha "";
     rq_body := {| st_bytes := data; st_err := None |} |}.

Definition ex_serve (q : route * request) : prog upE response :=
  serve ex_sha Some ex_srv q.1 q.2.
Definition ex_q0 := (RCreate, ex_req "" 0 "").
Definition ex_q1 := (RPutChunk, ex_req "0" 4 "abcd").
Definition ex_q2 := (RPutChunk, ex_req "1" 2 "ef").
Definition ex_q3 := (RComplete, ex_req "" 0 "").
Definition ex_q4 := (RCancel, ex_req "" 0 "").

Fixpoint ex_runs (qs : list (route * request)) (w : postgres * ()) : postgres * () :=
  match qs with
  | [] => w
  | q :: qs' => ex_runs qs' (run (upload_sem ex_env) (ex_serve q) w).2
  end.
Definition ex_empty : postgres * () := ({| pg_tables := no_tables; pg_faults := [] |}, ()).

Lemma ex_runs_wf qs w : store_wf w.1 -> store_wf (ex_runs qs w).1.
Proof.
  revert w. induction qs as [|q qs IH]; intros w Hw; [done|]. apply IH.
  by apply (upload_run_spec ex_env (ex_serve q)).
Qed.

Lemma ex_wf qs : store_wf (ex_runs qs ex_empty).1.
Proof. apply ex_runs_wf. apply no_tables_wf. Qed.

Definition ex_states (w : postgres * ()) : option (SessionState * list ChunkState) :=
  (fun en => (State (en_session en), CState <$> en_chunks en)) <$> store_abs w.1 !! "u1".

(** The whole flow: two chunks, completion. *)
Example ex_flow : ex_states (ex_runs [ex_q0; ex_q1; ex_q2; ex_q3] ex_empty)
  = Some (SessionCompleted, [ChunkDone; ChunkDone]).
Proof. vm_compute. reflexivity. Qed.

Lemma done_chunks_stay_done_witness :
  exists w w' : postgres * (), exists ps,
    store_wf w.1 /\
    rtc (pool_step (upload_sem ex_env)) (ex_serve <$> [ex_q1; ex_q2; ex_q4], w) (ps, w') /\
    ex_states w' = Some (SessionCancelled, [ChunkDone; ChunkDone]) /\
    store_rel any_session chunk_mono (store_abs w.1) (store_abs w'.1).
Proof.
  pose (w := ex_runs [ex_q0; ex_q1] ex_empty).
  pose (s := run_sched (upload_sem ex_env) [0; 1; 2; 1; 1; 0; 2; 1; 2; 0; 1; 2; 0; 1; 1; 2; 1]%nat
               (ex_serve <$> [ex_q1; ex_q2; ex_q4], w)).
  exists w, s.2, s.1. split; [apply ex_wf|].
  assert (Hr : rtc (pool_step (upload_sem ex_env)) (ex_serve <$> [ex_q1; ex_q2; ex_q4], w) (s.1, s.2)).
  { rewrite <-surjective_pairing. apply run_sched_reachable. }
  split; [exact Hr|]. split; [vm_compute; reflexivity|].
  exact (proj2 (done_chunks_stay_done ex_sha Some ex_srv ex_env _ w s.2 s.1 (ex_wf _) Hr)).
Defined.

Lemma put_chunk_success_witness :
  exists tr resp, exec (handlePutChunk ex_sha Some (ex_req "1" 2 "ef")) tr resp /\
    rs_status resp = 200 /\
    exists sess, State sess = SessionActive /\ expected_size sess 1 = 2.
Proof.
  pose (w := ex_runs [ex_q0; ex_q1] ex_empty).
  destruct (run_exec (upload_sem ex_env) (handlePutChunk ex_sha Some (ex_req "1" 2 "ef")) w) as [tr Htr].
  eexists tr, _. split; [exact Htr|].
  assert (Hst : rs_status (run (upload_sem ex_env) (handlePutChunk ex_sha Some (ex_req "1" 2 "ef")) w).1 = 200)
    by (vm_compute; reflexivity).
  split; [exact Hst|].
  destruct (put_chunk_success ex_sha Some (ex_req "1" 2 "ef") tr _ Htr Hst)
    as (id & k & sess & n & _ & _ & _ & Hact & Hn & _ & Hlen & _).
  exists sess. split; [exact Hact|].
  assert (n = 1) as -> by (vm_compute in Hn; congruence). symmetry. exact Hlen.
Defined.

Lemma chunks_partition_object_witness :
  let req := {| cr_Filename := "f"; cr_SizeBytes := 10; cr_Mime := "a/b" |} in
  zsum (expected_size (new_session ex_srv "u" ex_id req "mp") <$> seqZ 0 3) = 10.
Proof.
  intros req.
  apply (chunks_partition_object ex_srv ex_id req "mp" "u"); vm_compute; congruence.
Defined.

Lemma request_restores_gauge_witness :
  let g := {| ceiling := 100; current := 7 |} in
  (run (local_sem ex_env) (serve ex_sha Some ex_srv RPutChunk (ex_req "0" 4 "abcd"))
     ((), g, production_director)).2.1.2 = g.
Proof.
  intros g. apply (request_restores_gauge ex_sha Some ex_srv ex_env RPutChunk). simpl. lia.
Defined.

Lemma completed_only_after_landed_witness :
  exists tr resp, exec (handleComplete ex_sha Some ex_srv (ex_req "" 0 "")) tr resp /\
    rs_status resp = 200 /\ exists sess t, announced sess t.
Proof.
  pose (w := ex_runs [ex_q0; ex_q1; ex_q2] ex_empty).
  pose (p := handleComplete ex_sha Some ex_srv (ex_req "" 0 "")).
  pose proof (run_log_exec (upload_sem ex_env) p w) as Htr.
  eexists _, _. split; [exact Htr|].
  assert (Hst : rs_status (run (upload_sem ex_env) p w).1 = 200) by (vm_compute; reflexivity).
  split; [exact Hst|].
  assert (Hr : (0 < publishRetries ex_srv)%nat) by (vm_compute; lia).
  destruct (completed_only_after_landed ex_sha Some ex_srv (ex_req "" 0 "") _ _ Hr Htr)
    as [(Hn & _)|(k & sess & sess' & t1 & t2 & x & _ & _ & Ha & _)].
  - exfalso. assert (Hc : existsb commits (run_log (upload_sem ex_env) p w) = true)
      by (vm_compute; reflexivity).
    apply existsb_exists in Hc as (ev & Hin & Hev).
    apply list_elem_of_In, (proj1 (Forall_forall _ _) Hn) in Hin. congruence.
  - by exists sess', t2.
Defined.

Lemma workspaces_are_isolated_witness :
  let w := ex_runs [ex_q0; ex_q1] ex_empty in
  let r := {| rq_identity := Some {| id_WorkspaceID := "other"; id_UserID := "eve" |};
              rq_id := "u1"; rq_n := "0"; rq_decode := Err (EMsg "eof"); rq_more := false;
              rq_ContentLength := 4; rq_ChunkSha256 := "";
              rq_body := {| st_bytes := "abcd"; st_err := None |} |} in
  let out := run (upload_sem ex_env) (serve ex_sha Some ex_srv RCancel r) w in
  store_abs out.2.1 = store_abs w.1 /\ rs_status out.1 = 404.
Proof.
  intros w r out.
  destruct (store_abs w.1 !! "u1") as [en|] eqn:Hen; [|vm_compute in Hen; discriminate].
  assert (Hws : WorkspaceID (en_session en) = "ws").
  { assert (H : (WorkspaceID ∘ en_session) <$> store_abs w.1 !! "u1" = Some "ws")
      by (vm_compute; reflexivity). rewrite Hen in H. simpl in H. congruence. }
  split; [|vm_compute; reflexivity].
  eapply (workspaces_are_isolated ex_sha Some ex_srv ex_env RCancel r w (ex_wf _) "u1" en Hen);
    [|reflexivity|reflexivity|discriminate].
  intros id [= <-]. rewrite Hws. discriminate.
Defined.

Lemma session_life_cycle_witness :
  let w := ex_runs [ex_q0; ex_q1; ex_q2] ex_empty in
  ex_states (serial ex_sha Some ex_srv ex_env [ex_q3; ex_q4] w) = Some (SessionCompleted, [ChunkDone; ChunkDone]) /\
  store_rel life chunk_mono (store_abs w.1)
    (store_abs (serial ex_sha Some ex_srv ex_env [ex_q3; ex_q4] w).1).
Proof.
  intros w. split; [vm_compute; reflexivity|].
  apply (session_life_cycle ex_sha Some ex_srv ex_env [ex_q3; ex_q4] w). apply ex_wf.
Defined.

(** The life cycle needs the requests to run one at a time: [handleComplete] and
    [handleCancel] both test the state they loaded and then store unconditionally.
    Here the client of the first is told 200 COMPLETED, the landed event is out,
    and the session ends CANCELLED. *)
Example complete_cancel_race :
  let w := ex_runs [ex_q0; ex_q1; ex_q2] ex_empty in
  let s := run_sched (upload_sem ex_env) (1 :: replicate 20 0 ++ replicate 5 1)%nat
             (ex_serve <$> [ex_q3; ex_q4], w) in
  (fun p => match p with Ret resp => rs_status resp | _ => 0 end) <$> s.1 = [200; 204] /\
  ex_states s.2 = Some (SessionCancelled, [ChunkDone; ChunkDone]).
Proof. vm_compute. split; reflexivity. Qed.
