(* ===== verification/Bucket.v ===== *)
(** * The bucket behind the S3 client

    What Amazon documents of the requests BlobStore.v makes, as a relation: objects are
    replaced as a whole, a multipart upload is private until it is completed, completing
    it takes the listed parts with the ETags they were given and ends it, and a request
    may fail before or after it took effect.  [mp_owner] is an auxiliary record of which
    worker started an upload. *)
From S2P Require Export BlobStore.
#[local] Open Scope Z_scope.

Record multipart := {
  mp_key : string;
  mp_owner : nat;
  mp_parts : gmap Z (string * string)         (* part number: ETag and bytes *)
}.

Record bucket := {
  b_objects : gmap string string;
  b_uploads : gmap string multipart;          (* the open uploads *)
  b_used : gset string                        (* the upload ids given out so far *)
}.

Definition set_b_objects (b : bucket) (m : gmap string string) : bucket :=
  {| b_objects := m; b_uploads := b_uploads b; b_used := b_used b |}.
Definition set_b_uploads (b : bucket) (m : gmap string multipart) : bucket :=
  {| b_objects := b_objects b; b_uploads := m; b_used := b_used b |}.
Definition add_upload (b : bucket) (id : string) (u : multipart) : bucket :=
  {| b_objects := b_objects b; b_uploads := <[id := u]> (b_uploads b); b_used := {[id]} ∪ b_used b |}.
Definition end_upload (b : bucket) (id : string) : bucket := set_b_uploads b (delete id (b_uploads b)).
Definition add_part (u : multipart) (n : Z) (etag body : string) : multipart :=
  {| mp_key := mp_key u; mp_owner := mp_owner u; mp_parts := <[n := (etag, body)]> (mp_parts u) |}.

(** The bytes [from] to [to] of an object, both included. *)
Definition byte_range (s : string) (from to : Z) : string := substring (Z.to_nat from) (Z.to_nat (to - from + 1)) s.

(** The object made of the listed parts, if their ETags are current. *)
Fixpoint assembled (parts : gmap Z (string * string)) (l : list (Z * option string)) : option string :=
  match l with
  | [] => Some ""
  | (n, etag) :: l' =>
      match parts !! n, assembled parts l' with
      | Some (etag', body), Some rest => if bool_decide (etag = Some etag') then Some (body +:+ rest) else None
      | _, _ => None
      end
  end.

Definition is_error {Y} (x : s3_err + Y) : bool := match x with inl _ => true | inr _ => false end.

(** Refused or failed without effect; or with the effect, the reply perhaps lost. *)
Definition request_out {Y} (b : bucket) (effect : Y -> bucket -> Prop) (x : s3_err + Y) (b' : bucket) : Prop :=
  (is_error x = true /\ b' = b) \/ exists y, effect y b' /\ (x = inr y \/ is_error x = true).

Section server.
(** How the server reads the source of a copy. *)
Context (PathUnescape : string -> option string).

Definition open_upload (b : bucket) (key id : string) (u : multipart) : Prop :=
  b_uploads b !! id = Some u /\ mp_key u = key.

(** The object a copy reads. *)
Definition copy_source (b : bucket) (bkt source content : string) : Prop :=
  exists key, PathUnescape source = Some (bkt +:+ "/" +:+ key) /\ b_objects b !! key = Some content.

(** A request of worker [i]. *)
Definition s3_do (i : nat) X (e : s3E X) (b : bucket) : X -> bucket -> Prop :=
  match e in s3E X return X -> bucket -> Prop with
  | CreateMultipartUpload _ key _ => request_out b (fun y b' =>
      exists id, (id ∉ b_used b) /\ y = Some id /\
        b' = add_upload b id {| mp_key := key; mp_owner := i; mp_parts := ∅ |})
  | s3_UploadPart _ key id n body => request_out b (fun y b' =>
      exists u etag, open_upload b key id u /\ y = Some etag /\
        b' = set_b_uploads b (<[id := add_part u n etag body]> (b_uploads b)))
  | UploadPartCopy bkt key id n source range => request_out b (fun y b' =>
      exists u etag content from to, open_upload b key id u /\ copy_source b bkt source content /\
        0 <= from <= to /\ to < slen content /\ range = range_header from to /\ y = Some etag /\
        b' = set_b_uploads b (<[id := add_part u n etag (byte_range content from to)]> (b_uploads b)))
  | CompleteMultipartUpload _ key id parts => request_out b (fun _ b' =>
      exists u content, open_upload b key id u /\ parts <> [] /\ StronglySorted Z.lt parts.*1 /\
        assembled (mp_parts u) parts = Some content /\
        b' = set_b_objects (end_upload b id) (<[key := content]> (b_objects b)))
  | AbortMultipartUpload _ key id => fun x b' =>
      (x = inl NoSuchUpload /\ b' = b /\ ~ exists u, open_upload b key id u) \/
      (x <> inl NoSuchUpload /\
       request_out b (fun _ b' => (exists u, open_upload b key id u) /\ b' = end_upload b id) x b')
  | s3_GetObject _ key => fun x b' => b' = b /\
      match x with
      | inr st => exists content, b_objects b !! key = Some content /\ (st_err st = None -> st_bytes st = content)
      | inl _ => True
      end
  | s3_HeadObject _ key => fun x b' => b' = b /\
      match x with
      | inr len => exists content, b_objects b !! key = Some content /\ len = Some (slen content)
      | inl NotFound => b_objects b !! key = None
      | inl _ => True
      end
  | CopyObject bkt key source => request_out b (fun _ b' =>
      exists content, copy_source b bkt source content /\
        b' = set_b_objects b (<[key := content]> (b_objects b)))
  | DeleteObject _ key => request_out b (fun _ b' =>
      b' = set_b_objects b (delete key (b_objects b)))
  end.
End server.

(** ** Lists of parts *)

Definition sconcat (l : list string) : string := foldr String.append "" l.

Lemma sconcat_app l1 l2 : sconcat (l1 ++ l2) = sconcat l1 +:+ sconcat l2.
Proof. induction l1 as [|s l IH]; [done|]. simpl. unfold sconcat in *. by rewrite IH, sapp_assoc. Qed.

(** The parts an object is made of. *)
Lemma assembled_bodies parts l content :
  assembled parts l = Some content ->
  exists bodies, content = sconcat bodies /\
    Forall2 (fun p body => exists etag, p.2 = Some etag /\ parts !! p.1 = Some (etag, body)) l bodies.
Proof.
  revert content. induction l as [|[n etag] l IH]; intros content; simpl; [intros [= <-]; by exists []|].
  destruct (parts !! n) as [[etag' body]|] eqn:Hn; [|done].
  destruct (assembled parts l) as [rest|]; [|done]. case_bool_decide as He; [|done]. intros [= <-].
  destruct (IH rest eq_refl) as (bodies & -> & Hf). exists (body :: bodies). split; [done|].
  constructor; [|done]. by exists etag'.
Qed.

Lemma assembled_app parts l1 l2 :
  assembled parts (l1 ++ l2) = c1 ← assembled parts l1; c2 ← assembled parts l2; Some (c1 +:+ c2).
Proof.
  induction l1 as [|[n etag] l IH]; simpl; [by destruct (assembled parts l2)|].
  destruct (parts !! n) as [[etag' body]|]; [|done]. rewrite IH.
  destruct (assembled parts l) as [c|]; simpl; [|done].
  destruct (assembled parts l2) as [c2|]; simpl; case_bool_decide; simpl; by rewrite ?sapp_assoc.
Qed.

(** A part with a number of its own changes nothing for the others. *)
Lemma assembled_insert parts n p l :
  n ∉ l.*1 -> assembled (<[n := p]> parts) l = assembled parts l.
Proof.
  induction l as [|[m etag] l IH]; [done|]. rewrite fmap_cons, not_elem_of_cons. intros [Hne Hn]. simpl.
  by rewrite lookup_insert_ne, IH.
Qed.

Lemma seqZ_ascending m k : StronglySorted Z.lt (seqZ m k).
Proof.
  apply Sorted_StronglySorted; [intros a b c; lia|].
  destruct (Z_lt_le_dec k 0); [rewrite seqZ_nil by lia; constructor|]. revert m. rewrite <-(Z2Nat.id k) by lia.
  induction (Z.to_nat k) as [|n IH]; intros m; [rewrite seqZ_nil by lia; constructor|].
  rewrite seqZ_cons by lia. replace (Z.pred (Z.of_nat (S n))) with (Z.of_nat n) by lia.
  constructor; [apply IH|]. destruct n; [rewrite seqZ_nil by lia; constructor|].
  rewrite seqZ_cons by lia. constructor. lia.
Qed.

(** The parts of [completed], in order. *)
Lemma completed_numbers parts k :
  PartNumber <$> parts ≡ₚ seqZ 1 k -> (completed parts).*1 = seqZ 1 k.
Proof.
  intros Hp. assert (Hnd : NoDup (PartNumber <$> parts)) by (rewrite Hp; apply NoDup_seqZ).
  destruct (completed_sorted parts Hnd) as [Hs Hc]. apply (StronglySorted_unique_strong Z.lt).
  - intros x y _ _. lia.
  - done.
  - apply seqZ_ascending.
  - rewrite Hc, <-list_fmap_compose. exact Hp.
Qed.

(** ** Ranges *)

Lemma digits_go (x : N) s : all_chars is_digit s = true -> all_chars is_digit (pretty_N_go x s) = true.
Proof.
  revert s. induction (N.lt_wf_0 x) as [x _ IH]; intros s Hs.
  assert (x = 0%N \/ (0 < x)%N) as [->|Hx] by lia; [by rewrite pretty_N_go_0|].
  rewrite pretty_N_go_step by done. apply IH; [by apply N.div_lt|]. simpl. rewrite Hs, andb_true_r.
  unfold pretty_N_char. by repeat case_match.
Qed.

Lemma itoa_digits z : 0 <= z -> all_chars is_digit (itoa z) = true.
Proof.
  intros Hz. destruct z as [|p|p]; [done| |lia]. unfold itoa, pretty, pretty_Z, pretty, pretty_positive, pretty, pretty_N.
  case_decide; [done|]. by apply digits_go.
Qed.

Lemma itoa_no_dash z : 0 <= z -> no_char "-" (itoa z) = true.
Proof.
  intros Hz. unfold no_char. eapply all_chars_impl; [|by apply itoa_digits].
  intros c. destruct c as [[][][][][][][][]]; vm_compute; congruence.
Qed.

Lemma range_header_inj a b a' b' :
  0 <= a <= b -> 0 <= a' <= b' -> range_header a b = range_header a' b' -> a = a' /\ b = b'.
Proof.
  intros Ha Ha' Heq. unfold range_header in Heq. apply (inj (String.append "bytes=")) in Heq.
  apply cut_first in Heq as [H1 H2]; [|by apply itoa_no_dash; lia..].
  split; [by apply (inj pretty)|by apply (inj pretty)].
Qed.

(** Consecutive ranges from the start. *)
Lemma substring_join a n s : substring 0 a s +:+ substring a n s = substring 0 (a + n) s.
Proof.
  revert s. induction a as [|a IH]; intros s; [by destruct s; destruct n|].
  destruct s as [|c s]; [by destruct n|]. simpl. by rewrite <-IH.
Qed.

Lemma substring_all s n : (String.length s <= n)%nat -> substring 0 n s = s.
Proof.
  revert n. induction s as [|c s IH]; intros [|n] H; simpl in *; try lia; [done..|]. by rewrite IH by lia.
Qed.

Definition bytes_to (s : string) (n : Z) : string := substring 0 (Z.to_nat n) s.

Lemma bytes_to_range s from to :
  0 <= from <= to -> bytes_to s from +:+ byte_range s from to = bytes_to s (to + 1).
Proof.
  intros H. unfold bytes_to, byte_range. rewrite substring_join. f_equal. lia.
Qed.

Lemma bytes_to_0 s : bytes_to s 0 = "".
Proof. by destruct s. Qed.

Lemma bytes_to_all s n : slen s <= n -> bytes_to s n = s.
Proof. intros H. apply substring_all. unfold slen in H. lia. Qed.
