(* ===== verification/Landing.v ===== *)
(** * The upload service, its bucket and its session store together

    The handlers of UploadServer.v with their calls of the object store replaced by
    the programs of BlobStore.v, so that concurrent requests interleave at every S3
    request, statement and publication.  The world is the bucket of Bucket.v, any
    session store that meets [StoreImpl], and the landed events the stream has
    received.  [lg_ids] is an auxiliary record of which request drew which id. *)
From S2P Require Export Bucket UploadProofs.
#[local] Open Scope Z_scope.

Inductive landE : Type -> Type :=
| LS3 {X} (e : s3E X) : landE X
| LUp {X} (e : upE X) : landE X.

(** ** What the service promises of an object *)

Definition staging_key (id : string) : string := "staging/" +:+ id.
Definition is_asset (key : string) : Prop := exists rest, key = "assets/" +:+ rest.
Definition is_staging (key : string) : Prop := exists id, key = staging_key id.

(** The chunk layout of a session. *)
Record session_ok (s : Session) : Prop := {
  so_staging : StagingKey s = staging_key (ID s);
  so_size : 0 < SizeBytes s <= 2 ^ 59;
  so_count : 1 <= ChunkCount s;
  so_chunk : 0 < ChunkSizeBytes s;
  so_fits : ChunkSizeBytes s * (ChunkCount s - 1) < SizeBytes s <= ChunkSizeBytes s * ChunkCount s
}.

Definition chunks_ok (en : entry) : Prop :=
  Z.of_nat (length (en_chunks en)) = ChunkCount (en_session en) /\
  forall i c, en_chunks en !! i = Some c -> Index c = Z.of_nat i.

Section landing.
Context (sha256hex : string -> string) (uuid_Parse : string -> option string).
Context (PathEscape : string -> string) (PathUnescape : string -> option string).
Context (srv : Server) (bucketName : string).

(** A body that was sent for chunk [n] of session [id] with its own SHA-256. *)
Definition sent_by (reqs : list (route * request)) (id : string) (n : Z) (body : string) : Prop :=
  exists r, (RPutChunk, r) ∈ reqs /\ uuid_Parse (rq_id r) = Some id /\ Atoi (rq_n r) = Some n /\
    body = st_bytes (rq_body r) /\ sha256hex body = ToLower (rq_ChunkSha256 r).

Section sent.
Context (sent : string -> Z -> string -> Prop).

(** One body that was sent for each chunk, of the size the layout prescribes. *)
Definition made_of (s : Session) (data : string) : Prop :=
  exists bodies, Z.of_nat (length bodies) = ChunkCount s /\ data = sconcat bodies /\
    forall i body, bodies !! i = Some body ->
      sent (ID s) (Z.of_nat i) body /\ slen body = expected_size s (Z.of_nat i).

(** The object of an assembled session is in the bucket: it has the SHA-256 of what
    was sent, which is the session's digest and the last part of its key. *)
Definition landed_session (objs : gmap string string) (s : Session) : Prop :=
  ObjectKey s = object_key (WorkspaceID s) (SHA256 s) /\
  exists data content, made_of s data /\ slen data = SizeBytes s /\ sha256hex data = SHA256 s /\
    objs !! ObjectKey s = Some content /\ sha256hex content = SHA256 s.

Definition has_row (m : gmap string entry) (s : Session) : Prop :=
  exists en, m !! ID s = Some en /\ fixed (en_session en) = fixed s.

(** A landed event is about a session of the table and its object. *)
Definition event_landed (m : gmap string entry) (objs : gmap string string) (e : LandedObjectEvent) : Prop :=
  exists s, e = landed_event s (le_LandedAt e) /\ has_row m s /\ landed_session objs s.

(** Content addressing. *)
Definition addressed (key content : string) : Prop := exists ws, key = object_key ws (sha256hex content).

(** The content of some session of the table. *)
Definition sent_data (m : gmap string entry) (content : string) : Prop :=
  exists id en, m !! id = Some en /\ made_of (en_session en) content.

(** ** The world *)

Context {S : Type} `{!StoreImpl S}.

Record landing := {
  lg_bucket : bucket;
  lg_store : S;
  lg_ids : gmap string nat;
  lg_landed : list LandedObjectEvent
}.
Definition lg_rows (w : landing) : gmap string entry := store_abs (lg_store w).
Definition lg_objects (w : landing) : gmap string string := b_objects (lg_bucket w).
Definition set_bucket (w : landing) (b : bucket) : landing :=
  {| lg_bucket := b; lg_store := lg_store w; lg_ids := lg_ids w; lg_landed := lg_landed w |}.
Definition set_store (w : landing) (s : S) : landing :=
  {| lg_bucket := lg_bucket w; lg_store := s; lg_ids := lg_ids w; lg_landed := lg_landed w |}.
Definition set_ids (w : landing) (m : gmap string nat) : landing :=
  {| lg_bucket := lg_bucket w; lg_store := lg_store w; lg_ids := m; lg_landed := lg_landed w |}.
Definition set_landed (w : landing) (l : list LandedObjectEvent) : landing :=
  {| lg_bucket := lg_bucket w; lg_store := lg_store w; lg_ids := lg_ids w; lg_landed := l |}.

(** What the stream has after a message. *)
Definition received (v : payload) (l : list LandedObjectEvent) : list LandedObjectEvent :=
  match v with PLanded e => l ++ [e] | PMetering _ => l end.

(** A call of the object store is no step of its own: [land_call] replaces it. *)
Definition up_do (i : nat) X (e : upE X) (w : landing) : X -> landing -> Prop :=
  match e in upE X return X -> landing -> Prop with
  | Store e => fun x w' =>
      x = (store_exec _ e (lg_store w)).1 /\ w' = set_store w (store_exec _ e (lg_store w)).2
  | Publish _ v => fun x w' =>
      w' = set_landed w (received v (lg_landed w)) \/ (is_ok x = false /\ w' = w)
  | NewV7 => fun x w' =>
      (is_ok x = false /\ w' = w) \/
      exists id, x = Ok id /\ lg_ids w !! id = None /\ w' = set_ids w (<[id := i]> (lg_ids w))
  | _ => fun _ w' => w' = w
  end.

Definition land_do (i : nat) : nsem landE (landing * ()) := fun X e w x w' =>
  match e in landE X return X -> Prop with
  | LS3 e => fun x => exists b', s3_do PathUnescape i _ e (lg_bucket w.1) x b' /\ w' = (set_bucket w.1 b', ())
  | LUp e => fun x => exists w1, up_do i _ e w.1 x w1 /\ w' = (w1, ())
  end x.

(** ** The requests *)

Definition land_call X (e : upE X) : prog landE X :=
  match e in upE X return prog landE X with
  | Blob e => embed (fun X e => LS3 e) (S3BlobStore bucketName PathEscape e)
  | e => call (LUp e)
  end.

Definition land_request (q : route * request) : prog landE response :=
  interp land_call (serve sha256hex uuid_Parse srv q.1 q.2).

(** ** What holds between the steps *)

Definition no_upload (w : landing) (key : string) : Prop :=
  forall uid u, b_uploads (lg_bucket w) !! uid = Some u -> mp_key u <> key.

(** The parts of the open upload of session [id] were sent for its chunks. *)
Definition parts_sent (m : gmap string entry) (id : string) (u : multipart) : Prop :=
  forall p etag body, mp_parts u !! p = Some (etag, body) ->
    exists en, m !! id = Some en /\ 1 <= p <= ChunkCount (en_session en) /\
      sent id (p - 1) body /\ slen body = expected_size (en_session en) (p - 1).

Definition assembled_state (s : SessionState) : bool :=
  match s with SessionAssembled | SessionCompleted => true | _ => false end.

Record land_wf (w : landing) : Prop := {
  lw_store : store_wf (lg_store w);
  lw_rows : forall id en, lg_rows w !! id = Some en ->
    session_ok (en_session en) /\ ChunkCount (en_session en) < 2 ^ 31 /\ chunks_ok en /\ is_Some (lg_ids w !! id);
  lw_used : forall uid u, b_uploads (lg_bucket w) !! uid = Some u -> uid ∈ b_used (lg_bucket w);
  lw_uploads : forall uid u id, b_uploads (lg_bucket w) !! uid = Some u -> mp_key u = staging_key id ->
    is_Some (lg_ids w !! id) /\ parts_sent (lg_rows w) id u /\ lg_objects w !! staging_key id = None;
  lw_one : forall uid1 uid2 u1 u2 id,
    b_uploads (lg_bucket w) !! uid1 = Some u1 -> b_uploads (lg_bucket w) !! uid2 = Some u2 ->
    mp_key u1 = staging_key id -> mp_key u2 = staging_key id -> uid1 = uid2;
  lw_staged : forall id content, lg_objects w !! staging_key id = Some content ->
    exists en, lg_rows w !! id = Some en /\ made_of (en_session en) content;
  lw_assets : forall key content, is_asset key -> lg_objects w !! key = Some content ->
    addressed key content /\ sent_data (lg_rows w) content;
  lw_landed : forall id en, lg_rows w !! id = Some en -> assembled_state (State (en_session en)) = true ->
    landed_session (lg_objects w) (en_session en);
  lw_events : Forall (event_landed (lg_rows w) (lg_objects w)) (lg_landed w)
}.
End sent.
End landing.
Arguments landing : clear implicits.
