(* ===== verification/LandingProofs.v ===== *)
(** * What lands in the bucket is what was sent

    Rely-guarantee reasoning over the world of Landing.v: nothing any request does loses
    a row or an object, writes into a staging object once its upload is over, or stores
    under a name that is not the hash of the content. *)
From S2P Require Export Triples Landing.
#[local] Open Scope Z_scope.

(** ** Keys *)

Lemma staging_key_inj id id' : staging_key id = staging_key id' -> id = id'.
Proof. apply (inj (String.append "staging/")). Qed.

Lemma asset_not_staging key id : is_asset key -> key <> staging_key id.
Proof. by intros [r ->]. Qed.

Lemma object_key_asset ws sha : is_asset (object_key ws sha).
Proof. by eexists. Qed.

Lemma object_key_sha ws ws' sha sha' :
  no_char "/" sha = true -> no_char "/" sha' = true -> object_key ws sha = object_key ws' sha' -> sha = sha'.
Proof.
  intros H H' Heq. apply (inj (String.append "assets/")) in Heq.
  assert (E : forall a b, a +:+ "/sha256/" +:+ b = (a +:+ "/sha256") +:+ String "/" b) by (intros; by rewrite sapp_assoc).
  rewrite !E in Heq. by apply cut_last in Heq as [_ ->].
Qed.

(** ** What only depends on the fixed part of a session *)

Lemma fixed_fields s s' : fixed s = fixed s' ->
  ID s = ID s' /\ WorkspaceID s = WorkspaceID s' /\ UserID s = UserID s' /\ SizeBytes s = SizeBytes s' /\
  Mime s = Mime s' /\ ChunkSizeBytes s = ChunkSizeBytes s' /\ ChunkCount s = ChunkCount s' /\
  StagingKey s = StagingKey s' /\ S3UploadID s = S3UploadID s'.
Proof. unfold fixed. intros H. injection H. intros. split_and!; congruence. Qed.

Lemma fixed_expected s s' n : fixed s = fixed s' -> expected_size s n = expected_size s' n.
Proof. intros (_ & _ & _ & E1 & _ & E2 & E3 & _)%fixed_fields. unfold expected_size. by rewrite E1, E2, E3. Qed.

Lemma fixed_ok s s' : fixed s = fixed s' -> session_ok s -> session_ok s'.
Proof.
  intros (E0 & _ & _ & E1 & _ & E2 & E3 & E4 & _)%fixed_fields [H1 H2 H3 H4 H5].
  split; rewrite <-?E0, <-?E1, <-?E2, <-?E3, <-?E4; done.
Qed.

Lemma fixed_made sent s s' data : fixed s = fixed s' -> made_of sent s data -> made_of sent s' data.
Proof.
  intros Hf (bodies & H1 & H2 & H3). pose proof (fixed_fields _ _ Hf) as (E0 & _ & _ & _ & _ & _ & E3 & _).
  exists bodies. split_and!; [congruence|done|]. intros i body Hb. rewrite <-E0, <-(fixed_expected _ _ _ Hf). auto.
Qed.

Section landing.
Context (sha256hex : string -> string) (uuid_Parse : string -> option string).
Context (PathEscape : string -> string) (PathUnescape : string -> option string).
Context (srv : Server) (bucketName : string).
Context (sent : string -> Z -> string -> Prop).
Context {S : Type} `{!StoreImpl S}.
Context (sha256hex_hex : forall s, hex64 (sha256hex s) = true).
(** Who may rely on nobody writing other keys than staging and asset keys. *)
Context (strict : nat -> Prop).

Abbreviation wf := (land_wf sha256hex sent (S := S)).
Abbreviation do := (land_do PathUnescape (S := S)).
Abbreviation landed := (landed_session sha256hex sent).
Abbreviation addressed := (addressed sha256hex).

Lemma sha_no_slash s : no_char "/" (sha256hex s) = true.
Proof.
  specialize (sha256hex_hex s). unfold hex64, match_class in sha256hex_hex. bool_prop.
  eapply all_chars_impl; [|eassumption]. intros c. destruct c as [[][][][][][][][]]; vm_compute; congruence.
Qed.

Lemma addressed_sha key c c' : addressed key c -> addressed key c' -> sha256hex c = sha256hex c'.
Proof. intros [ws ->] [ws' Heq]. by eapply object_key_sha; [apply sha_no_slash..|exact Heq]. Qed.

(** ** What no request undoes *)

Record evolves (w w' : landing S) : Prop := {
  ev_rows : store_rel any_session chunk_mono (lg_rows w) (lg_rows w');
  ev_landed : forall id en, lg_rows w !! id = Some en -> landed (lg_objects w) (en_session en) ->
    exists en', lg_rows w' !! id = Some en' /\ landed (lg_objects w') (en_session en');
  ev_staging : forall id, is_Some (lg_rows w !! id) -> no_upload w (staging_key id) ->
    no_upload w' (staging_key id) /\
    (lg_objects w' !! staging_key id = lg_objects w !! staging_key id \/ lg_objects w' !! staging_key id = None);
  ev_assets : forall key c, is_asset key -> lg_objects w !! key = Some c ->
    exists c', lg_objects w' !! key = Some c' /\ sha256hex c' = sha256hex c;
  ev_events : lg_landed w `prefix_of` lg_landed w';
  ev_used : b_used (lg_bucket w) ⊆ b_used (lg_bucket w');
  ev_over : forall uid, uid ∈ b_used (lg_bucket w) -> b_uploads (lg_bucket w) !! uid = None ->
    b_uploads (lg_bucket w') !! uid = None
}.

Definition others_kept (w w' : landing S) : Prop :=
  forall key, ~ is_asset key -> ~ is_staging key -> lg_objects w' !! key = lg_objects w !! key.

(** What is a worker's own: the ids it drew, and the copies it makes. *)
Record lkept (i : nat) (w w' : landing S) : Prop := {
  lk_ids : forall id, lg_ids w !! id = Some i -> lg_ids w' !! id = Some i;
  lk_rows : forall id, lg_ids w !! id = Some i -> lg_rows w !! id = None -> lg_rows w' !! id = None;
  lk_fresh : forall id, lg_ids w !! id = Some i -> no_upload w (staging_key id) -> no_upload w' (staging_key id);
  lk_copies : forall uid u, b_uploads (lg_bucket w) !! uid = Some u -> mp_owner u = i -> is_asset (mp_key u) ->
    b_uploads (lg_bucket w') !! uid = Some u
}.

Lemma ev_row w w' id en : evolves w w' -> lg_rows w !! id = Some en ->
  exists en', lg_rows w' !! id = Some en' /\ fixed (en_session en') = fixed (en_session en).
Proof. intros E H. destruct (ev_rows _ _ E _ _ H) as (en' & H' & Hf & _). eauto. Qed.

#[local] Instance evolves_preorder : PreOrder evolves.
Proof.
  split; [intros w; split; eauto; reflexivity|]. intros w1 w2 w3 H12 H23. split.
  - etrans; [apply H12|apply H23].
  - intros id en Hen Hl. destruct (ev_landed _ _ H12 _ _ Hen Hl) as (en2 & Hen2 & Hl2). by apply (ev_landed _ _ H23 _ en2).
  - intros id [en Hen] Hno. destruct (ev_staging _ _ H12 id ltac:(by eexists) Hno) as [Hno2 Ho2].
    destruct (ev_row _ _ _ _ H12 Hen) as (en2 & Hen2 & _).
    destruct (ev_staging _ _ H23 id ltac:(by eexists) Hno2) as [Hno3 Ho3]. split; [done|].
    destruct Ho3 as [Ho3|Ho3]; [|by right]. rewrite Ho3. done.
  - intros key c Ha Hc. destruct (ev_assets _ _ H12 _ _ Ha Hc) as (c2 & Hc2 & Hs2).
    destruct (ev_assets _ _ H23 _ _ Ha Hc2) as (c3 & Hc3 & Hs3). exists c3. split; [done|congruence].
  - etrans; [apply H12|apply H23].
  - etrans; [apply H12|apply H23].
  - intros uid Hu Hn. apply (ev_over _ _ H23); [by apply (ev_used _ _ H12)|by apply (ev_over _ _ H12)].
Qed.

#[local] Instance lkept_preorder i : PreOrder (lkept i).
Proof.
  split; [by intros w; split|]. intros w1 w2 w3 [I1 R1 F1 C1] [I2 R2 F2 C2]. split; intros *; eauto 6.
Qed.

#[local] Instance others_kept_preorder : PreOrder others_kept.
Proof.
  split; [by intros w|]. intros w1 w2 w3 H12 H23 key Ha Hs. by rewrite H23, H12.
Qed.

Definition lrely (i : nat) (w w' : landing S) : Prop :=
  wf w -> wf w' /\ evolves w w' /\ lkept i w w' /\ (strict i -> others_kept w w').
Definition lguar (i : nat) (w w' : landing S) : Prop :=
  wf w' /\ evolves w w' /\ others_kept w w' /\ forall k, k <> i -> lkept k w w'.

#[local] Instance lrely_relied : Relied wf lrely.
Proof.
  split; [|intros i w w' Hw Hr; by apply Hr]. intros i. split; [by intros w Hw; split_and!|].
  intros w1 w2 w3 H12 H23 H1. destruct (H12 H1) as (H2 & E2 & K2 & O2). destruct (H23 H2) as (H3 & E3 & K3 & O3).
  split_and!; [done|by etrans|by etrans|]. intros Hi. etrans; [by apply O2|by apply O3].
Qed.

Lemma lguar_rely i w w' k : lguar i w w' -> k <> i -> lrely k w w'.
Proof. intros (Hw & He & Ho & Hk) Hne _. auto. Qed.

Lemma lguar_refl i w : wf w -> lguar i w w.
Proof. intros Hw. by split_and!. Qed.

(** An assertion that lasts whatever anyone does. *)
Definition lasting (P : landing S -> Prop) : Prop :=
  forall w w', wf w -> wf w' -> evolves w w' -> P w -> P w'.

Lemma landed_mono objs objs' s :
  (forall key c, is_asset key -> objs !! key = Some c -> exists c', objs' !! key = Some c' /\ sha256hex c' = sha256hex c) ->
  landed objs s -> landed objs' s.
Proof.
  intros Ho (Hk & data & content & H1 & H2 & H3 & H4 & H5). split; [done|].
  destruct (Ho (ObjectKey s) content) as (c' & Hc' & Hs); [rewrite Hk; apply object_key_asset|done|].
  exists data, c'. split_and!; [done..|congruence].
Qed.

Lemma landed_lasting s : lasting (fun w => landed (lg_objects w) s).
Proof. intros w w' _ _ E. apply landed_mono, E. Qed.

Lemma has_row_lasting s : lasting (fun w => has_row (lg_rows w) s).
Proof.
  intros w w' _ _ E (en & Hen & Hf). destruct (ev_row _ _ _ _ E Hen) as (en' & Hen' & Hf').
  exists en'. split; [done|congruence].
Qed.

Lemma event_landed_lasting e : lasting (fun w => event_landed sha256hex sent (lg_rows w) (lg_objects w) e).
Proof.
  intros w w' Hw Hw' E (s & He & Hr & Hl). exists s.
  split_and!; [done|by apply (has_row_lasting s w w')|by apply (landed_lasting s w w')].
Qed.

(** ** Requests to the bucket *)

Lemma parts_sent_mono m m' id u :
  (forall en, m !! id = Some en -> exists en', m' !! id = Some en' /\ fixed (en_session en') = fixed (en_session en)) ->
  parts_sent sent m id u -> parts_sent sent m' id u.
Proof.
  intros Hm Hp p etag body Hb. destruct (Hp p etag body Hb) as (en & Hen & Hr & Hs & Hl).
  destruct (Hm en Hen) as (en' & Hen' & Hf). exists en'. split; [done|].
  rewrite (fixed_expected _ _ _ Hf). destruct (fixed_fields _ _ Hf) as (_ & _ & _ & _ & _ & _ & -> & _). done.
Qed.

(** What a request may do to an upload and to an object. *)
Definition upload_change (i : nat) (w : landing S) (o o' : option multipart) : Prop :=
  o' = o \/ exists u, o = Some u /\ (is_asset (mp_key u) -> mp_owner u = i) /\
    (o' = None \/ exists u', o' = Some u' /\ mp_key u' = mp_key u /\ mp_owner u' = mp_owner u /\
       forall id, mp_key u = staging_key id -> parts_sent sent (lg_rows w) id u').

Definition object_change (w : landing S) (b' : bucket) (key : string) (o o' : option string) : Prop :=
  o' = o \/
  (is_asset key /\ exists c, o' = Some c /\ addressed key c /\ sent_data sent (lg_rows w) c) \/
  (is_staging key /\ o' = None) \/
  (exists id en uid u c, key = staging_key id /\ lg_rows w !! id = Some en /\ made_of sent (en_session en) c /\
     b_uploads (lg_bucket w) !! uid = Some u /\ mp_key u = key /\ b_uploads b' !! uid = None /\ o' = Some c).

Section request.
Context (i : nat) (w : landing S) (b' : bucket) (Hw : wf w) (Hused : b_used b' = b_used (lg_bucket w)).
Context (Hup : forall uid, upload_change i w (b_uploads (lg_bucket w) !! uid) (b_uploads b' !! uid)).
Context (Hobj : forall key, object_change w b' key (lg_objects w !! key) (b_objects b' !! key)).

Lemma upload_before uid u' : b_uploads b' !! uid = Some u' -> exists u,
  b_uploads (lg_bucket w) !! uid = Some u /\ mp_key u = mp_key u' /\
  forall id, mp_key u = staging_key id -> parts_sent sent (lg_rows w) id u'.
Proof.
  intros Hu'. destruct (Hup uid) as [Hs|(u & Hu & _ & [Hn|(v & Hv & Hk & _ & Hp)])]; [|congruence|].
  - exists u'. split_and!; [congruence|done|]. intros id Hid. apply (lw_uploads _ _ _ Hw uid u' id); [congruence|done].
  - exists u. assert (v = u') as -> by congruence. by split_and!.
Qed.

Lemma still_no_upload key : no_upload w key -> no_upload (set_bucket w b') key.
Proof. intros Hno uid u' Hu'. destruct (upload_before _ _ Hu') as (u & Hu & <- & _). by eapply Hno. Qed.

Lemma assets_kept key c : is_asset key -> lg_objects w !! key = Some c ->
  exists c', b_objects b' !! key = Some c' /\ sha256hex c' = sha256hex c.
Proof.
  intros Ha Hc. destruct (Hobj key) as [Ho|[(_ & c' & Ho & Hc')|[[[id ->] _]|(id & en & uid & u & c' & -> & _)]]].
  - exists c. split; [congruence|done].
  - exists c'. split; [done|]. eapply addressed_sha; [apply Hc'|]. by apply (lw_assets _ _ _ Hw).
  - by apply (asset_not_staging _ id) in Ha.
  - by apply (asset_not_staging _ id) in Ha.
Qed.

Lemma request_wf : wf (set_bucket w b').
Proof.
  split; simpl.
  - apply Hw.
  - apply (lw_rows _ _ _ Hw).
  - intros uid u' Hu'. destruct (upload_before _ _ Hu') as (u & Hu & _). rewrite Hused. by apply (lw_used _ _ _ Hw uid u).
  - intros uid u' id Hu' Hk. destruct (upload_before _ _ Hu') as (u & Hu & Hkey & Hp). rewrite Hk in Hkey.
    destruct (lw_uploads _ _ _ Hw uid u id Hu Hkey) as (Hi & _ & Hn). split_and!; [done|by apply Hp|].
    unfold lg_objects; simpl.
    destruct (Hobj (staging_key id)) as [Ho|[(Ha & _)|[[_ Ho]|(id2 & en & uid2 & u2 & c & E1 & _ & _ & E2 & E3 & E4 & _)]]].
    + congruence.
    + by apply (asset_not_staging _ id) in Ha.
    + done.
    + assert (uid2 = uid) as -> by (by eapply (lw_one _ _ _ Hw _ _ _ _ id)). congruence.
  - intros uid1 uid2 u1 u2 id H1 H2 K1 K2. destruct (upload_before _ _ H1) as (v1 & V1 & E1 & _).
    destruct (upload_before _ _ H2) as (v2 & V2 & E2 & _). eapply (lw_one _ _ _ Hw _ _ _ _ id); [exact V1|exact V2|congruence..].
  - intros id c Hc. unfold lg_objects in Hc; simpl in Hc.
    destruct (Hobj (staging_key id)) as [Ho|[(Ha & _)|[[_ Ho]|(id2 & en & uid2 & u2 & c' & E1 & E2 & E3 & _ & _ & _ & Ho)]]].
    + apply (lw_staged _ _ _ Hw). congruence.
    + by apply (asset_not_staging _ id) in Ha.
    + congruence.
    + apply staging_key_inj in E1 as <-. assert (c' = c) as -> by congruence. eauto.
  - intros key c Ha Hc. unfold lg_objects in Hc; simpl in Hc.
    destruct (Hobj key) as [Ho|[(_ & c' & Ho & Hc')|[[_ Ho]|(id & en & uid & u & c' & -> & _)]]].
    + apply (lw_assets _ _ _ Hw); [done|congruence].
    + assert (c' = c) as -> by congruence. exact Hc'.
    + congruence.
    + by apply (asset_not_staging _ id) in Ha.
  - intros id en Hen Hst. eapply landed_mono; [exact assets_kept|]. by apply (lw_landed _ _ _ Hw id).
  - eapply Forall_impl; [apply (lw_events _ _ _ Hw)|]. intros e (s & He & Hr & Hl). exists s.
    split_and!; [done|done|]. eapply landed_mono; [exact assets_kept|done].
Qed.

Lemma request_evolves : evolves w (set_bucket w b').
Proof.
  split; simpl; [reflexivity| | |exact assets_kept|reflexivity|by rewrite Hused|].
  - intros id en Hen Hl. exists en. split; [done|]. eapply landed_mono; [exact assets_kept|done].
  - intros id [en Hen] Hn. split; [by apply still_no_upload|]. unfold lg_objects; simpl.
    destruct (Hobj (staging_key id)) as [Ho|[(Ha & _)|[[_ Ho]|(id2 & en2 & uid & u & c & _ & _ & _ & E2 & E3 & _)]]].
    + by left.
    + by apply (asset_not_staging _ id) in Ha.
    + by right.
    + exfalso. by eapply Hn.
  - intros uid _ Hn. apply eq_None_not_Some. intros [u' Hu']. destruct (upload_before _ _ Hu') as (u & Hu & _). congruence.
Qed.

Lemma request_others : others_kept w (set_bucket w b').
Proof.
  intros key Ha Hs. unfold lg_objects; simpl.
  destruct (Hobj key) as [Ho|[(Ha' & _)|[[Hs' _]|(id & en & uid & u & c & -> & _)]]]; [done..|].
  destruct Hs. by eexists.
Qed.

Lemma request_guar : lguar i w (set_bucket w b').
Proof.
  split; [apply request_wf|]. split; [apply request_evolves|]. split; [apply request_others|]. intros k Hne. split; simpl; [done..| |].
  - intros id _. apply still_no_upload.
  - intros uid u Hu Ho Ha. destruct (Hup uid) as [Hs|(u2 & Hu2 & Hown & _)]; [congruence|].
    assert (u2 = u) as -> by congruence. exfalso. apply Hne. by rewrite <-Ho, <-Hown.
Qed.
End request.

(** An upload started under a key nobody uploads to. *)
Lemma create_guar i w uid u :
  wf w -> uid ∉ b_used (lg_bucket w) -> mp_owner u = i -> mp_parts u = ∅ ->
  (is_asset (mp_key u) \/ exists id, mp_key u = staging_key id /\ lg_ids w !! id = Some i /\
     lg_rows w !! id = None /\ no_upload w (staging_key id)) ->
  lguar i w (set_bucket w (add_upload (lg_bucket w) uid u)).
Proof.
  intros Hw Hfresh Ho Hps Hkey.
  assert (Hnew : b_uploads (lg_bucket w) !! uid = None).
  { apply eq_None_not_Some. intros [v Hv]. by apply (lw_used _ _ _ Hw) in Hv. }
  assert (Hcase : forall uid2 v, <[uid := u]> (b_uploads (lg_bucket w)) !! uid2 = Some v ->
    (uid2 = uid /\ v = u) \/ (uid2 <> uid /\ b_uploads (lg_bucket w) !! uid2 = Some v)).
  { intros uid2 v. destruct (decide (uid = uid2)) as [<-|Hne]; [rewrite lookup_insert_eq; naive_solver|].
    rewrite lookup_insert_ne by done. auto. }
  assert (Hstag : forall id, mp_key u = staging_key id -> lg_ids w !! id = Some i /\ lg_rows w !! id = None /\
    no_upload w (staging_key id)).
  { intros id Hk. destruct Hkey as [Ha|(id' & Hk' & H)]; [by apply (asset_not_staging _ id) in Ha|].
    rewrite Hk in Hk'. apply staging_key_inj in Hk' as <-. done. }
  split; [split; simpl|split; [|split; [done|]]].
  - apply Hw.
  - apply (lw_rows _ _ _ Hw).
  - intros uid2 v [[-> ->]|[_ Hv]]%Hcase; [set_solver|]. apply (lw_used _ _ _ Hw) in Hv. set_solver.
  - intros uid2 v id [[-> ->]|[_ Hv]]%Hcase Hk; [|by apply (lw_uploads _ _ _ Hw uid2 v id)].
    destruct (Hstag id Hk) as (Hi & Hn & _). split; [by eexists|]. split.
    + intros p etag body. by rewrite Hps.
    + destruct (lg_objects w !! staging_key id) as [c|] eqn:Hc; [|done].
      destruct (lw_staged _ _ _ Hw _ _ Hc) as (en & Hen & _). congruence.
  - intros uid1 uid2 u1 u2 id H1%Hcase H2%Hcase K1 K2.
    destruct H1 as [[-> ->]|[_ H1]], H2 as [[-> ->]|[_ H2]]; [done| | |by eapply (lw_one _ _ _ Hw)].
    + destruct (Hstag id K1) as (_ & _ & Hn). by apply Hn in H2.
    + destruct (Hstag id K2) as (_ & _ & Hn). by apply Hn in H1.
  - apply (lw_staged _ _ _ Hw).
  - apply (lw_assets _ _ _ Hw).
  - apply (lw_landed _ _ _ Hw).
  - apply (lw_events _ _ _ Hw).
  - split; simpl; [reflexivity|eauto| |eauto|reflexivity|set_solver|].
    2:{ intros uid2 Hu2 Hn. rewrite lookup_insert_ne; [done|]. by intros ->. }
    intros id [en Hen] Hn. split; [|by left]. intros uid2 v [[-> ->]|[_ Hv]]%Hcase; [|by eapply Hn].
    intros Hk. destruct (Hstag id Hk) as (_ & Hr & _). congruence.
  - intros k Hne. split; simpl; [done..| |].
    + intros id Hid Hn uid2 v [[-> ->]|[_ Hv]]%Hcase; [|by eapply Hn].
      intros Hk. destruct (Hstag id Hk) as (Hi & _). congruence.
    + intros uid2 v Hv _ _. rewrite lookup_insert_ne; [done|]. congruence.
Qed.

(** ** What a worker may request *)

Definition own_upload (i : nat) (w : landing S) (uid : string) : Prop :=
  forall u, b_uploads (lg_bucket w) !! uid = Some u -> mp_owner u = i.

Definition s3_own (i : nat) (w : landing S) X (e : s3E X) : Prop :=
  match e with
  | CreateMultipartUpload _ key _ =>
      is_asset key \/ exists id, key = staging_key id /\ lg_ids w !! id = Some i /\
        lg_rows w !! id = None /\ no_upload w (staging_key id)
  | s3_UploadPart _ key _ n body => exists id en, key = staging_key id /\ lg_rows w !! id = Some en /\
      1 <= n <= ChunkCount (en_session en) /\ sent id (n - 1) body /\ slen body = expected_size (en_session en) (n - 1)
  | UploadPartCopy _ key uid _ _ _ => is_asset key /\ own_upload i w uid
  | CompleteMultipartUpload _ key uid parts =>
      (exists id en, key = staging_key id /\ lg_rows w !! id = Some en /\ parts.*1 = seqZ 1 (ChunkCount (en_session en))) \/
      (is_asset key /\ own_upload i w uid /\ forall u c, b_uploads (lg_bucket w) !! uid = Some u ->
         assembled (mp_parts u) parts = Some c -> addressed key c /\ sent_data sent (lg_rows w) c)
  | AbortMultipartUpload _ key uid => is_staging key \/ own_upload i w uid
  | CopyObject bkt key source => is_asset key /\
      forall c, copy_source PathUnescape (lg_bucket w) bkt source c ->
        addressed key c /\ sent_data sent (lg_rows w) c
  | DeleteObject _ key => is_staging key
  | _ => True
  end.

Lemma upload_change_at i w uid0 (m : gmap string multipart) :
  (forall uid, uid <> uid0 -> m !! uid = b_uploads (lg_bucket w) !! uid) ->
  upload_change i w (b_uploads (lg_bucket w) !! uid0) (m !! uid0) ->
  forall uid, upload_change i w (b_uploads (lg_bucket w) !! uid) (m !! uid).
Proof.
  intros Hm H0 uid. destruct (decide (uid = uid0)) as [->|Hne]; [done|]. left. by apply Hm.
Qed.

Lemma object_change_at w b' key0 :
  (forall key, key <> key0 -> b_objects b' !! key = lg_objects w !! key) ->
  object_change w b' key0 (lg_objects w !! key0) (b_objects b' !! key0) ->
  forall key, object_change w b' key (lg_objects w !! key) (b_objects b' !! key).
Proof.
  intros Hm H0 key. destruct (decide (key = key0)) as [->|Hne]; [done|]. left. by apply Hm.
Qed.

Lemma staging_own i (u : multipart) id : mp_key u = staging_key id -> is_asset (mp_key u) -> mp_owner u = i.
Proof. intros -> Ha. by apply (asset_not_staging _ id) in Ha. Qed.

(** Completing the upload of a session. *)
Lemma session_complete w uid u id en parts content :
  wf w -> lg_rows w !! id = Some en -> b_uploads (lg_bucket w) !! uid = Some u -> mp_key u = staging_key id ->
  parts.*1 = seqZ 1 (ChunkCount (en_session en)) -> assembled (mp_parts u) parts = Some content ->
  made_of sent (en_session en) content.
Proof.
  intros Hw Hen Hu Hk Hp Ha. destruct (lw_uploads _ _ _ Hw uid u id Hu Hk) as (_ & Hsent & _).
  pose proof (store_ids _ _ _ (lw_store _ _ _ Hw) Hen) as Hid.
  destruct (lw_rows _ _ _ Hw _ _ Hen) as (Hok & _).
  apply assembled_bodies in Ha as (bodies & -> & Hf). pose proof (Forall2_length _ _ _ Hf) as Hlen.
  assert (Hn : length parts = Z.to_nat (ChunkCount (en_session en))).
  { rewrite <-(length_fmap fst), Hp. apply length_seqZ. }
  exists bodies. split; [pose proof (so_count _ Hok); lia|]. split; [done|]. intros k body Hb.
  destruct (Forall2_lookup_r _ _ _ _ _ Hf Hb) as ([n et] & Hpk & etag & _ & Hbody).
  assert (n = Z.of_nat k + 1) as ->.
  { assert (Hnk : parts.*1 !! k = Some n) by by rewrite list_lookup_fmap, Hpk.
    rewrite Hp in Hnk. apply lookup_seqZ in Hnk as [-> _]. lia. }
  simpl in Hbody. destruct (Hsent _ _ _ Hbody) as (en' & Hen' & _ & Hs & Hl).
  assert (en' = en) as -> by congruence. rewrite Z.add_simpl_r in Hs, Hl. by rewrite Hid.
Qed.

Lemma s3_guar i w X (e : s3E X) x b' :
  wf w -> s3_own i w X e -> s3_do PathUnescape i X e (lg_bucket w) x b' -> lguar i w (set_bucket w b').
Proof.
  intros Hw He Hs. assert (Hsame : b' = lg_bucket w -> lguar i w (set_bucket w b')).
  { intros ->. destruct w. by apply lguar_refl. }
  assert (Hnone : forall o : option multipart, upload_change i w o o) by (by left).
  assert (Hobj : forall b' key, b_objects b' = lg_objects w ->
    object_change w b' key (lg_objects w !! key) (b_objects b' !! key)) by (intros ? ? ->; by left).
  destruct e; simpl in He, Hs.
  - destruct Hs as [[_ ->]|(y & (id & Hid & _ & ->) & _)]; [auto|]. by apply create_guar.
  - destruct Hs as [[_ ->]|(y & (u & etag & [Hu Hk] & _ & ->) & _)]; [auto|].
    destruct He as (id & en & -> & Hen & Hn & Hsent & Hlen).
    apply request_guar; [done|done| |intros; by apply Hobj]. simpl. apply (upload_change_at i w UploadId).
    + intros uid Hne. by rewrite lookup_insert_ne.
    + rewrite lookup_insert_eq, Hu. right. exists u. split; [done|]. split; [by eapply staging_own|]. right.
      eexists. split; [done|]. split; [done|]. split; [done|]. intros id' Hid'. rewrite Hk in Hid'.
      apply staging_key_inj in Hid' as <-. intros p et body. simpl. destruct (decide (PartNumber = p)) as [<-|Hne].
      * rewrite lookup_insert_eq. intros [= <- <-]. eauto.
      * rewrite lookup_insert_ne by done. destruct (lw_uploads _ _ _ Hw _ _ id Hu Hk) as (_ & Hp & _). apply Hp.
  - destruct Hs as [[_ ->]|(y & (u & etag & c & from & to & [Hu Hk] & _ & _ & _ & _ & _ & ->) & _)]; [auto|].
    destruct He as [Ha Ho]. apply request_guar; [done|done| |intros; by apply Hobj]. simpl.
    apply (upload_change_at i w UploadId); [intros uid Hne; by rewrite lookup_insert_ne|].
    rewrite lookup_insert_eq, Hu. right. exists u. split; [done|]. split; [by intros _; apply Ho|]. right.
    eexists. split; [done|]. split; [done|]. split; [done|]. intros id Hid. rewrite <-Hk in Ha.
    by apply (asset_not_staging _ id) in Ha.
  - destruct Hs as [[_ ->]|(y & (u & c & [Hu Hk] & _ & _ & Hc & ->) & _)]; [auto|].
    assert (Hown : is_asset (mp_key u) -> mp_owner u = i).
    { destruct He as [(id & en & -> & _)|(_ & Ho & _)]; [by eapply staging_own|by intros _; apply Ho]. }
    apply request_guar; [done|done| |].
    + simpl. apply (upload_change_at i w UploadId); [intros uid Hne; by rewrite lookup_delete_ne|].
      rewrite lookup_delete_eq, Hu. right. exists u. split; [done|]. split; [done|by left].
    + apply (object_change_at w _ Key); simpl; [intros key Hne; by rewrite lookup_insert_ne|]. rewrite lookup_insert_eq.
      destruct He as [(id & en & -> & Hen & Hp)|(Ha & _ & Hadr)].
      * right; right; right. exists id, en, UploadId, u, c. split_and!; try done; [|apply lookup_delete_eq].
        by eapply session_complete.
      * right; left. split; [done|]. exists c. split; [done|]. by eapply Hadr.
  - destruct Hs as [(_ & -> & _)|[_ [[_ ->]|(y & ((u & Hu & Hk) & ->) & _)]]]; [auto..|].
    apply request_guar; [done|done| |intros; by apply Hobj]. simpl.
    apply (upload_change_at i w UploadId); [intros uid Hne; by rewrite lookup_delete_ne|].
    rewrite lookup_delete_eq, Hu. right. exists u. split; [done|]. split; [|by left].
    destruct He as [[id ->]|Ho]; [by eapply staging_own|by intros _; apply Ho].
  - destruct Hs as [-> _]. auto.
  - destruct Hs as [-> _]. auto.
  - destruct Hs as [[_ ->]|(y & (c & Hc & ->) & _)]; [auto|]. destruct He as [Ha Hadr].
    apply request_guar; [done|done|done|]. apply (object_change_at w _ Key); simpl.
    + intros key Hne. by rewrite lookup_insert_ne.
    + rewrite lookup_insert_eq. right; left. split; [done|]. exists c. auto.
  - destruct Hs as [[_ ->]|(y & -> & _)]; [auto|]. apply request_guar; [done|done|done|].
    apply (object_change_at w _ Key); simpl.
    + intros key Hne. by rewrite lookup_delete_ne.
    + rewrite lookup_delete_eq. right; right; left. done.
Qed.

(** ** Statements *)

(** Where a row comes from. *)
Definition row_from {Y} (e : storeE Y) (m : gmap string entry) (id : string) (en' : entry) : Prop :=
  match m !! id with
  | Some en =>
      en_session en' = en_session en \/
      match e with
      | SetSessionAssembled k sha key => k = id /\ en_session en' = set_assembled (en_session en) sha key
      | SetSessionState k st => k = id /\ en_session en' = set_state (en_session en) st
      | _ => False
      end
  | None =>
      match e with
      | CreateSession s => id = ID s /\ row_ok s = true /\
          en' = {| en_session := fresh_row s; en_chunks := pending <$> seqZ 0 (ChunkCount s) |}
      | _ => False
      end
  end.

Lemma row_same {Y} (e : storeE Y) m id en : m !! id = Some en -> row_from e m id en.
Proof. intros H. unfold row_from. rewrite H. by left. Qed.

Lemma nominal_rows {Y} (e : storeE Y) m id en' :
  (store_nominal e m).2 !! id = Some en' -> row_from e m id en'.
Proof.
  assert (Hins : forall k en en2, m !! k = Some en -> <[k := en2]> m !! id = Some en' ->
    (k = id /\ en' = en2 /\ m !! id = Some en) \/ m !! id = Some en').
  { intros k en en2 Hk. destruct (decide (k = id)) as [<-|Hne]; [rewrite lookup_insert_eq|rewrite lookup_insert_ne by done];
      naive_solver. }
  assert (Hchunk : forall k i c, m !! k ≫= (fun en => (en,.) <$> chunk_at en i) = Some c ->
    forall c', <[k := set_chunk c.1 i c']> m !! id = Some en' -> row_from e m id en').
  { intros k i [en c] [Hk _]%chunk_target c' H. destruct (Hins _ _ _ Hk H) as [(-> & -> & Hm)|Hm]; [|by apply row_same].
    unfold row_from. rewrite Hm. by left. }
  intros H. destruct e; cbn [store_nominal] in H; repeat case_match; cbn [snd] in H; subst;
    try (by apply row_same); try (by eapply Hchunk; [eassumption|exact H]).
  - destruct (decide (ID s = id)) as [<-|Hne]; [|rewrite lookup_insert_ne in H by done; by apply row_same].
    rewrite lookup_insert_eq in H. injection H as <-. unfold row_from. 
    match goal with E : m !! ID s = None |- _ => rewrite E end.
    match goal with E : negb _ = false |- _ => apply negb_false_iff in E end. done.
  - match goal with E : m !! ?k = Some ?en |- _ => destruct (Hins _ _ _ E H) as [(-> & -> & Hm)|Hm] end; [|by apply row_same].
    unfold row_from. rewrite Hm. right. done.
  - match goal with E : m !! ?k = Some ?en |- _ => destruct (Hins _ _ _ E H) as [(-> & -> & Hm)|Hm] end; [|by apply row_same].
    unfold row_from. rewrite Hm. right. done.
Qed.

Lemma exec_rows {Y} (e : storeE Y) (s : S) :
  store_wf s -> let s' := (store_exec _ e s).2 in
  store_wf s' /\ store_rel any_session chunk_mono (store_abs s) (store_abs s') /\
  forall id en', store_abs s' !! id = Some en' -> row_from e (store_abs s) id en'.
Proof.
  intros Hs s'. destruct (store_exec_ok _ e s Hs) as [Hs' Hf]. split; [done|]. fold s' in Hf.
  assert (Hcase : store_abs s' = store_abs s \/ store_abs s' = (store_nominal e (store_abs s)).2).
  { destruct Hf as [Hf|(er & _ & Hf)]; [right; by rewrite <-Hf|done]. }
  destruct Hcase as [-> | ->].
  - split; [reflexivity|]. intros id en'. apply row_same.
  - split; [apply nominal_chunk_mono|]. intros id en'. apply nominal_rows.
Qed.

Lemma chunks_ok_mono en en' :
  fixed (en_session en') = fixed (en_session en) -> Forall2 chunk_mono (en_chunks en) (en_chunks en') ->
  chunks_ok en -> chunks_ok en'.
Proof.
  intros (_ & _ & _ & _ & _ & _ & Ec & _)%fixed_fields Hf [H1 H2]. split.
  - by rewrite <-(Forall2_length _ _ _ Hf), Ec.
  - intros i c' Hc'. destruct (Forall2_lookup_r _ _ _ _ _ Hf Hc') as (c & Hc & Hi & _). rewrite Hi. by apply H2.
Qed.

Lemma chunks_ok_fresh s : 1 <= ChunkCount s ->
  chunks_ok {| en_session := fresh_row s; en_chunks := pending <$> seqZ 0 (ChunkCount s) |}.
Proof.
  intros Hc. split; simpl.
  - rewrite length_fmap, length_seqZ. lia.
  - intros i c. rewrite list_lookup_fmap. destruct (seqZ 0 (ChunkCount s) !! i) as [z|] eqn:Hz; [|done].
    apply lookup_seqZ in Hz as [-> _]. intros [= <-]. simpl. lia.
Qed.

Definition store_own (i : nat) (w : landing S) {Y} (e : storeE Y) : Prop :=
  match e with
  | CreateSession s => session_ok s /\ State s = SessionActive /\ lg_ids w !! ID s = Some i
  | SetSessionAssembled id sha key => forall en, lg_rows w !! id = Some en ->
      landed (lg_objects w) (set_assembled (en_session en) sha key)
  | SetSessionState id st => assembled_state st = true -> forall en, lg_rows w !! id = Some en ->
      landed (lg_objects w) (en_session en)
  | _ => True
  end.

Lemma landed_set_state objs s st : landed objs (set_state s st) <-> landed objs s.
Proof. done. Qed.

Section statement.
Context (i : nat) (w : landing S) {Y : Type} (e : storeE Y) (Hw : wf w) (He : store_own i w e).
Let w' : landing S := set_store w (store_exec _ e (lg_store w)).2.

Lemma statement_rel : store_rel any_session chunk_mono (lg_rows w) (lg_rows w').
Proof. apply (exec_rows e _ (lw_store _ _ _ Hw)). Qed.

Lemma statement_from id en' : lg_rows w' !! id = Some en' -> row_from e (lg_rows w) id en'.
Proof. apply (exec_rows e _ (lw_store _ _ _ Hw)). Qed.

Lemma statement_row id en : lg_rows w !! id = Some en ->
  exists en', lg_rows w' !! id = Some en' /\ fixed (en_session en') = fixed (en_session en).
Proof. intros H. destruct (statement_rel _ _ H) as (en' & H' & Hf & _). eauto. Qed.

(** Once landed, a row stays so; and a row only gets there landed. *)
Lemma statement_landed id en en' : lg_rows w !! id = Some en -> lg_rows w' !! id = Some en' ->
  (landed (lg_objects w) (en_session en) -> landed (lg_objects w) (en_session en')) /\
  (assembled_state (State (en_session en')) = true -> landed (lg_objects w) (en_session en')).
Proof.
  intros Hen Hen'. pose proof (statement_from _ _ Hen') as Hf. unfold row_from in Hf. rewrite Hen in Hf.
  destruct Hf as [->|Hf]; [split; [done|]; by apply (lw_landed _ _ _ Hw id)|].
  destruct e; try done; destruct Hf as [-> ->]; simpl in He |- *.
  - split; intros _; by apply He.
  - split; [done|]. intros Hst. apply landed_set_state. by apply He.
Qed.

Lemma lstatement_wf : wf w'.
Proof.
  split; simpl.
  - apply (exec_rows e _ (lw_store _ _ _ Hw)).
  - intros id en' Hen'. pose proof (statement_from _ _ Hen') as Hf. unfold row_from in Hf.
    destruct (lg_rows w !! id) as [en|] eqn:Hen.
    + destruct (statement_rel _ _ Hen) as (en2 & Hen2 & Hfix & _ & Hch). assert (en2 = en') as -> by congruence.
      destruct (lw_rows _ _ _ Hw _ _ Hen) as (H1 & H2 & H3 & H4).
      split_and!; [by apply (fixed_ok (en_session en))| |by apply (chunks_ok_mono en)|done].
      by destruct (fixed_fields _ _ Hfix) as (_ & _ & _ & _ & _ & _ & -> & _).
    + destruct e; try done. destruct Hf as (-> & Hrow & ->). destruct He as (Hok & _ & Hid). simpl.
      split_and!; [by apply (fixed_ok s)| |apply chunks_ok_fresh, Hok|by eexists].
      unfold row_ok in Hrow. bool_prop. done.
  - apply (lw_used _ _ _ Hw).
  - intros uid u id Hu Hk. destruct (lw_uploads _ _ _ Hw uid u id Hu Hk) as (H1 & H2 & H3).
    split_and!; [done| |done]. eapply parts_sent_mono; [|exact H2]. apply statement_row.
  - apply (lw_one _ _ _ Hw).
  - intros id c Hc. destruct (lw_staged _ _ _ Hw _ _ Hc) as (en & Hen & Hm).
    destruct (statement_row _ _ Hen) as (en' & Hen' & Hf). exists en'. split; [done|].
    by apply (fixed_made _ (en_session en)).
  - intros key c Ha Hc. destruct (lw_assets _ _ _ Hw key c Ha Hc) as (Hadr & id & en & Hen & Hm). split; [done|].
    destruct (statement_row _ _ Hen) as (en' & Hen' & Hf). exists id, en'. split; [done|].
    by apply (fixed_made _ (en_session en)).
  - intros id en' Hen' Hst. destruct (lg_rows w !! id) as [en|] eqn:Hen; [by eapply statement_landed|].
    pose proof (statement_from _ _ Hen') as Hf. unfold row_from in Hf. rewrite Hen in Hf.
    destruct e; try done. destruct Hf as (-> & _ & ->). destruct He as (_ & Hact & _). simpl in Hst. by rewrite Hact in Hst.
  - eapply Forall_impl; [apply (lw_events _ _ _ Hw)|]. intros ev (s & Hev & (en & Hen & Hf) & Hl). exists s.
    split_and!; [done| |done]. destruct (statement_row _ _ Hen) as (en' & Hen' & Hf'). exists en'. split; [done|congruence].
Qed.

Lemma statement_evolves : evolves w w'.
Proof.
  split; simpl; [apply statement_rel| |by auto|eauto|reflexivity|done|done].
  intros id en Hen Hl. destruct (statement_row _ _ Hen) as (en' & Hen' & _). exists en'. split; [done|].
  by apply (proj1 (statement_landed id en en' Hen Hen')).
Qed.

Lemma statement_kept k : (forall s, lg_ids w !! ID s = Some k -> lg_ids w !! ID s = Some i -> False) \/
  match e with CreateSession _ => False | _ => True end -> lkept k w w'.
Proof.
  intros Hk. split; simpl; [done| |done|done]. intros id Hid Hn.
  destruct (lg_rows w' !! id) as [en'|] eqn:Hen'; [|done]. pose proof (statement_from _ _ Hen') as Hf.
  unfold row_from in Hf. rewrite Hn in Hf. destruct e; try done. destruct Hf as (-> & _). destruct He as (_ & _ & Hi).
  destruct Hk as [Hk|[]]. exfalso. by eapply Hk.
Qed.

Lemma statement_guar : lguar i w w'.
Proof.
  split; [apply lstatement_wf|]. split; [apply statement_evolves|]. split; [done|]. intros k Hne. apply statement_kept. left.
  intros s H1 H2. congruence.
Qed.
End statement.

(** ** Every call *)

Definition up_own (i : nat) (w : landing S) X (e : upE X) : Prop :=
  match e with
  | Store e => store_own i w e
  | Publish _ (PLanded ev) => event_landed sha256hex sent (lg_rows w) (lg_objects w) ev
  | _ => True
  end.

Definition land_own (i : nat) (w : landing S) X (e : landE X) : Prop :=
  match e with LS3 e => s3_own i w _ e | LUp e => up_own i w _ e end.

Lemma received_guar i w v :
  wf w -> up_own i w (result ()) (Publish "" v) -> lguar i w (set_landed w (received v (lg_landed w))).
Proof.
  intros Hw He. destruct v as [ev|ev]; simpl.
  2:{ destruct w. by apply lguar_refl. }
  split; [split; simpl; try apply Hw|].
  - apply Forall_app. split; [apply Hw|]. by apply Forall_singleton.
  - split; [split; simpl; eauto; by eexists|]. split; [done|]. intros k _. by split.
Qed.

Lemma ids_guar i w id : wf w -> lg_ids w !! id = None -> lguar i w (set_ids w (<[id := i]> (lg_ids w))).
Proof.
  intros Hw Hid.
  assert (Hkeep : forall k j, lg_ids w !! k = Some j -> <[id := i]> (lg_ids w) !! k = Some j).
  { intros k j Hk. rewrite lookup_insert_ne; [done|]. congruence. }
  assert (Hsome : forall k, is_Some (lg_ids w !! k) -> is_Some (<[id := i]> (lg_ids w) !! k)).
  { intros k [j Hj]. exists j. auto. }
  split; [split; simpl; try apply Hw|split; [|split; [done|]]].
  - intros k en Hen. destruct (lw_rows _ _ _ Hw _ _ Hen) as (H1 & H2 & H3 & H4). split_and!; auto.
  - intros uid u k Hu Hk. destruct (lw_uploads _ _ _ Hw uid u k Hu Hk) as (H1 & H2 & H3). split_and!; auto.
  - split; simpl; eauto; reflexivity.
  - intros k Hne. split; simpl; [auto| | |done].
    + done.
    + done.
Qed.

Lemma lstep_guar i w l X (e : landE X) x w' l' :
  wf w -> land_own i w X e -> do i X e (w, l) x (w', l') -> lguar i w w'.
Proof.
  intros Hw He Hs. destruct e as [X e|X e]; simpl in He.
  - destruct Hs as (b' & Hs & [= -> ->]). by eapply s3_guar.
  - destruct Hs as (w1 & Hs & [= -> ->]). destruct e; simpl in Hs; try (subst; by apply lguar_refl); [| |].
    + destruct Hs as [-> ->]. by apply statement_guar.
    + destruct Hs as [->|[_ ->]]; [by apply received_guar|by apply lguar_refl].
    + destruct Hs as [[_ ->]|(id & _ & Hn & ->)]; [by apply lguar_refl|by apply ids_guar].
Qed.

(** ** Triples *)

Abbreviation assertion := (Triples.assertion (landing S) ()).
Abbreviation tri := (Triples.tri do wf lrely).
Abbreviation stable := (Triples.stable (L := ()) wf lrely).
Abbreviation lprog := (interp (land_call PathEscape bucketName)).

Lemma tri_lcall i {X B} (e : landE X) (P : assertion) (R : X -> assertion) (Q : B -> assertion) k :
  stable i P -> (forall w l, wf w -> P w l -> land_own i w X e) ->
  (forall w l x w' l', wf w -> P w l -> do i X e (w, l) x (w', l') -> lguar i w w' -> R x w' l') ->
  (forall x, tri i (R x) (k x) Q) -> tri i P (Vis e k) Q.
Proof.
  intros Hs Ho HR. apply tri_vis; [done|]. intros w l x w' l' Hw Hp Hstep.
  pose proof (lstep_guar i w l X e x w' l' Hw (Ho _ _ Hw Hp) Hstep) as Hg. destruct (Hg) as [Hw' _].
  split; [done|]. split; [|by apply (HR w l x w' l')]. intros j Hne. by eapply lguar_rely.
Qed.

(** Assertions that last. *)
Definition lift (P : landing S -> Prop) : assertion := fun w _ => P w.

Lemma lasting_stable i P : lasting P -> stable i (lift P).
Proof. intros HP w w' l Hw Hp Hr. destruct (Hr Hw) as (Hw' & He & _). by apply (HP w w'). Qed.

Lemma lasting_and P Q : lasting P -> lasting Q -> lasting (fun w => P w /\ Q w).
Proof. intros HP HQ w w' Hw Hw' He [Hp Hq]. split; [by apply (HP w w')|by apply (HQ w w')]. Qed.

Lemma lasting_pure (phi : Prop) : lasting (fun _ => phi).
Proof. by intros w w' _ _ _. Qed.

(** A call of a program with a lasting precondition. *)
Lemma tri_last i {X B} (e : landE X) (P : landing S -> Prop) (R : X -> landing S -> Prop) (Q : B -> assertion) k :
  lasting P -> (forall w, wf w -> P w -> land_own i w X e) ->
  (forall w l x w' l', wf w -> P w -> do i X e (w, l) x (w', l') -> wf w' -> P w' -> R x w') ->
  (forall x, tri i (lift (R x)) (k x) Q) -> tri i (lift P) (Vis e k) Q.
Proof.
  intros HP Ho HR. apply (tri_lcall i e _ (fun x => lift (R x))); [by apply lasting_stable|intros w l; apply Ho|].
  intros w l x w' l' Hw Hp Hstep (Hw' & He & _). apply (HR w l x w' l'); [done..|]. by apply (HP w w').
Qed.

(** A call of the handler that goes to another dependency than the bucket. *)
Lemma tri_up i {X B} (e : upE X) (P : landing S -> Prop) (R : X -> landing S -> Prop) (Q : B -> assertion)
    (k : X -> prog upE B) :
  land_call PathEscape bucketName X e = call (LUp e) ->
  lasting P -> (forall w, wf w -> P w -> up_own i w X e) ->
  (forall w x w', wf w -> P w -> up_do i X e w x w' -> wf w' -> P w' -> R x w') ->
  (forall x, tri i (lift (R x)) (lprog (k x)) Q) -> tri i (lift P) (lprog (call e ≫= k)) Q.
Proof.
  intros He HP Ho HR Hk.
  change (lprog (call e ≫= k)) with (pbind (land_call PathEscape bucketName X e) (fun x => lprog (k x))). rewrite He.
  apply (tri_last i (LUp e) P R); [done|done| |done].
  intros w l x w' l' Hw Hp (w1 & Hs & [= -> ->]). by apply (HR w).
Qed.

(** Calls that concern no session, object or landed event. *)
Definition quiet (X : Type) (e : upE X) : Prop :=
  match e with
  | Store (CreateSession _) | Store (SetSessionAssembled _ _ _) | Blob _ | Publish _ (PLanded _) => False
  | Store (SetSessionState _ st) => st = SessionCancelled
  | _ => True
  end.

Lemma quiet_own i w X (e : upE X) : quiet X e -> up_own i w X e.
Proof. destruct e as [Y e|Y e| |s v| | | | | | |]; try done; [destruct e; try done; by intros ->|by destruct v]. Qed.

Lemma lquiet_call X (e : upE X) : quiet X e -> land_call PathEscape bucketName X e = call (LUp e).
Proof. by destruct e. Qed.

Lemma tri_lquiet i (P : landing S -> Prop) {A} (p : prog upE A) :
  lasting P -> all_calls quiet p -> tri i (lift P) (lprog p) (fun _ => lift P).
Proof.
  intros HP Hc. eapply tri_interp_calls; [by apply lasting_stable|exact Hc|]. intros X e He.
  rewrite lquiet_call by done. apply (tri_last i (LUp e) P (fun _ => P)); [done| |done|].
  - intros w _ _. by apply quiet_own.
  - intros x. apply tri_ret; [by apply lasting_stable|done].
Qed.

Lemma tri_done i (P : landing S -> Prop) {A} (a : A) : lasting P -> tri i (lift P) (lprog (Ret a)) (fun _ _ _ => True).
Proof. intros HP. apply tri_ret; [by apply lasting_stable|done]. Qed.

Definition any {A} : A -> assertion := fun _ _ _ => True.

Lemma tri_qcall i {X B} (e : upE X) (P : landing S -> Prop) (Q : B -> assertion) (k : X -> prog upE B) :
  quiet X e -> lasting P -> (forall x, tri i (lift P) (lprog (k x)) Q) -> tri i (lift P) (lprog (call e ≫= k)) Q.
Proof.
  intros He HP. apply (tri_up i e P (fun _ => P)); [by apply lquiet_call|done| |done]. intros w _ _. by apply quiet_own.
Qed.

Lemma tri_ubind i {A B} (P : assertion) (R : A -> landing S -> Prop) (Q : B -> assertion) (p : prog upE A) k :
  tri i P (lprog p) (fun a => lift (R a)) -> (forall a, tri i (lift (R a)) (lprog (k a)) Q) -> tri i P (lprog (p ≫= k)) Q.
Proof. apply tri_interp_bind. Qed.

(** An operation that is one request and touches nothing of [P]. *)
Lemma tri_request i {X A} (e : s3E X) (P : landing S -> Prop) (f : X -> A) :
  lasting P -> (forall w, wf w -> P w -> s3_own i w X e) ->
  tri i (lift P) (embed (fun X e => LS3 e) (call e ≫= (fun x => Ret (f x)))) (fun _ => lift P).
Proof.
  intros HP Ho. apply (tri_last i (LS3 e) P (fun _ => P)); [done|done|done|].
  intros x. apply tri_ret; [by apply lasting_stable|done].
Qed.

Definition one_request {Y} (e : blobE Y) : Prop :=
  match e with CreateMultipart _ _ | CompleteMultipart _ _ _ | GetObject _ | Copy _ _ _ => False | _ => True end.

(** The request of such an operation. *)
Definition blob_own (i : nat) (w : landing S) {Y} (e : blobE Y) : Prop :=
  match e with
  | UploadPart key uid n body => s3_own i w _ (s3_UploadPart bucketName key uid n body)
  | AbortMultipart key uid => s3_own i w _ (AbortMultipartUpload bucketName key uid)
  | Delete key => s3_own i w _ (DeleteObject bucketName key)
  | HeadObject key => True
  | _ => False
  end.

Lemma tri_blob i {Y B} (e : blobE Y) (P : landing S -> Prop) (Q : B -> assertion) (k : result Y -> prog upE B) :
  lasting P -> (forall w, wf w -> P w -> blob_own i w e) ->
  (forall x, tri i (lift P) (lprog (k x)) Q) -> tri i (lift P) (lprog (call (Blob e) ≫= k)) Q.
Proof.
  intros HP Ho Hk. apply (tri_interp_call _ i _ _ (fun _ => lift P)); [|done]. clear Hk k Q B.
  assert (Hret : forall r : result Y, tri i (lift P) (Ret r) (fun _ => lift P)).
  { intros r. apply tri_ret; [by apply lasting_stable|done]. }
  assert (Hno : (forall w, wf w -> P w -> False) -> tri i (lift P) (land_call PathEscape bucketName _ (Blob e)) (fun _ => lift P)).
  { intros H w l Hw Hp. destruct (H w Hw Hp). }
  destruct e; simpl in Ho; try (by apply Hno); simpl;
    (eapply (tri_last i (LS3 _) P (fun _ => P)); [done|intros w Hw Hp; exact (Ho w Hw Hp)|done|]);
    (intros [er|y]; [destruct er|]; apply Hret).
Qed.

(** ** A session at work *)

Definition row_landed (w : landing S) (id : string) : Prop :=
  exists en, lg_rows w !! id = Some en /\ landed (lg_objects w) (en_session en).

Record loaded (sess : Session) (w : landing S) : Prop := {
  ld_row : has_row (lg_rows w) sess;
  ld_ok : session_ok sess;
  ld_count : ChunkCount sess < 2 ^ 31;
  ld_landed : assembled_state (State sess) = true -> landed (lg_objects w) sess /\ row_landed w (ID sess)
}.

Lemma row_landed_lasting id : lasting (fun w => row_landed w id).
Proof. intros w w' _ _ E (en & Hen & Hl). by apply (ev_landed _ _ E id en). Qed.

Lemma loaded_lasting sess : lasting (loaded sess).
Proof.
  intros w w' Hw Hw' E [H1 H2 H3 H4]. split; [by apply (has_row_lasting sess w w')|done|done|].
  intros Hst. destruct (H4 Hst) as [Ha Hb]. split; [by apply (landed_lasting sess w w')|by apply (row_landed_lasting _ w w')].
Qed.
Hint Resolve loaded_lasting row_landed_lasting landed_lasting has_row_lasting lasting_and lasting_pure : core.

Lemma with_session_tri i r k :
  (forall sess id, uuid_Parse (rq_id r) = Some (ID sess) -> tri i (lift (loaded sess)) (lprog (k sess id)) any) ->
  tri i (lift (fun _ => True)) (lprog (with_session uuid_Parse r k)) any.
Proof.
  intros Hk. unfold with_session.
  apply (tri_ubind i _ (fun o w => match o with
    | inl _ => True | inr (sess, _) => uuid_Parse (rq_id r) = Some (ID sess) /\ loaded sess w end)).
  2:{ intros [resp|[sess id]]; [by apply tri_done|]. apply tri_pure, Hk. }
  unfold loadOwnedSession. destruct (rq_identity r) as [id|]; [|by apply tri_ret].
  destruct (uuid_Parse (rq_id r)) as [sid|]; [|by apply tri_ret].
  apply (tri_up i _ _ (fun x w => match x with Ok sess => ID sess = sid /\ loaded sess w | Err _ => True end));
    [done|apply lasting_pure|done| |].
  - intros w x w' Hw _ [Hx ->] Hw' _. destruct x as [sess|e]; [|done].
    destruct (store_exec_ok _ (GetSession sid) _ (lw_store _ _ _ Hw)) as [_ Hf]. simpl in Hx. rewrite <-Hx in Hf.
    pose proof Hf as Hn%up_to_fault_ok. cbn [store_nominal] in Hn.
    destruct (store_abs (lg_store w) !! sid) as [en|] eqn:Hen; [|done]. injection Hn as <- Hsame.
    pose proof (store_ids _ _ _ (lw_store _ _ _ Hw) Hen) as Hid.
    assert (Hen' : lg_rows (set_store w (store_exec _ (GetSession sid) (lg_store w)).2) !! sid = Some en).
    { unfold lg_rows. simpl. by rewrite <-Hsame. }
    destruct (lw_rows _ _ _ Hw' _ _ Hen') as (H1 & H2 & _). split; [done|]. split; [|done|done|].
    + exists en. by rewrite Hid.
    + intros Hst. pose proof (lw_landed _ _ _ Hw' _ _ Hen' Hst) as Hl. split; [done|]. exists en. by rewrite Hid.
  - intros [sess|e].
    + destruct (negb _); apply tri_ret; [by apply lasting_stable; auto|done|by apply lasting_stable; auto|].
      intros w l _ [<- H]. done.
    + destruct e; by apply tri_ret.
Qed.

(** ** Copying to the final key *)

(** The staging object of the session, [data], cannot change any more. *)
Record staged (sess : Session) (data : string) (w : landing S) : Prop := {
  sg_row : has_row (lg_rows w) sess;
  sg_over : no_upload w (staging_key (ID sess));
  sg_object : lg_objects w !! staging_key (ID sess) = None \/ lg_objects w !! staging_key (ID sess) = Some data
}.

Lemma staged_lasting sess data : lasting (staged sess data).
Proof.
  intros w w' Hw Hw' E [Hr Hn Ho]. assert (Hsome : is_Some (lg_rows w !! ID sess)) by (destruct Hr as (en & Hen & _); eauto).
  destruct (ev_staging _ _ E _ Hsome Hn) as [Hn' Ho']. split; [by apply (has_row_lasting sess w w')|done|].
  destruct Ho' as [->| ->]; [done|by left].
Qed.

(** An object with the digest of [data]. *)
Definition stored (key data : string) (w : landing S) : Prop :=
  exists c, lg_objects w !! key = Some c /\ sha256hex c = sha256hex data.

Lemma stored_lasting key data : is_asset key -> lasting (stored key data).
Proof.
  intros Ha w w' _ _ E (c & Hc & Hs). destruct (ev_assets _ _ E _ _ Ha Hc) as (c' & Hc' & Hs').
  exists c'. split; [done|congruence].
Qed.

Section copy.
Context (PathUnescape_law : forall s, PathUnescape (PathEscape s) = Some s).
Context (i : nat) (sess : Session) (data ws : string) (P : landing S -> Prop) (HP : lasting P) (Hmade : made_of sent sess data).
Let dst : string := object_key ws (sha256hex data).
Let source : string := PathEscape (bucketName +:+ "/" +:+ staging_key (ID sess)).

Definition copied (r : result ()) (w : landing S) : Prop := P w /\ (is_ok r = true -> stored dst data w).

Lemma copied_lasting r : lasting (copied r).
Proof.
  intros w w' Hw Hw' E [Hp Hs]. split; [by apply (HP w w')|]. intros Hr.
  apply (stored_lasting dst data (object_key_asset _ _) w w'); auto.
Qed.

Lemma source_data w c : staged sess data w -> copy_source PathUnescape (lg_bucket w) bucketName source c -> c = data.
Proof.
  intros Hst (key & Hk & Hc). unfold source in Hk. rewrite PathUnescape_law in Hk. injection Hk as Hk.
  apply (inj (String.append bucketName)), (inj (String.append "/")) in Hk as <-.
  destruct (sg_object _ _ _ Hst) as [Hn|Hn]; unfold lg_objects in Hn; congruence.
Qed.

Lemma source_sent w : staged sess data w -> sent_data sent (lg_rows w) data.
Proof.
  intros Hst. destruct (sg_row _ _ _ Hst) as (en & Hen & Hf). exists (ID sess), en. split; [done|].
  by apply (fixed_made _ sess).
Qed.

(** The parts copied so far. *)
Record copying (uid : string) (parts : list (Z * option string)) (off n : Z) (w : landing S) : Prop := {
  cp_frame : P w;
  cp_staged : staged sess data w;
  cp_used : uid ∈ b_used (lg_bucket w);
  cp_upload : exists u, b_uploads (lg_bucket w) !! uid = Some u /\ mp_key u = dst /\ mp_owner u = i /\
    assembled (mp_parts u) parts = Some (bytes_to data off);
  cp_numbers : Forall (fun p => p.1 < n) parts
}.

Lemma copying_stable uid parts off n : stable i (lift (copying uid parts off n)).
Proof.
  intros w w' l Hw [H1 H2 H3 (u & Hu & Hk & Ho & Ha) H5] Hr. destruct (Hr Hw) as (Hw' & E & K & _). split.
  - by apply (HP w w').
  - by apply (staged_lasting _ _ w w').
  - by apply (ev_used _ _ E).
  - exists u. split_and!; [|done..]. apply (lk_copies _ _ _ K); [done..|]. rewrite Hk. apply object_key_asset.
  - done.
Qed.

Lemma copying_off uid parts off off' n w :
  bytes_to data off = bytes_to data off' -> copying uid parts off n w -> copying uid parts off' n w.
Proof. intros Heq [H1 H2 H3 (u & Hu & Hk & Ho & Ha) H5]. split; [done..| |done]. exists u. by rewrite <-Heq. Qed.

(** The upload is this worker's or over. *)
Record my_copy (uid : string) (w : landing S) : Prop := {
  my_frame : P w;
  my_used : uid ∈ b_used (lg_bucket w);
  my_upload : forall u, b_uploads (lg_bucket w) !! uid = Some u -> mp_owner u = i /\ mp_key u = dst
}.

Lemma my_copy_stable uid : stable i (lift (my_copy uid)).
Proof.
  intros w w' l Hw [H1 H2 H3] Hr. destruct (Hr Hw) as (Hw' & E & K & _).
  split; [by apply (HP w w')|by apply (ev_used _ _ E)|]. intros u' Hu'.
  destruct (b_uploads (lg_bucket w) !! uid) as [u|] eqn:Hu; [|rewrite (ev_over _ _ E) in Hu'; done].
  destruct (H3 u eq_refl) as [Ho Hk]. rewrite (lk_copies _ _ _ K uid u Hu Ho) in Hu'; [|rewrite Hk; apply object_key_asset].
  by injection Hu' as <-.
Qed.

Lemma copying_mine uid parts off n w : copying uid parts off n w -> my_copy uid w.
Proof.
  intros [H1 _ H3 (u & Hu & Hk & Ho & _) _]. split; [done|done|]. intros u' Hu'.
  assert (u' = u) as -> by congruence. done.
Qed.

Abbreviation es3 := (embed (fun X (e : s3E X) => LS3 e)).

(** Giving up: the upload is aborted. *)
Lemma tri_give_up uid {A} (r : result A) (Q : result A -> assertion) :
  (forall w l, P w -> Q r w l) ->
  tri i (lift (my_copy uid)) (es3 (_ ← s3_AbortMultipart bucketName dst uid; Ret r)) Q.
Proof.
  intros HQ. apply (tri_lcall i (LS3 (AbortMultipartUpload bucketName dst uid)) _ (fun _ => lift P)).
  - apply my_copy_stable.
  - intros w l _ Hm. right. intros u Hu. by apply (my_upload _ _ Hm).
  - intros w l x w' l' Hw Hm _ (Hw' & E & _). by apply (HP w w'), Hm.
  - assert (Hret : tri i (lift P) (Ret r) Q).
    { apply tri_ret; [by apply lasting_stable|]. intros w l _. apply HQ. }
    intros [er|y]; [destruct er|]; apply Hret.
Qed.

Lemma tri_copy_part uid parts off n size {B} (k : s3_err + option string -> prog s3E B) (Q : B -> assertion) :
  0 <= off < size -> slen data = size -> off + copyPartSize <= 2 ^ 60 ->
  tri i (lift (my_copy uid)) (es3 (k (inl NotFound))) Q ->
  (forall er, es3 (k (inl er)) = es3 (k (inl NotFound))) ->
  (forall etag, tri i (lift (copying uid (parts ++ [(n, etag)]) (part_end off size + 1) (n + 1))) (es3 (k (inr etag))) Q) ->
  tri i (lift (copying uid parts off n))
    (es3 (call (UploadPartCopy bucketName dst uid n source (range_header off (part_end off size))) ≫= k)) Q.
Proof.
  intros Hoff Hsize Hbig Herr Hsame Hok.
  assert (Hcp : copyPartSize = 2 ^ 29) by done. assert (Hend : off <= part_end off size < size).
  { unfold part_end. rewrite i64_id by lia. destruct (Z.leb_spec size (off + copyPartSize - 1)); lia. }
  apply (tri_lcall i (LS3 _) _ (fun x w _ => match x with
    | inl _ => my_copy uid w
    | inr etag => copying uid (parts ++ [(n, etag)]) (part_end off size + 1) (n + 1) w end)).
  - apply copying_stable.
  - intros w l _ Hc. split; [apply object_key_asset|]. intros u Hu. by apply (my_upload _ _ (copying_mine _ _ _ _ _ Hc)).
  - intros w l x w' l' Hw Hc (b' & Hs & [= -> _]) (Hw' & E & _). simpl in Hs.
    destruct Hc as [Hp Hst Hus (u & Hu & Hk & Ho & Ha) Hnum]. pose proof Hp as Hp'. apply (HP w _ Hw Hw' E) in Hp'.
    pose proof (staged_lasting _ _ _ _ Hw Hw' E Hst) as Hst'. pose proof (ev_used _ _ E _ Hus) as Hus'.
    destruct Hs as [[Hx ->]|(y & (u2 & et & c & from & to & [Hu2 _] & Hsrc & Hft & Hto & Hrange & -> & ->) & Hx)].
    + destruct x; [|done]. split; [done|done|]. simpl. intros u2 Hu2. assert (u2 = u) as -> by congruence. done.
    + assert (u2 = u) as -> by congruence. destruct x as [er|etag].
      * split; [done|done|]. simpl. intros u2. rewrite lookup_insert_eq. by intros [= <-].
      * destruct Hx as [[= ->]|Hx]; [|done]. apply (source_data w) in Hsrc as ->; [|done].
        apply range_header_inj in Hrange as [<- <-]; [|lia|done].
        split; [done|done|done| |].
        -- eexists. simpl. rewrite lookup_insert_eq. split; [done|]. split; [done|]. split; [done|]. simpl.
           rewrite assembled_app, (assembled_insert _ _ _ parts), Ha.
           2:{ intros (p & Hpn & Hin)%list_elem_of_fmap. rewrite Forall_forall in Hnum. specialize (Hnum p Hin). lia. }
           simpl. rewrite lookup_insert_eq, bool_decide_eq_true_2 by done. simpl.
           rewrite sapp_nil_r, bytes_to_range by lia. done.
        -- apply Forall_app. split; [|apply Forall_singleton; simpl; lia]. eapply Forall_impl; [exact Hnum|]. intros p. simpl. lia.
  - intros [er|etag]; [|apply Hok]. change (tri i (lift (my_copy uid)) (es3 (k (inl er))) Q). rewrite Hsame. done.
Qed.

(** The loop over the parts, from one that starts [n - 1] parts in. *)
Lemma tri_copy_loop fuel uid size off n parts {B} (k : result (list (Z * option string)) -> prog s3E B) (Q : B -> assertion) :
  slen data = size -> size <= 2 ^ 59 -> 0 <= off -> 1 <= n -> (off < size -> off = (n - 1) * copyPartSize) ->
  (forall e, tri i (lift P) (es3 (k (Err e))) Q) ->
  (forall parts, tri i (fun w l => exists n, copying uid parts size n w) (es3 (k (Ok parts))) Q) ->
  tri i (lift (copying uid parts off n))
    (es3 (copy_loop bucketName fuel source dst uid size off n parts ≫= k)) Q.
Proof.
  intros Hlen Hsize. revert off n parts. induction fuel as [|fuel IH]; intros off n parts Hoff Hn Hpos Herr Hok.
  { simpl. eapply tri_weaken; [|apply Herr|done]. intros w l _ Hc. apply (cp_frame _ _ _ _ _ Hc). }
  assert (Hcp : copyPartSize = 2 ^ 29) by done. cbn [copy_loop]. destruct (Z.ltb_spec off size) as [Hlt|Hge]; cbn [negb].
  2:{ eapply tri_weaken; [|apply (Hok parts)|done]. intros w l _ Hc. exists n. eapply copying_off; [|exact Hc].
      by rewrite !bytes_to_all by lia. }
  specialize (Hpos Hlt).
  assert (Hend : part_end off size = Z.min (off + copyPartSize) size - 1).
  { unfold part_end. rewrite i64_id by lia. destruct (Z.leb_spec size (off + copyPartSize - 1)); lia. }
  apply (tri_copy_part uid parts off n size); [lia|done|lia| |done|].
  - eapply (tri_embed_bind _ i _ (fun r w l => r = wrapped _ /\ lift P w l) _ (_ ← s3_AbortMultipart bucketName dst uid; Ret (wrapped _))).
    + by apply tri_give_up.
    + intros r. apply tri_pure. intros ->. apply Herr.
  - intros etag. rewrite (i64_id (off + copyPartSize)) by lia. rewrite (i32_id (n + 1)) by lia.
    eapply tri_weaken; [|apply (IH (off + copyPartSize) (n + 1) (parts ++ [(n, etag)])); [lia..|done|done]|done].
    intros w l _. apply copying_off. rewrite Hend. destruct (Z.min_spec (off + copyPartSize) size) as [[_ ->]|[Hge ->]].
    + f_equal. lia.
    + by rewrite !bytes_to_all by lia.
Qed.

Lemma tri_copy_complete uid parts size n :
  slen data = size ->
  tri i (lift (copying uid parts size n))
    (es3 (out ← call (CompleteMultipartUpload bucketName dst uid parts);
          match out with
          | inl _ => _ ← s3_AbortMultipart bucketName dst uid; Ret (wrapped "copy complete multipart")
          | inr _ => Ret (Ok ())
          end)) (fun r => lift (copied r)).
Proof.
  intros Hlen.
  assert (Hdata : forall w u c, copying uid parts size n w -> b_uploads (lg_bucket w) !! uid = Some u ->
    assembled (mp_parts u) parts = Some c -> c = data).
  { intros w u c [_ _ _ (u2 & Hu2 & _ & _ & Ha) _] Hu Hc. assert (u2 = u) as -> by congruence.
    rewrite bytes_to_all in Ha by lia. congruence. }
  apply (tri_lcall i (LS3 (CompleteMultipartUpload bucketName dst uid parts)) _ (fun x w _ => match x with
    | inl _ => my_copy uid w | inr _ => P w /\ stored dst data w end)); [apply copying_stable| | |].
  - intros w l _ Hc. right. split; [apply object_key_asset|]. split.
    + intros u Hu. by apply (my_upload _ _ (copying_mine _ _ _ _ _ Hc)).
    + intros u c Hu Ha. rewrite (Hdata w u c Hc Hu Ha). split; [by exists ws|]. by apply source_sent, Hc.
  - intros w l x w' l' Hw Hc (b' & Hx & [= -> _]) (Hw' & E & _).
    pose proof (copying_mine _ _ _ _ _ Hc) as [Hp Hus Hup]. apply (HP w _ Hw Hw' E) in Hp as Hp'.
    pose proof (ev_used _ _ E _ Hus) as Hus'.
    destruct Hx as [[Hx ->]|(y & (u & c & [Hu Hk] & _ & _ & Ha & ->) & Hx)].
    + destruct x; [|done]. by split.
    + destruct x as [er|[]].
      * split; [done|done|]. simpl. intros u2. by rewrite lookup_delete_eq.
      * split; [done|]. rewrite (Hdata w u c Hc Hu Ha). exists data. unfold lg_objects. simpl. by rewrite lookup_insert_eq.
  - intros [er|[]].
    + apply tri_give_up. intros w l Hp. by split.
    + apply tri_ret; [|intros w l _ [Hp Hs]; by split].
      by apply lasting_stable, lasting_and, stored_lasting, object_key_asset.
Qed.

Lemma tri_copy :
  slen data = SizeBytes sess -> SizeBytes sess <= 2 ^ 59 ->
  tri i (lift (fun w => P w /\ staged sess data w))
    (land_call PathEscape bucketName _ (Blob (Copy (staging_key (ID sess)) dst (SizeBytes sess)))) (fun r => lift (copied r)).
Proof.
  intros Hlen Hsize. pose proof (staged_lasting sess data) as Hst. simpl. unfold s3_Copy. fold source.
  assert (Hret : forall r : result (), is_ok r = false -> tri i (lift P) (Ret r) (fun r => lift (copied r))).
  { intros r Hr. apply tri_ret; [by apply lasting_stable|]. intros w l _ Hp. split; [done|congruence]. }
  destruct (SizeBytes sess <=? singleCopyLimit).
  - apply (tri_last i (LS3 (CopyObject bucketName dst source)) _ (fun x w => P w /\ (is_error x = false -> stored dst data w))).
    + by apply lasting_and.
    + intros w _ [_ Hs]. split; [apply object_key_asset|]. intros c ->%(source_data w); [|done].
      split; [by exists ws|by apply source_sent].
    + intros w l x w' l' Hw [Hp Hs] (b' & Hx & [= -> _]) Hw' [Hp' _]. split; [done|]. intros He.
      destruct Hx as [[Hx _]|(y & (c & Hc & ->) & Hx)]; [congruence|]. apply (source_data w) in Hc as ->; [|done].
      exists data. unfold lg_objects. simpl. by rewrite lookup_insert_eq.
    + intros [er|[]]; [apply (tri_weaken i _ (lift P) _ (fun r => lift (copied r))); [by intros w l _ []|by apply Hret|done]|].
      apply tri_ret; [|intros w l _ [Hp Hs]; split; auto].
      apply lasting_stable, lasting_and; [done|]. intros w w' Hw Hw' E Hs He.
      apply (stored_lasting dst data (object_key_asset _ _) w w'); auto.
  - apply (tri_lcall i (LS3 (CreateMultipartUpload bucketName dst None)) _ (fun x w _ => match x with
      | inl _ => P w | inr uid => copying (default EmptyString uid) [] 0 1 w end)).
    + by apply lasting_stable, lasting_and.
    + intros w l _ _. left. apply object_key_asset.
    + intros w l x w' l' Hw [Hp Hs] (b' & Hx & [= -> _]) (Hw' & E & _). apply (HP w _ Hw Hw' E) in Hp as Hp'.
      destruct Hx as [[Hx ->]|(y & (uid & Hf & -> & ->) & Hx)]; [by destruct x|].
      destruct x as [er|uid2]; [done|]. destruct Hx as [[= ->]|]; [|done]. simpl. split; simpl.
      * done.
      * by apply (Hst w).
      * set_solver.
      * eexists. split; [apply lookup_insert_eq|]. split; [done|]. split; [done|]. simpl. by rewrite bytes_to_0.
      * constructor.
    + intros [er|uid]; [by apply Hret|]. set (u := default EmptyString uid).
      apply (tri_copy_loop (copy_fuel (SizeBytes sess)) u (SizeBytes sess)); [done|done|lia|lia|lia|by intros; apply Hret|].
      intros parts. apply tri_exists. intros n. by apply tri_copy_complete.
Qed.
End copy.

(** ** PUT chunk *)

Lemma stake_length n s : (n <= String.length s)%nat -> String.length (stake n s) = n.
Proof. revert s. induction n as [|n IH]; intros [|c s] H; simpl in *; [done..|lia|]. by rewrite IH by lia. Qed.

(** A body of the announced length is the whole stream. *)
Lemma read_limited_all ex body data rerr :
  0 <= ex -> read_limited (ex + 1) body = (data, rerr) -> slen data = ex -> data = st_bytes body.
Proof.
  unfold read_limited. intros Hex. destruct (Z.leb_spec (ex + 1) (slen (st_bytes body))) as [Hle|_]; [|by intros [= <- <-]].
  intros [= <- _] Hl. unfold slen in *. rewrite stake_length in Hl by lia. lia.
Qed.

Lemma loaded_expected sess n : session_ok sess -> 0 <= n < ChunkCount sess -> 0 <= expected_size sess n.
Proof.
  intros [_ H1 H2 H3 H4] Hn. unfold expected_size. destruct (n =? _); [|lia].
  assert (0 <= ChunkSizeBytes sess * (ChunkCount sess - 1) < SizeBytes sess) by nia.
  rewrite (i64_id (ChunkSizeBytes sess * _)), i64_id by lia. lia.
Qed.

Lemma tri_put_chunk i sess r :
  (forall n, Atoi (rq_n r) = Some n -> sha256hex (st_bytes (rq_body r)) = ToLower (rq_ChunkSha256 r) ->
     sent (ID sess) n (st_bytes (rq_body r))) ->
  tri i (lift (loaded sess)) (lprog (put_chunk sha256hex r sess)) any.
Proof.
  intros Hsent. pose proof (loaded_lasting sess) as HL. unfold put_chunk.
  destruct (Atoi (rq_n r)) as [n|]; [|by apply tri_done]. destruct ((n <? 0) || (ChunkCount sess <=? n)) eqn:Hn; [by apply tri_done|].
  destruct (negb _); [by apply tri_done|]. cbv zeta. repeat (case_match; [by apply tri_done|]).
  bool_prop. apply tri_qcall; [done|done|]. intros [|]; cbn [negb].
  2:{ apply tri_qcall; [done|done|]. intros d. by apply tri_done. }
  apply (tri_ubind i _ (fun _ => loaded sess)); [|intros resp; apply tri_qcall; [done|done|]; intros []; by apply tri_done].
  assert (Hret : forall resp : response, tri i (lift (loaded sess)) (lprog (Ret resp)) (fun _ => lift (loaded sess))).
  { intros resp. apply tri_ret; [by apply lasting_stable|done]. }
  assert (Hmark : forall m resp, tri i (lift (loaded sess)) (lprog (_ ← call (Store (MarkChunkRetry (ID sess) m)); Ret resp : prog upE response))
    (fun _ => lift (loaded sess))).
  { intros m resp. apply tri_qcall; [done|done|]. intros x. apply Hret. }
  unfold put_admitted. apply tri_qcall; [done|done|]. intros [[]|e]; [|apply Hret..].
  destruct (read_limited _ _) as [data rerr] eqn:Hread.
  destruct (bool_decide _ || negb _) eqn:Hbad; [apply Hmark|]. destruct (negb (String.eqb _ _)) eqn:Hsha; [apply Hmark|].
  apply orb_false_iff in Hbad as [_ Hlen]. bool_prop.
  apply tri_blob; [done| |].
  - intros w Hw [(en & Hen & Hf) Hok Hcount _]. simpl. exists (ID sess), en.
    pose proof (loaded_expected sess n Hok ltac:(lia)) as Hex.
    pose proof (read_limited_all _ _ _ _ Hex Hread Hlen) as ->.
    rewrite (i32_id (n + 1)) by lia. rewrite Z.add_simpl_r, (fixed_expected _ _ n Hf).
    destruct (fixed_fields _ _ Hf) as (_ & _ & _ & _ & _ & _ & -> & _).
    split_and!; [apply Hok|done|lia|lia|by apply Hsent|done].
  - intros [etag|e]; [|apply Hmark]. apply tri_qcall; [done|done|]. intros [[]|e]; [|apply Hret].
    apply tri_qcall; [done|done|]. intros []. apply Hret.
Qed.

(** ** POST complete *)

Lemma sort_chunks_parts chunks missing parts :
  (sort_chunks chunks missing parts).1 = [] ->
  missing = [] /\
  (sort_chunks chunks missing parts).2 =
    parts ++ ((fun c => {| PartNumber := i32 (Index c + 1); cp_ETag := ETag c |}) <$> chunks).
Proof.
  revert missing parts. induction chunks as [|c chunks IH]; intros missing parts; simpl.
  { intros ->. by rewrite app_nil_r. }
  destruct (negb _); intros [Hm Hp]%IH.
  - destruct (length missing <? 100)%nat eqn:Hl; [by destruct missing|]. subst. done.
  - split; [done|]. rewrite Hp, <-app_assoc. done.
Qed.

(** The parts of all chunks of a session. *)
Definition all_parts (sess : Session) (parts : list CompletedPart) : Prop :=
  PartNumber <$> parts = seqZ 1 (ChunkCount sess).

Lemma chunk_parts sess en :
  ChunkCount (en_session en) = ChunkCount sess -> ChunkCount sess < 2 ^ 31 -> chunks_ok en ->
  all_parts sess ((fun c => {| PartNumber := i32 (Index c + 1); cp_ETag := ETag c |}) <$> en_chunks en).
Proof.
  intros Hc Hb [Hlen Hix]. unfold all_parts. rewrite <-list_fmap_compose. apply list_eq. intros k.
  rewrite list_lookup_fmap. destruct (en_chunks en !! k) as [c|] eqn:Hk.
  - simpl. pose proof (lookup_lt_Some _ _ _ Hk) as Hlt. rewrite (Hix _ _ Hk), i32_id by lia.
    symmetry. apply lookup_seqZ. lia.
  - simpl. symmetry. apply lookup_ge_None in Hk. apply lookup_seqZ_ge. lia.
Qed.

Section complete.
Context (PathUnescape_law : forall s, PathUnescape (PathEscape s) = Some s).

Lemma tri_assemble_staged i sess :
  tri i (lift (loaded sess)) (lprog (assemble_staged sha256hex sess))
    (fun r => lift (fun w => match r with
       | Ok sess' => loaded sess' w /\ landed (lg_objects w) sess' /\ row_landed w (ID sess')
       | Err _ => True end)).
Proof.
  set (Q := fun r : result Session => lift (fun w => match r with
       | Ok sess' => loaded sess' w /\ landed (lg_objects w) sess' /\ row_landed w (ID sess')
       | Err _ => True end)). pose proof (loaded_lasting sess) as HL.
  assert (Hret : forall (P : landing S -> Prop) e, lasting P -> tri i (lift P) (lprog (Ret (Err e))) Q).
  { intros P e HP. apply tri_ret; [by apply lasting_stable|done]. }
  intros w0 l0 Hw0 Hp0. pose proof (ld_ok _ _ Hp0) as Hok. pose proof (so_staging _ Hok) as Hkey. revert w0 l0 Hw0 Hp0.
  change (tri i (lift (loaded sess)) (lprog (assemble_staged sha256hex sess)) Q). unfold assemble_staged. rewrite Hkey.
  apply (tri_interp_call _ i _ _ (fun x => lift (fun w => loaded sess w /\ match x with
    | Ok st => st_err st = None -> made_of sent sess (st_bytes st) /\ staged sess (st_bytes st) w
    | Err _ => True end))).
  - simpl. apply (tri_last i (LS3 (s3_GetObject bucketName (staging_key (ID sess)))) _ (fun x w => loaded sess w /\ match x with
      | inr st => st_err st = None -> made_of sent sess (st_bytes st) /\ staged sess (st_bytes st) w
      | inl _ => True end)); [done|done| |].
    + intros w l x w' l' Hw Hp (b' & [-> Hx] & [= -> _]) Hw' Hp'. split; [done|]. destruct x as [er|st]; [done|].
      intros He. destruct Hx as (c & Hc & Hb). rewrite (Hb He).
      destruct (lw_staged _ _ _ Hw _ _ Hc) as (en & Hen & Hm). destruct (ld_row _ _ Hp) as (en2 & Hen2 & Hf).
      assert (en2 = en) as -> by congruence. split; [by apply (fixed_made _ (en_session en))|].
      split; [by exists en| |by right]. intros uid u Hu Hk. destruct (lw_uploads _ _ _ Hw uid u _ Hu Hk) as (_ & _ & Hn).
      unfold lg_objects in Hn. simpl in Hc. congruence.
    + assert (Hlast : forall st, lasting (fun w => loaded sess w /\ (st_err st = None ->
        made_of sent sess (st_bytes st) /\ staged sess (st_bytes st) w))).
      { intros st. apply lasting_and; [done|]. intros w w' Hw Hw' E Hs He. destruct (Hs He) as [Hm Hst].
        split; [done|]. by apply (staged_lasting _ _ w w'). }
      intros [er|st]; [apply tri_ret; [|by intros w l _ []]; by apply lasting_stable, lasting_and, lasting_pure|].
      apply tri_ret; [by apply lasting_stable|done].
  - intros [st|e]; [|apply Hret; by apply lasting_and, lasting_pure].
    destruct (st_err st) as [e|] eqn:He.
    { apply Hret. apply lasting_and; [done|]. by intros w w' _ _ _ _ [=]. }
    destruct (Z.eqb_spec (slen (st_bytes st)) (SizeBytes sess)) as [Hlen|]; cbn [negb].
    2:{ eapply (tri_weaken i _ (lift (loaded sess))); [by intros w l _ [H _]|by apply Hret|done]. }
    set (data := st_bytes st) in *. cbv zeta.
    apply (tri_weaken i _ (fun w l => made_of sent sess data /\ lift (fun w => loaded sess w /\ staged sess data w) w l) _ Q);
      [intros w l _ [H1 H2]; by destruct (H2 eq_refl)| |done]. apply tri_pure. intros Hmade.
    apply (tri_interp_call _ i _ _ (fun r => lift (copied data (WorkspaceID sess) (loaded sess) r)));
      [apply tri_copy; [done|done|exact Hmade|done|apply Hok]|].
    intros [[]|e]; [|apply Hret, copied_lasting; done].
    set (key := object_key (WorkspaceID sess) (sha256hex data)).
    assert (Hcl : lasting (copied data (WorkspaceID sess) (loaded sess) (Ok ()))) by by apply copied_lasting.
    apply tri_blob; [done|intros w _ _; by eexists|]. intros _.
    assert (Hland : forall w s, fixed s = fixed sess -> copied data (WorkspaceID sess) (loaded sess) (Ok ()) w ->
      landed (lg_objects w) (set_assembled s (sha256hex data) key)).
    { intros w s Hf [_ Hs]. destruct (Hs eq_refl) as (c & Hc & Hsha).
      destruct (fixed_fields _ _ Hf) as (_ & Hws & _ & Hsz & _). split; [simpl; by rewrite Hws|].
      exists data, c. split_and!; simpl; [|congruence|done..]. by apply (fixed_made _ sess). }
    apply (tri_up i _ _ (fun x w => copied data (WorkspaceID sess) (loaded sess) (Ok ()) w /\
      (is_ok x = true -> row_landed w (ID sess)))); [done|done| | |].
    + intros w Hw Hc en Hen. destruct (ld_row _ _ (proj1 Hc)) as (en2 & Hen2 & Hf). assert (en2 = en) as -> by congruence.
      by apply Hland.
    + intros w x w' Hw Hc [Hx ->] Hw' Hc'. split; [done|]. intros Hok'. destruct x as [[]|]; [|done].
      destruct (ld_row _ _ (proj1 Hc)) as (en & Hen & Hf).
      destruct (store_exec_ok _ (SetSessionAssembled (ID sess) (sha256hex data) key) _ (lw_store _ _ _ Hw)) as [_ Hn].
      rewrite <-Hx in Hn. apply up_to_fault_ok in Hn. cbn [store_nominal] in Hn. unfold lg_rows in Hen. rewrite Hen in Hn.
      injection Hn as Hn. eexists. split; [unfold lg_rows; simpl; rewrite <-Hn; apply lookup_insert_eq|]. by apply Hland.
    + intros [[]|e].
      2:{ apply Hret. by apply lasting_and; [|by intros w w' _ _ _ _ [=]]. }
      apply tri_ret.
      { apply lasting_stable, lasting_and; [done|]. intros w w' Hw Hw' E Hr Ht. apply (row_landed_lasting _ w w'); auto. }
      intros w l _ [Hc Hr]. specialize (Hr eq_refl). pose proof (Hland w sess eq_refl Hc) as Hl.
      destruct (proj1 Hc) as [H1 H2 H3 _]. split; [|done]. split; [done|by apply (fixed_ok sess)|done|done].
Qed.

Lemma tri_assemble i sess parts :
  all_parts sess parts ->
  tri i (lift (loaded sess)) (lprog (assemble sha256hex sess parts))
    (fun r => lift (fun w => match r with
       | Ok sess' => loaded sess' w /\ landed (lg_objects w) sess' /\ row_landed w (ID sess')
       | Err _ => True end)).
Proof.
  intros Hparts. pose proof (loaded_lasting sess) as HL. unfold assemble.
  apply (tri_interp_call _ i _ _ (fun _ => lift (loaded sess))).
  - simpl. apply (tri_last i (LS3 (CompleteMultipartUpload bucketName (StagingKey sess) (S3UploadID sess) (completed parts))) _
      (fun _ => loaded sess)); [done| |done|].
    + intros w Hw [(en & Hen & Hf) Hok _ _]. left. exists (ID sess), en.
      destruct (fixed_fields _ _ Hf) as (_ & _ & _ & _ & _ & _ & -> & _).
      split_and!; [apply Hok|done|]. apply completed_numbers. by rewrite Hparts.
    + assert (Hret : forall r : result (), tri i (lift (loaded sess)) (Ret r) (fun _ => lift (loaded sess))).
      { intros r. apply tri_ret; [by apply lasting_stable|done]. }
      intros [er|[]]; apply Hret.
  - intros [[]|e]; [apply tri_assemble_staged|]. apply tri_blob; [done|done|].
    intros [[size []]|e2]; [|by apply tri_ret; [apply lasting_stable|]..].
    destruct (size =? SizeBytes sess); [apply tri_assemble_staged|by apply tri_ret; [apply lasting_stable|]].
Qed.

(** All that publishing [v] does. *)
Definition publishes (v : payload) (X : Type) (e : upE X) : Prop :=
  match e with Publish _ v' => v' = v | WaitDone _ => True | _ => False end.

Lemma publish_only subject v : all_calls (publishes v) (publishJSON srv subject v).
Proof.
  unfold publishJSON. destruct (negb _); [done|]. generalize (Ok () : result ()), 0.
  induction (publishRetries srv) as [|n IH]; intros last z; [done|].
  cbn [publish_loop]. split; [done|]. intros [[]|e]; [done|]. split; [done|]. intros [e2|]; [done|]. apply IH.
Qed.

(** Publishing a landed event that is true. *)
Lemma tri_publish i subject ev (P : landing S -> Prop) :
  lasting P -> (forall w, wf w -> P w -> event_landed sha256hex sent (lg_rows w) (lg_objects w) ev) ->
  tri i (lift P) (lprog (publishJSON srv subject (PLanded ev))) (fun _ => lift P).
Proof.
  intros HP Hev. eapply tri_interp_calls; [by apply lasting_stable|apply publish_only|].
  assert (Hret : forall X (x : X), tri i (lift P) (Ret x) (fun _ => lift P)).
  { intros X x. apply tri_ret; [by apply lasting_stable|done]. }
  intros X e He. destruct e; try done.
  - simpl in He. subst. apply (tri_last i (LUp _) P (fun _ => P)); [done|intros w Hw Hp; by apply Hev|done|by intros; apply Hret].
  - apply (tri_last i (LUp _) P (fun _ => P)); [done..|by intros; apply Hret].
Qed.

Lemma metering_quiet id kind b j : all_calls quiet (publishMetering srv id kind b j).
Proof.
  unfold publishMetering. split; [done|]. intros [eid|e]; [|done]. split; [done|]. intros now.
  eapply all_calls_impl; [|apply publish_only]. intros X e He. destruct e; try done. simpl in He. by subst.
Qed.

Lemma tri_finalize i sess :
  tri i (lift (fun w => loaded sess w /\ landed (lg_objects w) sess /\ row_landed w (ID sess)))
    (lprog (finalize srv sess)) any.
Proof.
  set (P := fun w => loaded sess w /\ landed (lg_objects w) sess /\ row_landed w (ID sess)).
  assert (HP : lasting P) by (by apply lasting_and; [|apply lasting_and]).
  unfold finalize. apply tri_qcall; [done|done|]. intros now.
  apply (tri_ubind i _ (fun _ => P)); [apply tri_publish; [done|]|].
  { intros w Hw (H1 & H2 & _). exists sess. split_and!; [done|apply H1|done]. }
  intros [[]|e]; [|by apply tri_done]. apply (tri_ubind i _ (fun _ => P)); [apply tri_lquiet; [done|apply metering_quiet]|].
  intros [[]|e]; [|by apply tri_done]. apply (tri_up i _ _ (fun _ _ => True)); [done|done| |done|].
  - intros w Hw (_ & _ & (en & Hen & Hl)) _ en' Hen'. assert (en' = en) as -> by congruence. done.
  - intros [[]|e]; by apply tri_done; apply lasting_pure.
Qed.

Lemma tri_complete i sess : tri i (lift (loaded sess)) (lprog (complete sha256hex srv sess)) any.
Proof.
  pose proof (loaded_lasting sess) as HL. unfold complete.
  assert (Hopen : State sess = SessionActive \/ State sess = SessionAssembled ->
    tri i (lift (loaded sess)) (lprog (complete_open sha256hex srv sess)) any).
  2:{ destruct (State sess); [by apply Hopen; auto|by apply Hopen; auto|by apply tri_done..]. }
  intros Hst. unfold complete_open.
  apply (tri_up i _ _ (fun x w => loaded sess w /\ match x with
    | Ok chunks => exists en, ChunkCount (en_session en) = ChunkCount sess /\ chunks_ok en /\ chunks = en_chunks en
    | Err _ => True end)); [done|done|done| |].
  - intros w x w' Hw Hp [Hx ->] Hw' Hp'. split; [done|]. destruct x as [chunks|e]; [|done].
    destruct (store_exec_ok _ (GetChunks (ID sess)) _ (lw_store _ _ _ Hw)) as [_ Hn]. rewrite <-Hx in Hn.
    apply up_to_fault_ok in Hn. cbn [store_nominal] in Hn. destruct (ld_row _ _ Hp) as (en & Hen & Hf).
    unfold lg_rows in Hen. rewrite Hen in Hn. injection Hn as <- _. exists en.
    destruct (fixed_fields _ _ Hf) as (_ & _ & _ & _ & _ & _ & Hc & _).
    split_and!; [done|by apply (lw_rows _ _ _ Hw (ID sess))|done].
  - intros [chunks|e]; [|by apply tri_done, lasting_and, lasting_pure].
    apply (tri_weaken i _ (fun w l => exists en, (ChunkCount (en_session en) = ChunkCount sess /\ chunks_ok en /\
      chunks = en_chunks en /\ ChunkCount sess < 2 ^ 31) /\ lift (loaded sess) w l) _ any); [| |done].
    { intros w l _ [Hp (en & H1 & H2 & H3)]. exists en. split_and!; [done..|apply Hp|done]. }
    apply tri_exists. intros en. apply tri_pure. intros (Hc & Hch & -> & Hcount).
    pose proof (sort_chunks_parts (en_chunks en) [] []) as Hparts.
    destruct (sort_chunks (en_chunks en) [] []) as [missing parts]. simpl in Hparts.
    case_bool_decide as Hm; [|by apply tri_done]. destruct (negb (_ =? _)); [by apply tri_done|]. cbn [negb orb].
    destruct (Hparts Hm) as [_ ->]. case_bool_decide as Hact.
    + eapply (tri_interp_bind _ i); [apply tri_assemble; by apply chunk_parts|].
      intros [sess'|e]; [apply tri_finalize|by apply tri_done, lasting_pure].
    + eapply (tri_weaken i _ _ _ any); [|apply tri_finalize|done]. intros w l _ Hp. split; [done|].
      apply (ld_landed _ _ Hp). by destruct Hst as [Hst|Hst]; rewrite Hst.
Qed.
End complete.

(** ** DELETE, GET and POST *)

Lemma tri_cancel i sess : tri i (lift (loaded sess)) (lprog (cancel sess)) any.
Proof.
  pose proof (loaded_lasting sess) as HL.
  assert (Hpersist : tri i (lift (loaded sess)) (lprog (cancel_persist sess)) any).
  { unfold cancel_persist. apply tri_qcall; [done|done|]. intros [[]|e]; by apply tri_done. }
  assert (Hkey : forall w, wf w -> loaded sess w -> is_staging (StagingKey sess)).
  { intros w _ Hl. exists (ID sess). apply Hl. }
  assert (Habort : forall k, (forall x, tri i (lift (loaded sess)) (lprog (k x)) any) ->
    tri i (lift (loaded sess)) (lprog (call (Blob (AbortMultipart (StagingKey sess) (S3UploadID sess))) ≫= k)) (any (A := response))).
  { intros k Hk. apply tri_blob; [done|intros w Hw Hl; left; by eapply Hkey|done]. }
  unfold cancel. destruct (State sess).
  3: by apply tri_done.
  3: apply Habort; intros x; by apply tri_done.
  all: apply Habort; intros [[]|e]; [|by apply tri_done]; apply tri_blob; [done|done|];
    intros [[size []]|e]; [|done..]; apply tri_blob; [done|intros w Hw Hl; by eapply Hkey|];
    intros [[]|e]; [done|by apply tri_done].
Qed.

Lemma tri_get i sess :
  tri i (lift (loaded sess)) (lprog (
    chunks ← call (Store (GetChunks (ID sess)));
    match chunks with
    | Err _ => Ret (writeError 500 "store_error" "could not load chunk map")
    | Ok chunks => Ret (writeJSON 200 (get_body sess chunks))
    end)) any.
Proof.
  pose proof (loaded_lasting sess) as HL. apply tri_qcall; [done|done|]. intros [chunks|e]; by apply tri_done.
Qed.

(** The id [id] was drawn by worker [i], who has not used it yet. *)
Definition drawn (i : nat) (id : string) (w : landing S) : Prop :=
  lg_ids w !! id = Some i /\ lg_rows w !! id = None.

Lemma drawn_stable i id : stable i (lift (drawn i id)).
Proof.
  intros w w' l Hw [Hi Hr] Hrel. destruct (Hrel Hw) as (_ & _ & K & _). split; [by apply (lk_ids _ _ _ K)|by apply (lk_rows _ _ _ K)].
Qed.

Context (Hchunk : 0 < chunkSize srv <= 2 ^ 59) (Hmax : maxObjectBytes srv <= 2 ^ 59).

Lemma new_session_ok sid id req mp :
  validateCreate req (maxObjectBytes srv) = "" -> session_ok (new_session srv sid id req mp).
Proof.
  intros Hv. assert (Hs : 0 < cr_SizeBytes req <= 2 ^ 59).
  { unfold validateCreate in Hv. repeat (case_match; [done|]). bool_prop. lia. }
  destruct (session_chunks srv id req mp sid) as (H1 & H2 & _); [lia..|]. split; simpl; [done|lia|done|lia|done].
Qed.

Lemma tri_abandon i key uid (resp : response) :
  is_staging key ->
  tri i (lift (fun _ => True)) (lprog (_ ← call (Blob (AbortMultipart key uid)); Ret resp)) any.
Proof.
  intros Hk. apply tri_blob; [apply lasting_pure|intros; by left|]. intros x. by apply tri_done, lasting_pure.
Qed.

Lemma tri_create i r : tri i (lift (fun _ => True)) (lprog (handleCreate srv r)) any.
Proof.
  pose proof (lasting_pure True) as HT. unfold handleCreate. destruct (rq_identity r) as [id|]; [|by apply tri_done].
  destruct (rq_decode r) as [req|]; [|by apply tri_done]. destruct (rq_more r); [by apply tri_done|]. cbv zeta.
  destruct (String.eqb_spec (validateCreate req (maxObjectBytes srv)) "") as [Hv|]; [|by apply tri_done]. cbn [negb].
  apply tri_qcall; [done|done|]. intros [dec|e]; [|by apply tri_done]. destruct (negb _); [by apply tri_done|].
  apply (tri_lcall i (LUp NewV7) _ (fun x w _ => match x with
    | Ok sid => drawn i sid w /\ no_upload w (staging_key sid) | Err _ => True end)); [by apply lasting_stable|done| |].
  { intros w l x w' l' Hw _ (w1 & Hs & [= -> _]) _. destruct Hs as [[Hx _]|(sid & -> & Hn & ->)]; [by destruct x|]. simpl in Hn.
    assert (Hrow : lg_rows w !! sid = None).
    { apply eq_None_not_Some. intros [en Hen]. destruct (lw_rows _ _ _ Hw _ _ Hen) as (_ & _ & _ & [k Hk]). congruence. }
    split; [split; [apply lookup_insert_eq|exact Hrow]|]. intros uid u Hu Hk.
    destruct (lw_uploads _ _ _ Hw uid u sid Hu Hk) as ([k Hk'] & _). congruence. }
  intros [sid|e]; [|by apply tri_done].
  apply (tri_interp_call _ i _ _ (fun _ => lift (drawn i sid))).
  { simpl. apply (tri_lcall i (LS3 (CreateMultipartUpload bucketName ("staging/" +:+ sid) (Some (cr_Mime req)))) _
      (fun _ => lift (drawn i sid))).
    - intros w w' l Hw [Hd Hn] Hrel. split; [by apply (drawn_stable i sid w w' l)|].
      destruct (Hrel Hw) as (_ & _ & K & _). apply (lk_fresh _ _ _ K sid); [apply Hd|exact Hn].
    - intros w l _ [[Hi Hr] Hn]. right. by exists sid.
    - intros w l x w' l' Hw [Hd _] (b' & _ & [= -> _]) _. exact Hd.
    - intros [er|uid]; (apply (tri_ret _ _ (lift (drawn i sid))); [apply drawn_stable|intros w l _ Hd; exact Hd]). }
  intros [mp|e]; [|by apply tri_ret; [apply drawn_stable|]].
  apply (tri_lcall i (LUp (Store (CreateSession (new_session srv sid id req mp)))) _ (fun _ => lift (fun _ => True))).
  - apply drawn_stable.
  - intros w l Hw [Hi _]. split; [by apply new_session_ok|]. by split.
  - done.
  - intros [[]|e]; [|apply tri_abandon; by exists sid]. unfold create_publish.
    apply (tri_ubind i _ (fun _ _ => True)); [apply tri_lquiet; [done|apply metering_quiet]|].
    intros [[]|e]; [by apply tri_done|]. apply tri_qcall; [done|done|]. intros [[]|e2].
    + apply tri_abandon. by exists sid.
    + by apply tri_done.
Qed.

(** ** Every request *)

Lemma tri_serve i rt r :
  (forall s, PathUnescape (PathEscape s) = Some s) ->
  (rt = RPutChunk -> forall id n, uuid_Parse (rq_id r) = Some id -> Atoi (rq_n r) = Some n ->
     sha256hex (st_bytes (rq_body r)) = ToLower (rq_ChunkSha256 r) -> sent id n (st_bytes (rq_body r))) ->
  tri i (lift (fun _ => True)) (lprog (serve sha256hex uuid_Parse srv rt r)) any.
Proof.
  intros Hun Hsent. destruct rt; cbn [UploadServer.serve].
  - apply tri_create.
  - apply with_session_tri. intros sess id _. apply tri_get.
  - apply with_session_tri. intros sess id Hid. apply tri_put_chunk. intros n Hn Hsha. by apply Hsent.
  - apply with_session_tri. intros sess id _. by apply tri_complete.
  - apply with_session_tri. intros sess id _. apply tri_cancel.
Qed.
End landing.

(** C3: what lands is what was sent.  Whatever requests run at the same time, interleaved
    at every S3 request, statement and publication, with any of them failing before or
    after it took effect, sessions completed twice, cancelled and written to meanwhile, and
    copies above or below the multipart limit: every landed event, and every session that
    is assembled or completed, has its object in the bucket; the digest in its key is the
    SHA-256 of the object and of the concatenation, of exactly the declared size, of one
    body per chunk that a client sent for that very chunk with that chunk's SHA-256.  Every
    object under assets/ is such a concatenation for some session, is named after its own
    SHA-256, stays, and keeps it; and nothing but staging and asset keys is ever written. *)
Theorem landed_objects_are_what_was_sent (sha256hex : string -> string) (uuid_Parse : string -> option string)
    (PathEscape : string -> string) (PathUnescape : string -> option string) (srv : Server) (bucketName : string)
    {S} `{!StoreImpl S} (reqs works : list (route * request)) (w w' : landing S) ts :
  (forall s, hex64 (sha256hex s) = true) -> (forall s, PathUnescape (PathEscape s) = Some s) ->
  0 < chunkSize srv <= 2 ^ 59 -> maxObjectBytes srv <= 2 ^ 59 ->
  let sent := sent_by sha256hex uuid_Parse reqs in
  land_wf sha256hex sent w -> works ⊆ reqs ->
  rtc (lpool_step (land_do PathUnescape))
    ((fun q => (land_request sha256hex uuid_Parse PathEscape srv bucketName q, ())) <$> works, w) (ts, w') ->
  Forall (event_landed sha256hex sent (lg_rows w') (lg_objects w')) (lg_landed w') /\
  (forall id en, lg_rows w' !! id = Some en -> assembled_state (State (en_session en)) = true ->
     landed_session sha256hex sent (lg_objects w') (en_session en)) /\
  (forall key c, is_asset key -> lg_objects w' !! key = Some c ->
     addressed sha256hex key c /\ sent_data sent (lg_rows w') c) /\
  (forall key c, is_asset key -> lg_objects w !! key = Some c ->
     exists c', lg_objects w' !! key = Some c' /\ sha256hex c' = sha256hex c) /\
  (forall key, ~ is_asset key -> ~ is_staging key -> lg_objects w' !! key = lg_objects w !! key).
Proof.
  intros Hhex Hun Hchunk Hmax sent Hw Hworks Hr.
  pose proof (lrely_relied sha256hex sent (S := S) (fun _ => True)) as Hrel.
  apply (tri_sound (inv := land_wf sha256hex sent) (rely := lrely sha256hex sent (fun _ => True)) (fun _ _ _ _ => True)) in Hr as (Hw' & Hin & _); [|done|].
  - destruct (Hin _ (le_n _) Hw) as (_ & E & _ & O).
    split_and!; [apply Hw'|apply (lw_landed _ _ _ Hw')|apply (lw_assets _ _ _ Hw')|apply E|by apply O].
  - intros i p [] Hi. rewrite list_lookup_fmap in Hi. destruct (works !! i) as [[rt r]|] eqn:Hq; [|done].
    injection Hi as <-. exists (fun _ _ => True). split; [done|]. unfold land_request. cbn [fst snd].
    apply tri_serve; [done..|]. intros -> id n Hid Hn Hsha. exists r. split_and!; [|done..]. apply Hworks. by eapply list_elem_of_lookup_2.
Qed.

(** ** A concrete run *)

(** Lowercase hex of the first [n] bytes, zero padded. *)
Definition hex_digit (n : nat) : ascii := default "0"%char (String.get n "0123456789abcdef").
Fixpoint toy_hash (n : nat) (s : string) : string :=
  match n with
  | O => ""
  | S n' =>
      let c := match s with String c _ => nat_of_ascii c | EmptyString => O end in
      String (hex_digit (c / 16)) (String (hex_digit (c mod 16))
        (toy_hash n' (match s with String _ s' => s' | EmptyString => EmptyString end)))
  end.

Lemma hex_digit_is_hex n : is_hex (hex_digit n) = true.
Proof. by do 17 (destruct n as [|n]; [reflexivity|]). Qed.

Lemma toy_hash_hex s : hex64 (toy_hash 32 s) = true.
Proof.
  apply match_class_spec. split.
  - assert (H : forall n s, slen (toy_hash n s) = 2 * Z.of_nat n); [|by rewrite H].
    clear s. induction n as [|n IH]; intros s; [done|].
    change (toy_hash (S n) s) with (String (hex_digit (match s with String c _ => nat_of_ascii c | EmptyString => O end / 16))
      (String (hex_digit (match s with String c _ => nat_of_ascii c | EmptyString => O end mod 16))
        (toy_hash n (match s with String _ s' => s' | EmptyString => EmptyString end)))).
    unfold slen in *. cbn [String.length]. specialize (IH (match s with String _ s' => s' | EmptyString => EmptyString end)). lia.
  - revert s. generalize 32%nat. induction n as [|n IH]; intros s; [done|].
    cbn [toy_hash all_chars]. by rewrite !hex_digit_is_hex, IH.
Qed.

Fixpoint ascending (l : list Z) : bool :=
  match l with [] => true | a :: l' => forallb (Z.ltb a) l' && ascending l' end.

Lemma ascending_sorted l : ascending l = true -> StronglySorted Z.lt l.
Proof.
  induction l as [|a l IH]; [constructor|]. simpl. rewrite andb_true_iff, forallb_forall. intros [H Hl].
  constructor; [by apply IH|]. apply Forall_forall. intros b Hb%list_elem_of_In. by apply Z.ltb_lt, H.
Qed.

(** A bucket that serves what it can and never fails otherwise; it does not copy ranges. *)
Definition s3_exec (i : nat) : sem s3E bucket := fun X e b =>
  match e in s3E X return X * bucket with
  | CreateMultipartUpload _ key _ =>
      let id := "mp" +:+ itoa (Z.of_nat (size (b_used b))) in
      if bool_decide (id ∈ b_used b) then (inl (S3Other "id"), b)
      else (inr (Some id), add_upload b id {| mp_key := key; mp_owner := i; mp_parts := ∅ |})
  | s3_UploadPart _ key id n body =>
      match b_uploads b !! id with
      | Some u =>
          if String.eqb (mp_key u) key
          then (inr (Some "etag"), set_b_uploads b (<[id := add_part u n "etag" body]> (b_uploads b)))
          else (inl NoSuchUpload, b)
      | None => (inl NoSuchUpload, b)
      end
  | UploadPartCopy _ _ _ _ _ _ => (inl (S3Other "ranges"), b)
  | CompleteMultipartUpload _ key id parts =>
      match b_uploads b !! id with
      | Some u =>
          match assembled (mp_parts u) parts with
          | Some content =>
              if String.eqb (mp_key u) key && ascending parts.*1 && negb (bool_decide (parts = []))
              then (inr (), set_b_objects (end_upload b id) (<[key := content]> (b_objects b)))
              else (inl (S3Other "parts"), b)
          | None => (inl (S3Other "parts"), b)
          end
      | None => (inl NoSuchUpload, b)
      end
  | AbortMultipartUpload _ key id =>
      match b_uploads b !! id with
      | Some u => if String.eqb (mp_key u) key then (inr (), end_upload b id) else (inl NoSuchUpload, b)
      | None => (inl NoSuchUpload, b)
      end
  | s3_GetObject _ key =>
      match b_objects b !! key with
      | Some c => (inr {| st_bytes := c; st_err := None |}, b) | None => (inl NotFound, b) end
  | s3_HeadObject _ key =>
      match b_objects b !! key with Some c => (inr (Some (slen c)), b) | None => (inl NotFound, b) end
  | CopyObject bkt key source =>
      match GoLib.strip_prefix (bkt +:+ "/") source ≫= fun k => b_objects b !! k with
      | Some c => (inr (), set_b_objects b (<[key := c]> (b_objects b)))
      | None => (inl NotFound, b)
      end
  | DeleteObject _ key => (inr (), set_b_objects b (delete key (b_objects b)))
  end.

Lemma s3_exec_spec i X (e : s3E X) b : s3_do Some i X e b (s3_exec i X e b).1 (s3_exec i X e b).2.
Proof.
  destruct e as [bkt key mime|bkt key id n body|bkt key id n src rg|bkt key id parts|bkt key id|bkt key|bkt key|bkt key src|bkt key];
    unfold s3_exec; cbv beta zeta; simpl s3_do.
  - case_bool_decide; [by left|]. right. eexists. split; [|by left]. by eexists.
  - destruct (b_uploads b !! id) as [u|] eqn:Hu; [|by left]. destruct (String.eqb_spec (mp_key u) key); [|by left].
    right. eexists. split; [|by left]. by exists u, "etag".
  - by left.
  - destruct (b_uploads b !! id) as [u|] eqn:Hu; [|by left]. destruct (assembled _ _) as [c|] eqn:Ha; [|by left].
    destruct (String.eqb_spec (mp_key u) key); [|by left]. destruct (ascending _) eqn:Hs; [|by left].
    case_bool_decide; [by left|]. right. eexists. split; [|by left]. exists u, c. split_and!; try done. by apply ascending_sorted.
  - destruct (b_uploads b !! id) as [u|] eqn:Hu.
    + destruct (String.eqb_spec (mp_key u) key) as [Hk|Hk].
      * right. split; [done|]. right. exists (). split; [|by left]. split; [by exists u|done].
      * left. split_and!; try done. intros (u' & Hu' & Hk'). congruence.
    + left. split_and!; try done. intros (u' & Hu' & Hk'). congruence.
  - destruct (b_objects b !! key) as [c|] eqn:Hc; [|done]. split; [done|]. by exists c.
  - destruct (b_objects b !! key) as [c|] eqn:Hc; [|done]. split; [done|]. by exists c.
  - destruct (GoLib.strip_prefix _ src) as [k|] eqn:Hk; [|by left]. simpl. destruct (b_objects b !! k) as [c|] eqn:Hc; [|by left].
    apply strip_prefix_Some in Hk as ->. right. exists (). split; [|by left]. exists c. split; [|done].
    exists k. by rewrite sapp_assoc.
  - right. exists (). split; [done|by left].
Qed.

Definition land_exec (i : nat) : sem landE (landing postgres * ()) := fun X e w =>
  match e in landE X return X * (landing postgres * ()) with
  | LS3 e => let r := s3_exec i _ e (lg_bucket w.1) in (r.1, (set_bucket w.1 r.2, ()))
  | LUp e =>
      match e in upE X return X * (landing postgres * ()) with
      | Store e => let r := store_exec _ e (lg_store w.1) in (r.1, (set_store w.1 r.2, ()))
      | Blob _ => (Err (EMsg "not a step"), w)
      | Quota _ _ => (Ok allow, w)
      | Publish _ v => (Ok (), (set_landed w.1 (received v (lg_landed w.1)), ()))
      | Gauge_TryAcquire _ => (true, w)
      | Gauge_Release _ | Backoff_Reset _ => ((), w)
      | Backoff_Deny _ => (Second, w)
      | NewV7 =>
          let id := "u" +:+ itoa (Z.of_nat (size (lg_ids w.1))) in
          match lg_ids w.1 !! id with
          | Some _ => (Err (EMsg "id"), w)
          | None => (Ok id, (set_ids w.1 (<[id := i]> (lg_ids w.1)), ()))
          end
      | Now => (0, w)
      | WaitDone _ => (None, w)
      end
  end.

Lemma land_exec_spec i X (e : landE X) w :
  land_do Some i X e w (land_exec i X e w).1 (land_exec i X e w).2.
Proof.
  destruct w as [w []]. destruct e as [X e|X e]; simpl.
  - eexists. split; [apply s3_exec_spec|done].
  - destruct e; try by (eexists; split; [|done]).
    + eexists. split; [by left|done].
    + destruct (lg_ids w !! _) eqn:Hn; simpl; (eexists; split; [|done]); [by left|right].
      by eexists.
Qed.

Definition ex_landing : landing postgres :=
  {| lg_bucket := {| b_objects := ∅; b_uploads := ∅; b_used := ∅ |};
     lg_store := {| pg_tables := no_tables; pg_faults := [] |}; lg_ids := ∅; lg_landed := [] |}.

Lemma ex_landing_wf sha256hex sent : land_wf sha256hex sent ex_landing.
Proof.
  assert (Hr : forall id en, lg_rows ex_landing !! id = Some en -> False).
  { intros id en. unfold lg_rows. simpl. rewrite abs_lookup. simpl. by rewrite lookup_empty. }
  split; unfold lg_objects; simpl; try (intros *; rewrite lookup_empty; done).
  - apply no_tables_wf.
  - intros id en H. by apply Hr in H.
  - constructor.
Qed.

Definition land_req (n : string) (data : string) : request :=
  {| rq_identity := Some ex_id; rq_id := "u0"; rq_n := n;
     rq_decode := Ok {| cr_Filename := "f"; cr_SizeBytes := 6; cr_Mime := "video/mp4" |};
     rq_more := false; rq_ContentLength := slen data; rq_ChunkSha256 := toy_hash 32 data;
     rq_body := {| st_bytes := data; st_err := None |} |}.

(** The session is created; its two chunks arrive at the same time, out of order, and
    are followed by two completions that run at the same time. *)
Lemma landed_objects_are_what_was_sent_witness :
  let works := [(RCreate, land_req "" ""); (RPutChunk, land_req "1" "ef"); (RPutChunk, land_req "0" "abcd");
                (RComplete, land_req "" ""); (RComplete, land_req "" "")] in
  let c := lrun_sched land_exec
    (replicate 30 0 ++ concat (replicate 30 [1; 2]) ++ concat (replicate 30 [3; 4]))%nat
    ((fun q => (land_request (toy_hash 32) Some id ex_srv "bkt" q, ())) <$> works, ex_landing) in
  le_ObjectKey <$> lg_landed c.2 = [object_key "ws" (toy_hash 32 "abcdef")] /\
  lg_objects c.2 !! object_key "ws" (toy_hash 32 "abcdef") = Some "abcdef" /\
  Forall (event_landed (toy_hash 32) (sent_by (toy_hash 32) Some works) (lg_rows c.2) (lg_objects c.2)) (lg_landed c.2).
Proof.
  intros works c. split; [vm_compute; reflexivity|]. split; [vm_compute; reflexivity|].
  refine (proj1 (landed_objects_are_what_was_sent (toy_hash 32) Some id Some ex_srv "bkt" works works ex_landing c.2 c.1
    toy_hash_hex (fun s => eq_refl) _ _ (ex_landing_wf _ _) (fun q H => H) _)).
  - by vm_compute.
  - by vm_compute.
  - rewrite <-surjective_pairing. apply (lrun_sched_reachable land_exec (land_do Some)).
    intros. apply land_exec_spec.
Defined.
