(* ===== verification/Jobs.v ===== *)
(** * services/orchestrator/internal/jobs: the job and preset domain model

    [job.go]: states, the error taxonomy and the transition table.  [preset.go]:
    presets and their validation.  Go's string-typed enums may hold any string, so
    they are strings here, with the constants and the [Valid*] predicates. *)
From S2P Require Export GoLib.
From Stdlib Require Export SpecFloat.

(** ** job.go *)

Definition JobState := string.
Definition StateQueued : JobState := "queued".
Definition StateRunning : JobState := "running".
Definition StateCompleted : JobState := "completed".
Definition StateFailed : JobState := "failed".

Definition ValidState (s : JobState) : bool :=
  bool_decide (s ∈ [StateQueued; StateRunning; StateCompleted; StateFailed]).

Definition ErrorClass := string.
Definition ErrorValidation : ErrorClass := "validation".
Definition ErrorAsset : ErrorClass := "asset".
Definition ErrorDecode : ErrorClass := "decode".
Definition ErrorEncode : ErrorClass := "encode".
Definition ErrorInternal : ErrorClass := "internal".

Definition ValidErrorClass (c : ErrorClass) : bool :=
  bool_decide (c ∈ [ErrorValidation; ErrorAsset; ErrorDecode; ErrorEncode; ErrorInternal]).

Definition CanTransition (from to : JobState) : bool :=
  if String.eqb from StateQueued then String.eqb to StateRunning || String.eqb to StateFailed
  else if String.eqb from StateRunning then String.eqb to StateCompleted || String.eqb to StateFailed
  else if String.eqb from StateFailed then String.eqb to StateQueued
  else false.

Definition Transition (from to : JobState) : result () :=
  if negb (ValidState from) || negb (ValidState to)
  then Err (EMsg ("invalid job state transition: " +:+ from +:+ " -> " +:+ to +:+ " (unknown state)"))
  else if negb (CanTransition from to)
  then Err (EMsg ("invalid job state transition: " +:+ from +:+ " -> " +:+ to))
  else Ok ().

Definition CanRetry (s : JobState) : bool := String.eqb s StateFailed.
Definition CanCancel (s : JobState) : bool := String.eqb s StateQueued || String.eqb s StateRunning.

Record OutputProgress := {
  op_Name : string;
  op_ObjectKey : string;
  op_State : string;
  op_ProgressPct : spec_float
}.

Record Job := {
  j_ID : string;
  j_WorkspaceID : string;
  j_UserID : string;
  j_PresetID : string;
  j_SourceObjectKey : string;
  j_SourceSHA256 : string;
  j_State : JobState;
  j_ErrorClass : ErrorClass;
  j_ErrorMessage : string;
  j_Attempts : Z;
  j_ProgressPct : spec_float;
  j_FPS : spec_float;
  j_SpeedX : spec_float;
  j_ETASeconds : spec_float;
  j_Outputs : list OutputProgress;
  j_CreatedAt : time;
  j_QueuedAt : time;
  j_StartedAt : option time;
  j_FinishedAt : option time;
  j_UpdatedAt : time
}.

(** A job state is in the frozen set and every legal move stays in it. *)
Lemma Transition_ok from to :
  Transition from to = Ok () <->
  (from, to) ∈ [(StateQueued, StateRunning); (StateQueued, StateFailed);
                (StateRunning, StateCompleted); (StateRunning, StateFailed);
                (StateFailed, StateQueued)].
Proof.
  unfold Transition. split.
  - destruct (negb (ValidState from) || negb (ValidState to)); [done|].
    unfold CanTransition.
    repeat match goal with
    | |- context [String.eqb ?a ?b] => destruct (String.eqb_spec a b); subst; simpl
    end; intros; try done; set_solver.
  - rewrite !elem_of_cons, elem_of_nil. intros H.
    repeat (destruct H as [[= -> ->]|H]; [vm_compute; reflexivity|]). destruct H.
Qed.

(** ** preset.go *)

Definition ValidContainer (c : string) : bool :=
  bool_decide (c ∈ ["mp4"; "mov"; "hls"; "dash"; "webm"]).
Definition ValidRateControlMode (m : string) : bool := bool_decide (m ∈ ["crf"; "vbr"; "cbr"]).
Definition ValidVideoCodec (v : string) : bool := bool_decide (v ∈ ["h264"; "hevc"; "av1"]).
Definition ValidSpeedPreset (s : string) : bool :=
  bool_decide (s ∈ ["p1"; "p2"; "p3"; "p4"; "p5"; "p6"; "p7"]).

(** [^[A-Za-z0-9][A-Za-z0-9._-]{0,31}$] *)
Definition rung_char (c : ascii) : bool := is_alnum c || one_of "._-" c.
Definition rungNamePattern (s : string) : bool :=
  match s with
  | EmptyString => false
  | String c s' => is_alnum c && match_class rung_char 0 31 s'
  end.

Record Rung := { r_Name : string; r_Width : Z; r_Height : Z }.

Record Preset := {
  p_ID : string;
  p_WorkspaceID : string;
  p_Name : string;
  p_Container : string;
  p_VideoCodec : string;
  p_RateControl : string;
  p_CRF : Z;
  p_BitrateKbps : Z;
  p_MaxBitrateKbps : Z;
  p_GOPLength : Z;
  p_SpeedPreset : string;
  p_Ladder : list Rung;
  p_CreatedAt : time;
  p_UpdatedAt : time
}.

Definition invalid {A} (msg : string) : result A := Err (EMsg msg).

Definition validate_rate (p : Preset) : result () :=
  if String.eqb (p_RateControl p) "crf" then
    if (p_CRF p <? 0) || (51 <? p_CRF p) then invalid "crf must be 0..51 for rateControl crf"
    else if negb (p_BitrateKbps p =? 0) || negb (p_MaxBitrateKbps p =? 0)
    then invalid "bitrateKbps and maxBitrateKbps must be unset for rateControl crf"
    else Ok ()
  else if String.eqb (p_RateControl p) "vbr" then
    if p_BitrateKbps p <? 1 then invalid "bitrateKbps must be >= 1 for rateControl vbr"
    else if negb (p_MaxBitrateKbps p =? 0) && (p_MaxBitrateKbps p <? p_BitrateKbps p)
    then invalid "maxBitrateKbps must be >= bitrateKbps"
    else if negb (p_CRF p =? 0) then invalid "crf must be unset for rateControl vbr"
    else Ok ()
  else if String.eqb (p_RateControl p) "cbr" then
    if p_BitrateKbps p <? 1 then invalid "bitrateKbps must be >= 1 for rateControl cbr"
    else if negb (p_CRF p =? 0) || negb (p_MaxBitrateKbps p =? 0)
    then invalid "crf and maxBitrateKbps must be unset for rateControl cbr"
    else Ok ()
  else Ok ().

(** The ladder loop: [i] is the index and [seen] the names met so far. *)
Fixpoint validate_ladder (i : Z) (seen : gset string) (l : list Rung) : result () :=
  match l with
  | [] => Ok ()
  | r :: l' =>
      if negb (rungNamePattern (r_Name r))
      then invalid ("ladder[" +:+ itoa i +:+ "].name must be 1..32 characters, start with a letter or digit, and contain only letters, digits, dot, underscore, hyphen")
      else if bool_decide (r_Name r ∈ seen)
      then invalid ("ladder rung names must be unique: " +:+ r_Name r)
      else if (r_Width r <? 16) || (8192 <? r_Width r) || (r_Height r <? 16) || (8192 <? r_Height r)
      then invalid ("ladder[" +:+ itoa i +:+ "] dimensions must be 16..8192")
      else if negb (Z.rem (r_Width r) 2 =? 0) || negb (Z.rem (r_Height r) 2 =? 0)
      then invalid ("ladder[" +:+ itoa i +:+ "] dimensions must be even")
      else validate_ladder (i + 1) ({[ r_Name r ]} ∪ seen) l'
  end.

Definition Validate (p : Preset) : result () :=
  if String.eqb (p_Name p) "" || (128 <? slen (p_Name p))
  then invalid "preset name must be 1..128 characters"
  else if negb (ValidContainer (p_Container p))
  then invalid "container must be one of mp4, mov, hls, dash, webm"
  else if negb (ValidVideoCodec (p_VideoCodec p))
  then invalid "videoCodec must be one of h264, hevc, av1"
  else if String.eqb (p_Container p) "webm" && negb (String.eqb (p_VideoCodec p) "av1")
  then invalid "webm container requires videoCodec av1"
  else if negb (ValidRateControlMode (p_RateControl p))
  then invalid "rateControl must be one of crf, vbr, cbr"
  else
    _ ← validate_rate p;
    if (p_GOPLength p <? 1) || (600 <? p_GOPLength p) then invalid "gopLength must be 1..600 frames"
    else if negb (ValidSpeedPreset (p_SpeedPreset p)) then invalid "speedPreset must be p1..p7"
    else if (Z.of_nat (length (p_Ladder p)) =? 0) || (8 <? Z.of_nat (length (p_Ladder p)))
    then invalid "ladder must have 1..8 rungs"
    else validate_ladder 0 ∅ (p_Ladder p).

(** ** What a valid preset is *)

Definition rate_wf (p : Preset) : Prop :=
  (p_RateControl p = "crf" /\ 0 <= p_CRF p <= 51 /\ p_BitrateKbps p = 0 /\ p_MaxBitrateKbps p = 0) \/
  (p_RateControl p = "vbr" /\ 1 <= p_BitrateKbps p /\ p_CRF p = 0 /\
     (p_MaxBitrateKbps p = 0 \/ p_BitrateKbps p <= p_MaxBitrateKbps p)) \/
  (p_RateControl p = "cbr" /\ 1 <= p_BitrateKbps p /\ p_CRF p = 0 /\ p_MaxBitrateKbps p = 0).

Definition rung_wf (r : Rung) : Prop :=
  rungNamePattern (r_Name r) = true /\ 16 <= r_Width r <= 8192 /\ 16 <= r_Height r <= 8192 /\
  Z.Even (r_Width r) /\ Z.Even (r_Height r).

Record preset_wf (p : Preset) : Prop := {
  wf_name : 1 <= slen (p_Name p) <= 128;
  wf_container : p_Container p ∈ ["mp4"; "mov"; "hls"; "dash"; "webm"];
  wf_codec : p_VideoCodec p ∈ ["h264"; "hevc"; "av1"];
  wf_webm : p_Container p = "webm" -> p_VideoCodec p = "av1";
  wf_rate : rate_wf p;
  wf_gop : 1 <= p_GOPLength p <= 600;
  wf_speed : p_SpeedPreset p ∈ ["p1"; "p2"; "p3"; "p4"; "p5"; "p6"; "p7"];
  wf_rungs : 1 <= Z.of_nat (length (p_Ladder p)) <= 8;
  wf_ladder : Forall rung_wf (p_Ladder p);
  wf_unique : NoDup (r_Name <$> p_Ladder p)
}.

Lemma rem_even z : Z.rem z 2 = 0 <-> Z.Even z.
Proof.
  split.
  - intros H. exists (Z.quot z 2). pose proof (Z.quot_rem' z 2). lia.
  - intros [k ->]. Z.to_euclidean_division_equations. lia.
Qed.

Lemma rung_tests r :
  rung_wf r <->
  rungNamePattern (r_Name r) = true /\
  ((r_Width r <? 16) || (8192 <? r_Width r) || (r_Height r <? 16) || (8192 <? r_Height r)) = false /\
  (negb (Z.rem (r_Width r) 2 =? 0) || negb (Z.rem (r_Height r) 2 =? 0)) = false.
Proof.
  unfold rung_wf. rewrite <-!rem_even, !orb_false_iff, !Z.ltb_ge, !negb_false_iff, !Z.eqb_eq.
  intuition lia.
Qed.

Lemma validate_ladder_ok i seen l :
  validate_ladder i seen l = Ok () <->
  Forall rung_wf l /\ NoDup (r_Name <$> l) /\ (forall r, r ∈ l -> r_Name r ∉ seen).
Proof.
  revert i seen. induction l as [|r l IH]; intros i seen; simpl.
  - split; [intros _|done]. split_and!; [constructor|constructor|set_solver].
  - rewrite Forall_cons, NoDup_cons, rung_tests.
    destruct (rungNamePattern (r_Name r)); simpl; [|by intuition].
    case_bool_decide as Hs; [split; [done|]; intros (_ & _ & H); exfalso; apply (H r); set_solver|].
    destruct ((r_Width r <? 16) || _ || _ || _); [by intuition|].
    destruct (negb (Z.rem (r_Width r) 2 =? 0) || _); [by intuition|].
    rewrite IH. split.
    + intros (H1 & H2 & H3). split_and!; try done.
      * intros [r' [Heq Hr']]%list_elem_of_fmap. apply (H3 r'); [done|]. set_solver.
      * intros r' [->|Hr']%elem_of_cons; [done|]. specialize (H3 r' Hr'). set_solver.
    + intros ([_ H1] & [H2 H3] & H4). split_and!; try done.
      intros r' Hr'. rewrite not_elem_of_union, not_elem_of_singleton. split.
      * intros Heq. apply H2. apply list_elem_of_fmap. eauto.
      * apply H4. set_solver.
Qed.

(** The three modes exclude each other. *)
Lemma rate_wf_mode p :
  rate_wf p <->
  if String.eqb (p_RateControl p) "crf" then
    0 <= p_CRF p <= 51 /\ p_BitrateKbps p = 0 /\ p_MaxBitrateKbps p = 0
  else if String.eqb (p_RateControl p) "vbr" then
    1 <= p_BitrateKbps p /\ p_CRF p = 0 /\
    (p_MaxBitrateKbps p = 0 \/ p_BitrateKbps p <= p_MaxBitrateKbps p)
  else if String.eqb (p_RateControl p) "cbr" then
    1 <= p_BitrateKbps p /\ p_CRF p = 0 /\ p_MaxBitrateKbps p = 0
  else False.
Proof.
  unfold rate_wf.
  destruct (String.eqb_spec (p_RateControl p) "crf") as [->|]; [intuition discriminate|].
  destruct (String.eqb_spec (p_RateControl p) "vbr") as [->|]; [intuition discriminate|].
  destruct (String.eqb_spec (p_RateControl p) "cbr") as [->|]; intuition (discriminate || done).
Qed.

Ltac rate_branch :=
  repeat match goal with
  | |- context [if ?b then _ else _] => destruct b eqn:?
  end; bool_prop;
  first [ split; [discriminate|intros; exfalso; lia] | split; [intros _; lia|done] ].

Lemma validate_rate_ok p :
  ValidRateControlMode (p_RateControl p) = true -> validate_rate p = Ok () <-> rate_wf p.
Proof.
  intros Hv. rewrite rate_wf_mode. unfold validate_rate.
  destruct (String.eqb (p_RateControl p) "crf") eqn:E1; [rate_branch|].
  destruct (String.eqb (p_RateControl p) "vbr") eqn:E2; [rate_branch|].
  destruct (String.eqb (p_RateControl p) "cbr") eqn:E3; [rate_branch|].
  bool_prop. unfold ValidRateControlMode in Hv. apply bool_decide_eq_true in Hv. set_solver.
Qed.

Lemma Validate_sound p : Validate p = Ok () -> preset_wf p.
Proof.
  unfold Validate. intros H.
  destruct (String.eqb (p_Name p) "" || (128 <? slen (p_Name p))) eqn:H1; [done|].
  destruct (negb (ValidContainer (p_Container p))) eqn:H2; [done|].
  destruct (negb (ValidVideoCodec (p_VideoCodec p))) eqn:H3; [done|].
  destruct (String.eqb (p_Container p) "webm" && negb (String.eqb (p_VideoCodec p) "av1")) eqn:H4; [done|].
  destruct (negb (ValidRateControlMode (p_RateControl p))) eqn:H5; [done|].
  destruct (validate_rate p) as [[]|] eqn:H6; [|done]. simpl in H.
  destruct ((p_GOPLength p <? 1) || (600 <? p_GOPLength p)) eqn:H7; [done|].
  destruct (negb (ValidSpeedPreset (p_SpeedPreset p))) eqn:H8; [done|].
  destruct ((Z.of_nat (length (p_Ladder p)) =? 0) || (8 <? Z.of_nat (length (p_Ladder p)))) eqn:H9; [done|].
  apply validate_ladder_ok in H as (Hl & Hu & _).
  unfold ValidContainer, ValidVideoCodec, ValidSpeedPreset in *.
  bool_prop. apply validate_rate_ok in H6; [|done].
  pose proof (slen_nonneg (p_Name p)). 
  assert (slen (p_Name p) <> 0) by (rewrite slen_zero; done).
  split; try done; try lia.
  intros Hw. destruct H4 as [H4|H4]; bool_prop; congruence.
Qed.

Lemma Validate_complete p : preset_wf p -> Validate p = Ok ().
Proof.
  unfold Validate. intros [Hn Hc Hv Hw Hr Hg Hs Hk Hl Hu].
  assert (p_Name p <> "") by (intros He; rewrite He in Hn; change (slen "") with 0 in Hn; lia).
  rewrite (proj2 (String.eqb_neq _ _)), (proj2 (Z.ltb_ge _ _)) by (done || lia). cbn [orb].
  unfold ValidContainer, ValidVideoCodec, ValidSpeedPreset. rewrite !bool_decide_eq_true_2 by done.
  cbn [negb].
  assert (String.eqb (p_Container p) "webm" && negb (String.eqb (p_VideoCodec p) "av1") = false) as ->.
  { destruct (String.eqb_spec (p_Container p) "webm") as [He|]; [|done].
    by rewrite (Hw He). }
  assert (Hm : ValidRateControlMode (p_RateControl p) = true).
  { unfold ValidRateControlMode. apply bool_decide_eq_true. unfold rate_wf in Hr. set_solver. }
  rewrite Hm. cbn [negb]. apply (proj2 (validate_rate_ok p Hm)) in Hr. rewrite Hr. simpl.
  rewrite !(proj2 (Z.ltb_ge _ _)) by lia. rewrite (proj2 (Z.eqb_neq _ _)) by lia. cbn [orb].
  apply validate_ladder_ok. split_and!; [done|done|set_solver].
Qed.

(** preset validation is exact: [Validate] accepts a preset precisely when it
    is well formed (bounded name, known container and codec, webm only with av1,
    a rate control whose parameters fit its mode and no others, bounded GOP, a
    known speed preset, and 1 to 8 rungs with safe, pairwise distinct names and
    even dimensions in 16..8192). *)
Theorem Validate_exact p : Validate p = Ok () <-> preset_wf p.
Proof. split; [apply Validate_sound|apply Validate_complete]. Qed.
