(* ===== verification/FFmpeg.v ===== *)
(** * services/orchestrator/internal/engine and its ffmpeg adapter

    [engine.go]'s types, then the adapter: argv construction ([args.go]), the
    progress parser ([progress.go]), the license gate ([buildconf.go]) and
    [Probe], [Transcode] and failure classification ([adapter.go]).  The child
    processes are calls on [runnerE]; decoding ffprobe's JSON and
    [strconv.ParseFloat] are functions of the section. *)
From S2P Require Export Jobs Http.

(** ** engine.go *)

Record MediaInfo := {
  mi_Container : string;
  mi_DurationSeconds : spec_float;
  mi_VideoCodec : string;
  mi_AudioCodec : string;
  mi_Width : Z;
  mi_Height : Z;
  mi_ChromaSubsampling : string;
  mi_SourceBitrateBps : Z;
  mi_VideoStreams : Z;
  mi_AudioStreams : Z;
  mi_SubtitleStreams : Z
}.

Record RateControl := { rc_Mode : string; rc_CRF : Z; rc_BitrateKbps : Z; rc_MaxBitrateKbps : Z }.

Record OutputSpec := {
  os_RungName : string;
  os_Width : Z;
  os_Height : Z;
  os_Container : string;
  os_VideoCodec : string;
  os_RateControl : RateControl;
  os_GOPLength : Z;
  os_SpeedPreset : string;
  os_IncludeAudio : bool;
  os_DestDir : string;
  os_SourceDurationSeconds : spec_float
}.

Record Progress := {
  pg_RungName : string;
  pg_FPS : spec_float;
  pg_SpeedX : spec_float;
  pg_OutTimeSeconds : spec_float;
  pg_ProgressPct : spec_float;
  pg_ETASeconds : spec_float
}.

Definition ErrorStage := string.
Definition StageAsset : ErrorStage := "asset".
Definition StageDecode : ErrorStage := "decode".
Definition StageEncode : ErrorStage := "encode".

(** An error of the engine: typed, or the context's. *)
Inductive engine_error :=
| EngineError (stage : ErrorStage) (msg : string)
| EngineCtx (e : gerror).

(** ** path/filepath *)

(** [filepath.Clean] on '/'-separated paths: the components kept, last first. *)
Fixpoint clean_parts (rooted : bool) (parts kept : list string) : list string :=
  match parts with
  | [] => kept
  | p :: ps =>
      if String.eqb p "" || String.eqb p "." then clean_parts rooted ps kept
      else if String.eqb p ".." then
        match kept with
        | q :: kept' => if String.eqb q ".." then clean_parts rooted ps (".." :: kept)
                        else clean_parts rooted ps kept'
        | [] => if rooted then clean_parts rooted ps [] else clean_parts rooted ps [".."]
        end
      else clean_parts rooted ps (p :: kept)
  end.

Definition Clean (path : string) : string :=
  match path with
  | EmptyString => "."
  | String c _ =>
      let rooted := Ascii.eqb c "/" in
      let body := join "/" (rev (clean_parts rooted (Split "/" path) [])) in
      if rooted then String "/" body else if String.eqb body "" then "." else body
  end.

(** [filepath.Join(dir, name)]: empty elements are dropped. *)
Definition Join (dir name : string) : string :=
  if String.eqb dir "" then (if String.eqb name "" then "" else Clean name)
  else if String.eqb name "" then Clean dir
  else Clean (dir +:+ "/" +:+ name).

(** ** args.go *)

Definition encoderFor (codec : string) : result string :=
  if String.eqb codec "h264" then Ok "h264_nvenc"
  else if String.eqb codec "hevc" then Ok "hevc_nvenc"
  else if String.eqb codec "av1" then Ok "av1_nvenc"
  else Err (EMsg ("unsupported video codec " +:+ codec)).

Definition audioArgsFor (container : string) : list string :=
  if String.eqb container "webm" then ["-c:a"; "libopus"; "-b:a"; "128k"]
  else ["-c:a"; "aac"; "-b:a"; "192k"].

Definition rate_args (rc : RateControl) : result (list string) :=
  if String.eqb (rc_Mode rc) "crf" then
    Ok ["-rc"; "vbr"; "-cq"; itoa (rc_CRF rc); "-b:v"; "0"]
  else if String.eqb (rc_Mode rc) "vbr" then
    Ok (["-rc"; "vbr"; "-b:v"; itoa (rc_BitrateKbps rc) +:+ "k"]
        ++ (if 0 <? rc_MaxBitrateKbps rc then ["-maxrate"; itoa (rc_MaxBitrateKbps rc) +:+ "k"] else []))
  else if String.eqb (rc_Mode rc) "cbr" then
    let kb := itoa (rc_BitrateKbps rc) +:+ "k" in
    Ok ["-rc"; "cbr"; "-b:v"; kb; "-minrate"; kb; "-maxrate"; kb]
  else Err (EMsg ("unsupported rate control mode " +:+ rc_Mode rc)).

Definition mux_args (out : OutputSpec) : result (list string * string) :=
  let in_dir ext := Join (os_DestDir out) (os_RungName out +:+ ext) in
  if String.eqb (os_Container out) "mp4" then
    Ok (["-movflags"; "+faststart"; "-f"; "mp4"; in_dir ".mp4"], in_dir ".mp4")
  else if String.eqb (os_Container out) "mov" then
    Ok (["-f"; "mov"; in_dir ".mov"], in_dir ".mov")
  else if String.eqb (os_Container out) "webm" then
    Ok (["-f"; "webm"; in_dir ".webm"], in_dir ".webm")
  else if String.eqb (os_Container out) "hls" then
    Ok (["-f"; "hls"; "-hls_time"; "6"; "-hls_playlist_type"; "vod";
         "-hls_segment_type"; "fmp4"; "-hls_segment_filename"; in_dir "_%05d.m4s";
         in_dir ".m3u8"], in_dir ".m3u8")
  else if String.eqb (os_Container out) "dash" then
    Ok (["-f"; "dash"; "-seg_duration"; "6";
         "-init_seg_name"; os_RungName out +:+ "_init_$RepresentationID$.m4s";
         "-media_seg_name"; os_RungName out +:+ "_chunk_$RepresentationID$_$Number%05d$.m4s";
         in_dir ".mpd"], in_dir ".mpd")
  else Err (EMsg ("unsupported container " +:+ os_Container out)).

Definition buildTranscodeArgs (inputPath : string) (out : OutputSpec)
    : result (list string * string) :=
  enc ← encoderFor (os_VideoCodec out);
  let args :=
    ["-hide_banner"; "-nostdin"; "-nostats"; "-y"; "-progress"; "pipe:1"; "-i"; inputPath;
     "-map"; "0:v:0"]
    ++ (if os_IncludeAudio out then ["-map"; "0:a:0"] else [])
    ++ ["-vf"; "scale=" +:+ itoa (os_Width out) +:+ ":" +:+ itoa (os_Height out);
        "-c:v"; enc; "-preset"; os_SpeedPreset out; "-g"; itoa (os_GOPLength out)] in
  rate ← rate_args (os_RateControl out);
  let args := args ++ rate
    ++ (if os_IncludeAudio out then audioArgsFor (os_Container out) else ["-an"]) in
  mux ← mux_args out;
  Ok (args ++ mux.1, mux.2).

(** ** progress.go *)

Record ProgressSample := {
  ps_Frame : Z;
  ps_FPS : spec_float;
  ps_OutTimeSeconds : spec_float;
  ps_SpeedX : spec_float;
  ps_End : bool
}.

Definition no_sample : ProgressSample :=
  {| ps_Frame := 0; ps_FPS := f0; ps_OutTimeSeconds := f0; ps_SpeedX := f0; ps_End := false |}.

Record ProgressParser := { cur : ProgressSample; haveData : bool; haveUS : bool }.
Definition new_parser : ProgressParser := {| cur := no_sample; haveData := false; haveUS := false |}.

Definition with_cur (p : ProgressParser) (s : ProgressSample) : ProgressParser :=
  {| cur := s; haveData := true; haveUS := haveUS p |}.

Section parse.
Context (ParseFloat : string -> option spec_float).

Definition set_frame (s : ProgressSample) n := {| ps_Frame := n; ps_FPS := ps_FPS s;
  ps_OutTimeSeconds := ps_OutTimeSeconds s; ps_SpeedX := ps_SpeedX s; ps_End := ps_End s |}.
Definition set_fps (s : ProgressSample) f := {| ps_Frame := ps_Frame s; ps_FPS := f;
  ps_OutTimeSeconds := ps_OutTimeSeconds s; ps_SpeedX := ps_SpeedX s; ps_End := ps_End s |}.
Definition set_out_time (s : ProgressSample) f := {| ps_Frame := ps_Frame s; ps_FPS := ps_FPS s;
  ps_OutTimeSeconds := f; ps_SpeedX := ps_SpeedX s; ps_End := ps_End s |}.
Definition set_speed (s : ProgressSample) f := {| ps_Frame := ps_Frame s; ps_FPS := ps_FPS s;
  ps_OutTimeSeconds := ps_OutTimeSeconds s; ps_SpeedX := f; ps_End := ps_End s |}.
Definition set_end (s : ProgressSample) b := {| ps_Frame := ps_Frame s; ps_FPS := ps_FPS s;
  ps_OutTimeSeconds := ps_OutTimeSeconds s; ps_SpeedX := ps_SpeedX s; ps_End := b |}.

(** Microseconds to seconds. *)
Definition micros (n : Z) : spec_float := fdiv (f64_of_Z n) f1e6.

Definition nonneg_int (val : string) : option Z :=
  match Atoi val with Some n => if 0 <=? n then Some n else None | None => None end.

Definition feed_kv (key val : string) (p : ProgressParser) : ProgressParser * option ProgressSample :=
  if String.eqb key "frame" then
    match Atoi val with
    | Some n => (with_cur p (set_frame (cur p) n), None)
    | None => (p, None)
    end
  else if String.eqb key "fps" then
    match ParseFloat val with
    | Some f => (with_cur p (set_fps (cur p) f), None)
    | None => (p, None)
    end
  else if String.eqb key "out_time_us" then
    match nonneg_int val with
    | Some n => ({| cur := set_out_time (cur p) (micros n); haveData := true; haveUS := true |}, None)
    | None => (p, None)
    end
  else if String.eqb key "out_time_ms" then
    if haveUS p then (p, None)
    else match nonneg_int val with
         | Some n => (with_cur p (set_out_time (cur p) (micros n)), None)
         | None => (p, None)
         end
  else if String.eqb key "speed" then
    match ParseFloat (TrimSuffix val "x") with
    | Some f => (with_cur p (set_speed (cur p) f), None)
    | None => (p, None)
    end
  else if String.eqb key "progress" then
    let s := set_end (cur p) (String.eqb val "end") in
    (new_parser, if haveData p || ps_End s then Some s else None)
  else (p, None).

Definition Feed (line : string) (p : ProgressParser) : ProgressParser * option ProgressSample :=
  match Cut (TrimSpace line) "=" with
  | None => (p, None)
  | Some (key, val) => feed_kv key (TrimSpace val) p
  end.

(** [bufio.Scanner] with a 1 MiB buffer: lines without their terminator, a final
    empty line not reported, an error when a line does not fit. *)
Definition max_token : Z := 1024 * 1024.

Definition drop_cr (l : string) : string := TrimSuffix l (String "013" "").

Fixpoint drop_last_empty (ls : list string) : list string :=
  match ls with
  | [] => []
  | [l] => if String.eqb l "" then [] else [l]
  | l :: ls' => l :: drop_last_empty ls'
  end.

Definition scan_tokens (s : string) : list string := drop_last_empty (Split "010" s).

Fixpoint scan_lines (ls : list string) (rerr : option gerror) (p : ProgressParser)
    (emitted : list ProgressSample) : list ProgressSample * option gerror :=
  match ls with
  | [] => (emitted, rerr)
  | l :: ls' =>
      if max_token <=? slen l then (emitted, Some (EMsg "bufio.Scanner: token too long"))
      else match Feed (drop_cr l) p with
           | (p', Some s) => scan_lines ls' rerr p' (emitted ++ [s])
           | (p', None) => scan_lines ls' rerr p' emitted
           end
  end.

(** The samples emitted, in order, and the scanner's error. *)
Definition ScanProgress (r : stream) : list ProgressSample * option gerror :=
  scan_lines (scan_tokens (st_bytes r)) (st_err r) new_parser [].
End parse.

Definition DeriveProgress (s : ProgressSample) (durationSeconds : spec_float)
    : spec_float * spec_float :=
  if fle durationSeconds f0 then (f0, f0)
  else
    let pct := fmul (fdiv (ps_OutTimeSeconds s) durationSeconds) f100 in
    let pct := if flt f100 pct then f100 else pct in
    let pct := if flt pct f0 then f0 else pct in
    let pct := if ps_End s then f100 else pct in
    let eta :=
      if flt f0 (ps_SpeedX s) then
        let remain := fsub durationSeconds (ps_OutTimeSeconds s) in
        let remain := if flt remain f0 then f0 else remain in
        fdiv remain (ps_SpeedX s)
      else f0 in
    (pct, eta).

(** ** Small text helpers of the adapter *)

(** [utf8.RuneStart]: not a continuation byte. *)
Definition RuneStart (c : ascii) : bool :=
  negb ((128 <=? nat_of_ascii c) && (nat_of_ascii c <? 192))%nat.

Fixpoint rune_cut (cut : nat) (s : string) : nat :=
  match cut with
  | O => O
  | S c => match String.get cut s with
           | Some ch => if RuneStart ch then cut else rune_cut c s
           | None => cut
           end
  end.

Definition truncateRuneSafe (s : string) (mx : Z) : string :=
  if slen s <=? mx then s else stake (rune_cut (Z.to_nat mx) s) s.

Definition firstLine (b : string) : string :=
  let s := TrimSpace b in
  truncateRuneSafe (match Cut s (String "010" "") with Some (a, _) => a | None => s end) 300.

Fixpoint last_nonempty (rev_lines : list string) : string :=
  match rev_lines with
  | [] => ""
  | l :: ls => let t := TrimSpace l in
               if negb (String.eqb t "") then truncateRuneSafe t 300 else last_nonempty ls
  end.

Definition firstNonEmptyTail (s : string) : string :=
  last_nonempty (rev (Split "010" (TrimSpace s))).

Definition classifyFailure (stderr wait_err : string) : engine_error :=
  let text := ToLower stderr in
  let msg := "ffmpeg exited: " +:+ wait_err +:+ ": " +:+ firstNonEmptyTail stderr in
  if Contains text "no such file or directory"
     || Contains text "invalid data found when processing input"
     || Contains text "moov atom not found" || Contains text "permission denied"
  then EngineError StageAsset msg
  else if Contains text "error while decoding" || Contains text "decoder"
     || Contains text "could not find codec parameters"
  then EngineError StageDecode msg
  else EngineError StageEncode msg.

Definition chromaFromPixFmt (pixFmt : string) : string :=
  if String.eqb pixFmt "" then ""
  else if Contains pixFmt "444" then "4:4:4"
  else if Contains pixFmt "422" then "4:2:2"
  else if Contains pixFmt "420" then "4:2:0"
  else if Contains pixFmt "gray" then "4:0:0"
  else pixFmt.

(** ** buildconf.go *)

Definition forbiddenFlags : list string := ["--enable-gpl"; "--enable-nonfree"].

(** The first forbidden token, in reading order. *)
Fixpoint find_forbidden (toks : list string) : option string :=
  match toks with
  | [] => None
  | t :: ts => let t := TrimSpace t in
               match list_find (eq t) forbiddenFlags with
               | Some (_, bad) => Some bad
               | None => find_forbidden ts
               end
  end.

Definition ErrForbiddenBuild (found : string) : gerror :=
  EMsg ("ffmpeg build advertises gpl or nonfree configuration; refusing to start (found "
        +:+ found +:+ ")").

Fixpoint check_lines (lines : list string) : result () :=
  match lines with
  | [] => Ok ()
  | l :: ls => match find_forbidden (Fields l) with
               | Some bad => Err (ErrForbiddenBuild bad)
               | None => check_lines ls
               end
  end.

Definition CheckBuildconf (output : string) : result () := check_lines (Split "010" output).

(** ** adapter.go *)

Record ffprobeStream := {
  fs_CodecType : string; fs_CodecName : string; fs_Width : Z; fs_Height : Z; fs_PixFmt : string }.
Record ffprobeOut := {
  ff_FormatName : string; ff_Duration : string; ff_BitRate : string;
  ff_Streams : list ffprobeStream }.

Record Config := { FFmpegPath : string; FFprobePath : string }.

(** A child process: [Output] to completion gives stdout, stderr and the exit
    error; [Start] gives the stdout stream, [Wait] the stderr and exit error.
    [CtxErr] is [ctx.Err()] and [OnProgress] the caller's callback. *)
Inductive runnerE : Type -> Type :=
| Output (name : string) (args : list string) : runnerE (string * string * option gerror)
| Start (name : string) (args : list string) : runnerE (result stream)
| Wait : runnerE (string * option gerror)
| CtxErr : runnerE (option gerror)
| OnProgress (p : Progress) : runnerE ().

Definition error_text (e : gerror) : string :=
  match e with
  | ENotFound => "not found" | EConflict => "conflict" | EDuplicate => "duplicate"
  | ECanceled => "context canceled" | EMsg m => m
  end.

Section adapter.
Context (ParseFloat : string -> option spec_float).
Context (json_ffprobe : string -> result ffprobeOut).
Context (cfg : Config).

Definition verifyBuild : prog runnerE (result ()) :=
  out ← call (Output (FFmpegPath cfg) ["-hide_banner"; "-buildconf"]);
  let '(stdout, stderr, err) := out in
  match err with
  | Some e => Ret (Err (EMsg ("ffmpeg -buildconf failed (" +:+ FFmpegPath cfg +:+ "): "
                              +:+ error_text e +:+ ": " +:+ firstLine stderr)))
  | None => Ret (CheckBuildconf (stdout +:+ String "010" stderr))
  end.

(** [New]: the adapter exists only over a build that passed the gate. *)
Definition New : prog runnerE (result ()) :=
  if String.eqb (FFmpegPath cfg) "" || String.eqb (FFprobePath cfg) ""
  then Ret (Err (EMsg "ffmpegadapter: FFmpegPath and FFprobePath are required"))
  else verifyBuild.

Definition add_stream (mi : MediaInfo) (s : ffprobeStream) : MediaInfo :=
  if String.eqb (fs_CodecType s) "video" then
    let first := String.eqb (mi_VideoCodec mi) "" in
    {| mi_Container := mi_Container mi; mi_DurationSeconds := mi_DurationSeconds mi;
       mi_VideoCodec := if first then fs_CodecName s else mi_VideoCodec mi;
       mi_AudioCodec := mi_AudioCodec mi;
       mi_Width := if first then fs_Width s else mi_Width mi;
       mi_Height := if first then fs_Height s else mi_Height mi;
       mi_ChromaSubsampling := if first then chromaFromPixFmt (fs_PixFmt s) else mi_ChromaSubsampling mi;
       mi_SourceBitrateBps := mi_SourceBitrateBps mi;
       mi_VideoStreams := mi_VideoStreams mi + 1;
       mi_AudioStreams := mi_AudioStreams mi; mi_SubtitleStreams := mi_SubtitleStreams mi |}
  else if String.eqb (fs_CodecType s) "audio" then
    {| mi_Container := mi_Container mi; mi_DurationSeconds := mi_DurationSeconds mi;
       mi_VideoCodec := mi_VideoCodec mi;
       mi_AudioCodec := if String.eqb (mi_AudioCodec mi) "" then fs_CodecName s else mi_AudioCodec mi;
       mi_Width := mi_Width mi; mi_Height := mi_Height mi;
       mi_ChromaSubsampling := mi_ChromaSubsampling mi;
       mi_SourceBitrateBps := mi_SourceBitrateBps mi; mi_VideoStreams := mi_VideoStreams mi;
       mi_AudioStreams := mi_AudioStreams mi + 1; mi_SubtitleStreams := mi_SubtitleStreams mi |}
  else if String.eqb (fs_CodecType s) "subtitle" then
    {| mi_Container := mi_Container mi; mi_DurationSeconds := mi_DurationSeconds mi;
       mi_VideoCodec := mi_VideoCodec mi; mi_AudioCodec := mi_AudioCodec mi;
       mi_Width := mi_Width mi; mi_Height := mi_Height mi;
       mi_ChromaSubsampling := mi_ChromaSubsampling mi;
       mi_SourceBitrateBps := mi_SourceBitrateBps mi; mi_VideoStreams := mi_VideoStreams mi;
       mi_AudioStreams := mi_AudioStreams mi; mi_SubtitleStreams := mi_SubtitleStreams mi + 1 |}
  else mi.

Definition probe_info (out : ffprobeOut) : MediaInfo :=
  foldl add_stream
    {| mi_Container := ff_FormatName out;
       mi_DurationSeconds := if String.eqb (ff_Duration out) "" then f0
                             else default f0 (ParseFloat (ff_Duration out));
       mi_VideoCodec := ""; mi_AudioCodec := ""; mi_Width := 0; mi_Height := 0;
       mi_ChromaSubsampling := "";
       mi_SourceBitrateBps := if String.eqb (ff_BitRate out) "" then 0
                              else default 0 (Atoi (ff_BitRate out));
       mi_VideoStreams := 0; mi_AudioStreams := 0; mi_SubtitleStreams := 0 |}
    (ff_Streams out).

Definition Probe (inputPath : string) : prog runnerE (engine_error + MediaInfo) :=
  out ← call (Output (FFprobePath cfg)
    ["-hide_banner"; "-v"; "error"; "-print_format"; "json"; "-show_format"; "-show_streams"; inputPath]);
  let '(stdout, stderr, err) := out in
  match err with
  | Some e => Ret (inl (EngineError StageDecode
                ("ffprobe failed: " +:+ error_text e +:+ ": " +:+ firstLine stderr)))
  | None =>
      match json_ffprobe stdout with
      | Err e => Ret (inl (EngineError StageDecode ("ffprobe output parse: " +:+ error_text e)))
      | Ok out =>
          let mi := probe_info out in
          if mi_VideoStreams mi =? 0
          then Ret (inl (EngineError StageAsset "source has no video stream"))
          else Ret (inr mi)
      end
  end.

Definition sample_progress (out : OutputSpec) (s : ProgressSample) : Progress :=
  let '(pct, eta) := DeriveProgress s (os_SourceDurationSeconds out) in
  {| pg_RungName := os_RungName out; pg_FPS := ps_FPS s; pg_SpeedX := ps_SpeedX s;
     pg_OutTimeSeconds := ps_OutTimeSeconds s; pg_ProgressPct := pct; pg_ETASeconds := eta |}.

(** The callbacks in the order of the stream. *)
Fixpoint report (out : OutputSpec) (samples : list ProgressSample) : prog runnerE () :=
  match samples with
  | [] => Ret ()
  | s :: ss => _ ← call (OnProgress (sample_progress out s)); report out ss
  end.

Definition Transcode (inputPath : string) (out : OutputSpec) (onProgress : bool)
    : prog runnerE (option engine_error) :=
  match buildTranscodeArgs inputPath out with
  | Err e => Ret (Some (EngineError StageEncode (error_text e)))
  | Ok (args, _) =>
      proc ← call (Start (FFmpegPath cfg) args);
      match proc with
      | Err e => Ret (Some (EngineError StageEncode ("start ffmpeg: " +:+ error_text e)))
      | Ok stdout =>
          let '(samples, scanErr) := ScanProgress ParseFloat stdout in
          _ ← (if onProgress then report out samples else Ret ());
          waited ← call Wait;
          let '(stderr, waitErr) := waited in
          ctxErr ← call CtxErr;
          match ctxErr with
          | Some e => Ret (Some (EngineCtx e))
          | None =>
              match waitErr with
              | Some e => Ret (Some (classifyFailure stderr (error_text e)))
              | None =>
                  match scanErr with
                  | Some e => Ret (Some (EngineError StageEncode ("progress stream: " +:+ error_text e)))
                  | None => Ret None
                  end
              end
          end
      end
  end.
End adapter.

(** ** Progress numbers *)

Lemma SFcompare_swap a b : SFcompare b a = CompOpp <$> SFcompare a b.
Proof.
  destruct a as [sa|sa| |sa ma ea], b as [sb|sb| |sb mb eb]; try destruct sa; try destruct sb;
    simpl; try done;
    rewrite (Z.compare_antisym ea eb); destruct (Z.compare ea eb); simpl; try done;
    replace (Pos.compare_cont Eq mb ma) with (CompOpp (Pos.compare_cont Eq ma mb))
      by apply (Pos.compare_cont_antisym ma mb Eq);
    by destruct (Pos.compare_cont Eq ma mb).
Qed.

Lemma SFcompare_total a b : is_nan a = false -> is_nan b = false -> is_Some (SFcompare a b).
Proof.
  destruct a as [[]|[]| |[] ma ea], b as [[]|[]| |[] mb eb]; simpl; intros; try done;
    destruct (Z.compare ea eb); eauto.
Qed.

Lemma not_flt_fle a b :
  is_nan a = false -> is_nan b = false -> flt a b = false -> fle b a = true.
Proof.
  intros Ha Hb. unfold flt, fle, SFltb, SFleb. rewrite (SFcompare_swap a b).
  destruct (SFcompare_total a b Ha Hb) as [c ->]. by destruct c.
Qed.

(** live progress is a percentage: for a positive duration and any sample whose
    raw ratio is a number, [DeriveProgress] gives a value between 0 and 100; it is
    100 at the end of the stream even when the ratio is not a number, and 0 when
    the duration is unknown. *)
Theorem DeriveProgress_bounds s d :
  let ratio := fmul (fdiv (ps_OutTimeSeconds s) d) f100 in
  (fle d f0 = true -> DeriveProgress s d = (f0, f0)) /\
  (is_nan ratio = false ->
     fle f0 (DeriveProgress s d).1 = true /\ fle (DeriveProgress s d).1 f100 = true) /\
  (fle d f0 = false -> ps_End s = true -> (DeriveProgress s d).1 = f100).
Proof.
  intros ratio. unfold DeriveProgress. fold ratio. split; [by intros ->|]. split.
  - intros Hn. destruct (fle d f0); [done|]. simpl. destruct (ps_End s); [done|].
    destruct (flt f100 ratio) eqn:H1; [done|].
    destruct (flt ratio f0) eqn:H2; [done|]. split; by apply not_flt_fle.
  - by intros -> ->.
Qed.

Lemma DeriveProgress_bounds_witness :
  let s := {| ps_Frame := 0; ps_FPS := f0; ps_OutTimeSeconds := f64_of_Z 30;
              ps_SpeedX := f64_of_Z 2; ps_End := false |} in
  DeriveProgress s (f64_of_Z 60) = (f64_of_Z 50, f64_of_Z 15) /\
  fle (DeriveProgress s (f64_of_Z 60)).1 f100 = true.
Proof.
  intros s. split; [vm_compute; reflexivity|].
  apply (proj1 (proj2 (DeriveProgress_bounds s (f64_of_Z 60)))). vm_compute. reflexivity.
Defined.

(** ** The parser *)

Section parser_props.
Context (ParseFloat : string -> option spec_float).

Fixpoint feed_all (lines : list string) (p : ProgressParser)
    : ProgressParser * list ProgressSample :=
  match lines with
  | [] => (p, [])
  | l :: ls =>
      let '(p', o) := Feed ParseFloat l p in
      let '(p'', ss) := feed_all ls p' in
      (p'', match o with Some s => s :: ss | None => ss end)
  end.

Definition key_of (line : string) : option string := fst <$> Cut (TrimSpace line) "=".

(** The line is an [out_time_us] with a valid microsecond count. *)
Definition us_value (line : string) : option Z :=
  match Cut (TrimSpace line) "=" with
  | Some (key, val) => if String.eqb key "out_time_us" then nonneg_int (TrimSpace val) else None
  | None => None
  end.

Definition last_us (block : list string) : option Z := last (omap us_value block).

Lemma Feed_no_progress l p :
  key_of l <> Some "progress" ->
  (Feed ParseFloat l p).2 = None /\
  match us_value l with
  | Some n => ps_OutTimeSeconds (cur (Feed ParseFloat l p).1) = micros n /\
              haveUS (Feed ParseFloat l p).1 = true
  | None => haveUS (Feed ParseFloat l p).1 = haveUS p /\
      (haveUS p = true ->
       ps_OutTimeSeconds (cur (Feed ParseFloat l p).1) = ps_OutTimeSeconds (cur p))
  end.
Proof.
  unfold Feed, key_of, us_value. destruct (Cut (TrimSpace l) "=") as [[key val]|]; [|done].
  simpl. intros Hk. unfold feed_kv.
  destruct (String.eqb_spec key "frame") as [->|]; [simpl; destruct (Atoi _); done|].
  destruct (String.eqb_spec key "fps") as [->|]; [simpl; destruct (ParseFloat _); done|].
  destruct (String.eqb_spec key "out_time_us") as [->|]; [destruct (nonneg_int _); done|].
  destruct (String.eqb_spec key "out_time_ms") as [->|].
  { destruct (haveUS p) eqn:Hus; [done|]. destruct (nonneg_int _); simpl; by rewrite ?Hus. }
  destruct (String.eqb_spec key "speed") as [->|]; [destruct (ParseFloat _); done|].
  destruct (String.eqb_spec key "progress") as [->|]; [by destruct Hk|done].
Qed.

Lemma block_no_progress block p :
  Forall (fun l => key_of l <> Some "progress") block ->
  (feed_all block p).2 = [] /\
  match last_us block with
  | Some n => ps_OutTimeSeconds (cur (feed_all block p).1) = micros n
  | None => haveUS p = true ->
      ps_OutTimeSeconds (cur (feed_all block p).1) = ps_OutTimeSeconds (cur p)
  end /\
  haveUS (feed_all block p).1 = bool_decide (is_Some (last_us block)) || haveUS p.
Proof.
  intros H. revert p. induction H as [|l block Hl Hb IH]; intros p; [by simpl; split_and!|].
  simpl. destruct (Feed_no_progress l p Hl) as [Ho Hs].
  destruct (Feed ParseFloat l p) as [p' o]. simpl in Ho, Hs. subst o.
  destruct (IH p') as (IH1 & IH2 & IH3). destruct (feed_all block p') as [p'' ss].
  simpl in *. subst ss. split; [done|].
  unfold last_us in *.
  change (omap us_value (l :: block)) with
    (match us_value l with Some n => n :: omap us_value block | None => omap us_value block end).
  destruct (us_value l) as [n|].
  - destruct Hs as [Ht Hus]. destruct (omap us_value block) as [|m ms].
    + cbn [last] in *. split; [rewrite IH2 by done; done|]. by rewrite IH3, Hus.
    + rewrite last_cons_cons. destruct (last (m :: ms)) as [k|] eqn:Hlast;
        [|by apply last_None in Hlast].
      split; [done|]. by rewrite IH3, Hus.
  - destruct Hs as [Hus Ht]. rewrite Hus in *. split; [|done].
    destruct (last (omap us_value block)); [done|]. intros Hp. by rewrite IH2, Ht.
Qed.

Lemma feed_all_app b1 b2 p :
  feed_all (b1 ++ b2) p =
    let '(p1, s1) := feed_all b1 p in let '(p2, s2) := feed_all b2 p1 in (p2, s1 ++ s2).
Proof.
  revert p. induction b1 as [|l b1 IH]; intros p; cbn [feed_all app].
  - by destruct (feed_all b2 p).
  - destruct (Feed ParseFloat l p) as [p' o]. rewrite IH.
    destruct (feed_all b1 p') as [p1 s1]. destruct (feed_all b2 p1). by destruct o.
Qed.

Lemma Feed_progress line p :
  key_of line = Some "progress" ->
  exists e, Feed ParseFloat line p =
    (new_parser, if haveData p || e then Some (set_end (cur p) e) else None).
Proof.
  unfold key_of, Feed. destruct (Cut (TrimSpace line) "=") as [[key val]|]; [|done].
  intros [= ->]. exists (String.eqb (TrimSpace val) "end"). done.
Qed.

(** the progress stream is cut into independent blocks, and within a block
    [out_time_us] is authoritative.  After a block of ordinary lines closed by a
    [progress=] line the parser is back in its initial state, whatever it was
    before, so no value leaks into the next block; at most one sample is emitted,
    at the closing line; and if the block holds a valid [out_time_us], the
    sample's time is the last such value in seconds, wherever [out_time_ms] lines
    stand in the block. *)
Theorem progress_blocks block closing p :
  Forall (fun l => key_of l <> Some "progress") block -> key_of closing = Some "progress" ->
  (feed_all (block ++ [closing]) p).1 = new_parser /\
  match (feed_all (block ++ [closing]) p).2 with
  | [] => True
  | [s] => forall n, last_us block = Some n -> ps_OutTimeSeconds s = micros n
  | _ => False
  end.
Proof.
  intros Hb Hc. destruct (block_no_progress block p Hb) as (Hs & Ht & _).
  rewrite feed_all_app. destruct (feed_all block p) as [p1 s1]. simpl in Hs, Ht. subst s1.
  cbn [feed_all]. destruct (Feed_progress closing p1 Hc) as [e ->].
  destruct (haveData p1 || e); [|done]. cbn. split; [done|].
  intros n Hn. by rewrite Hn in Ht.
Qed.
End parser_props.

Lemma progress_blocks_witness :
  let block := ["out_time_us=1500000"; "out_time_ms=9"; "speed=2.0x"] in
  (feed_all (fun _ => Some f0) (block ++ ["progress=continue"]) new_parser).1 = new_parser /\
  last_us block = Some 1500000.
Proof.
  intros block. split; [|vm_compute; reflexivity].
  assert (Hb : Forall (fun l => key_of l <> Some "progress") block)
    by (repeat constructor; vm_compute; discriminate).
  assert (Hc : key_of "progress=continue" = Some "progress") by (vm_compute; reflexivity).
  exact (proj1 (progress_blocks (fun _ => Some f0) block "progress=continue" new_parser Hb Hc)).
Defined.

(** ** The license gate *)

Lemma find_forbidden_None toks :
  find_forbidden toks = None <-> Forall (fun t => TrimSpace t ∉ forbiddenFlags) toks.
Proof.
  induction toks as [|t toks IH]; [by split|]. cbn [find_forbidden]. rewrite Forall_cons, <-IH.
  destruct (list_find (eq (TrimSpace t)) forbiddenFlags) as [[k bad]|] eqn:Hf.
  - apply list_find_Some in Hf as (Hl & -> & _). split; [done|]. intros [Hn _].
    destruct Hn. by eapply list_elem_of_lookup_2.
  - apply list_find_None in Hf. split; [intros H; split; [|done]|by intros [_ H]].
    intros Hin. by apply (proj1 (Forall_forall _ _) Hf _ Hin).
Qed.

(** the startup gate lets a build through exactly when no white-space separated
    token of any line of [ffmpeg -buildconf] (stdout then stderr) is
    [--enable-gpl] or [--enable-nonfree], and the adapter is only constructed
    after it passed. *)
Theorem license_gate cfg env_out w :
  (forall output, CheckBuildconf output = Ok () <->
     Forall (fun line => Forall (fun tok => TrimSpace tok ∉ forbiddenFlags) (Fields line))
       (Split "010" output)) /\
  (forall h : sem runnerE (), h _ (Output (FFmpegPath cfg) ["-hide_banner"; "-buildconf"]) w = (env_out, w) ->
     (run h (New cfg) w).1 = Ok () ->
     env_out.2 = None /\
     forall line tok, line ∈ Split "010" (env_out.1.1 +:+ String "010" env_out.1.2) ->
       tok ∈ Fields line -> TrimSpace tok <> "--enable-gpl" /\ TrimSpace tok <> "--enable-nonfree").
Proof.
  assert (Hcheck : forall output, CheckBuildconf output = Ok () <->
     Forall (fun line => Forall (fun tok => TrimSpace tok ∉ forbiddenFlags) (Fields line))
       (Split "010" output)).
  { intros output. unfold CheckBuildconf. generalize (Split "010" output). intros ls.
    induction ls as [|l ls IH]; [by split|]. cbn [check_lines]. rewrite Forall_cons, <-IH, <-find_forbidden_None.
    destruct (find_forbidden (Fields l)); [|tauto]. split; [done|]. by intros [? _]. }
  split; [done|]. intros h Hout Hnew. unfold New in Hnew.
  destruct (String.eqb (FFmpegPath cfg) "" || String.eqb (FFprobePath cfg) ""); [done|].
  unfold verifyBuild in Hnew. rewrite run_bind, run_call, Hout in Hnew.
  destruct env_out as [[stdout stderr] err]. simpl in *. destruct err; [done|]. split; [done|].
  simpl in Hnew. apply Hcheck in Hnew. intros line tok Hl Ht.
  apply (proj1 (Forall_forall _ _) Hnew) in Hl. apply (proj1 (Forall_forall _ _) Hl) in Ht.
  unfold forbiddenFlags in Ht. set_solver.
Qed.

Lemma license_gate_witness :
  let cfg := {| FFmpegPath := "/bin/ffmpeg"; FFprobePath := "/bin/ffprobe" |} in
  let out := ("configuration: --enable-nvenc", "", None) in
  let h : sem runnerE () := fun X e w =>
    match e in runnerE X return X * () with
    | Output _ _ => (out, w) | Start _ _ => (Err ENotFound, w) | Wait => ((""%string, None), w)
    | CtxErr => (None, w) | OnProgress _ => ((), w)
    end in
  (run h (New cfg) ()).1 = Ok () /\
  (forall tok, tok ∈ Fields "configuration: --enable-nvenc" -> TrimSpace tok <> "--enable-gpl").
Proof.
  intros cfg out h. split; [vm_compute; reflexivity|]. intros tok Htok.
  eapply (proj2 (license_gate cfg out ()) h eq_refl).
  - vm_compute. reflexivity.
  - vm_compute. left.
  - exact Htok.
Defined.

(** ** Truncation and classification *)

Lemma stake_app n s : exists t, s = stake n s +:+ t /\ slen (stake n s) = Z.min (Z.of_nat n) (slen s).
Proof.
  revert s. induction n as [|n IH]; intros s.
  - exists s. split; [by destruct s|]. destruct s; unfold slen; simpl; lia.
  - destruct s as [|c s]; [exists ""; split; [done|unfold slen; simpl; lia]|].
    destruct (IH s) as (t & Ht & Hl). exists t. simpl. split; [congruence|].
    unfold slen in *. simpl. lia.
Qed.

Lemma rune_cut_le cut s : (rune_cut cut s <= cut)%nat.
Proof.
  induction cut as [|c IH]; [done|]. cbn [rune_cut]. destruct (String.get (S c) s); [|done].
  destruct (RuneStart a); lia.
Qed.

Lemma rune_cut_start cut s :
  rune_cut cut s = O \/ match String.get (rune_cut cut s) s with
                        | Some c => RuneStart c = true | None => True end.
Proof.
  induction cut as [|c IH]; [by left|]. cbn [rune_cut].
  destruct (String.get (S c) s) as [ch|] eqn:Hg; [|by right; rewrite Hg].
  destruct (RuneStart ch) eqn:Hr; [right; by rewrite Hg|done].
Qed.

Lemma get_after_stake n s t :
  s = stake n s +:+ t -> (n <= String.length s)%nat ->
  match t with String c _ => String.get n s = Some c | EmptyString => True end.
Proof.
  revert s. induction n as [|n IH]; intros s Hs Hn.
  - destruct s as [|c s]; simpl in Hs; subst; [done|]. by simplify_eq.
  - destruct s as [|c s]; [simpl in *; lia|]. simpl in *. simplify_eq.
    apply IH; [congruence|lia].
Qed.

(** error text is cut without breaking a character: the result is a prefix of
    at most [max] bytes, the text itself when it fits, and otherwise what follows
    the cut begins a rune (or nothing of the text is kept). *)
Theorem truncateRuneSafe_prefix s mx :
  0 <= mx ->
  exists t, s = truncateRuneSafe s mx +:+ t /\ slen (truncateRuneSafe s mx) <= mx /\
    (slen s <= mx -> truncateRuneSafe s mx = s) /\
    (mx < slen s -> truncateRuneSafe s mx = "" \/ exists c t', t = String c t' /\ RuneStart c = true).
Proof.
  intros Hmx. unfold truncateRuneSafe. destruct (Z.leb_spec (slen s) mx) as [Hle|Hgt].
  - exists "". rewrite sapp_nil_r. split_and!; try done; lia.
  - set (k := rune_cut (Z.to_nat mx) s). destruct (stake_app k s) as (t & Ht & Hl).
    assert (Hk : (k <= Z.to_nat mx)%nat) by apply rune_cut_le.
    exists t. split; [done|]. split; [lia|]. split; [lia|]. intros _.
    assert (Hlen : (k < String.length s)%nat) by (unfold slen in *; lia).
    pose proof (rune_cut_start (Z.to_nat mx) s) as Hcut. fold k in Hcut.
    destruct Hcut as [H0|Hs]; [left; rewrite H0; by destruct s|].
    right. pose proof (get_after_stake k s t Ht ltac:(lia)) as Hg.
    destruct t as [|c t']; [|rewrite Hg in Hs; eauto].
    exfalso. rewrite sapp_nil_r in Ht. apply (f_equal slen) in Ht. unfold slen in *. lia.
Qed.

Lemma truncateRuneSafe_prefix_witness :
  let s := "ab" +:+ bytes [195; 169]%nat +:+ "c" in
  truncateRuneSafe s 3 = "ab" /\ slen (truncateRuneSafe s 3) <= 3.
Proof.
  intros s. split; [vm_compute; reflexivity|].
  destruct (truncateRuneSafe_prefix s 3 ltac:(lia)) as (t & _ & H & _). exact H.
Defined.

(** Every typed engine error carries a class of the job taxonomy. *)
Definition stage_ok (e : engine_error) : Prop :=
  match e with
  | EngineError st _ => ValidErrorClass st = true
  | EngineCtx _ => True
  end.

Lemma classifyFailure_ok stderr e : stage_ok (classifyFailure stderr e).
Proof. unfold classifyFailure. repeat case_match; vm_compute; reflexivity. Qed.

Lemma Transcode_stage_ok PF cfg input out b tr e :
  exec (Transcode PF cfg input out b) tr (Some e) -> stage_ok e.
Proof.
  unfold Transcode. destruct (buildTranscodeArgs input out) as [[args art]|].
  2:{ intros [_ [= ->]]. vm_compute. reflexivity. }
  intros (proc & t1 & -> & H). go_on H. destruct proc as [stdout|].
  2:{ destruct H as [_ [= ->]]. vm_compute. reflexivity. }
  destruct (ScanProgress PF stdout) as [samples scanErr].
  apply (exec_bind (A:=_)) in H as (t2 & t3 & [] & -> & _ & H). go_on H.
  destruct H as ([stderr waitErr] & t4 & -> & H). go_on H.
  destruct H as (ctx & t5 & -> & H). go_on H.
  destruct ctx; [by destruct H as [_ [= ->]]|].
  destruct waitErr; [destruct H as [_ [= ->]]; apply classifyFailure_ok|].
  destruct scanErr; destruct H as [_ [=]]. subst. vm_compute. reflexivity.
Qed.
