(* ===== verification/OrchStore.v ===== *)
(** * services/orchestrator/internal/store: jobs, presets and sources in Postgres

    The statements of [store.go] on three tables, with the constraints of the
    migration.  A statement sees [now()] and, for inserts, the generated id; both
    are arguments.  [ostoreE] collects the calls of the store interfaces the
    scheduler, the API and the landed consumer use, and [ostore_spec] is what
    each may do to the database, faults included. *)
From S2P Require Export FFmpeg.
From stdpp Require Export sorting.
#[local] Open Scope Z_scope.

Record Source := {
  src_ObjectKey : string;
  src_WorkspaceID : string;
  src_SHA256 : string;
  src_SizeBytes : Z;
  src_Mime : string;
  src_MediaInfo : MediaInfo;
  src_ProbedAt : time
}.

Record db := {
  sources : gmap string Source;
  presets : gmap string Preset;
  jobs : gmap string Job
}.

Definition set_sources (d : db) m := {| sources := m; presets := presets d; jobs := jobs d |}.
Definition set_presets (d : db) m := {| sources := sources d; presets := m; jobs := jobs d |}.
Definition set_jobs (d : db) m := {| sources := sources d; presets := presets d; jobs := m |}.

Inductive ostoreE : Type -> Type :=
| UpsertSource (s : Source) : ostoreE ()
| GetSource (workspaceID objectKey : string) : ostoreE Source
| CreatePreset (p : Preset) : ostoreE Preset
| GetPreset (workspaceID id : string) : ostoreE Preset
| DefaultPreset (workspaceID : string) : ostoreE Preset
| ListPresets (workspaceID : string) : ostoreE (list Preset)
| UpdatePreset (p : Preset) : ostoreE Preset
| CreateJob (j : Job) : ostoreE Job
| HasActiveJobForSource (workspaceID sourceObjectKey presetID : string) : ostoreE bool
| GetJob (workspaceID id : string) : ostoreE Job
| ListJobs (workspaceID : string) (state : option JobState) (limit : Z) : ostoreE (list Job)
| CountActiveJobs (workspaceID : string) : ostoreE Z
| ClaimNextQueued : ostoreE Job
| UpdateProgress (id : string) (pct fps speedX etaSeconds : spec_float)
    (outputs : list OutputProgress) : ostoreE ()
| MarkCompleted (id : string) (outputs : list OutputProgress) : ostoreE Job
| MarkFailed (id : string) (class : ErrorClass) (msg : string) : ostoreE Job
| RetryJob (workspaceID id : string) : ostoreE Job
| CancelQueued (workspaceID id : string) : ostoreE Job.

(** ** sources *)

Definition pg_UpsertSource (now : time) (s : Source) (d : db) : result () * db :=
  let row := {| src_ObjectKey := src_ObjectKey s;
                src_WorkspaceID := match sources d !! src_ObjectKey s with
                                   | Some old => src_WorkspaceID old
                                   | None => src_WorkspaceID s end;
                src_SHA256 := src_SHA256 s; src_SizeBytes := src_SizeBytes s;
                src_Mime := src_Mime s; src_MediaInfo := src_MediaInfo s; src_ProbedAt := now |} in
  (Ok (), set_sources d (<[src_ObjectKey s := row]> (sources d))).

Definition pg_GetSource (workspaceID objectKey : string) (d : db) : result Source :=
  match sources d !! objectKey with
  | Some s => if String.eqb (src_WorkspaceID s) workspaceID then Ok s else Err ENotFound
  | None => Err ENotFound
  end.

(** ** presets *)

Definition int4 (z : Z) : bool := (- 2 ^ 31 <=? z) && (z <? 2 ^ 31).

(** The column types and CHECKs of a preset row. *)
Definition preset_row_ok (p : Preset) : bool :=
  ValidContainer (p_Container p) && ValidVideoCodec (p_VideoCodec p)
  && ValidRateControlMode (p_RateControl p) && ValidSpeedPreset (p_SpeedPreset p)
  && int4 (p_CRF p) && int4 (p_BitrateKbps p) && int4 (p_MaxBitrateKbps p) && int4 (p_GOPLength p).

(** UNIQUE (workspace_id, name), the row [id] apart. *)
Definition name_free (id workspaceID name : string) (d : db) : bool :=
  forallb (fun q => String.eqb (p_ID q) id
                    || negb (String.eqb (p_WorkspaceID q) workspaceID && String.eqb (p_Name q) name))
    (map_to_list (presets d)).*2.

Definition preset_row (p : Preset) (id : string) (created updated : time) : Preset :=
  {| p_ID := id; p_WorkspaceID := p_WorkspaceID p; p_Name := p_Name p;
     p_Container := p_Container p; p_VideoCodec := p_VideoCodec p; p_RateControl := p_RateControl p;
     p_CRF := p_CRF p; p_BitrateKbps := p_BitrateKbps p; p_MaxBitrateKbps := p_MaxBitrateKbps p;
     p_GOPLength := p_GOPLength p; p_SpeedPreset := p_SpeedPreset p; p_Ladder := p_Ladder p;
     p_CreatedAt := created; p_UpdatedAt := updated |}.

Definition pg_CreatePreset (now : time) (uid : string) (p : Preset) (d : db) : result Preset * db :=
  let row := preset_row p uid now now in
  if preset_row_ok p && name_free uid (p_WorkspaceID p) (p_Name p) d
     && bool_decide (presets d !! uid = None)
  then (Ok row, set_presets d (<[uid := row]> (presets d)))
  else (Err (EMsg "insert preset"), d).

Definition pg_GetPreset (workspaceID id : string) (d : db) : result Preset :=
  match presets d !! id with
  | Some p => if String.eqb (p_WorkspaceID p) workspaceID then Ok p else Err ENotFound
  | None => Err ENotFound
  end.

Definition workspace_presets (workspaceID : string) (d : db) : list Preset :=
  filter (fun p => p_WorkspaceID p = workspaceID) (map_to_list (presets d)).*2.

(** ORDER BY created_at ASC, id ASC: uuids order as their text. *)
Definition preset_older (p q : Preset) : Prop :=
  p_CreatedAt p < p_CreatedAt q \/
  (p_CreatedAt p = p_CreatedAt q /\ String.leb (p_ID p) (p_ID q) = true).
#[export] Instance preset_older_dec : RelDecision preset_older.
Proof. intros p q. unfold preset_older. apply _. Defined.

Definition pg_DefaultPreset (workspaceID : string) (d : db) : result Preset :=
  match merge_sort preset_older (workspace_presets workspaceID d) with
  | p :: _ => Ok p
  | [] => Err ENotFound
  end.

Definition preset_newer (p q : Preset) : Prop := p_CreatedAt q <= p_CreatedAt p.
#[export] Instance preset_newer_dec : RelDecision preset_newer.
Proof. intros p q. unfold preset_newer. apply _. Defined.

Definition pg_ListPresets (workspaceID : string) (d : db) : list Preset :=
  merge_sort preset_newer (workspace_presets workspaceID d).

Definition pg_UpdatePreset (now : time) (p : Preset) (d : db) : result Preset * db :=
  match presets d !! p_ID p with
  | Some old =>
      if negb (String.eqb (p_WorkspaceID old) (p_WorkspaceID p)) then (Err ENotFound, d)
      else if preset_row_ok p && name_free (p_ID p) (p_WorkspaceID p) (p_Name p) d then
        let row := preset_row p (p_ID p) (p_CreatedAt old) now in
        (Ok row, set_presets d (<[p_ID p := row]> (presets d)))
      else (Err (EMsg "update preset"), d)
  | None => (Err ENotFound, d)
  end.

(** ** jobs *)

Definition fresh_job (j : Job) (uid : string) (now : time) : Job :=
  {| j_ID := uid; j_WorkspaceID := j_WorkspaceID j; j_UserID := j_UserID j;
     j_PresetID := j_PresetID j; j_SourceObjectKey := j_SourceObjectKey j;
     j_SourceSHA256 := j_SourceSHA256 j; j_State := StateQueued; j_ErrorClass := "";
     j_ErrorMessage := ""; j_Attempts := 0; j_ProgressPct := f0; j_FPS := f0; j_SpeedX := f0;
     j_ETASeconds := f0; j_Outputs := j_Outputs j; j_CreatedAt := now; j_QueuedAt := now;
     j_StartedAt := None; j_FinishedAt := None; j_UpdatedAt := now |}.

(** [preset_id REFERENCES presets (id)] *)
Definition pg_CreateJob (now : time) (uid : string) (j : Job) (d : db) : result Job * db :=
  if bool_decide (is_Some (presets d !! j_PresetID j)) && bool_decide (jobs d !! uid = None)
  then (Ok (fresh_job j uid now), set_jobs d (<[uid := fresh_job j uid now]> (jobs d)))
  else (Err (EMsg "insert job"), d).

Definition all_jobs (d : db) : list Job := (map_to_list (jobs d)).*2.

Definition pg_HasActiveJobForSource (workspaceID key presetID : string) (d : db) : bool :=
  existsb (fun j => String.eqb (j_WorkspaceID j) workspaceID && String.eqb (j_SourceObjectKey j) key
                    && String.eqb (j_PresetID j) presetID && negb (String.eqb (j_State j) StateFailed))
    (all_jobs d).

Definition pg_GetJob (workspaceID id : string) (d : db) : result Job :=
  match jobs d !! id with
  | Some j => if String.eqb (j_WorkspaceID j) workspaceID then Ok j else Err ENotFound
  | None => Err ENotFound
  end.

Definition job_newer (a b : Job) : Prop := j_CreatedAt b <= j_CreatedAt a.
#[export] Instance job_newer_dec : RelDecision job_newer.
Proof. intros p q. unfold job_newer. apply _. Defined.

Definition pg_ListJobs (workspaceID : string) (state : option JobState) (limit : Z) (d : db) : list Job :=
  take (Z.to_nat limit) (merge_sort job_newer
    (filter (fun j => j_WorkspaceID j = workspaceID /\
                      from_option (String.eqb (j_State j)) true state = true) (all_jobs d))).

Definition is_active (j : Job) : bool :=
  String.eqb (j_State j) StateQueued || String.eqb (j_State j) StateRunning.

Definition pg_CountActiveJobs (workspaceID : string) (d : db) : Z :=
  Z.of_nat (length (filter (fun j => j_WorkspaceID j = workspaceID /\ is_active j = true) (all_jobs d))).

(** The first of the queued jobs by [queued_at]. *)
Fixpoint oldest (l : list Job) : option Job :=
  match l with
  | [] => None
  | j :: l' => match oldest l' with
               | Some k => if j_QueuedAt j <=? j_QueuedAt k then Some j else Some k
               | None => Some j
               end
  end.

Definition with_state (j : Job) (st : JobState) (class : ErrorClass) (msg : string) (attempts : Z)
    (pct fps speed eta : spec_float) (outs : list OutputProgress)
    (queued : time) (started finished : option time) (now : time) : Job :=
  {| j_ID := j_ID j; j_WorkspaceID := j_WorkspaceID j; j_UserID := j_UserID j;
     j_PresetID := j_PresetID j; j_SourceObjectKey := j_SourceObjectKey j;
     j_SourceSHA256 := j_SourceSHA256 j; j_State := st; j_ErrorClass := class;
     j_ErrorMessage := msg; j_Attempts := attempts; j_ProgressPct := pct; j_FPS := fps;
     j_SpeedX := speed; j_ETASeconds := eta; j_Outputs := outs; j_CreatedAt := j_CreatedAt j;
     j_QueuedAt := queued; j_StartedAt := started; j_FinishedAt := finished; j_UpdatedAt := now |}.

Definition claimed (now : time) (j : Job) : Job :=
  with_state j StateRunning "" "" (j_Attempts j + 1) (j_ProgressPct j) (j_FPS j) (j_SpeedX j)
    (j_ETASeconds j) (j_Outputs j) (j_QueuedAt j) (Some now) (j_FinishedAt j) now.

Definition pg_ClaimNextQueued (now : time) (d : db) : result Job * db :=
  match oldest (filter (fun j => j_State j = StateQueued) (all_jobs d)) with
  | Some j => (Ok (claimed now j), set_jobs d (<[j_ID j := claimed now j]> (jobs d)))
  | None => (Err ENotFound, d)
  end.

(** [UPDATE jobs SET .. WHERE id = .. AND p RETURNING ..] *)
Definition update_job (id : string) (p : Job -> bool) (f : Job -> Job) (d : db) : result Job * db :=
  match jobs d !! id with
  | Some j => if p j then (Ok (f j), set_jobs d (<[id := f j]> (jobs d))) else (Err ENotFound, d)
  | None => (Err ENotFound, d)
  end.

(** A guarded transition that matched no row is a conflict. *)
Definition or_conflict (r : result Job * db) : result Job * db :=
  match r with (Err ENotFound, d) => (Err EConflict, d) | _ => r end.

Definition in_state (st : JobState) (j : Job) : bool := String.eqb (j_State j) st.
Definition in_workspace (ws : string) (j : Job) : bool := String.eqb (j_WorkspaceID j) ws.

Definition progressed (now : time) (pct fps speedX eta : spec_float) outs (j : Job) : Job :=
  with_state j (j_State j) (j_ErrorClass j) (j_ErrorMessage j) (j_Attempts j) pct fps speedX eta outs
    (j_QueuedAt j) (j_StartedAt j) (j_FinishedAt j) now.

Definition pg_UpdateProgress (now : time) (id : string) (pct fps speedX eta : spec_float) outs (d : db)
    : result () * db :=
  (Ok (), (update_job id (in_state StateRunning) (progressed now pct fps speedX eta outs) d).2).

Definition completed_job (now : time) outs (j : Job) : Job :=
  with_state j StateCompleted (j_ErrorClass j) (j_ErrorMessage j) (j_Attempts j) f100 (j_FPS j)
    (j_SpeedX j) f0 outs (j_QueuedAt j) (j_StartedAt j) (Some now) now.

Definition pg_MarkCompleted (now : time) (id : string) outs (d : db) : result Job * db :=
  or_conflict (update_job id (in_state StateRunning) (completed_job now outs) d).

Definition failed_job (now : time) (class : ErrorClass) (msg : string) (j : Job) : Job :=
  with_state j StateFailed class msg (j_Attempts j) (j_ProgressPct j) (j_FPS j) (j_SpeedX j)
    (j_ETASeconds j) (j_Outputs j) (j_QueuedAt j) (j_StartedAt j) (Some now) now.

Definition pg_MarkFailed (now : time) (id : string) (class : ErrorClass) (msg : string) (d : db)
    : result Job * db :=
  if negb (ValidErrorClass class) then (Err (EMsg ("invalid error class " +:+ class)), d)
  else or_conflict (update_job id is_active (failed_job now class msg) d).

Definition requeued (now : time) (j : Job) : Job :=
  with_state j StateQueued "" "" (j_Attempts j) f0 f0 f0 f0 [] now None None now.

(** No row: tell a missing job from one in another state. *)
Definition or_missing (workspaceID id : string) (r : result Job * db) : result Job * db :=
  match r with
  | (Err ENotFound, d) =>
      match pg_GetJob workspaceID id d with
      | Err ENotFound => (Err ENotFound, d)
      | _ => (Err EConflict, d)
      end
  | _ => r
  end.

Definition pg_RetryJob (now : time) (workspaceID id : string) (d : db) : result Job * db :=
  or_missing workspaceID id
    (update_job id (fun j => in_workspace workspaceID j && in_state StateFailed j) (requeued now) d).

Definition pg_CancelQueued (now : time) (workspaceID id : string) (d : db) : result Job * db :=
  or_missing workspaceID id
    (update_job id (fun j => in_workspace workspaceID j && in_state StateQueued j)
       (failed_job now ErrorInternal "canceled by user") d).

Definition ostore_apply (now : time) (uid : string) {Y} (e : ostoreE Y) (d : db) : result Y * db :=
  match e in ostoreE Y return result Y * db with
  | UpsertSource s => pg_UpsertSource now s d
  | GetSource ws key => (pg_GetSource ws key d, d)
  | CreatePreset p => pg_CreatePreset now uid p d
  | GetPreset ws id => (pg_GetPreset ws id d, d)
  | DefaultPreset ws => (pg_DefaultPreset ws d, d)
  | ListPresets ws => (Ok (pg_ListPresets ws d), d)
  | UpdatePreset p => pg_UpdatePreset now p d
  | CreateJob j => pg_CreateJob now uid j d
  | HasActiveJobForSource ws key pid => (Ok (pg_HasActiveJobForSource ws key pid d), d)
  | GetJob ws id => (pg_GetJob ws id d, d)
  | ListJobs ws st limit => (Ok (pg_ListJobs ws st limit d), d)
  | CountActiveJobs ws => (Ok (pg_CountActiveJobs ws d), d)
  | ClaimNextQueued => pg_ClaimNextQueued now d
  | UpdateProgress id pct fps sp eta outs => pg_UpdateProgress now id pct fps sp eta outs d
  | MarkCompleted id outs => pg_MarkCompleted now id outs d
  | MarkFailed id class msg => pg_MarkFailed now id class msg d
  | RetryJob ws id => pg_RetryJob now ws id d
  | CancelQueued ws id => pg_CancelQueued now ws id d
  end.

(** One call: some [now()] and id, and possibly a fault. *)
Definition ostore_spec {Y} (e : ostoreE Y) (d : db) (r : result Y) (d' : db) : Prop :=
  exists now uid, up_to_fault (ostore_apply now uid e d) d r d'.

(** ** The transition guards *)

(** What never changes of a job row. *)
Definition job_key (j : Job) : string * string * string * string * string * string * time :=
  (j_ID j, j_WorkspaceID j, j_UserID j, j_PresetID j, j_SourceObjectKey j, j_SourceSHA256 j, j_CreatedAt j).

(** A legal history of one job: legal transitions only, and attempts never lost. *)
Definition job_evolves (j j' : Job) : Prop :=
  job_key j' = job_key j /\ j_Attempts j <= j_Attempts j' /\
  rtc (fun s s' => Transition s s' = Ok ()) (j_State j) (j_State j').

#[export] Instance job_evolves_preorder : PreOrder job_evolves.
Proof.
  split; [by intros j; split_and!|]. intros a b c (K1 & A1 & T1) (K2 & A2 & T2).
  split_and!; [congruence|lia|by etrans].
Qed.

Definition jobs_evolve (d d' : db) : Prop :=
  forall id j, jobs d !! id = Some j -> exists j', jobs d' !! id = Some j' /\ job_evolves j j'.

#[export] Instance jobs_evolve_preorder : PreOrder jobs_evolve.
Proof.
  split; [by intros d id j Hj; exists j|]. intros a b c H1 H2 id j Hj.
  destruct (H1 _ _ Hj) as (j2 & Hj2 & E1). destruct (H2 _ _ Hj2) as (j3 & Hj3 & E2).
  exists j3. split; [done|]. by etrans.
Qed.

Definition stepped (st st' : JobState) : Prop := st = st' \/ Transition st st' = Ok ().

Lemma evolve_insert d id j j' :
  jobs d !! id = Some j -> job_key j' = job_key j -> j_Attempts j <= j_Attempts j' ->
  stepped (j_State j) (j_State j') ->
  jobs_evolve d (set_jobs d (<[id := j']> (jobs d))).
Proof.
  intros Hj Hk Ha Hs id2 k Hk2. simpl. destruct (decide (id = id2)) as [<-|Hne].
  - rewrite lookup_insert_eq. assert (k = j) as -> by congruence. exists j'. split; [done|]. split; [congruence|]. split; [lia|].
    destruct Hs as [->|Hs]; [done|by apply rtc_once].
  - rewrite lookup_insert_ne by done. by exists k.
Qed.

Lemma evolve_update d id p f :
  (forall j, p j = true -> job_key (f j) = job_key j /\ j_Attempts j <= j_Attempts (f j) /\
                           stepped (j_State j) (j_State (f j))) ->
  jobs_evolve d (update_job id p f d).2.
Proof.
  intros Hf. unfold update_job. destruct (jobs d !! id) as [j|] eqn:Hj; [|done].
  destruct (p j) eqn:Hp; [|done]. destruct (Hf j Hp) as (? & ? & ?). by eapply evolve_insert.
Qed.

Lemma or_conflict_db r : (or_conflict r).2 = r.2.
Proof. by destruct r as [[|[]] d]. Qed.
Lemma or_missing_db ws id r : (or_missing ws id r).2 = r.2.
Proof. unfold or_missing. by destruct r as [[|[]] d]; simpl; try case_match; try case_match. Qed.

(** The rows are stored under their id. *)
Definition ids_match (d : db) : Prop :=
  forall id j, jobs d !! id = Some j -> j_ID j = id.

Lemma oldest_None l : oldest l = None -> l = [].
Proof. destruct l as [|x l]; [done|]. simpl. repeat case_match; done. Qed.

Lemma oldest_Some l j :
  oldest l = Some j -> j ∈ l /\ forall k, k ∈ l -> j_QueuedAt j <= j_QueuedAt k.
Proof.
  revert j. induction l as [|x l IH]; intros j; [done|]. cbn [oldest].
  destruct (oldest l) as [k|] eqn:Ho.
  - destruct (IH k eq_refl) as [Hin Hle]. destruct (Z.leb_spec (j_QueuedAt x) (j_QueuedAt k)); intros [= <-].
    + split; [set_solver|]. intros y [->|Hy]%elem_of_cons; [lia|]. specialize (Hle y Hy). lia.
    + split; [set_solver|]. intros y [->|Hy]%elem_of_cons; [lia|]. by apply Hle.
  - apply oldest_None in Ho as ->. intros [= <-].
    split; [set_solver|]. intros y [->|Hy]%elem_of_cons; [lia|]. set_solver.
Qed.

Lemma elem_of_all_jobs d j : ids_match d -> j ∈ all_jobs d <-> jobs d !! j_ID j = Some j.
Proof.
  intros Hid. unfold all_jobs. rewrite list_elem_of_fmap. split.
  - intros [[id k] [-> Hin]]. apply elem_of_map_to_list in Hin. simpl.
    by rewrite (Hid _ _ Hin).
  - intros Hj. exists (j_ID j, j). split; [done|]. by apply elem_of_map_to_list.
Qed.

(** claiming takes a queued job that waited longest: the returned job was
    queued, no queued job has an earlier [queued_at], it is now running with one
    more attempt and a clean error, and every other row is untouched.  The queue
    is reported empty exactly when no job is queued, and then nothing changes. *)
Theorem claim_takes_oldest now d :
  ids_match d ->
  match pg_ClaimNextQueued now d with
  | (Ok j', d') => exists j, jobs d !! j_ID j = Some j /\ j_State j = StateQueued /\
      (forall id k, jobs d !! id = Some k -> j_State k = StateQueued -> j_QueuedAt j <= j_QueuedAt k) /\
      j' = claimed now j /\ j_State j' = StateRunning /\ j_Attempts j' = j_Attempts j + 1 /\
      jobs d' = <[j_ID j := j']> (jobs d) /\ presets d' = presets d /\ sources d' = sources d
  | (Err e, d') => e = ENotFound /\ d' = d /\
      forall id k, jobs d !! id = Some k -> j_State k <> StateQueued
  end.
Proof.
  intros Hid. unfold pg_ClaimNextQueued.
  destruct (oldest _) as [j|] eqn:Ho.
  - apply oldest_Some in Ho as [Hin Hle]. apply list_elem_of_filter in Hin as [Hq Hin].
    apply (elem_of_all_jobs _ _ Hid) in Hin. exists j. split_and!; try done.
    intros id k Hk Hkq. apply Hle. apply list_elem_of_filter. split; [done|].
    apply (elem_of_all_jobs _ _ Hid). by rewrite (Hid _ _ Hk).
  - apply oldest_None in Ho. split_and!; [done|done|]. intros id k Hk Hkq.
    assert (Hin : k ∈ filter (fun j => j_State j = StateQueued) (all_jobs d)).
    { apply list_elem_of_filter. split; [done|]. apply (elem_of_all_jobs _ _ Hid).
      by rewrite (Hid _ _ Hk). }
    rewrite Ho in Hin. set_solver.
Qed.

Lemma guard_transition st st' : Transition st st' = Ok () -> stepped st st'.
Proof. by right. Qed.

Lemma is_active_states j : is_active j = true -> j_State j = StateQueued \/ j_State j = StateRunning.
Proof. unfold is_active. rewrite orb_true_iff, !String.eqb_eq. done. Qed.

Lemma evolve_same d d' : jobs d' = jobs d -> jobs_evolve d d'.
Proof. intros Hd id j Hj. exists j. by rewrite Hd. Qed.

Lemma apply_evolves now uid {Y} (e : ostoreE Y) d :
  ids_match d -> jobs_evolve d (ostore_apply now uid e d).2.
Proof.
  intros Hid. destruct e; simpl; try done.
  - by apply evolve_same.
  - unfold pg_CreatePreset. case_match; by apply evolve_same.
  - unfold pg_UpdatePreset. repeat case_match; by apply evolve_same.
  - unfold pg_CreateJob. case_match eqn:Hc; [|done]. apply andb_true_iff in Hc as [_ Hn].
    apply bool_decide_eq_true in Hn. intros id k Hk. simpl.
    rewrite lookup_insert_ne by congruence. by exists k.
  - unfold pg_ClaimNextQueued. destruct (oldest _) as [j|] eqn:Ho; [|done].
    apply oldest_Some in Ho as [Hin _]. apply list_elem_of_filter in Hin as [Hq Hin].
    apply (elem_of_all_jobs _ _ Hid) in Hin. eapply evolve_insert; [exact Hin|done|simpl; lia|].
    right. rewrite Hq. vm_compute. reflexivity.
  - apply evolve_update. intros j Hj. split_and!; [done|simpl; lia|by left].
  - unfold pg_MarkCompleted. rewrite or_conflict_db. apply evolve_update. intros j Hj.
    apply String.eqb_eq in Hj. split_and!; [done|simpl; lia|]. right. rewrite Hj. vm_compute. reflexivity.
  - unfold pg_MarkFailed. case_match; [done|]. rewrite or_conflict_db. apply evolve_update. intros j Hj.
    split_and!; [done|simpl; lia|]. right.
    apply is_active_states in Hj as [-> | ->]; vm_compute; reflexivity.
  - unfold pg_RetryJob. rewrite or_missing_db. apply evolve_update. intros j Hj.
    apply andb_true_iff in Hj as [_ Hj]. apply String.eqb_eq in Hj.
    split_and!; [done|simpl; lia|]. right. rewrite Hj. vm_compute. reflexivity.
  - unfold pg_CancelQueued. rewrite or_missing_db. apply evolve_update. intros j Hj.
    apply andb_true_iff in Hj as [_ Hj]. apply String.eqb_eq in Hj.
    split_and!; [done|simpl; lia|]. right. rewrite Hj. vm_compute. reflexivity.
Qed.

(** ** The row invariant *)

Record job_wf (id : string) (j : Job) : Prop := {
  jw_id : j_ID j = id;
  jw_state : ValidState (j_State j) = true;
  jw_class : if String.eqb (j_State j) StateFailed then ValidErrorClass (j_ErrorClass j) = true
             else j_ErrorClass j = "" /\ j_ErrorMessage j = "";
  jw_attempts : 0 <= j_Attempts j /\ (j_State j = StateRunning \/ j_State j = StateCompleted -> 1 <= j_Attempts j);
  jw_started : j_State j = StateRunning \/ j_State j = StateCompleted -> is_Some (j_StartedAt j);
  jw_finished : is_Some (j_FinishedAt j) <-> j_State j = StateCompleted \/ j_State j = StateFailed
}.

Definition db_wf (d : db) : Prop :=
  (forall id j, jobs d !! id = Some j -> job_wf id j /\ is_Some (presets d !! j_PresetID j)) /\
  (forall id p, presets d !! id = Some p -> p_ID p = id).

Lemma db_wf_ids d : db_wf d -> ids_match d.
Proof. intros [H _] id j Hj. by apply (H id j Hj). Qed.

Lemma wf_insert d id j :
  db_wf d -> job_wf id j -> is_Some (presets d !! j_PresetID j) ->
  db_wf (set_jobs d (<[id := j]> (jobs d))).
Proof.
  intros [Hj Hp] Hw Hpre. split; [|done]. intros id2 k. simpl.
  destruct (decide (id = id2)) as [<-|Hne].
  - rewrite lookup_insert_eq. by intros [= <-].
  - rewrite lookup_insert_ne by done. apply Hj.
Qed.

Lemma wf_update d id p f :
  db_wf d -> (forall j, job_wf id j -> p j = true -> job_wf id (f j) /\ j_PresetID (f j) = j_PresetID j) ->
  db_wf (update_job id p f d).2.
Proof.
  intros Hwf Hf. unfold update_job. destruct (jobs d !! id) as [j|] eqn:Hj; [|done].
  destruct (p j) eqn:Hp; [|done]. destruct (proj1 Hwf _ _ Hj) as [Hw Hpre].
  destruct (Hf j Hw Hp) as [Hw' Hk]. apply wf_insert; [done|done|]. by rewrite Hk.
Qed.

Lemma wf_presets d uid p :
  db_wf d -> p_ID p = uid -> db_wf (set_presets d (<[uid := p]> (presets d))).
Proof.
  intros [Hj Hp] Hid. split; simpl.
  - intros id j H. destruct (Hj _ _ H) as [Hw Hpre]. split; [done|].
    destruct (decide (uid = j_PresetID j)) as [->|]; [rewrite lookup_insert_eq; eauto|by rewrite lookup_insert_ne].
  - intros id q. destruct (decide (uid = id)) as [<-|]; [rewrite lookup_insert_eq; by intros [= <-]|].
    rewrite lookup_insert_ne by done. apply Hp.
Qed.

(** The targets of the transitions are well formed. *)
Lemma job_wf_claimed now id j : job_wf id j -> j_State j = StateQueued -> job_wf id (claimed now j).
Proof.
  intros [Hid _ _ [Ha _] _ Hf] Hq. split; simpl; try done.
  - lia.
  - split; [intros Hs; apply Hf in Hs as [H|H]; by rewrite Hq in H|by intros [|]].
Qed.

Lemma job_wf_failed now id j class msg :
  job_wf id j -> ValidErrorClass class = true -> job_wf id (failed_job now class msg j).
Proof.
  intros [Hid _ _ [Ha _] _ _] Hc. split; simpl; try done.
  - split; [done|]. by intros [|].
  - by intros [|].
  - split; [by right|eauto].
Qed.

Lemma job_wf_requeued now id j : job_wf id j -> job_wf id (requeued now j).
Proof.
  intros [Hid _ _ [Ha _] _ _]. split; simpl; try done.
  - split; [done|]. by intros [|].
  - by intros [|].
  - split; [by intros [? [=]]|by intros [|]].
Qed.

Lemma job_wf_completed now id outs j :
  job_wf id j -> j_State j = StateRunning -> job_wf id (completed_job now outs j).
Proof.
  intros [Hid _ Hc [Ha Har] Hs _] Hr. rewrite Hr in Hc. split; simpl; try done.
  - split; [done|]. intros _. apply Har. by left.
  - intros _. apply Hs. by left.
  - split; [by left|eauto].
Qed.

Lemma job_wf_progressed now id pct fps sp eta outs j :
  job_wf id j -> job_wf id (progressed now pct fps sp eta outs j).
Proof. by intros []. Qed.

Lemma apply_wf now uid {Y} (e : ostoreE Y) d : db_wf d -> db_wf (ostore_apply now uid e d).2.
Proof.
  intros Hwf. destruct e; simpl; try done.
  - unfold pg_CreatePreset. case_match; [|done]. by apply wf_presets.
  - unfold pg_UpdatePreset. repeat case_match; try done. by apply wf_presets.
  - unfold pg_CreateJob. case_match eqn:Hc; [|done]. apply andb_true_iff in Hc as [Hp _].
    apply bool_decide_eq_true in Hp. apply wf_insert; [done| |done].
    split; simpl; try done; [by split; [lia|intros [|]]|by intros [|]|split; [by intros [? [=]]|by intros [|]]].
  - unfold pg_ClaimNextQueued. destruct (oldest _) as [j|] eqn:Ho; [|done].
    apply oldest_Some in Ho as [Hin _]. apply list_elem_of_filter in Hin as [Hq Hin].
    apply (elem_of_all_jobs _ _ (db_wf_ids _ Hwf)) in Hin.
    destruct (proj1 Hwf _ _ Hin) as [Hw Hpre]. apply wf_insert; [done|by apply job_wf_claimed|done].
  - apply wf_update; [done|]. intros j Hj _. split; [by apply job_wf_progressed|done].
  - unfold pg_MarkCompleted. rewrite or_conflict_db. apply wf_update; [done|]. intros j Hj Hr%String.eqb_eq.
    split; [by apply job_wf_completed|done].
  - unfold pg_MarkFailed. destruct (ValidErrorClass class) eqn:Hc; [|done]. simpl.
    rewrite or_conflict_db. apply wf_update; [done|]. intros j Hj _.
    split; [by apply job_wf_failed|done].
  - unfold pg_RetryJob. rewrite or_missing_db. apply wf_update; [done|]. intros j Hj _.
    split; [by apply job_wf_requeued|done].
  - unfold pg_CancelQueued. rewrite or_missing_db. apply wf_update; [done|]. intros j Hj _.
    split; [by apply job_wf_failed|done].
Qed.

(** ** Concurrency *)

(** The database with what its environment decides for the coming statements: the
    clock, the generated id and the fault. *)
Record pgworld := { pw_db : db; pw_inputs : list (time * string * fault) }.

Definition orch_exec {Y} (e : ostoreE Y) (w : pgworld) : result Y * pgworld :=
  let '(now, uid, f) := default (0, "", FOk) (head (pw_inputs w)) in
  let '(r, d) := faulty f (EMsg "postgres") (pw_db w) (ostore_apply now uid e (pw_db w)) in
  (r, {| pw_db := d; pw_inputs := tail (pw_inputs w) |}).

Definition orch_sem : sem (res ostoreE) pgworld := fun X c w =>
  match c in res _ X return X * pgworld with R e => orch_exec e w end.

Lemma orch_exec_spec {Y} (e : ostoreE Y) w :
  ostore_spec e (pw_db w) (orch_exec e w).1 (pw_db (orch_exec e w).2).
Proof.
  unfold orch_exec, ostore_spec. destruct (default _ _) as [[now uid] f]. exists now, uid.
  destruct (faulty f _ _ _) as [r d] eqn:Hf. simpl.
  pose proof (faulty_up_to_fault f (EMsg "postgres") (pw_db w) (ostore_apply now uid e (pw_db w))) as H.
  by rewrite Hf in H.
Qed.

Definition legal_db (d d' : db) : Prop := db_wf d -> db_wf d' /\ jobs_evolve d d'.

#[export] Instance legal_db_preorder : PreOrder legal_db.
Proof.
  split; [by intros d Hd|]. intros a b c H1 H2 Ha. destruct (H1 Ha) as [Hb E1].
  destruct (H2 Hb) as [Hc E2]. split; [done|]. by etrans.
Qed.

Lemma ostore_spec_legal {Y} (e : ostoreE Y) d r d' : ostore_spec e d r d' -> legal_db d d'.
Proof.
  intros (now & uid & H) Hwf. revert Hwf. change (legal_db d d').
  eapply up_to_fault_rel; [apply _| |exact H]. intros Hwf. split; [by apply apply_wf|].
  by apply apply_evolves, db_wf_ids.
Qed.

(** C6: the job state machine holds under any concurrency.  Whatever programs the
    scheduler's slots, the API handlers and the landed consumer are (any number,
    interleaved at any statement, with faults and lost replies), every row the
    database reaches is well formed (known state, an error class of the taxonomy
    exactly when failed, an attempt counted and a start time when it has run, a
    finish time exactly when terminal, its preset present) and every job's history
    is a chain of legal transitions with its identity fixed and its attempts never
    decreasing. *)
Theorem job_state_machine {A} (ps ps' : list (prog (res ostoreE) A)) w w' :
  db_wf (pw_db w) -> rtc (pool_step orch_sem) (ps, w) (ps', w') ->
  db_wf (pw_db w') /\ jobs_evolve (pw_db w) (pw_db w').
Proof.
  intros Hwf Hr.
  assert (Hp : PreOrder (fun w w' : pgworld => legal_db (pw_db w) (pw_db w'))).
  { split; [by intros x|]. intros x y z H1 H2. by etrans. }
  apply (pool_preorder orch_sem (fun w w' => legal_db (pw_db w) (pw_db w'))) in Hr; [by apply Hr|].
  intros X [Y e] v. simpl. eapply ostore_spec_legal, orch_exec_spec.
Qed.

(** ** A concrete database *)

Definition ex_preset : Preset :=
  {| p_ID := "p1"; p_WorkspaceID := "ws"; p_Name := "web"; p_Container := "mp4"; p_VideoCodec := "h264";
     p_RateControl := "crf"; p_CRF := 23; p_BitrateKbps := 0; p_MaxBitrateKbps := 0; p_GOPLength := 60;
     p_SpeedPreset := "p4"; p_Ladder := [{| r_Name := "720p"; r_Width := 1280; r_Height := 720 |}];
     p_CreatedAt := 0; p_UpdatedAt := 0 |}.
Definition ex_job : Job :=
  fresh_job {| j_ID := ""; j_WorkspaceID := "ws"; j_UserID := "u"; j_PresetID := "p1";
     j_SourceObjectKey := "k"; j_SourceSHA256 := "s"; j_State := ""; j_ErrorClass := "";
     j_ErrorMessage := ""; j_Attempts := 0; j_ProgressPct := f0; j_FPS := f0; j_SpeedX := f0;
     j_ETASeconds := f0; j_Outputs := []; j_CreatedAt := 0; j_QueuedAt := 0; j_StartedAt := None;
     j_FinishedAt := None; j_UpdatedAt := 0 |} "j1" 5.
Definition ex_db : db :=
  {| sources := ∅; presets := {[ "p1" := ex_preset ]}; jobs := {[ "j1" := ex_job ]} |}.

Lemma ex_db_wf : db_wf ex_db.
Proof.
  split.
  - intros id j. simpl. rewrite lookup_singleton_Some. intros [<- <-]. split; [|by vm_compute; eexists].
    split; simpl; try done; [by split; [lia|intros [|]]|by intros [|]|split; [by intros [? [=]]|by intros [|]]].
  - intros id p. simpl. rewrite lookup_singleton_Some. by intros [<- <-].
Qed.

Lemma claim_takes_oldest_witness :
  exists j d, pg_ClaimNextQueued 9 ex_db = (Ok j, d) /\ j_State j = StateRunning /\ j_Attempts j = 1.
Proof.
  pose proof (claim_takes_oldest 9 ex_db (db_wf_ids _ ex_db_wf)) as H.
  assert (He : exists j d, pg_ClaimNextQueued 9 ex_db = (Ok j, d)) by (vm_compute; eauto).
  destruct He as (j & d & He). exists j, d. split; [exact He|]. rewrite He in H.
  destruct H as (j0 & Hj0 & _ & _ & _ & Hs & Ha & _). split; [exact Hs|]. rewrite Ha.
  simpl in Hj0. apply lookup_singleton_Some in Hj0 as [_ <-]. reflexivity.
Defined.

(** A claimer and a canceller race for one job, the claimer's reply lost. *)
Lemma job_state_machine_witness :
  let w := {| pw_db := ex_db; pw_inputs := [(9, "", FAfter)] |} in
  let s := run_sched orch_sem [0; 1]%nat
             ([call (R ClaimNextQueued); call (R (CancelQueued "ws" "j1"))], w) in
  (j_State <$> jobs (pw_db s.2) !! "j1") = Some StateRunning /\
  db_wf (pw_db s.2) /\ jobs_evolve ex_db (pw_db s.2).
Proof.
  intros w s. split; [vm_compute; reflexivity|].
  apply (job_state_machine [call (R ClaimNextQueued); call (R (CancelQueued "ws" "j1"))] s.1 w s.2 ex_db_wf).
  rewrite <-surjective_pairing. apply run_sched_reachable.
Defined.
