(* ===== verification/Events.v ===== *)
(** * services/orchestrator: events, quota and metering, and what its workers call

    [events.go]: strict validation of the landed event.  [quota.go]: the job
    admission check against a config file.  [metering.go]: emission.  [orchE] is
    the union of the interfaces the scheduler, the API and the landed consumer are
    given; [uuid.Parse] is a function of the sections that use it. *)
From S2P Require Export OrchStore.
#[local] Open Scope Z_scope.

(** ** events.go *)

Definition SubjectJobProgress : string := "aether.ft.jobs.progress.v1".

(** [^assets/([A-Za-z0-9_-]{1,64})/sha256/([0-9a-f]{64})$], with its groups.  The
    classes hold no [/], so the pieces between slashes are the groups. *)
Definition ws_char (c : ascii) : bool := is_alnum c || one_of "_-" c.
Definition ObjectKeyPattern (key : string) : option (string * string) :=
  match Split "/" key with
  | [a; ws; h; sha] =>
      if String.eqb a "assets" && match_class ws_char 1 64 ws && String.eqb h "sha256" && hex64 sha
      then Some (ws, sha) else None
  | _ => None
  end.

Record UploadLanded := {
  ul_UploadID : string;
  ul_WorkspaceID : string;
  ul_UserID : string;
  ul_ObjectKey : string;
  ul_SHA256 : string;
  ul_SizeBytes : Z;
  ul_Mime : string;
  ul_LandedAt : time
}.

Definition MeterJobQueued : string := "job_queued".
Definition MeterJobStarted : string := "job_started".
Definition MeterJobCompleted : string := "job_completed".
Definition MeterJobFailed : string := "job_failed".

Record JobProgress := {
  jp_JobID : string;
  jp_State : string;
  jp_FPS : spec_float;
  jp_SpeedX : spec_float;
  jp_ETASeconds : spec_float;
  jp_ProgressPct : spec_float
}.

Section parse_landed.
Context (uuid_Parse : string -> option string).
(** The payload after [Decode] with unknown fields refused, and [dec.More()]. *)
Definition strictUnmarshal {A} (decoded : result A) (more : bool) : result A :=
  match decoded with
  | Err e => Err e
  | Ok v => if more then Err (EMsg "trailing data after JSON value") else Ok v
  end.

Definition landed_err {A} (msg : string) : result A := Err (EMsg ("landed event: " +:+ msg)).

Definition ParseUploadLanded (data : result UploadLanded) (more : bool) : result UploadLanded :=
  match strictUnmarshal data more with
  | Err _ => Err (EMsg "landed event decode")
  | Ok e =>
      match uuid_Parse (ul_UploadID e) with
      | None => landed_err "uploadId is not a uuid"
      | Some _ =>
      if String.eqb (ul_WorkspaceID e) "" || (64 <? slen (ul_WorkspaceID e))
      then landed_err "workspaceId must be 1..64 characters"
      else if String.eqb (ul_UserID e) "" || (128 <? slen (ul_UserID e))
      then landed_err "userId must be 1..128 characters"
      else match ObjectKeyPattern (ul_ObjectKey e) with
      | None => landed_err "objectKey does not match assets/<workspaceId>/sha256/<hex64>"
      | Some (m1, m2) =>
      if negb (String.eqb m1 (ul_WorkspaceID e))
      then landed_err "objectKey workspace does not match workspaceId"
      else if negb (String.eqb m2 (ul_SHA256 e))
      then landed_err "objectKey sha256 does not match sha256 field"
      else if ul_SizeBytes e <=? 0 then landed_err "sizeBytes must be positive"
      else if String.eqb (ul_Mime e) "" || (255 <? slen (ul_Mime e))
      then landed_err "mime must be 1..255 characters"
      else if IsZero (ul_LandedAt e) then landed_err "landedAt is required"
      else Ok e
      end
      end
  end.

Lemma Split_4 c s a b d e :
  Split c s = [a; b; d; e] ->
  s = a +:+ String c (b +:+ String c (d +:+ String c e)).
Proof. intros H. pose proof (join_Split c s) as Hj. by rewrite H in Hj. Qed.

Lemma no_slash f s :
  (forall c, f c = true -> Ascii.eqb "/" c = false) -> all_chars f s = true -> no_char "/" s = true.
Proof. intros Hf. apply all_chars_impl. intros c Hc. by rewrite Hf. Qed.

Lemma class_no_slash f : f "/"%char = false -> forall c, f c = true -> Ascii.eqb "/" c = false.
Proof. intros Hf c Hc. destruct (Ascii.eqb_spec "/" c) as [<-|]; [congruence|done]. Qed.

Lemma ObjectKeyPattern_spec key ws sha :
  ObjectKeyPattern key = Some (ws, sha) <->
  key = "assets/" +:+ ws +:+ "/sha256/" +:+ sha /\
  match_class ws_char 1 64 ws = true /\ hex64 sha = true.
Proof.
  unfold ObjectKeyPattern. split.
  - destruct (Split "/" key) as [|a [|b [|d [|e [|]]]]] eqn:Hs; try done.
    destruct (String.eqb_spec a "assets") as [->|]; [|done]. cbn [andb].
    destruct (match_class ws_char 1 64 b) eqn:Hb; [|done].
    destruct (String.eqb_spec d "sha256") as [->|]; [|done].
    destruct (hex64 e) eqn:He; [|done]. intros [= <- <-].
    apply Split_4 in Hs. split; [|done]. rewrite Hs. done.
  - intros (-> & Hb & He).
    assert (Hnb : no_char "/" ws = true).
    { apply match_class_spec in Hb as [_ Hb]. eapply no_slash; [|exact Hb]. by apply class_no_slash. }
    assert (Hne : no_char "/" sha = true).
    { unfold hex64 in He. apply match_class_spec in He as [_ He'].
      eapply no_slash; [|exact He']. by apply class_no_slash. }
    change ("assets/" +:+ ws +:+ "/sha256/" +:+ sha) with
      ("assets" +:+ String "/" (ws +:+ String "/" ("sha256" +:+ String "/" sha))).
    rewrite (Split_app "/" "assets"), Split_app, (Split_app "/" "sha256"), Split_no_char by done.
    by rewrite Hb, He.
Qed.

(** What the service may rely on after parsing. *)
Record landed_wf (e : UploadLanded) : Prop := {
  lw_upload : is_Some (uuid_Parse (ul_UploadID e));
  lw_ws : match_class ws_char 1 64 (ul_WorkspaceID e) = true;
  lw_user : 1 <= slen (ul_UserID e) <= 128;
  lw_key : ul_ObjectKey e = "assets/" +:+ ul_WorkspaceID e +:+ "/sha256/" +:+ ul_SHA256 e;
  lw_sha : hex64 (ul_SHA256 e) = true;
  lw_size : 0 < ul_SizeBytes e;
  lw_mime : 1 <= slen (ul_Mime e) <= 255;
  lw_at : ul_LandedAt e <> zero_time
}.

Lemma length_tests s n :
  (String.eqb s "" || (n <? slen s)) = false <-> 1 <= slen s <= n.
Proof.
  rewrite orb_false_iff, String.eqb_neq, Z.ltb_ge, <-slen_zero.
  pose proof (slen_nonneg s). intuition lia.
Qed.

Lemma ParseUploadLanded_sound data more e :
  ParseUploadLanded data more = Ok e -> data = Ok e /\ more = false /\ landed_wf e.
Proof.
  unfold ParseUploadLanded, strictUnmarshal, landed_err.
  destruct data as [v|]; [|done]. destruct more; [done|].
    destruct (uuid_Parse (ul_UploadID v)) eqn:Hu; [|done].
    destruct (String.eqb (ul_WorkspaceID v) "" || _) eqn:H1; [done|].
    destruct (String.eqb (ul_UserID v) "" || _) eqn:H2; [done|].
    destruct (ObjectKeyPattern (ul_ObjectKey v)) as [[m1 m2]|] eqn:Hk; [|done].
    destruct (String.eqb_spec m1 (ul_WorkspaceID v)) as [->|]; [|done].
    destruct (String.eqb_spec m2 (ul_SHA256 v)) as [->|]; [|done]. cbn [negb].
    destruct (ul_SizeBytes v <=? 0) eqn:H3; [done|].
    destruct (String.eqb (ul_Mime v) "" || _) eqn:H4; [done|].
    destruct (IsZero (ul_LandedAt v)) eqn:H5; [done|]. intros [= <-].
    apply ObjectKeyPattern_spec in Hk as (Hk & Hw & Hsha).
    apply length_tests in H2, H4. unfold IsZero in H5. bool_prop.
    split; [done|]. split; [done|]. split; try done; lia || eauto.
Qed.

Lemma ParseUploadLanded_complete e : landed_wf e -> ParseUploadLanded (Ok e) false = Ok e.
Proof.
  unfold ParseUploadLanded, strictUnmarshal, landed_err.
  intros [[u Hu] Hw Hus Hk Hsha Hsz Hm Hat]. rewrite Hu.
    pose proof (proj1 (match_class_spec _ _ _ _) Hw) as [Hwl _].
    rewrite (proj2 (length_tests _ _)) by done. rewrite (proj2 (length_tests _ _)) by done.
    rewrite (proj2 (ObjectKeyPattern_spec _ _ _) (conj Hk (conj Hw Hsha))).
    rewrite !String.eqb_refl. cbn [negb].
    rewrite (proj2 (Z.leb_gt _ _)) by done. rewrite (proj2 (length_tests _ _)) by done.
    unfold IsZero. by rewrite (proj2 (Z.eqb_neq _ _)).
Qed.

(** the landed event is validated exactly: a payload is accepted precisely
    when it decodes strictly, without trailing data, to an event with a uuid, a
    bounded user and mime type, a positive size, a landing time, and an object
    key that is [assets/<workspaceId>/sha256/<sha256>] of the event's own
    workspace and digest; it is passed on unchanged. *)
Theorem ParseUploadLanded_exact data more e :
  ParseUploadLanded data more = Ok e <-> data = Ok e /\ more = false /\ landed_wf e.
Proof.
  split; [apply ParseUploadLanded_sound|].
  intros (-> & -> & H). by apply ParseUploadLanded_complete.
Qed.
End parse_landed.

(** ** quota.go *)

Record Limits := { MaxActiveJobs : Z; MaxUploadBytes : Z }.
Record fileConfig := { Defaults : Limits; Workspaces : gmap string Limits }.

(** [NewFromFile]: the file's bytes as read, the strict decoding, and whether the
    counter was given. *)
Definition NewFromFile (read : result ()) (decoded : result fileConfig) (has_counter : bool)
    : result fileConfig :=
  match read with
  | Err e => Err e
  | Ok _ =>
  match decoded with
  | Err e => Err e
  | Ok cfg =>
      if MaxActiveJobs (Defaults cfg) =? 0 then Err (EMsg "defaults.maxActiveJobs is required (use -1 for unlimited)")
      else if MaxUploadBytes (Defaults cfg) =? 0 then Err (EMsg "defaults.maxUploadBytes is required (use -1 for unlimited)")
      else if negb has_counter then Err (EMsg "quota: activeJobs counter is required")
      else Ok cfg
  end
  end.

Definition limitsFor (cfg : fileConfig) (ws : string) : Limits :=
  match Workspaces cfg !! ws with
  | Some l =>
      {| MaxActiveJobs := if negb (MaxActiveJobs l =? 0) then MaxActiveJobs l else MaxActiveJobs (Defaults cfg);
         MaxUploadBytes := if negb (MaxUploadBytes l =? 0) then MaxUploadBytes l else MaxUploadBytes (Defaults cfg) |}
  | None => Defaults cfg
  end.

(** The checker over the counter of the job store. *)
Definition file_CheckJobAdmission (cfg : fileConfig) (ws : string) (count : unit -> result Z)
    : result QuotaDecision :=
  let lim := limitsFor cfg ws in
  if MaxActiveJobs lim <? 0 then Ok allow
  else match count tt with
       | Err e => Err e
       | Ok n =>
           if MaxActiveJobs lim <=? n
           then Ok (deny ("quota_exceeded:max_active_jobs (" +:+ itoa n +:+ " of "
                          +:+ itoa (MaxActiveJobs lim) +:+ " active)"))
           else Ok allow
       end.

Definition file_CheckUploadSession (cfg : fileConfig) (ws : string) (size : Z) : result QuotaDecision :=
  let lim := limitsFor cfg ws in
  if MaxUploadBytes lim <? 0 then Ok allow
  else if MaxUploadBytes lim <? size
  then Ok (deny ("quota_exceeded:max_upload_bytes (" +:+ itoa size +:+ " over limit "
                 +:+ itoa (MaxUploadBytes lim) +:+ ")"))
  else Ok allow.

(** The checker with the database it counts in. *)
Record file_checker := { fc_cfg : fileConfig; fc_db : pgworld }.

Definition count_now (ws : string) (w : pgworld) : result Z * pgworld := orch_exec (CountActiveJobs ws) w.

#[export] Instance file_quota : QuotaChecker file_checker := {
  CheckUploadSession _ ws size q := (file_CheckUploadSession (fc_cfg q) ws size, q);
  CheckJobAdmission _ ws q :=
    if MaxActiveJobs (limitsFor (fc_cfg q) ws) <? 0 then (Ok allow, q)
    else let '(n, w) := count_now ws (fc_db q) in
         (file_CheckJobAdmission (fc_cfg q) ws (fun _ => n), {| fc_cfg := fc_cfg q; fc_db := w |})
}.

(** ** What the workers call *)

Inductive orchE : Type -> Type :=
| OStore {Y} (e : ostoreE Y) : orchE (result Y)
| Admission (workspaceID : string) : orchE (result QuotaDecision)
| NewV7 : orchE (result string)
| Now : orchE time
| PublishMetering (ev : MeteringEvent) : orchE (result ())
| PublishProgress (ev : JobProgress) : orchE (result ())
| Wake : orchE ()
| CancelRun (jobID : string) : orchE bool
| Exists (key : string) : orchE (result bool)
| Download (key dstPath : string) : orchE (result ())
| PutDir (keyPrefix srcDir : string) : orchE (result (list string))
| MkdirTemp (dir pattern : string) : orchE (result string)
| RemoveAll (dir : string) : orchE ()
| EngProbe (path : string) : orchE (engine_error + MediaInfo)
| EngTranscode (path : string) (out : OutputSpec) : orchE (list Progress * option engine_error)
| CtxErr : orchE (option gerror)
| ParentErr : orchE (option gerror)
| Register (jobID : string) : orchE ()
| Deregister (jobID : string) : orchE ()
| Ack : orchE ()
| Term : orchE ()
| NakWithDelay (d : duration) : orchE ().

(** ** metering.go *)

Definition Emit (workspaceID userID kind jobID : string) (bytes : option Z)
    (encodeSeconds : option spec_float) : prog orchE (result ()) :=
  id ← call NewV7;
  match id with
  | Err e => Ret (Err e)
  | Ok id =>
      now ← call Now;
      call (PublishMetering
        {| me_EventID := id; me_WorkspaceID := workspaceID; me_UserID := userID; me_Kind := kind;
           me_Bytes := bytes; me_EncodeSeconds := encodeSeconds; me_JobID := jobID; me_At := now |})
  end.
