(* ===== verification/OrchApi.v ===== *)
(** * services/orchestrator/internal/httpapi: the job and preset API

    The handlers of [jobs.go] and [presets.go] over [orchE].  A request carries the
    caller, the path id, the [state] query value and the outcome of reading and
    strictly decoding its body. *)
From S2P Require Export Events.
#[local] Open Scope Z_scope.

Record createJobRequest := { cjr_ObjectKey : string; cjr_PresetID : string }.

Record presetBody := {
  pb_Name : string; pb_Container : string; pb_VideoCodec : string; pb_RateControl : string;
  pb_CRF : Z; pb_BitrateKbps : Z; pb_MaxBitrateKbps : Z; pb_GOPLength : Z;
  pb_SpeedPreset : string; pb_Ladder : list Rung }.

Record presetPatch := {
  pp_Name : option string; pp_Container : option string; pp_VideoCodec : option string;
  pp_RateControl : option string; pp_CRF : option Z; pp_BitrateKbps : option Z;
  pp_MaxBitrateKbps : option Z; pp_GOPLength : option Z; pp_SpeedPreset : option string;
  pp_Ladder : option (list Rung) }.

Record orequest := {
  or_identity : option Identity;
  or_id : string;
  or_state : string;
  or_read : result ();
  or_more : bool;
  or_job : result createJobRequest;
  or_preset : result presetBody;
  or_patch : result presetPatch
}.

(** This service's error body. *)
Definition oError (code : Z) (msg : string) : response := writeJSON code (JObj [("error", JStr msg)]).

Definition output_json (o : OutputProgress) : json :=
  JObj ([("name", JStr (op_Name o))]
        ++ (if String.eqb (op_ObjectKey o) "" then [] else [("objectKey", JStr (op_ObjectKey o))])
        ++ [("state", JStr (op_State o)); ("progressPct", JFloat (op_ProgressPct o))]).

Definition time_json (t : time) : json := JNum t.

Definition job_json (j : Job) : json :=
  JObj ([("id", JStr (j_ID j)); ("workspaceId", JStr (j_WorkspaceID j)); ("userId", JStr (j_UserID j));
         ("presetId", JStr (j_PresetID j)); ("sourceObjectKey", JStr (j_SourceObjectKey j));
         ("sourceSha256", JStr (j_SourceSHA256 j)); ("state", JStr (j_State j))]
        ++ (if String.eqb (j_ErrorClass j) "" then [] else [("errorClass", JStr (j_ErrorClass j))])
        ++ (if String.eqb (j_ErrorMessage j) "" then [] else [("errorMessage", JStr (j_ErrorMessage j))])
        ++ [("attempts", JNum (j_Attempts j)); ("progressPct", JFloat (j_ProgressPct j));
            ("fps", JFloat (j_FPS j)); ("speedX", JFloat (j_SpeedX j));
            ("etaSeconds", JFloat (j_ETASeconds j)); ("outputs", JArr (output_json <$> j_Outputs j));
            ("createdAt", time_json (j_CreatedAt j)); ("queuedAt", time_json (j_QueuedAt j))]
        ++ (match j_StartedAt j with Some t => [("startedAt", time_json t)] | None => [] end)
        ++ (match j_FinishedAt j with Some t => [("finishedAt", time_json t)] | None => [] end)
        ++ [("updatedAt", time_json (j_UpdatedAt j))]).

Definition omit_zero (k : string) (z : Z) : list (string * json) :=
  if z =? 0 then [] else [(k, JNum z)].

Definition preset_json (p : Preset) : json :=
  JObj ([("id", JStr (p_ID p)); ("workspaceId", JStr (p_WorkspaceID p)); ("name", JStr (p_Name p));
         ("container", JStr (p_Container p)); ("videoCodec", JStr (p_VideoCodec p));
         ("rateControl", JStr (p_RateControl p))]
        ++ omit_zero "crf" (p_CRF p) ++ omit_zero "bitrateKbps" (p_BitrateKbps p)
        ++ omit_zero "maxBitrateKbps" (p_MaxBitrateKbps p)
        ++ [("gopLength", JNum (p_GOPLength p)); ("speedPreset", JStr (p_SpeedPreset p));
            ("ladder", JArr ((fun r => JObj [("name", JStr (r_Name r)); ("width", JNum (r_Width r));
                                             ("height", JNum (r_Height r))]) <$> p_Ladder p));
            ("createdAt", time_json (p_CreatedAt p)); ("updatedAt", time_json (p_UpdatedAt p))]).

Section api.
Context (uuid_Parse : string -> option string).

Definition with_identity (r : orequest) (k : Identity -> prog orchE response) : prog orchE response :=
  match or_identity r with
  | None => Ret (oError 500 "missing identity")
  | Some id => k id
  end.

Definition decodeStrict {A} (r : orequest) (body : result A) (k : A -> prog orchE response)
    : prog orchE response :=
  match or_read r with
  | Err _ => Ret (oError 400 "unreadable request body")
  | Ok _ =>
      match body with
      | Err e => Ret (oError 400 ("invalid request body: " +:+ error_text e))
      | Ok v => if or_more r then Ret (oError 400 "invalid request body: trailing data") else k v
      end
  end.

(** Best effort: the outcome is only logged. *)
Definition publishState (j : Job) : prog orchE () :=
  _ ← call (PublishProgress {| jp_JobID := j_ID j; jp_State := j_State j; jp_FPS := f0;
                               jp_SpeedX := f0; jp_ETASeconds := f0;
                               jp_ProgressPct := j_ProgressPct j |});
  Ret ().

Definition meterEmit (j : Job) (kind : string) : prog orchE () :=
  _ ← Emit (j_WorkspaceID j) (j_UserID j) kind (j_ID j) None None;
  Ret ().

(** ** jobs.go *)

Definition listJobs (r : orequest) : prog orchE response :=
  with_identity r (fun id =>
    if negb (String.eqb (or_state r) "") && negb (ValidState (or_state r))
    then Ret (oError 400 "state must be one of queued, running, completed, failed")
    else
      let filter := if String.eqb (or_state r) "" then None else Some (or_state r) in
      list ← call (OStore (ListJobs (id_WorkspaceID id) filter 200));
      match list with
      | Err _ => Ret (oError 500 "list jobs failed")
      | Ok list => Ret (writeJSON 200 (JObj [("jobs", JArr (job_json <$> list))]))
      end).

Definition getJob (r : orequest) : prog orchE response :=
  with_identity r (fun id =>
    match uuid_Parse (or_id r) with
    | None => Ret (oError 400 "job id must be a uuid")
    | Some _ =>
      j ← call (OStore (GetJob (id_WorkspaceID id) (or_id r)));
      match j with
      | Err ENotFound => Ret (oError 404 "job not found")
      | Err _ => Ret (oError 500 "get job failed")
      | Ok j => Ret (writeJSON 200 (job_json j))
      end
    end).

Definition new_job (id : Identity) (req : createJobRequest) (src : Source) : Job :=
  {| j_ID := ""; j_WorkspaceID := id_WorkspaceID id; j_UserID := id_UserID id;
     j_PresetID := cjr_PresetID req; j_SourceObjectKey := cjr_ObjectKey req;
     j_SourceSHA256 := src_SHA256 src; j_State := ""; j_ErrorClass := ""; j_ErrorMessage := "";
     j_Attempts := 0; j_ProgressPct := f0; j_FPS := f0; j_SpeedX := f0; j_ETASeconds := f0;
     j_Outputs := []; j_CreatedAt := zero_time; j_QueuedAt := zero_time; j_StartedAt := None;
     j_FinishedAt := None; j_UpdatedAt := zero_time |}.

(** The quota gate, then the insert and its announcements. *)
Definition admit_job (id : Identity) (j : Job) : prog orchE response :=
  decision ← call (Admission (id_WorkspaceID id));
  match decision with
  | Err _ => Ret (oError 500 "quota check failed")
  | Ok decision =>
      if negb (Allowed decision) then Ret (oError 429 (Reason decision))
      else
        created ← call (OStore (CreateJob j));
        match created with
        | Err _ => Ret (oError 500 "create job failed")
        | Ok j =>
            _ ← meterEmit j MeterJobQueued;
            _ ← publishState j;
            _ ← call Wake;
            Ret (writeJSON 201 (job_json j))
        end
  end.

Definition createJob (r : orequest) : prog orchE response :=
  with_identity r (fun id =>
    decodeStrict r (or_job r) (fun req =>
      match ObjectKeyPattern (cjr_ObjectKey req) with
      | None => Ret (oError 400 "objectKey must match assets/<workspaceId>/sha256/<hex64>")
      | Some (ws, _) =>
        if negb (String.eqb ws (id_WorkspaceID id))
        then Ret (oError 403 "objectKey belongs to another workspace")
        else match uuid_Parse (cjr_PresetID req) with
        | None => Ret (oError 400 "presetId must be a uuid")
        | Some _ =>
          src ← call (OStore (GetSource (id_WorkspaceID id) (cjr_ObjectKey req)));
          match src with
          | Err ENotFound => Ret (oError 422 "source is not probed yet (no landed-object record)")
          | Err _ => Ret (oError 500 "source lookup failed")
          | Ok src =>
            preset ← call (OStore (GetPreset (id_WorkspaceID id) (cjr_PresetID req)));
            match preset with
            | Err ENotFound => Ret (oError 422 "preset not found")
            | Err _ => Ret (oError 500 "preset lookup failed")
            | Ok _ => admit_job id (new_job id req src)
            end
          end
        end
      end)).

Definition retryJob (r : orequest) : prog orchE response :=
  with_identity r (fun id =>
    match uuid_Parse (or_id r) with
    | None => Ret (oError 400 "job id must be a uuid")
    | Some _ =>
      decision ← call (Admission (id_WorkspaceID id));
      match decision with
      | Err _ => Ret (oError 500 "quota check failed")
      | Ok decision =>
        if negb (Allowed decision) then Ret (oError 429 (Reason decision))
        else
          j ← call (OStore (RetryJob (id_WorkspaceID id) (or_id r)));
          match j with
          | Err ENotFound => Ret (oError 404 "job not found")
          | Err EConflict => Ret (oError 409 "only failed jobs can be retried")
          | Err _ => Ret (oError 500 "retry failed")
          | Ok j =>
              _ ← meterEmit j MeterJobQueued;
              _ ← publishState j;
              _ ← call Wake;
              Ret (writeJSON 200 (job_json j))
          end
      end
    end).

Definition cancel_queued (id : Identity) (jobID : string) : prog orchE response :=
  canceled ← call (OStore (CancelQueued (id_WorkspaceID id) jobID));
  match canceled with
  | Err EConflict => Ret (oError 409 "job left queued state, re-fetch its state")
  | Err _ => Ret (oError 500 "cancel failed")
  | Ok j =>
      _ ← meterEmit j MeterJobFailed;
      _ ← publishState j;
      Ret (writeJSON 200 (job_json j))
  end.

Definition cancelJob (r : orequest) : prog orchE response :=
  with_identity r (fun id =>
    match uuid_Parse (or_id r) with
    | None => Ret (oError 400 "job id must be a uuid")
    | Some _ =>
      j ← call (OStore (GetJob (id_WorkspaceID id) (or_id r)));
      match j with
      | Err ENotFound => Ret (oError 404 "job not found")
      | Err _ => Ret (oError 500 "cancel failed")
      | Ok j =>
          if String.eqb (j_State j) StateRunning then
            delivered ← call (CancelRun (j_ID j));
            if delivered : bool
            then Ret (writeJSON 202 (JObj [("status", JStr "cancel requested")]))
            else Ret (oError 409 "job is not cancelable right now, re-fetch its state")
          else if String.eqb (j_State j) StateQueued then cancel_queued id (or_id r)
          else Ret (oError 409 "completed or failed jobs cannot be canceled")
      end
    end).

(** ** presets.go *)

Definition listPresets (r : orequest) : prog orchE response :=
  with_identity r (fun id =>
    list ← call (OStore (ListPresets (id_WorkspaceID id)));
    match list with
    | Err _ => Ret (oError 500 "list presets failed")
    | Ok list => Ret (writeJSON 200 (JObj [("presets", JArr (preset_json <$> list))]))
    end).

Definition getPreset (r : orequest) : prog orchE response :=
  with_identity r (fun id =>
    match uuid_Parse (or_id r) with
    | None => Ret (oError 400 "preset id must be a uuid")
    | Some _ =>
      p ← call (OStore (GetPreset (id_WorkspaceID id) (or_id r)));
      match p with
      | Err ENotFound => Ret (oError 404 "preset not found")
      | Err _ => Ret (oError 500 "get preset failed")
      | Ok p => Ret (writeJSON 200 (preset_json p))
      end
    end).

Definition body_preset (id : Identity) (b : presetBody) : Preset :=
  {| p_ID := ""; p_WorkspaceID := id_WorkspaceID id; p_Name := pb_Name b;
     p_Container := pb_Container b; p_VideoCodec := pb_VideoCodec b; p_RateControl := pb_RateControl b;
     p_CRF := pb_CRF b; p_BitrateKbps := pb_BitrateKbps b; p_MaxBitrateKbps := pb_MaxBitrateKbps b;
     p_GOPLength := pb_GOPLength b; p_SpeedPreset := pb_SpeedPreset b; p_Ladder := pb_Ladder b;
     p_CreatedAt := zero_time; p_UpdatedAt := zero_time |}.

Definition createPreset (r : orequest) : prog orchE response :=
  with_identity r (fun id =>
    decodeStrict r (or_preset r) (fun body =>
      let p := body_preset id body in
      match Validate p with
      | Err e => Ret (oError 400 (error_text e))
      | Ok _ =>
          created ← call (OStore (CreatePreset p));
          match created with
          | Err _ => Ret (oError 500 "create preset failed")
          | Ok p => Ret (writeJSON 201 (preset_json p))
          end
      end)).

Definition merge_patch (p : Preset) (q : presetPatch) : Preset :=
  {| p_ID := p_ID p; p_WorkspaceID := p_WorkspaceID p;
     p_Name := default (p_Name p) (pp_Name q);
     p_Container := default (p_Container p) (pp_Container q);
     p_VideoCodec := default (p_VideoCodec p) (pp_VideoCodec q);
     p_RateControl := default (p_RateControl p) (pp_RateControl q);
     p_CRF := default (p_CRF p) (pp_CRF q);
     p_BitrateKbps := default (p_BitrateKbps p) (pp_BitrateKbps q);
     p_MaxBitrateKbps := default (p_MaxBitrateKbps p) (pp_MaxBitrateKbps q);
     p_GOPLength := default (p_GOPLength p) (pp_GOPLength q);
     p_SpeedPreset := default (p_SpeedPreset p) (pp_SpeedPreset q);
     p_Ladder := default (p_Ladder p) (pp_Ladder q);
     p_CreatedAt := p_CreatedAt p; p_UpdatedAt := p_UpdatedAt p |}.

Definition patchPreset (r : orequest) : prog orchE response :=
  with_identity r (fun id =>
    match uuid_Parse (or_id r) with
    | None => Ret (oError 400 "preset id must be a uuid")
    | Some _ =>
    decodeStrict r (or_patch r) (fun patch =>
      p ← call (OStore (GetPreset (id_WorkspaceID id) (or_id r)));
      match p with
      | Err ENotFound => Ret (oError 404 "preset not found")
      | Err _ => Ret (oError 500 "patch failed")
      | Ok p =>
          let p := merge_patch p patch in
          match Validate p with
          | Err e => Ret (oError 400 (error_text e))
          | Ok _ =>
              updated ← call (OStore (UpdatePreset p));
              match updated with
              | Err ENotFound => Ret (oError 404 "preset not found")
              | Err _ => Ret (oError 500 "patch failed")
              | Ok p => Ret (writeJSON 200 (preset_json p))
              end
          end
      end)
    end).

Inductive oroute := OListJobs | OCreateJob | OGetJob | ORetryJob | OCancelJob
                  | OListPresets | OCreatePreset | OGetPreset | OPatchPreset.

Definition Handler (rt : oroute) (r : orequest) : prog orchE response :=
  match rt with
  | OListJobs => listJobs r
  | OCreateJob => createJob r
  | OGetJob => getJob r
  | ORetryJob => retryJob r
  | OCancelJob => cancelJob r
  | OListPresets => listPresets r
  | OCreatePreset => createPreset r
  | OGetPreset => getPreset r
  | OPatchPreset => patchPreset r
  end.
End api.
