(* ===== verification/Landed.v ===== *)
(** * services/orchestrator/internal/consumer/landed.go: the landed-object consumer

    [handle] processes one delivery of a landed event: probe the object, persist
    the source, and (when configured) create the job of the workspace's default
    preset.  Its result is how the message was settled. *)
From S2P Require Export OrchApi.
#[local] Open Scope Z_scope.

Record LandedConfig := { ScratchDir : string; AutoCreateJobs : bool }.

Section landed.
Context (uuid_Parse : string -> option string) (cfg : LandedConfig).

Definition landed_job (ev : UploadLanded) (preset : Preset) : Job :=
  {| j_ID := ""; j_WorkspaceID := ul_WorkspaceID ev; j_UserID := ul_UserID ev;
     j_PresetID := p_ID preset; j_SourceObjectKey := ul_ObjectKey ev;
     j_SourceSHA256 := ul_SHA256 ev; j_State := ""; j_ErrorClass := ""; j_ErrorMessage := "";
     j_Attempts := 0; j_ProgressPct := f0; j_FPS := f0; j_SpeedX := f0; j_ETASeconds := f0;
     j_Outputs := []; j_CreatedAt := zero_time; j_QueuedAt := zero_time; j_StartedAt := None;
     j_FinishedAt := None; j_UpdatedAt := zero_time |}.

(** [true] when the message may be acked. *)
Definition autoCreateJob (ev : UploadLanded) : prog orchE bool :=
  preset ← call (OStore (DefaultPreset (ul_WorkspaceID ev)));
  match preset with
  | Err ENotFound => Ret true
  | Err _ => Ret false
  | Ok preset =>
      active ← call (OStore (HasActiveJobForSource (ul_WorkspaceID ev) (ul_ObjectKey ev) (p_ID preset)));
      match active with
      | Err _ => Ret false
      | Ok true => Ret true
      | Ok false =>
          created ← call (OStore (CreateJob (landed_job ev preset)));
          match created with
          | Err _ => Ret false
          | Ok j =>
              _ ← Emit (j_WorkspaceID j) (j_UserID j) MeterJobQueued (j_ID j) None None;
              _ ← call (PublishProgress {| jp_JobID := j_ID j; jp_State := StateQueued; jp_FPS := f0;
                          jp_SpeedX := f0; jp_ETASeconds := f0; jp_ProgressPct := j_ProgressPct j |});
              _ ← call Wake;
              Ret true
          end
      end
  end.

Definition nak (seconds : Z) : prog orchE () := call (NakWithDelay (seconds * Second)).

Definition landed_source (ev : UploadLanded) (mi : MediaInfo) : Source :=
  {| src_ObjectKey := ul_ObjectKey ev; src_WorkspaceID := ul_WorkspaceID ev;
     src_SHA256 := ul_SHA256 ev; src_SizeBytes := ul_SizeBytes ev; src_Mime := ul_Mime ev;
     src_MediaInfo := mi; src_ProbedAt := zero_time |}.

(** From the probed object on. *)
Definition persist (ev : UploadLanded) (mi : MediaInfo) : prog orchE () :=
  stored ← call (OStore (UpsertSource (landed_source ev mi)));
  match stored with
  | Err _ => nak 10
  | Ok _ =>
      if AutoCreateJobs cfg then
        ok ← autoCreateJob ev;
        if ok : bool then call Ack else nak 10
      else call Ack
  end.

(** With the scratch directory, which is removed on return. *)
Definition probe_in (ev : UploadLanded) (scratchDir : string) : prog orchE () :=
  let localPath := FFmpeg.Join scratchDir "source" in
  downloaded ← call (Download (ul_ObjectKey ev) localPath);
  match downloaded with
  | Err _ => nak 10
  | Ok _ =>
      mi ← call (EngProbe localPath);
      match mi with
      | inl (EngineError stage _) => if String.eqb stage StageAsset then call Term else nak 30
      | inl (EngineCtx _) => nak 30
      | inr mi => persist ev mi
      end
  end.

Definition handle (data : result UploadLanded) (more : bool) : prog orchE () :=
  match ParseUploadLanded uuid_Parse data more with
  | Err _ => call Term
  | Ok ev =>
      exists_ ← call (Exists (ul_ObjectKey ev));
      match exists_ with
      | Err _ => nak 10
      | Ok false => nak 10
      | Ok true =>
          scratch ← call (MkdirTemp (ScratchDir cfg) "probe-");
          match scratch with
          | Err _ => nak 10
          | Ok scratchDir =>
              _ ← probe_in ev scratchDir;
              call (RemoveAll scratchDir)
          end
      end
  end.
End landed.
