(* ===== verification/Scheduler.v ===== *)
(** * services/orchestrator/internal/scheduler: slots and the job runner

    [runJob] is one claimed job end to end; [Run]'s claim loop and the slots, the
    goroutines it spawns and the map of cancel functions are a step relation. *)
From S2P Require Export OrchApi.
#[local] Open Scope Z_scope.

Record SchedConfig := {
  Slots : Z;
  PollInterval : duration;
  StagingDir : string;
  ProgressPersistEvery : duration
}.

(** [New]: defaults filled in, the rest checked. *)
Definition NewScheduler (cfg : SchedConfig) : result SchedConfig :=
  if Slots cfg <? 1 then Err (EMsg "scheduler: Slots must be >= 1")
  else if String.eqb (StagingDir cfg) "" then Err (EMsg "scheduler: StagingDir is required")
  else Ok {| Slots := Slots cfg;
             PollInterval := if PollInterval cfg <=? 0 then 2 * Second else PollInterval cfg;
             StagingDir := StagingDir cfg;
             ProgressPersistEvery := if ProgressPersistEvery cfg <=? 0 then 500 * Millisecond
                                     else ProgressPersistEvery cfg |}.

Section runner.
Context (cfg : SchedConfig).

Definition publish_state (j : Job) (st : JobState) (pct fps speedX eta : spec_float) : prog orchE () :=
  _ ← call (PublishProgress {| jp_JobID := j_ID j; jp_State := st; jp_FPS := fps; jp_SpeedX := speedX;
                               jp_ETASeconds := eta; jp_ProgressPct := pct |});
  Ret ().

Definition meter_emit (j : Job) (kind : string) (secs : option spec_float) : prog orchE () :=
  _ ← Emit (j_WorkspaceID j) (j_UserID j) kind (j_ID j) None secs;
  Ret ().

Definition cancelReason (parentErr : option gerror) : string :=
  match parentErr with Some _ => "canceled by shutdown" | None => "canceled by user" end.

Definition fail (j : Job) (class : ErrorClass) (msg : string) : prog orchE () :=
  _ ← call (OStore (MarkFailed (j_ID j) class msg));
  _ ← publish_state j StateFailed f0 f0 f0 f0;
  meter_emit j MeterJobFailed None.

Definition fail_canceled (j : Job) : prog orchE () :=
  p ← call ParentErr;
  fail j ErrorInternal (cancelReason p).

(** [primaryArtifact] *)
Definition artifact_ext (container : string) : option string :=
  if String.eqb container "mp4" then Some ".mp4"
  else if String.eqb container "mov" then Some ".mov"
  else if String.eqb container "webm" then Some ".webm"
  else if String.eqb container "hls" then Some ".m3u8"
  else if String.eqb container "dash" then Some ".mpd"
  else None.

Definition primaryArtifact (keys : list string) (prefix container rungName : string) : string :=
  let want := match artifact_ext container with
              | Some ext => prefix +:+ "/" +:+ rungName +:+ ext
              | None => ""
              end in
  match list_find (fun k => k = want) keys with
  | Some (_, k) => k
  | None => match keys with k :: _ => k | [] => "" end
  end.

Definition rung_spec (preset : Preset) (src : Source) (rung : Rung) (staging : string) : OutputSpec :=
  {| os_RungName := r_Name rung; os_Width := r_Width rung; os_Height := r_Height rung;
     os_Container := p_Container preset; os_VideoCodec := p_VideoCodec preset;
     os_RateControl := {| rc_Mode := p_RateControl preset; rc_CRF := p_CRF preset;
                          rc_BitrateKbps := p_BitrateKbps preset;
                          rc_MaxBitrateKbps := p_MaxBitrateKbps preset |};
     os_GOPLength := p_GOPLength preset; os_SpeedPreset := p_SpeedPreset preset;
     os_IncludeAudio := 0 <? mi_AudioStreams (src_MediaInfo src); os_DestDir := staging;
     os_SourceDurationSeconds := mi_DurationSeconds (src_MediaInfo src) |}.

Definition set_output (outs : list OutputProgress) (i : nat) (f : OutputProgress -> OutputProgress)
    : list OutputProgress := alter f i outs.

Definition out_pct (pct : spec_float) (o : OutputProgress) : OutputProgress :=
  {| op_Name := op_Name o; op_ObjectKey := op_ObjectKey o; op_State := op_State o; op_ProgressPct := pct |}.
Definition out_state (st : string) (o : OutputProgress) : OutputProgress :=
  {| op_Name := op_Name o; op_ObjectKey := op_ObjectKey o; op_State := st; op_ProgressPct := op_ProgressPct o |}.
Definition out_done (key : string) (o : OutputProgress) : OutputProgress :=
  {| op_Name := op_Name o; op_ObjectKey := key; op_State := "completed"; op_ProgressPct := f100 |}.

(** The loop's variables: the outputs and the time of the last persisted sample. *)
Record loop_state := { ls_outputs : list OutputProgress; ls_lastPersist : time }.

Definition onProgress (j : Job) (src : Source) (i : nat) (total : spec_float) (p : Progress)
    (s : loop_state) : prog orchE loop_state :=
  let outputs := set_output (ls_outputs s) i (out_pct (pg_ProgressPct p)) in
  let idx := f64_of_Z (Z.of_nat i) in
  let jobPct := fdiv (fadd (fmul idx f100) (pg_ProgressPct p)) total in
  let eta :=
    if flt f0 (pg_SpeedX p)
    then fadd (pg_ETASeconds p)
           (fmul (fsub (fsub total idx) (f64_of_Z 1))
                 (fdiv (mi_DurationSeconds (src_MediaInfo src)) (pg_SpeedX p)))
    else pg_ETASeconds p in
  now ← call Now;
  if now - ls_lastPersist s <? ProgressPersistEvery cfg
  then Ret {| ls_outputs := outputs; ls_lastPersist := ls_lastPersist s |}
  else
    _ ← call (OStore (UpdateProgress (j_ID j) jobPct (pg_FPS p) (pg_SpeedX p) eta outputs));
    _ ← publish_state j StateRunning jobPct (pg_FPS p) (pg_SpeedX p) eta;
    Ret {| ls_outputs := outputs; ls_lastPersist := now |}.

Fixpoint on_samples (j : Job) (src : Source) (i : nat) (total : spec_float) (ps : list Progress)
    (s : loop_state) : prog orchE loop_state :=
  match ps with
  | [] => Ret s
  | p :: ps' => s' ← onProgress j src i total p s; on_samples j src i total ps' s'
  end.

Definition engine_class (e : engine_error) : ErrorClass :=
  match e with EngineError stage _ => stage | EngineCtx _ => ErrorInternal end.
Definition engine_text (e : engine_error) : string :=
  match e with
  | EngineError stage msg => "engine " +:+ stage +:+ " error: " +:+ msg
  | EngineCtx e => error_text e
  end.

Definition out_prefix (j : Job) (rung : Rung) : string :=
  "outputs/" +:+ j_WorkspaceID j +:+ "/" +:+ j_ID j +:+ "/" +:+ r_Name rung.

(** One rung: the loop state after it, or [None] when the job was failed.  The
    callbacks of [Transcode] run in the order of its samples, before its outcome
    is examined. *)
Definition run_rung (j : Job) (preset : Preset) (src : Source) (inputPath : string)
    (i : nat) (rung : Rung) (s : loop_state) : prog orchE (option loop_state) :=
  let total := f64_of_Z (Z.of_nat (length (p_Ladder preset))) in
  ctxErr ← call CtxErr;
  match ctxErr with
  | Some _ => _ ← fail_canceled j; Ret None
  | None =>
    made ← call (MkdirTemp (StagingDir cfg) ("job-" +:+ j_ID j +:+ "-"));
    match made with
    | Err e => _ ← fail j ErrorInternal ("staging dir: " +:+ error_text e); Ret None
    | Ok staging =>
      let s := {| ls_outputs := set_output (ls_outputs s) i (out_state "running");
                  ls_lastPersist := ls_lastPersist s |} in
      enc ← call (EngTranscode inputPath (rung_spec preset src rung staging));
      let '(samples, outcome) := enc in
      s ← on_samples j src i total samples s;
      match outcome with
      | Some e =>
          _ ← call (RemoveAll staging);
          ctxErr ← call CtxErr;
          match ctxErr with
          | Some _ => _ ← fail_canceled j; Ret None
          | None => _ ← fail j (engine_class e) ("rung " +:+ r_Name rung +:+ ": " +:+ engine_text e);
                    Ret None
          end
      | None =>
          let prefix := out_prefix j rung in
          keys ← call (PutDir prefix staging);
          _ ← call (RemoveAll staging);
          match keys with
          | Err e =>
              ctxErr ← call CtxErr;
              match ctxErr with
              | Some _ => _ ← fail_canceled j; Ret None
              | None => _ ← fail j ErrorInternal ("store outputs for rung " +:+ r_Name rung
                                                  +:+ ": " +:+ error_text e); Ret None
              end
          | Ok keys =>
              Ret (Some {| ls_outputs := set_output (ls_outputs s) i
                             (out_done (primaryArtifact keys prefix (p_Container preset) (r_Name rung)));
                           ls_lastPersist := ls_lastPersist s |})
          end
      end
    end
  end.

Fixpoint run_ladder (j : Job) (preset : Preset) (src : Source) (inputPath : string)
    (i : nat) (rungs : list Rung) (s : loop_state) : prog orchE (option loop_state) :=
  match rungs with
  | [] => Ret (Some s)
  | rung :: rungs' =>
      s' ← run_rung j preset src inputPath i rung s;
      match s' with
      | None => Ret None
      | Some s' => run_ladder j preset src inputPath (S i) rungs' s'
      end
  end.

Definition pending_output (r : Rung) : OutputProgress :=
  {| op_Name := r_Name r; op_ObjectKey := ""; op_State := "pending"; op_ProgressPct := f0 |}.

(** The encode of a downloaded source, and the completion. *)
Definition encode_all (j : Job) (preset : Preset) (src : Source) (inputPath : string) (started : time)
    : prog orchE () :=
  done ← run_ladder j preset src inputPath 0 (p_Ladder preset)
           {| ls_outputs := pending_output <$> p_Ladder preset; ls_lastPersist := zero_time |};
  match done with
  | None => Ret ()
  | Some s =>
      marked ← call (OStore (MarkCompleted (j_ID j) (ls_outputs s)));
      match marked with
      | Err _ => Ret ()
      | Ok _ =>
          now ← call Now;
          let encodeSeconds := fdiv (f64_of_Z (now - started)) (f64_of_Z Second) in
          _ ← publish_state j StateCompleted f100 f0 f0 f0;
          meter_emit j MeterJobCompleted (Some encodeSeconds)
      end
  end.

Definition with_input (j : Job) (preset : Preset) (src : Source) (started : time) : prog orchE () :=
  made ← call (MkdirTemp (StagingDir cfg) ("src-" +:+ j_ID j +:+ "-"));
  match made with
  | Err e => fail j ErrorInternal ("scratch dir: " +:+ error_text e)
  | Ok inputDir =>
      let inputPath := FFmpeg.Join inputDir "source" in
      downloaded ← call (Download (j_SourceObjectKey j) inputPath);
      _ ← match downloaded with
          | Err e =>
              ctxErr ← call CtxErr;
              match ctxErr with
              | Some _ => fail_canceled j
              | None => fail j ErrorAsset ("download source " +:+ j_SourceObjectKey j +:+ ": " +:+ error_text e)
              end
          | Ok _ => encode_all j preset src inputPath started
          end;
      call (RemoveAll inputDir)
  end.

Definition run_claimed (j : Job) : prog orchE () :=
  started ← call Now;
  _ ← publish_state j StateRunning f0 f0 f0 f0;
  _ ← meter_emit j MeterJobStarted None;
  preset ← call (OStore (GetPreset (j_WorkspaceID j) (j_PresetID j)));
  match preset with
  | Err e => fail j ErrorInternal ("load preset " +:+ j_PresetID j +:+ ": " +:+ error_text e)
  | Ok preset =>
    src ← call (OStore (GetSource (j_WorkspaceID j) (j_SourceObjectKey j)));
    match src with
    | Err e => fail j ErrorAsset ("source " +:+ j_SourceObjectKey j +:+ " not probed: " +:+ error_text e)
    | Ok src =>
      ok ← call (Exists (j_SourceObjectKey j));
      match ok with
      | Ok true => with_input j preset src started
      | _ => fail j ErrorAsset ("source object " +:+ j_SourceObjectKey j +:+ " missing from store")
      end
    end
  end.

(** The cancel function is registered for the duration of the run. *)
Definition runJob (j : Job) : prog orchE () :=
  _ ← call (Register (j_ID j));
  _ ← run_claimed j;
  call (Deregister (j_ID j)).
End runner.
