(* ===== verification/OrchProofs.v ===== *)
(** * services/orchestrator: the workers together

    The API handlers, the landed consumer and the scheduler's runner share one
    database.  [work] is one unit of work of any of them; pools of such units are
    interleaved at every call, on the Postgres store with faults, with every other
    dependency answering anything. *)
From S2P Require Export Landed Scheduler.
#[local] Open Scope Z_scope.

(** ** The world *)

(** The other dependencies: they may read the database, and keep a state of their own. *)
Definition orch_env (V : Type) : Type := forall X, orchE X -> pgworld -> V -> X * V.

Definition worker_sem {V} (env : orch_env V) : sem orchE (pgworld * V) := fun X e w =>
  match e in orchE X return X * (pgworld * V) with
  | OStore e' => let '(r, d) := orch_exec e' w.1 in (r, (d, w.2))
  | e' => let '(x, v) := env _ e' w.1 w.2 in (x, (w.1, v))
  end.

(** Decompose a worker into its calls. *)
Ltac worker_calls :=
  repeat first
    [ exact I | done
    | progress intros
    | solve [eauto with calls nocore]
    | apply all_calls_bind
    | apply all_calls_call
    | case_match ].

Section system.
Context (uuid_Parse : string -> option string) (lcfg : LandedConfig) (scfg : SchedConfig).

Inductive work :=
| WApi (rt : oroute) (r : orequest)
| WLanded (data : result UploadLanded) (more : bool)
| WRun (j : Job)
| WClaim.

Definition work_prog (w : work) : prog orchE () :=
  match w with
  | WApi rt r => _ ← Handler uuid_Parse rt r; Ret ()
  | WLanded data more => handle uuid_Parse lcfg data more
  | WRun j => runJob scfg j
  | WClaim => _ ← call (OStore ClaimNextQueued); Ret ()
  end.

(** A worker's step on the database is a statement of the store, or nothing. *)
Lemma worker_sem_store {V} (env : orch_env V) X (e : orchE X) w :
  (worker_sem env X e w).2.1 = w.1 \/
  exists Y (e' : ostoreE Y) r, ostore_spec e' (pw_db w.1) r (pw_db (worker_sem env X e w).2.1).
Proof.
  destruct e; simpl; try (left; by destruct (env _ _ _ _)).
  right. exists Y, e, (orch_exec e w.1).1. destruct (orch_exec e w.1) as [r d] eqn:He. simpl.
  pose proof (orch_exec_spec e w.1) as Hs. by rewrite He in Hs.
Qed.

(** ** Which store calls the workers make *)

(** The calls satisfying [P]; calls of the other dependencies are free. *)
Definition store_calls (P : forall Y, ostoreE Y -> Prop) : forall X, orchE X -> Prop := fun X e =>
  match e with OStore e' => P _ e' | _ => True end.

Section calls.
Context (P : forall Y, ostoreE Y -> Prop).
Abbreviation okp := (all_calls (store_calls P)).

Lemma Emit_calls ws u k j b s : okp (Emit ws u k j b s).
Proof. unfold Emit. calls_tac. Qed.
Lemma publishState_calls j : okp (publishState j).
Proof. unfold publishState. calls_tac. Qed.
Lemma meterEmit_calls j k : okp (meterEmit j k).
Proof. unfold meterEmit. apply all_calls_bind; [apply Emit_calls|done]. Qed.
End calls.

(** Writes of presets are validated. *)
Definition preset_write (Y : Type) (e : ostoreE Y) : Prop :=
  match e with
  | CreatePreset p | UpdatePreset p => Validate p = Ok ()
  | _ => True
  end.

#[local] Hint Resolve Emit_calls publishState_calls meterEmit_calls : calls.

(** The store calls of a run of job [k]. *)
Definition runner_write (k : string) (Y : Type) (e : ostoreE Y) : Prop :=
  match e with
  | GetPreset _ _ | GetSource _ _ => True
  | UpdateProgress id _ _ _ _ _ | MarkCompleted id _ | MarkFailed id _ _ => id = k
  | _ => False
  end.

(** Everything a registered run calls. *)
Definition runner_call (k : string) (X : Type) (e : orchE X) : Prop :=
  match e with
  | OStore e => runner_write k _ e
  | Admission _ | Wake | CancelRun _ | EngProbe _ | Register _ | Deregister _ | Ack | Term
  | NakWithDelay _ => False
  | _ => True
  end.

Lemma runner_Emit_calls id ws u k j b s : all_calls (runner_call id) (Emit ws u k j b s).
Proof. unfold Emit. worker_calls. Qed.
#[local] Hint Resolve runner_Emit_calls : calls.
Lemma runner_publish_calls j st a b c d : all_calls (runner_call (j_ID j)) (publish_state j st a b c d).
Proof. unfold publish_state. worker_calls. Qed.
Lemma runner_meter_calls j k s : all_calls (runner_call (j_ID j)) (meter_emit j k s).
Proof. unfold meter_emit. worker_calls. Qed.
#[local] Hint Resolve runner_publish_calls runner_meter_calls : calls.
Lemma fail_calls j c m : all_calls (runner_call (j_ID j)) (fail j c m).
Proof. unfold fail. worker_calls. Qed.
#[local] Hint Resolve fail_calls : calls.
Lemma fail_canceled_calls j : all_calls (runner_call (j_ID j)) (fail_canceled j).
Proof. unfold fail_canceled. worker_calls. Qed.
#[local] Hint Resolve fail_canceled_calls : calls.
Lemma on_samples_calls j src i total ps s :
  all_calls (runner_call (j_ID j)) (on_samples scfg j src i total ps s).
Proof.
  revert s. induction ps as [|p ps IH]; intros s; [done|]. cbn [on_samples]. apply all_calls_bind; [|done].
  unfold onProgress. worker_calls.
Qed.
#[local] Hint Resolve on_samples_calls : calls.
Lemma run_rung_calls j p src path i r s :
  all_calls (runner_call (j_ID j)) (run_rung scfg j p src path i r s).
Proof. unfold run_rung. worker_calls. Qed.
#[local] Hint Resolve run_rung_calls : calls.
Lemma run_ladder_calls j p src path i rs s :
  all_calls (runner_call (j_ID j)) (run_ladder scfg j p src path i rs s).
Proof.
  revert i s. induction rs as [|r rs IH]; intros i s; [done|]. cbn [run_ladder]. worker_calls.
Qed.
#[local] Hint Resolve run_ladder_calls : calls.

Lemma run_claimed_calls j : all_calls (runner_call (j_ID j)) (run_claimed scfg j).
Proof. unfold run_claimed, with_input, encode_all. worker_calls. Qed.
#[local] Hint Resolve run_claimed_calls : calls.

Lemma runJob_calls j : all_calls (store_calls (runner_write (j_ID j))) (runJob scfg j).
Proof.
  unfold runJob. apply all_calls_bind; [exact (conj I (fun _ => I))|intros _].
  apply all_calls_bind; [|worker_calls].
  eapply all_calls_impl; [|apply run_claimed_calls]. intros X e. by destruct e.
Qed.

(** The landed consumer's store calls. *)
Definition landed_write (Y : Type) (e : ostoreE Y) : Prop :=
  match e with
  | UpsertSource _ | DefaultPreset _ | HasActiveJobForSource _ _ _ | CreateJob _ => True
  | _ => False
  end.

Lemma handle_calls data more : all_calls (store_calls landed_write) (handle uuid_Parse lcfg data more).
Proof. unfold handle, probe_in, persist, autoCreateJob, nak. worker_calls. Qed.

Lemma api_preset_calls rt r : all_calls (store_calls preset_write) (Handler uuid_Parse rt r).
Proof.
  destruct rt; unfold Handler, listJobs, createJob, admit_job, getJob, retryJob, cancelJob, cancel_queued,
    listPresets, createPreset, getPreset, patchPreset, with_identity, decodeStrict; worker_calls.
  all: match goal with H : Validate _ = Ok ?u |- _ => by destruct u end.
Qed.

(** ** Presets *)

Definition presets_valid (d : db) : Prop := forall id p, presets d !! id = Some p -> preset_wf p.

Lemma preset_row_wf p id t1 t2 : Validate p = Ok () -> preset_wf (preset_row p id t1 t2).
Proof. intros H%Validate_sound. by destruct H. Qed.

Lemma presets_valid_insert d id p :
  preset_wf p -> presets_valid d -> presets_valid (set_presets d (<[id := p]> (presets d))).
Proof.
  intros Hp Hd k q. simpl. destruct (decide (id = k)) as [<-|Hne].
  - rewrite lookup_insert_eq. by intros [= <-].
  - rewrite lookup_insert_ne by done. apply Hd.
Qed.

Lemma update_job_presets id p f d : presets (update_job id p f d).2 = presets d.
Proof. unfold update_job. by repeat case_match. Qed.

Lemma apply_presets_valid now uid {Y} (e : ostoreE Y) d :
  preset_write _ e -> presets_valid d -> presets_valid (ostore_apply now uid e d).2.
Proof.
  intros He Hd. destruct e; simpl in *; try done.
  1-2: unfold pg_CreatePreset, pg_UpdatePreset; repeat case_match; try done;
    by apply presets_valid_insert; [apply preset_row_wf|].
  all: unfold pg_CreateJob, pg_ClaimNextQueued, pg_MarkCompleted, pg_MarkFailed, pg_RetryJob,
    pg_CancelQueued; rewrite ?or_missing_db; repeat case_match; rewrite ?or_conflict_db; try done;
    unfold presets_valid; by rewrite update_job_presets.
Qed.

Lemma work_preset_calls w : all_calls (store_calls preset_write) (work_prog w).
Proof.
  assert (Hi : forall (Q : forall Y, ostoreE Y -> Prop) (p : prog orchE ()),
    (forall Y e, Q Y e -> preset_write Y e) -> all_calls (store_calls Q) p ->
    all_calls (store_calls preset_write) p).
  { intros Q p HQ. apply all_calls_impl. intros X e. destruct e; simpl; auto. }
  destruct w as [rt r|data more|j|]; unfold work_prog; [..|done].
  - apply all_calls_bind; [apply api_preset_calls|done].
  - eapply Hi, handle_calls. by intros Y [].
  - eapply Hi, runJob_calls. by intros Y [].
Qed.

Lemma worker_presets_valid {V} (env : orch_env V) X (e : orchE X) w :
  store_calls preset_write X e -> presets_valid (pw_db w.1) ->
  presets_valid (pw_db (worker_sem env X e w).2.1).
Proof.
  intros He Hd. destruct e; simpl in *; try (by destruct (env _ _ _ _)).
  destruct (orch_exec e w.1) as [r d] eqn:Ho. simpl.
  destruct (orch_exec_spec e w.1) as (now & uid & Hs). rewrite Ho in Hs. simpl in Hs.
  pose proof (apply_presets_valid now uid e _ He Hd) as Ha.
  destruct Hs as [Hs|(er & _ & [-> | ->])]; [|done|done]. by rewrite <-Hs in Ha.
Qed.

(** presets in the database are always valid.  Any number of API requests of
    any kind, deliveries of landed events and job runs, interleaved at every call,
    with database faults and lost replies and every other dependency answering
    anything, only ever store presets that satisfy the invariants of [Validate];
    in particular a patch that would break one is never written. *)
Theorem presets_stay_valid {V} (env : orch_env V) (ws : list work) w ps w' :
  presets_valid (pw_db w.1) ->
  rtc (pool_step (worker_sem env)) (work_prog <$> ws, w) (ps, w') ->
  presets_valid (pw_db w'.1).
Proof.
  intros Hd Hr.
  eapply (pool_calls_invariant (worker_sem env) (store_calls preset_write)
            (fun w => presets_valid (pw_db w.1))) in Hr; [exact Hr| | |exact Hd].
  - apply Forall_fmap, Forall_forall. intros k _. apply work_preset_calls.
  - intros X e v He. by apply worker_presets_valid.
Qed.

(** ** Workspaces *)

(** The rows of the workspaces other than [ws] are the same. *)
Definition others_same (ws : string) (d d' : db) : Prop :=
  (forall id j, j_WorkspaceID j <> ws -> jobs d !! id = Some j <-> jobs d' !! id = Some j) /\
  (forall id p, p_WorkspaceID p <> ws -> presets d !! id = Some p <-> presets d' !! id = Some p) /\
  sources d' = sources d.

#[local] Instance others_same_preorder ws : PreOrder (others_same ws).
Proof.
  split; [done|]. intros a b c (J1 & P1 & S1) (J2 & P2 & S2).
  split_and!; [|..|congruence]; intros id x Hx; [by rewrite J1, J2|by rewrite P1, P2].
Qed.

(** The API's store calls for a caller of [ws], and what [GetPreset] tells it. *)
Definition ws_calls (ws : string) (Y : Type) (e : ostoreE Y) : Prop :=
  match e with
  | GetSource w _ | GetPreset w _ | ListPresets w | HasActiveJobForSource w _ _ | GetJob w _
  | ListJobs w _ _ | CountActiveJobs w | RetryJob w _ | CancelQueued w _ => w = ws
  | CreatePreset p | UpdatePreset p => p_WorkspaceID p = ws
  | CreateJob j => j_WorkspaceID j = ws
  | _ => False
  end.

Definition ws_answers (X : Type) (e : orchE X) : X -> Prop :=
  match e in orchE X return X -> Prop with
  | @OStore Y e' =>
      match e' in ostoreE Y return result Y -> Prop with
      | GetPreset w _ => fun r => match r with Ok p => p_WorkspaceID p = w | _ => True end
      | _ => fun _ => True
      end
  | _ => fun _ => True
  end.

Lemma others_set_job ws d id j :
  j_WorkspaceID j = ws -> (forall k, jobs d !! id = Some k -> j_WorkspaceID k = ws) ->
  others_same ws d (set_jobs d (<[id := j]> (jobs d))).
Proof.
  intros Hj Hold. split_and!; [|done|done]. intros id2 k Hk. simpl.
  destruct (decide (id = id2)) as [<-|Hne]; [|by rewrite lookup_insert_ne].
  rewrite lookup_insert_eq. split; [intros H; by apply Hold in H|intros [= ->]; done].
Qed.

Lemma others_set_preset ws d id p :
  p_WorkspaceID p = ws -> (forall k, presets d !! id = Some k -> p_WorkspaceID k = ws) ->
  others_same ws d (set_presets d (<[id := p]> (presets d))).
Proof.
  intros Hj Hold. split_and!; [done| |done]. intros id2 k Hk. simpl.
  destruct (decide (id = id2)) as [<-|Hne]; [|by rewrite lookup_insert_ne].
  rewrite lookup_insert_eq. split; [intros H; by apply Hold in H|intros [= ->]; done].
Qed.

Lemma others_update_job ws d id p f :
  (forall j, p j = true -> j_WorkspaceID j = ws) -> (forall j, j_WorkspaceID (f j) = j_WorkspaceID j) ->
  others_same ws d (update_job id p f d).2.
Proof.
  intros Hp Hf. unfold update_job. destruct (jobs d !! id) as [j|] eqn:Hj; [|done].
  destruct (p j) eqn:Hpj; [|done]. apply others_set_job; [rewrite Hf; auto|].
  intros k Hk. assert (k = j) as -> by congruence. auto.
Qed.

Lemma apply_others_same ws now uid {Y} (e : ostoreE Y) d :
  ws_calls ws _ e -> others_same ws d (ostore_apply now uid e d).2.
Proof.
  intros He. destruct e; simpl in *; try done.
  - unfold pg_CreatePreset. case_match eqn:Hc; [|done]. bool_prop.
    apply others_set_preset; [done|]. congruence.
  - unfold pg_UpdatePreset. destruct (presets d !! p_ID p) as [old|] eqn:Ho; [|done].
    destruct (String.eqb_spec (p_WorkspaceID old) (p_WorkspaceID p)) as [Heq|]; [|done]. simpl.
    case_match; [|done]. apply others_set_preset; [done|]. intros k Hk. congruence.
  - unfold pg_CreateJob. case_match eqn:Hc; [|done]. bool_prop.
    apply others_set_job; [done|]. congruence.
  - unfold pg_RetryJob. rewrite or_missing_db. apply others_update_job; [|done].
    intros j Hj. bool_prop. subst. by apply String.eqb_eq.
  - unfold pg_CancelQueued. rewrite or_missing_db. apply others_update_job; [|done].
    intros j Hj. bool_prop. subst. by apply String.eqb_eq.
Qed.

Lemma worker_others_same {V} (env : orch_env V) ws X (e : orchE X) w :
  store_calls (ws_calls ws) X e ->
  others_same ws (pw_db w.1) (pw_db (worker_sem env X e w).2.1).
Proof.
  intros He. destruct e; simpl in *; try (by destruct (env _ _ _ _)).
  destruct (orch_exec e w.1) as [r d] eqn:Ho. simpl.
  destruct (orch_exec_spec e w.1) as (now & uid & Hs). rewrite Ho in Hs. simpl in Hs.
  eapply up_to_fault_rel; [apply _| |exact Hs]. by apply apply_others_same.
Qed.

Lemma worker_answers {V} (env : orch_env V) X (e : orchE X) w :
  ws_answers X e (worker_sem env X e w).1.
Proof.
  destruct e as [Y e| | | | | | | | | | | | | | | | | | | | |]; try done. destruct e; try done. simpl.
  destruct (orch_exec _ w.1) as [r d] eqn:Ho. simpl.
  destruct (orch_exec_spec (GetPreset workspaceID id) w.1) as (now & uid & Hs). rewrite Ho in Hs.
  destruct r as [p|]; [|done]. apply up_to_fault_ok in Hs. simpl in Hs. unfold pg_GetPreset in Hs.
  destruct (presets _ !! id) as [q|]; [|done].
  destruct (String.eqb_spec (p_WorkspaceID q) workspaceID); congruence.
Qed.

Abbreviation under ws := (calls_under ws_answers (store_calls (ws_calls ws))).

Lemma Emit_under ws w u k j b s : under ws (Emit w u k j b s).
Proof. apply all_calls_under, Emit_calls. Qed.
Lemma announce_under ws j k : under ws (meterEmit j k) /\ under ws (publishState j).
Proof. split; apply all_calls_under; [apply meterEmit_calls|apply publishState_calls]. Qed.

Ltac under_tac :=
  repeat first
    [ exact I | done
    | match goal with
      | |- calls_under _ _ (mbind _ (meterEmit _ _)) => apply calls_under_bind; [apply announce_under|]
      | |- calls_under _ _ (mbind _ (publishState _)) => apply calls_under_bind; [apply announce_under|]
      | |- calls_under _ _ (mbind _ (call _)) => apply calls_under_call
      end
    | progress intros
    | case_match ].

Lemma api_under id rt r :
  or_identity r = Some id -> under (id_WorkspaceID id) (Handler uuid_Parse rt r).
Proof.
  intros Hid.
  destruct rt; unfold Handler, listJobs, createJob, admit_job, getJob, retryJob, cancelJob, cancel_queued,
    listPresets, createPreset, getPreset, patchPreset, with_identity, decodeStrict; rewrite Hid; under_tac.
Qed.

Lemma orch_exec_result {Y} (e : ostoreE Y) w :
  (orch_exec e w).1 = Err (EMsg "postgres") \/
  exists now uid, (orch_exec e w).1 = (ostore_apply now uid e (pw_db w)).1.
Proof.
  unfold orch_exec. destruct (default _ _) as [[now uid] []]; [right; exists now, uid|left|left]; simpl.
  all: by destruct (ostore_apply now uid e (pw_db w)).
Qed.

(** A foreign job is a missing one to a statement that names the workspace. *)
Lemma foreign_get ws id j w :
  jobs (pw_db w) !! id = Some j -> j_WorkspaceID j <> ws ->
  exists er, (orch_exec (GetJob ws id) w).1 = Err er.
Proof.
  intros Hj Hne. destruct (orch_exec_result (GetJob ws id) w) as [H|(now & uid & H)]; [eauto|].
  exists ENotFound. rewrite H. simpl. unfold pg_GetJob. rewrite Hj.
  by rewrite (proj2 (String.eqb_neq _ _)).
Qed.

Lemma foreign_retry ws id j w :
  jobs (pw_db w) !! id = Some j -> j_WorkspaceID j <> ws ->
  (orch_exec (RetryJob ws id) w).1 = Err ENotFound \/
  (orch_exec (RetryJob ws id) w).1 = Err (EMsg "postgres").
Proof.
  intros Hj Hne. destruct (orch_exec_result (RetryJob ws id) w) as [H|(now & uid & H)]; [auto|].
  left. rewrite H. simpl. unfold pg_RetryJob, update_job, in_workspace, or_missing, pg_GetJob.
  rewrite Hj. rewrite (proj2 (String.eqb_neq _ _)) by done. simpl. rewrite Hj.
  by rewrite (proj2 (String.eqb_neq _ _)).
Qed.

Lemma run_store {V B Y} (env : orch_env V) (e : ostoreE Y) (f : result Y -> prog orchE B) w :
  exists w', run (worker_sem env) (call (OStore e) ≫= f) w =
             run (worker_sem env) (f (orch_exec e w.1).1) w'.
Proof.
  rewrite run_bind, run_call. simpl. destruct (orch_exec e w.1) as [r d]. by eexists.
Qed.

Ltac run_store_tac :=
  match goal with |- context [run (worker_sem ?env) (call (OStore ?e) ≫= ?f) ?w] =>
    let w' := fresh "w'" in destruct (run_store env e f w) as [w' ->] end.

Definition refused (resp : response) : Prop := rs_status resp ∈ [400; 404; 429; 500].

Lemma foreign_refused {V} (env : orch_env V) rt r id j w :
  or_identity r = Some id -> jobs (pw_db w.1) !! or_id r = Some j ->
  j_WorkspaceID j <> id_WorkspaceID id -> rt ∈ [OGetJob; ORetryJob; OCancelJob] ->
  refused (run (worker_sem env) (Handler uuid_Parse rt r) w).1.
Proof.
  intros Hid Hj Hne Hrt. unfold refused.
  destruct rt; try (exfalso; set_solver);
    unfold Handler, getJob, retryJob, cancelJob, with_identity; rewrite Hid;
    (destruct (uuid_Parse (or_id r)); [|simpl; set_solver]).
  - run_store_tac. destruct (foreign_get _ _ _ _ Hj Hne) as [er ->]. destruct er; simpl; set_solver.
  - rewrite run_bind, run_call. cbn [worker_sem]. destruct (env _ _ _ _) as [[dec|] v]; [|simpl; set_solver].
    destruct (negb (Allowed dec)); [simpl; set_solver|]. run_store_tac. cbn [fst].
    destruct (foreign_retry _ _ _ _ Hj Hne) as [-> | ->]; simpl; set_solver.
  - run_store_tac. destruct (foreign_get _ _ _ _ Hj Hne) as [er ->]. destruct er; simpl; set_solver.
Qed.

(** C20: the API keeps workspaces apart.  Any number of requests of any kind by
    callers of one workspace, interleaved at every call on a database with faults,
    leave every job and preset of every other workspace exactly as it was (no row
    changed, none added, none removed) and never touch a source; and a request
    naming a job of another workspace is refused (400, 404, 429 or 500), so that
    nothing of it is revealed. *)
Theorem api_isolates_workspaces {V} (env : orch_env V) ws (reqs : list (oroute * orequest)) w ps w' :
  Forall (fun q => exists id, or_identity q.2 = Some id /\ id_WorkspaceID id = ws) reqs ->
  rtc (pool_step (worker_sem env)) ((fun q => Handler uuid_Parse q.1 q.2) <$> reqs, w) (ps, w') ->
  others_same ws (pw_db w.1) (pw_db w'.1) /\
  forall rt r j, (rt, r) ∈ reqs -> jobs (pw_db w.1) !! or_id r = Some j -> j_WorkspaceID j <> ws ->
    rt ∈ [OGetJob; ORetryJob; OCancelJob] ->
    refused (run (worker_sem env) (Handler uuid_Parse rt r) w).1.
Proof.
  intros Hreqs Hr. split.
  - assert (PreOrder (fun w w' : pgworld * V => others_same ws (pw_db w.1) (pw_db w'.1))).
    { split; [by intros x|]. intros x y z Hxy Hyz. by etrans. }
    eapply (pool_calls_under (worker_sem env) ws_answers (store_calls (ws_calls ws))
              (fun w w' => others_same ws (pw_db w.1) (pw_db w'.1))) in Hr; [exact Hr| | |].
    + apply Forall_fmap. eapply Forall_impl; [exact Hreqs|]. intros [rt r] (id & Hid & <-).
      by apply api_under.
    + apply worker_answers.
    + intros X e v He. by apply worker_others_same.
  - intros rt r j Hin Hj Hne Hrt. rewrite Forall_forall in Hreqs.
    destruct (Hreqs _ Hin) as (id & Hid & <-). by eapply foreign_refused.
Qed.

(** ** The quota gate *)

(** The calls that put a job into the active set. *)
Definition admits (ev : event orchE) : bool :=
  match ev with
  | Ev (OStore e) _ => match e with CreateJob _ | RetryJob _ _ => true | _ => false end
  | _ => false
  end.

(** A decision of the quota checker: the workspace it allows, or the reason of the denial. *)
Definition decision (ev : event orchE) : option (string + string) :=
  match ev with
  | Ev e x =>
      match e in orchE Y return Y -> option (string + string) with
      | Admission ws => fun r => match r with
                                 | Ok d => Some (if Allowed d then inl ws else inr (Reason d))
                                 | Err _ => None end
      | _ => fun _ => None
      end x
  end.

(** An admission is preceded by an allowing decision for the caller's workspace. *)
Definition gated (r : orequest) (past : list (event orchE)) (ev : event orchE) : Prop :=
  admits ev = true ->
  exists id, or_identity r = Some id /\ omap decision past = [inl (id_WorkspaceID id)].

(** Best-effort announcements: none is an admission or a decision. *)
Definition announcement (X : Type) (e : orchE X) : Prop :=
  match e with OStore _ | Admission _ => False | _ => True end.

Lemma Emit_announces ws w u k j b : all_calls announcement (Emit ws w u k j b).
Proof. unfold Emit. worker_calls. Qed.
#[local] Hint Resolve Emit_announces : calls.

Lemma announcements_quiet (t : list (event orchE)) :
  Forall (fun ev => match ev with Ev e _ => announcement _ e end) t -> omap decision t = [].
Proof. induction 1 as [|[X e x] t He _ IH]; [done|]. destruct e; simpl in *; done. Qed.

(** The reply fits the decisions: a denial is answered 429 with its reason. *)
Definition answered (tr : list (event orchE)) (resp : response) : Prop :=
  Forall (fun d => match d with inl _ => True | inr reason => resp = oError 429 reason end)
    (omap decision tr).

Definition no_denial (tr : list (event orchE)) : Prop :=
  Forall (fun d => match d with inl _ => True | inr _ => False end) (omap decision tr).

Lemma steps_announce r past (p : prog orchE response) :
  no_denial past -> all_calls announcement p -> steps (fun _ => True) (gated r) answered past p.
Proof.
  intros Hd Hp. eapply steps_calls; [exact Hp| |].
  - intros tr X e x He. by destruct e.
  - intros t a Ht%announcements_quiet. unfold answered. rewrite omap_app, Ht, app_nil_r.
    eapply Forall_impl; [exact Hd|]. by intros [].
Qed.

Ltac decided :=
  unfold answered, no_denial; simpl; bool_prop;
  try match goal with H : Allowed _ = _ |- _ => rewrite H end; by repeat constructor.

Ltac gate_tac :=
  repeat first
    [ steps_step
    | done
    | match goal with
      | |- gated _ _ (Ev (OStore (CreateJob _)) _) => intros _; eexists; split; [eassumption|]
      | |- gated _ _ (Ev (OStore (RetryJob _ _)) _) => intros _; eexists; split; [eassumption|]
      end ].

Lemma Handler_gated rt r : steps (fun _ => True) (gated r) answered [] (Handler uuid_Parse rt r).
Proof.
  destruct rt; unfold Handler, listJobs, createJob, admit_job, getJob, retryJob, cancelJob, cancel_queued,
    listPresets, createPreset, getPreset, patchPreset, with_identity, decodeStrict;
  destruct (or_identity r) as [id|] eqn:Hid; try decided; gate_tac; try decided.
  all: apply steps_announce; [decided|unfold meterEmit, publishState; worker_calls].
Qed.

(** C14: the quota gate cannot be passed.  In every run of every API request, a job
    enters the active set (is created, or re-queued by a retry) only after the
    quota checker was asked exactly once, for the caller's own workspace, and
    allowed it; a denial is answered 429 with the checker's reason. *)
Theorem quota_gates_admission rt r tr resp :
  exec (Handler uuid_Parse rt r) tr resp ->
  (forall t1 ev t2, tr = t1 ++ ev :: t2 -> admits ev = true ->
     exists id, or_identity r = Some id /\ omap decision t1 = [inl (id_WorkspaceID id)]) /\
  (forall reason, inr reason ∈ omap decision tr -> resp = oError 429 reason).
Proof.
  intros H. destruct (steps_exec _ _ _ _ _ _ _ (Handler_gated rt r) H (Forall_True _)) as [Ha Hg].
  split; [exact Hg|]. intros reason Hin. unfold answered in Ha. rewrite Forall_forall in Ha.
  exact (Ha _ Hin).
Qed.

(** ** Who may touch a running job *)

(** Statements that can change the row of the running job [id]. *)
Definition spares (id : string) (Y : Type) (e : ostoreE Y) : Prop :=
  match e with
  | UpdateProgress k _ _ _ _ _ | MarkCompleted k _ | MarkFailed k _ _ => k <> id
  | _ => True
  end.

Lemma update_job_spares id k p f d j :
  jobs d !! id = Some j -> (k = id -> p j = false) -> jobs (update_job k p f d).2 !! id = Some j.
Proof.
  intros Hj Hp. unfold update_job. destruct (jobs d !! k) as [j'|] eqn:Hk; [|done].
  destruct (p j') eqn:Hpj; [|done]. simpl. rewrite lookup_insert_ne; [done|]. intros ->.
  assert (j' = j) as -> by congruence. by rewrite Hp in Hpj.
Qed.

Lemma apply_spares now uid {Y} (e : ostoreE Y) d id j :
  ids_match d -> jobs d !! id = Some j -> j_State j = StateRunning -> spares id _ e ->
  jobs (ostore_apply now uid e d).2 !! id = Some j.
Proof.
  intros Hid Hj Hr He. destruct e; simpl in *; try done.
  - unfold pg_CreatePreset. by case_match.
  - unfold pg_UpdatePreset. by repeat case_match.
  - unfold pg_CreateJob. case_match eqn:Hc; [|done]. bool_prop. simpl. rewrite lookup_insert_ne; congruence.
  - unfold pg_ClaimNextQueued. destruct (oldest _) as [k|] eqn:Ho; [|done].
    apply oldest_Some in Ho as [Hin _]. apply list_elem_of_filter in Hin as [Hq Hin].
    apply (elem_of_all_jobs _ _ Hid) in Hin. simpl. rewrite lookup_insert_ne; [done|].
    intros Heq. rewrite Heq, Hj in Hin. injection Hin as <-. by rewrite Hr in Hq.
  - by apply update_job_spares.
  - unfold pg_MarkCompleted. rewrite or_conflict_db. by apply update_job_spares.
  - unfold pg_MarkFailed. case_match; [done|]. rewrite or_conflict_db. by apply update_job_spares.
  - unfold pg_RetryJob. rewrite or_missing_db. apply update_job_spares; [done|]. intros _.
    unfold in_state. rewrite Hr. apply andb_false_r.
  - unfold pg_CancelQueued. rewrite or_missing_db. apply update_job_spares; [done|]. intros _.
    unfold in_state. rewrite Hr. apply andb_false_r.
Qed.

Lemma worker_spares {V} (env : orch_env V) id j X (e : orchE X) w :
  store_calls (spares id) X e -> j_State j = StateRunning ->
  db_wf (pw_db w.1) /\ jobs (pw_db w.1) !! id = Some j ->
  db_wf (pw_db (worker_sem env X e w).2.1) /\ jobs (pw_db (worker_sem env X e w).2.1) !! id = Some j.
Proof.
  intros He Hr [Hwf Hj]. destruct e; simpl in *; try (by destruct (env _ _ _ _)).
  destruct (orch_exec e w.1) as [r d] eqn:Ho. simpl.
  pose proof (orch_exec_spec e w.1) as Hs. rewrite Ho in Hs. simpl in Hs.
  split; [by apply (ostore_spec_legal _ _ _ _ Hs)|]. destruct Hs as (now & uid & Hs).
  pose proof (apply_spares now uid e _ id j (db_wf_ids _ Hwf) Hj Hr He) as Ha.
  destruct Hs as [Hs|(er & _ & [-> | ->])]; [|done|done]. by rewrite <-Hs in Ha.
Qed.

(** Work that is not a run of the job [id]. *)
Definition not_run_of (id : string) (k : work) : Prop :=
  match k with WRun j => j_ID j <> id | _ => True end.

Lemma work_spares id k : not_run_of id k -> all_calls (store_calls (spares id)) (work_prog k).
Proof.
  intros Hk. destruct k as [rt r|data more|j|]; unfold work_prog; [| | |done].
  - apply all_calls_bind; [|done].
    destruct rt; unfold Handler, listJobs, createJob, admit_job, getJob, retryJob, cancelJob, cancel_queued,
      listPresets, createPreset, getPreset, patchPreset, with_identity, decodeStrict; worker_calls.
  - eapply all_calls_impl; [|apply handle_calls]. intros X e. destruct e; try done. by destruct e.
  - eapply all_calls_impl; [|apply runJob_calls]. intros X e. destruct e; try done.
    destruct e; try done; simpl; congruence.
Qed.

(** C22: a running job belongs to its run.  Any number of API requests (retries and
    cancellations of that very job included), deliveries, claims and runs of other
    jobs, interleaved at every call with faults, leave the row of a running job
    exactly as it is: only its own run settles it.  (So a job whose run died with
    the process stays running, and counted as active, for good.) *)
Theorem running_job_belongs_to_its_run {V} (env : orch_env V) id j (ws : list work) w ps w' :
  db_wf (pw_db w.1) -> jobs (pw_db w.1) !! id = Some j -> j_State j = StateRunning ->
  Forall (not_run_of id) ws ->
  rtc (pool_step (worker_sem env)) (work_prog <$> ws, w) (ps, w') ->
  jobs (pw_db w'.1) !! id = Some j.
Proof.
  intros Hwf Hj Hr Hws Hrun.
  eapply (pool_calls_invariant (worker_sem env) (store_calls (spares id))
    (fun w => db_wf (pw_db w.1) /\ jobs (pw_db w.1) !! id = Some j)) in Hrun; [apply Hrun| | |done].
  - apply Forall_fmap. eapply Forall_impl; [exact Hws|]. apply work_spares.
  - intros X e v He. by apply worker_spares.
Qed.
End system.

(** ** A concrete world *)

Definition ex_media : MediaInfo :=
  {| mi_Container := "mov"; mi_DurationSeconds := f100; mi_VideoCodec := "h264"; mi_AudioCodec := "aac";
     mi_Width := 1920; mi_Height := 1080; mi_ChromaSubsampling := "4:2:0"; mi_SourceBitrateBps := 0;
     mi_VideoStreams := 1; mi_AudioStreams := 1; mi_SubtitleStreams := 0 |}.
Definition ex_hex : string := "0000000000000000000000000000000000000000000000000000000000000000".
Definition ex_key : string := "assets/ws/sha256/" +:+ ex_hex.
Definition ex_source_at (key : string) : Source :=
  {| src_ObjectKey := key; src_WorkspaceID := "ws"; src_SHA256 := ex_hex; src_SizeBytes := 10;
     src_Mime := "video/mp4"; src_MediaInfo := ex_media; src_ProbedAt := 0 |}.
Definition ex_source : Source := ex_source_at ex_key.
Definition ex_world_db : db :=
  {| sources := {[ ex_key := ex_source; "k" := ex_source_at "k" ]};
     presets := {[ "p1" := ex_preset ]}; jobs := {[ "j1" := ex_job ]} |}.

(** Dependencies that answer favourably. *)
Definition ex_env : orch_env () := fun X e _ v =>
  (match e in orchE Y return Y with
   | OStore _ => Err ENotFound
   | Admission _ => Ok allow
   | NewV7 => Ok "event"
   | Now => 100
   | PublishMetering _ | PublishProgress _ | Download _ _ => Ok ()
   | CancelRun _ => true
   | Exists _ => Ok true
   | PutDir prefix _ => Ok [prefix +:+ "/720p.log"; prefix +:+ "/720p.mp4"]
   | MkdirTemp dir pattern => Ok (dir +:+ "/" +:+ pattern +:+ "1")
   | EngProbe _ => inr ex_media
   | EngTranscode _ _ => ([], None)
   | CtxErr | ParentErr => None
   | Wake | RemoveAll _ | Register _ | Deregister _ | Ack | Term | NakWithDelay _ => tt
   end, v).

Definition ex_world : pgworld * () := ({| pw_db := ex_world_db; pw_inputs := [] |}, ()).
Definition ex_lcfg : LandedConfig := {| ScratchDir := "/tmp"; AutoCreateJobs := true |}.
Definition ex_sched : SchedConfig :=
  {| Slots := 3; PollInterval := Second; StagingDir := "/tmp"; ProgressPersistEvery := Second |}.

Definition no_patch : presetPatch :=
  {| pp_Name := None; pp_Container := None; pp_VideoCodec := None; pp_RateControl := None;
     pp_CRF := None; pp_BitrateKbps := None; pp_MaxBitrateKbps := None; pp_GOPLength := None;
     pp_SpeedPreset := None; pp_Ladder := None |}.
Definition ex_request (ws id : string) : orequest :=
  {| or_identity := Some {| id_WorkspaceID := ws; id_UserID := "u" |}; or_id := id; or_state := "";
     or_read := Ok (); or_more := false;
     or_job := Ok {| cjr_ObjectKey := ex_key; cjr_PresetID := "p1" |};
     or_preset := Err (EMsg "no body"); or_patch := Ok no_patch |}.
Definition ex_patch (q : presetPatch) : orequest :=
  {| or_identity := Some {| id_WorkspaceID := "ws"; id_UserID := "u" |}; or_id := "p1"; or_state := "";
     or_read := Ok (); or_more := false; or_job := Err (EMsg "no body");
     or_preset := Err (EMsg "no body"); or_patch := Ok q |}.

Lemma ex_presets_valid : presets_valid ex_world_db.
Proof.
  intros id p. simpl. rewrite lookup_singleton_Some. intros [<- <-].
  apply Validate_sound. vm_compute. reflexivity.
Qed.

(** A patch that would break the rate control loses against one that would not,
    run while the job itself is retried. *)
Lemma presets_stay_valid_witness :
  let bad := ex_patch {| pp_Name := None; pp_Container := None; pp_VideoCodec := None;
    pp_RateControl := None; pp_CRF := None; pp_BitrateKbps := Some 500; pp_MaxBitrateKbps := None;
    pp_GOPLength := None; pp_SpeedPreset := None; pp_Ladder := None |} in
  let good := ex_patch {| pp_Name := None; pp_Container := None; pp_VideoCodec := None;
    pp_RateControl := None; pp_CRF := Some 30; pp_BitrateKbps := None; pp_MaxBitrateKbps := None;
    pp_GOPLength := None; pp_SpeedPreset := None; pp_Ladder := None |} in
  let work := [WApi OPatchPreset bad; WApi OPatchPreset good; WApi ORetryJob (ex_request "ws" "j1")] in
  let s := run_sched (worker_sem ex_env) [0; 1; 2; 0; 1; 2]%nat
             (work_prog Some ex_lcfg ex_sched <$> work, ex_world) in
  (p_CRF <$> presets (pw_db s.2.1) !! "p1", p_BitrateKbps <$> presets (pw_db s.2.1) !! "p1")
    = (Some 30, Some 0) /\
  presets_valid (pw_db s.2.1).
Proof.
  intros bad good work s. split; [vm_compute; reflexivity|].
  apply (presets_stay_valid Some ex_lcfg ex_sched ex_env work ex_world s.1 s.2 ex_presets_valid).
  rewrite <-surjective_pairing. apply run_sched_reachable.
Defined.

(** Another workspace's requests about the job of this one. *)
Lemma api_isolates_workspaces_witness :
  let reqs := [(OCancelJob, ex_request "other" "j1"); (ORetryJob, ex_request "other" "j1");
               (OListJobs, ex_request "other" "")] in
  let s := run_sched (worker_sem ex_env) [1; 0; 1; 2]%nat
             ((fun q => Handler Some q.1 q.2) <$> reqs, ex_world) in
  others_same "other" ex_world_db (pw_db s.2.1) /\
  refused (run (worker_sem ex_env) (Handler Some OCancelJob (ex_request "other" "j1")) ex_world).1.
Proof.
  intros reqs s.
  destruct (api_isolates_workspaces Some ex_env "other" reqs ex_world s.1 s.2) as [Ho Hr].
  - repeat constructor; by eexists.
  - rewrite <-surjective_pairing. apply run_sched_reachable.
  - split; [exact Ho|]. apply (Hr OCancelJob (ex_request "other" "j1") ex_job);
      [left|vm_compute; reflexivity|discriminate|right; right; left].
Defined.

(** A created job. *)
Lemma quota_gates_admission_witness :
  let p := Handler Some OCreateJob (ex_request "ws" "") in
  let tr := run_log (worker_sem ex_env) p ex_world in
  rs_status (run (worker_sem ex_env) p ex_world).1 = 201 /\ existsb admits tr = true /\
  forall t1 ev t2, tr = t1 ++ ev :: t2 -> admits ev = true -> omap decision t1 = [inl "ws"].
Proof.
  intros p tr. split; [vm_compute; reflexivity|]. split; [vm_compute; reflexivity|].
  destruct (quota_gates_admission Some OCreateJob (ex_request "ws" "") tr _ (run_log_exec _ _ ex_world))
    as [H _].
  intros t1 ev t2 Ht Ha. destruct (H t1 ev t2 Ht Ha) as (id & [= <-] & Hd). exact Hd.
Defined.

Definition ex_running : Job := claimed 9 ex_job.
Definition ex_running_world : pgworld * () :=
  ({| pw_db := set_jobs ex_world_db {[ "j1" := ex_running ]}; pw_inputs := [] |}, ()).

Lemma ex_running_wf : db_wf (pw_db ex_running_world.1).
Proof.
  split.
  - intros id j. simpl. rewrite lookup_singleton_Some. intros [<- <-]. split; [|by vm_compute; eexists].
    apply job_wf_claimed; [|done].
    split; simpl; try done; [by split; [lia|intros [|]]|by intros [|]|split; [by intros [? [=]]|by intros [|]]].
  - intros id p. simpl. rewrite lookup_singleton_Some. by intros [<- <-].
Qed.

(** The user cancels and retries; the scheduler claims. *)
Lemma running_job_belongs_to_its_run_witness :
  let work := [WApi OCancelJob (ex_request "ws" "j1"); WApi ORetryJob (ex_request "ws" "j1"); WClaim] in
  let s := run_sched (worker_sem ex_env) [0; 1; 2; 1; 0; 2]%nat
             (work_prog Some ex_lcfg ex_sched <$> work, ex_running_world) in
  jobs (pw_db s.2.1) !! "j1" = Some ex_running.
Proof.
  intros work s.
  apply (running_job_belongs_to_its_run Some ex_lcfg ex_sched ex_env "j1" ex_running work
           ex_running_world s.1 s.2 ex_running_wf); [vm_compute; reflexivity|reflexivity| |].
  - repeat constructor.
  - rewrite <-surjective_pairing. apply run_sched_reachable.
Defined.
