(* ===== verification/RunnerProofs.v ===== *)
(** * services/orchestrator/internal/scheduler: what a job run does

    A run of [runJob] settles its job exactly once, with a class of the taxonomy or
    with one completed output per rung; and the artifact it records is the one the
    ffmpeg adapter was told to write. *)
From S2P Require Export OrchProofs.
#[local] Open Scope Z_scope.

(** ** Settlements *)

Inductive outcome :=
| ODone (id : string) (outputs : list OutputProgress)
| OFail (id : string) (class : ErrorClass).

Definition settlement (ev : event orchE) : option outcome :=
  match ev with
  | Ev (OStore e) _ => match e with
                       | MarkCompleted id outs => Some (ODone id outs)
                       | MarkFailed id class _ => Some (OFail id class)
                       | _ => None
                       end
  | _ => None
  end.
Definition settlements (tr : list (event orchE)) : list outcome := omap settlement tr.
#[global] Arguments settlements : simpl never.

Lemma settlements_app t1 t2 : settlements (t1 ++ t2) = settlements t1 ++ settlements t2.
Proof. apply omap_app. Qed.
Lemma settlements_cons ev tr : settlements (ev :: tr) = option_list (settlement ev) ++ settlements tr.
Proof. unfold settlements. simpl. by destruct (settlement ev). Qed.

(** The engine reports stages of its taxonomy only ([Transcode_stage_ok]). *)
Definition engine_ok (ev : event orchE) : Prop :=
  match ev with
  | Ev e x => match e in orchE Y return Y -> Prop with
              | EngTranscode _ _ => fun r => match r.2 with Some er => stage_ok er | None => True end
              | _ => fun _ => True
              end x
  end.

(** Calls that settle nothing. *)
Definition unsettling (X : Type) (e : orchE X) : Prop :=
  match e with
  | OStore e => match e with MarkCompleted _ _ | MarkFailed _ _ _ => False | _ => True end
  | _ => True
  end.

Lemma unsettled {A} (p : prog orchE A) tr a :
  all_calls unsettling p -> exec p tr a -> settlements tr = [].
Proof.
  revert tr. induction p as [b|X e k IH]; intros tr; [by intros _ [-> _]|].
  intros [He Hk] (x & tr' & -> & H). rewrite settlements_cons, (IH x tr' (Hk x) H).
  destruct e as [Y e| | | | | | | | | | | | | | | | | | | | |]; try done. by destruct e.
Qed.

Section runner.
Context (cfg : SchedConfig).

Lemma publish_unsettling j st a b c d : all_calls unsettling (publish_state j st a b c d).
Proof. unfold publish_state. worker_calls. Qed.
Lemma meter_unsettling j k s : all_calls unsettling (meter_emit j k s).
Proof. unfold meter_emit, Emit. worker_calls. Qed.
#[local] Hint Resolve publish_unsettling meter_unsettling : calls.

Lemma fail_exec j c m tr u : exec (fail j c m) tr u -> settlements tr = [OFail (j_ID j) c].
Proof.
  unfold fail. intros (x & t & -> & H). rewrite settlements_cons. simpl. f_equal.
  eapply unsettled; [|exact H].
  worker_calls.
Qed.

Lemma fail_canceled_exec j tr u :
  exec (fail_canceled j) tr u -> settlements tr = [OFail (j_ID j) ErrorInternal].
Proof. unfold fail_canceled. intros (x & t & -> & H). rewrite settlements_cons. by eapply fail_exec. Qed.

(** The samples of rung [i] change its percentage only. *)
Lemma on_samples_exec j src i total ps s tr s' :
  exec (on_samples cfg j src i total ps s) tr s' ->
  exists f, (forall o, op_Name (f o) = op_Name o) /\ ls_outputs s' = alter f i (ls_outputs s).
Proof.
  revert s tr. induction ps as [|p ps IH]; intros s tr; cbn [on_samples].
  - intros [_ ->]. exists id. split; [done|]. by rewrite list_alter_id.
  - intros (t1 & t2 & s1 & -> & H1 & H2)%exec_bind. apply IH in H2 as (f & Hf & ->).
    assert (Hs1 : ls_outputs s1 = set_output (ls_outputs s) i (out_pct (pg_ProgressPct p))).
    { revert H1. unfold onProgress. intros (now & t & -> & H1). go_on H1. case_match.
      - by destruct H1 as [_ ->].
      - destruct H1 as (x & t' & -> & H1). go_on H1.
        apply (exec_bind (A:=_)) in H1 as (t3 & t4 & [] & -> & _ & H1). by destruct H1 as [_ ->]. }
    exists (f ∘ out_pct (pg_ProgressPct p)). split; [intros o; exact (Hf (out_pct _ o))|].
    rewrite Hs1. apply list_alter_alter_eq.
Qed.

Lemma on_samples_unsettling j src i total ps s :
  all_calls unsettling (on_samples cfg j src i total ps s).
Proof.
  revert s. induction ps as [|p ps IH]; intros s; [done|]. cbn [on_samples].
  apply all_calls_bind; [|done]. unfold onProgress. worker_calls.
Qed.

(** ** One rung *)

(** What a finished rung leaves behind: it was encoded as specified, its outputs
    were stored under its prefix, and the recorded key is its primary artifact. *)
Definition rung_done (j : Job) (preset : Preset) (src : Source) (tr : list (event orchE))
    (rung : Rung) (o : OutputProgress) : Prop :=
  exists input staging samples keys,
    Ev (EngTranscode input (rung_spec preset src rung staging)) (samples, None) ∈ tr /\
    Ev (PutDir (out_prefix j rung) staging) (Ok keys) ∈ tr /\
    o = {| op_Name := r_Name rung;
           op_ObjectKey := primaryArtifact keys (out_prefix j rung) (p_Container preset) (r_Name rung);
           op_State := "completed"; op_ProgressPct := f100 |}.

Definition failed_once (j : Job) (tr : list (event orchE)) : Prop :=
  exists class, settlements tr = [OFail (j_ID j) class] /\ ValidErrorClass class = true.

Lemma failed_app j t1 t2 : settlements t1 = [] -> failed_once j t2 -> failed_once j (t1 ++ t2).
Proof. intros H1 (c & H2 & Hc). exists c. by rewrite settlements_app, H1. Qed.
Lemma failed_cons j ev t : settlement ev = None -> failed_once j t -> failed_once j (ev :: t).
Proof. intros H1 (c & H2 & Hc). exists c. by rewrite settlements_cons, H1. Qed.
Lemma fail_once j c m tr u : exec (fail j c m) tr u -> ValidErrorClass c = true -> failed_once j tr.
Proof. intros H%fail_exec Hc. by exists c. Qed.
Lemma fail_canceled_once j tr u : exec (fail_canceled j) tr u -> failed_once j tr.
Proof. intros H%fail_canceled_exec. by exists ErrorInternal. Qed.

Lemma engine_class_ok e : stage_ok e -> ValidErrorClass (engine_class e) = true.
Proof. destruct e; [done|]. by vm_compute. Qed.

Lemma run_rung_exec j preset src inputPath i rung s tr r :
  exec (run_rung cfg j preset src inputPath i rung s) tr r -> Forall engine_ok tr ->
  match r with
  | None => failed_once j tr
  | Some s' => settlements tr = [] /\
      exists key, ls_outputs s' = alter (out_done key) i (ls_outputs s) /\
        forall o, op_Name o = r_Name rung -> rung_done j preset src tr rung (out_done key o)
  end.
Proof.
  unfold run_rung. intros (ctx & t0 & -> & H) [_ Hok]%Forall_cons. go_on H.
  destruct ctx.
  { apply (exec_bind (A:=_)) in H as (t1 & t2 & [] & -> & H1 & [-> ->]).
    apply failed_cons; [done|]. rewrite app_nil_r. by eapply fail_canceled_once. }
  destruct H as ([staging|e] & t1 & -> & H); apply Forall_cons in Hok as [_ Hok]; go_on H.
  2:{ apply (exec_bind (A:=_)) in H as (t2 & t3 & [] & -> & H1 & [-> ->]).
      do 2 (apply failed_cons; [done|]). rewrite app_nil_r. by eapply fail_once; [exact H1|]. }
  destruct H as ([samples outc] & t2 & -> & H). apply Forall_cons in Hok as [Heng Hok]. go_on H.
  apply (exec_bind (A:=_)) in H as (t3 & t4 & s1 & -> & H1 & H).
  apply Forall_app in Hok as [_ Hok].
  pose proof (unsettled _ _ _ (on_samples_unsettling _ _ _ _ _ _) H1) as Hq.
  apply on_samples_exec in H1 as (f & Hf & Hs1).
  destruct outc as [er|].
  - destruct H as ([] & t5 & -> & H). go_on H. destruct H as (ctx & t6 & -> & H). go_on H.
    destruct ctx; apply (exec_bind (A:=_)) in H as (t7 & t8 & [] & -> & H1 & [-> ->]);
      do 3 (apply failed_cons; [done|]); (apply failed_app; [done|]);
      do 2 (apply failed_cons; [done|]); rewrite app_nil_r.
    + by eapply fail_canceled_once.
    + eapply fail_once; [exact H1|]. by apply engine_class_ok.
  - destruct H as ([keys|e] & t5 & -> & H); go_on H;
      destruct H as ([] & t6 & -> & H); go_on H.
    + destruct H as [-> ->]. split.
      { rewrite !settlements_cons, settlements_app, Hq. done. }
      exists (primaryArtifact keys (out_prefix j rung) (p_Container preset) (r_Name rung)).
      split.
      * cbn [ls_outputs]. rewrite Hs1. cbn [ls_outputs]. unfold set_output. rewrite !list_alter_alter_eq.
        apply list_alter_ext; [|done]. intros o _. unfold out_done. simpl. by rewrite Hf.
      * intros o Ho. exists inputPath, staging, samples, keys. split; [set_solver|]. split; [set_solver|].
        unfold out_done. by rewrite Ho.
    + destruct H as (ctx & t7 & -> & H). go_on H.
      destruct ctx; apply (exec_bind (A:=_)) in H as (t8 & t9 & [] & -> & H1 & [-> ->]);
        do 3 (apply failed_cons; [done|]); (apply failed_app; [done|]);
        do 3 (apply failed_cons; [done|]); rewrite app_nil_r.
      * by eapply fail_canceled_once.
      * by eapply fail_once; [exact H1|].
Qed.

(** ** The ladder and the whole run *)

Lemma rung_done_mono j preset src t1 t2 rung o :
  t1 ⊆ t2 -> rung_done j preset src t1 rung o -> rung_done j preset src t2 rung o.
Proof. intros Hs (inp & st & sm & ks & H1 & H2 & H3). exists inp, st, sm, ks. auto. Qed.

Lemma run_ladder_exec j preset src inputPath rungs dn s tr r :
  exec (run_ladder cfg j preset src inputPath (length dn) rungs s) tr r -> Forall engine_ok tr ->
  ls_outputs s = dn ++ (pending_output <$> rungs) ->
  match r with
  | None => failed_once j tr
  | Some s' => settlements tr = [] /\
      exists outs, ls_outputs s' = dn ++ outs /\ Forall2 (rung_done j preset src tr) rungs outs
  end.
Proof.
  revert dn s tr. induction rungs as [|rung rungs IH]; intros dn s tr; cbn [run_ladder].
  { intros [-> ->] _ Hs. split; [done|]. by exists []. }
  intros (t1 & t2 & s1 & -> & H1 & H)%exec_bind [Hok1 Hok2]%Forall_app Hs.
  apply run_rung_exec in H1; [|done]. destruct s1 as [s1|].
  2:{ destruct H as [-> ->]. rewrite app_nil_r. done. }
  destruct H1 as (Hq & key & Hs1 & Hdone). rewrite Hs in Hs1. cbn [fmap list_fmap] in Hs1.
  replace (length dn) with (length dn + 0)%nat in Hs1 by lia. rewrite alter_app_r in Hs1. simpl in Hs1.
  specialize (IH (dn ++ [out_done key (pending_output rung)]) s1 t2).
  rewrite length_app, Nat.add_1_r in IH. specialize (IH H Hok2).
  rewrite <-app_assoc in IH. specialize (IH Hs1). destruct r as [s'|]; [|by apply failed_app].
  destruct IH as (Hq2 & outs & Ho & Hf). split; [by rewrite settlements_app, Hq, Hq2|].
  exists (out_done key (pending_output rung) :: outs). rewrite <-app_assoc in Ho. split; [exact Ho|].
  constructor.
  - eapply rung_done_mono; [|by apply Hdone]. set_solver.
  - eapply Forall2_impl; [exact Hf|]. intros ? ?. apply rung_done_mono. set_solver.
Qed.

Definition settled (j : Job) (preset : Preset) (src : Source) (tr : list (event orchE)) : Prop :=
  failed_once j tr \/
  exists outs, settlements tr = [ODone (j_ID j) outs] /\
               Forall2 (rung_done j preset src tr) (p_Ladder preset) outs.

Lemma settled_within j preset src t1 t2 t3 :
  settlements t1 = [] -> settlements t3 = [] -> settled j preset src t2 ->
  settled j preset src (t1 ++ t2 ++ t3).
Proof.
  intros H1 H3 [(c & H2 & Hc)|(outs & H2 & Hf)].
  - left. exists c. by rewrite !settlements_app, H1, H2, H3.
  - right. exists outs. rewrite !settlements_app, H1, H2, H3. split; [done|].
    eapply Forall2_impl; [exact Hf|]. intros ? ?. apply rung_done_mono. set_solver.
Qed.

Lemma encode_all_exec j preset src inputPath started tr u :
  exec (encode_all cfg j preset src inputPath started) tr u -> Forall engine_ok tr ->
  settled j preset src tr.
Proof.
  unfold encode_all. intros (t1 & t2 & s1 & -> & H1 & H)%exec_bind [Hok1 _]%Forall_app.
  apply (run_ladder_exec _ _ _ _ _ []) in H1; [|done|done]. go_on H. destruct s1 as [s1|].
  2:{ destruct H as [-> _]. left. by rewrite app_nil_r. }
  destruct H1 as (Hq & outs & Ho & Hf). simpl in Ho. right. exists outs.
  destruct H as (marked & t3 & -> & H). go_on H.
  assert (Hq3 : settlements t3 = []).
  { destruct marked; [|by destruct H as [-> _]]. destruct H as (now & t4 & -> & H). go_on H.
    rewrite settlements_cons. simpl. eapply unsettled; [|exact H]. worker_calls. }
  split; [by rewrite settlements_app, settlements_cons, Hq, Hq3, Ho|].
  eapply Forall2_impl; [exact Hf|]. intros ? ?. apply rung_done_mono. set_solver.
Qed.
(** The two ways a run settles its job. *)
Definition completed_once (j : Job) (tr : list (event orchE)) : Prop :=
  exists preset src outs,
    Ev (OStore (GetPreset (j_WorkspaceID j) (j_PresetID j))) (Ok preset) ∈ tr /\
    Ev (OStore (GetSource (j_WorkspaceID j) (j_SourceObjectKey j))) (Ok src) ∈ tr /\
    settlements tr = [ODone (j_ID j) outs] /\ Forall2 (rung_done j preset src tr) (p_Ladder preset) outs.


Lemma failed_within j t1 t2 t3 :
  settlements t1 = [] -> settlements t3 = [] -> failed_once j t2 -> failed_once j (t1 ++ t2 ++ t3).
Proof. intros H1 H3 (c & H2 & Hc). exists c. by rewrite !settlements_app, H1, H2, H3. Qed.

Lemma with_input_exec j preset src started tr u :
  exec (with_input cfg j preset src started) tr u -> Forall engine_ok tr -> settled j preset src tr.
Proof.
  unfold with_input. intros ([dir|e] & t1 & -> & H) [_ Hok]%Forall_cons; go_on H.
  2:{ left. apply failed_cons; [done|]. by eapply fail_once; [exact H|]. }
  destruct H as ([[]|e] & t2 & -> & H); apply Forall_cons in Hok as [_ Hok]; go_on H.
  - apply (exec_bind (A:=_)) in H as (t3 & t4 & [] & -> & H & Hr). apply Forall_app in Hok as [Hok _].
    destruct Hr as ([] & t5 & -> & [-> _]).
    apply (settled_within _ _ _ [_; _]); [done|done|]. by eapply encode_all_exec.
  - apply (exec_bind (A:=_)) in H as (t3 & t4 & [] & -> & H & Hr).
    destruct Hr as ([] & t5 & -> & [-> _]).
    destruct H as (ctx & t6 & -> & H). go_on H. left.
    apply (failed_within _ [_; _] (_ :: t6)); [done|done|]. apply failed_cons; [done|].
    destruct ctx; [by eapply fail_canceled_once|by eapply fail_once; [exact H|]].
Qed.

Lemma run_claimed_exec j tr u :
  exec (run_claimed cfg j) tr u -> Forall engine_ok tr -> failed_once j tr \/ completed_once j tr.
Proof.
  unfold run_claimed. intros (started & t0 & -> & H) [_ Hok]%Forall_cons. go_on H.
  apply (exec_bind (A:=_)) in H as (t1 & t2 & [] & -> & H1 & H). apply Forall_app in Hok as [_ Hok].
  apply unsettled in H1; [|worker_calls].
  apply (exec_bind (A:=_)) in H as (t3 & t4 & [] & -> & H3 & H). apply Forall_app in Hok as [_ Hok].
  apply unsettled in H3; [|worker_calls].
  destruct H as ([preset|e] & t5 & -> & H); apply Forall_cons in Hok as [_ Hok]; go_on H.
  2:{ left. apply failed_cons; [done|]. do 2 (apply failed_app; [done|]). apply failed_cons; [done|].
      by eapply fail_once; [exact H|]. }
  destruct H as ([src|e] & t6 & -> & H); apply Forall_cons in Hok as [_ Hok]; go_on H.
  2:{ left. apply failed_cons; [done|]. do 2 (apply failed_app; [done|]). do 2 (apply failed_cons; [done|]).
      by eapply fail_once; [exact H|]. }
  destruct H as (ok & t7 & -> & H); apply Forall_cons in Hok as [_ Hok]; go_on H.
  assert (Hw : settled j preset src t7).
  { destruct ok as [[]|]; [by eapply with_input_exec|..]; left; by eapply fail_once; [exact H|]. }
  destruct Hw as [Hw|(outs & Hq & Hf)].
  - left. apply failed_cons; [done|]. do 2 (apply failed_app; [done|]). by do 3 (apply failed_cons; [done|]).
  - right. exists preset, src, outs. split; [set_solver|]. split; [set_solver|]. split.
    + rewrite settlements_cons, !settlements_app, H1, H3, !settlements_cons, Hq. done.
    + eapply Forall2_impl; [exact Hf|]. intros ? ?. apply rung_done_mono. set_solver.
Qed.

(** C15: a job run settles its job exactly once.  In every run of [runJob], whatever
    the store, the object store, the engine and the cancellations do, the cancel
    function is registered first and removed last, and exactly one terminal
    statement is sent to the store, for this job.  Either it fails the job with a
    class of the error taxonomy (the engine's errors being in it), or it completes
    it, and then every rung of the preset read at the start was encoded without
    error as the preset and the probed source prescribe, its outputs were stored
    under the job's and the rung's prefix, and the recorded outputs are the rungs in
    ladder order, completed at 100 percent, each with its primary artifact. *)
Theorem runJob_settles_once j tr u :
  exec (runJob cfg j) tr u -> Forall engine_ok tr ->
  (exists mid, tr = Ev (Register (j_ID j)) () :: mid ++ [Ev (Deregister (j_ID j)) ()]) /\
  (failed_once j tr \/ completed_once j tr).
Proof.
  unfold runJob. intros ([] & t0 & -> & H) [_ Hok]%Forall_cons. go_on H.
  apply (exec_bind (A:=_)) in H as (mid & t1 & [] & -> & H & ([] & t2 & -> & [-> _])).
  apply Forall_app in Hok as [Hok _]. split; [by exists mid|].
  destruct (run_claimed_exec _ _ _ H Hok) as [Hf|(preset & src & outs & H1 & H2 & Hq & Hf)].
  - left. apply (failed_within _ [_] mid [_]); done.
  - right. exists preset, src, outs. split; [set_solver|]. split; [set_solver|]. split.
    + rewrite settlements_cons, settlements_app, Hq. done.
    + eapply Forall2_impl; [exact Hf|]. intros ? ?. apply rung_done_mono. set_solver.
Qed.
End runner.

(** ** Presets, the adapter and the runner agree *)

(** The muxed file, playlist or manifest of a rung. *)
Definition artifact_name (container rungName : string) : string :=
  rungName +:+ default "" (artifact_ext container).

Lemma mux_args_artifact out ext :
  artifact_ext (os_Container out) = Some ext ->
  exists args, mux_args out = Ok (args, FFmpeg.Join (os_DestDir out) (os_RungName out +:+ ext)).
Proof.
  unfold artifact_ext, mux_args. intros H.
  repeat match type of H with (if ?b then _ else _) = _ =>
    destruct b; [injection H as <-; eexists; reflexivity|] end.
  done.
Qed.

Lemma primaryArtifact_found keys prefix container name :
  is_Some (artifact_ext container) -> prefix +:+ "/" +:+ artifact_name container name ∈ keys ->
  primaryArtifact keys prefix container name = prefix +:+ "/" +:+ artifact_name container name.
Proof.
  unfold primaryArtifact, artifact_name. intros [ext ->]. simpl. intros Hin.
  destruct (list_find _ keys) as [[i k]|] eqn:Hf.
  - by apply list_find_Some in Hf as (_ & -> & _).
  - apply list_find_None in Hf. rewrite Forall_forall in Hf. by apply Hf in Hin.
Qed.

(** The command of a rung of a valid preset. *)
Lemma preset_args p src rung staging input :
  preset_wf p -> is_Some (artifact_ext (p_Container p)) /\ exists args,
    buildTranscodeArgs input (rung_spec p src rung staging)
    = Ok (args, FFmpeg.Join staging (artifact_name (p_Container p) (r_Name rung))).
Proof.
  intros Hv. pose proof (wf_container p Hv) as Hc. pose proof (wf_codec p Hv) as Hcd.
  pose proof (wf_rate p Hv) as Hr.
  assert (Hext : is_Some (artifact_ext (p_Container p))) by (set_unfold in Hc; destruct_or! Hc; rewrite Hc; eauto).
  split; [done|]. destruct Hext as [ext Hext].
  assert (Henc : exists enc, encoderFor (p_VideoCodec p) = Ok enc)
    by (set_unfold in Hcd; destruct_or! Hcd; rewrite Hcd; eexists; reflexivity).
  destruct Henc as [enc Henc].
  assert (Hrate : exists rc, rate_args (os_RateControl (rung_spec p src rung staging)) = Ok rc).
  { unfold rate_args. simpl. destruct Hr as [(-> & _)|[(-> & _)|(-> & _)]]; eexists; reflexivity. }
  destruct Hrate as [rc Hrc].
  destruct (mux_args_artifact (rung_spec p src rung staging) ext Hext) as [margs Hm].
  eexists. unfold buildTranscodeArgs. simpl. rewrite Henc. simpl. simpl in Hrc. rewrite Hrc. simpl. rewrite Hm. simpl.
  unfold artifact_name. rewrite Hext. reflexivity.
Qed.

(** A preset that passes validation can be encoded, and the runner finds what
    the encoder wrote.  For every rung of a valid preset, and every source, staging
    directory and input, the ffmpeg argument vector is built (the codec, rate
    control and container are all supported); the artifact it names is, in the
    staging directory, [<rung><ext>] for the extension of the container; and when
    that file is among the stored keys, [primaryArtifact] picks exactly its key. *)
Theorem valid_preset_encodes p src rung staging input prefix keys :
  Validate p = Ok () ->
  exists args name, name = artifact_name (p_Container p) (r_Name rung) /\
    buildTranscodeArgs input (rung_spec p src rung staging) = Ok (args, FFmpeg.Join staging name) /\
    (prefix +:+ "/" +:+ name ∈ keys ->
     primaryArtifact keys prefix (p_Container p) (r_Name rung) = prefix +:+ "/" +:+ name).
Proof.
  intros Hv%Validate_sound. destruct (preset_args p src rung staging input Hv) as (Hext & args & Hargs).
  exists args, (artifact_name (p_Container p) (r_Name rung)). split_and!; [done|done|]. by apply primaryArtifact_found.
Qed.

(** ** A concrete run *)

(** The job of the example database, claimed, and the run on the store itself. *)
Definition ex_run_w : pgworld * () :=
  ({| pw_db := (pg_ClaimNextQueued 9 ex_world_db).2; pw_inputs := [] |}, ()).
Definition ex_run_log : list (event orchE) := run_log (worker_sem ex_env) (runJob ex_sched ex_job) ex_run_w.

Lemma runJob_settles_once_witness :
  settlements ex_run_log =
    [ODone "j1" [{| op_Name := "720p"; op_ObjectKey := "outputs/ws/j1/720p/720p.mp4";
                    op_State := "completed"; op_ProgressPct := f100 |}]] /\
  (failed_once ex_job ex_run_log \/ completed_once ex_job ex_run_log).
Proof.
  split; [vm_compute; reflexivity|].
  refine (proj2 (runJob_settles_once ex_sched ex_job ex_run_log () (run_log_exec _ _ _) _)).
  apply run_log_answers. intros X e w. by destruct e.
Defined.

Lemma valid_preset_encodes_witness :
  exists args, buildTranscodeArgs "in" (rung_spec ex_preset ex_source (Build_Rung "720p" 1280 720) "/tmp/s")
               = Ok (args, "/tmp/s/720p.mp4") /\
  primaryArtifact ["o/a.log"; "o/720p.mp4"] "o" "mp4" "720p" = "o/720p.mp4".
Proof.
  destruct (valid_preset_encodes ex_preset ex_source (Build_Rung "720p" 1280 720) "/tmp/s" "in" "o"
              ["o/a.log"; "o/720p.mp4"]) as (args & name & Hn & Hb & Hp); [vm_compute; reflexivity|].
  rewrite Hn in Hb, Hp. exists args. split; [exact Hb|]. apply Hp. right. left.
Defined.
