(* ===== verification/LandedProofs.v ===== *)
(** * services/orchestrator/internal/consumer: what a delivery does

    Every delivery is settled exactly once, acknowledged only when its work is in
    the database; and redelivery never queues a job twice. *)
From S2P Require Export OrchProofs.
#[local] Open Scope Z_scope.

(** ** Settling a message *)

Inductive settling := SAck | STerm | SNak (d : duration).

Definition settle (ev : event orchE) : option settling :=
  match ev with
  | Ev Ack _ => Some SAck
  | Ev Term _ => Some STerm
  | Ev (NakWithDelay d) _ => Some (SNak d)
  | _ => None
  end.
Definition settled_by (tr : list (event orchE)) : list settling := omap settle tr.
#[global] Arguments settled_by : simpl never.

Lemma settled_by_app t1 t2 : settled_by (t1 ++ t2) = settled_by t1 ++ settled_by t2.
Proof. apply omap_app. Qed.
Lemma settled_by_cons ev tr : settled_by (ev :: tr) = option_list (settle ev) ++ settled_by tr.
Proof. unfold settled_by. simpl. by destruct (settle ev). Qed.

Definition unacking (X : Type) (e : orchE X) : Prop :=
  match e with Ack | Term | NakWithDelay _ => False | _ => True end.

Lemma unacked {A} (p : prog orchE A) tr a :
  all_calls unacking p -> exec p tr a -> settled_by tr = [].
Proof.
  revert tr. induction p as [b|X e k IH]; intros tr; [by intros _ [-> _]|].
  intros [He Hk] (x & tr' & -> & H). rewrite settled_by_cons, (IH x tr' (Hk x) H). by destruct e.
Qed.

(** The answer that stops a delivery, with the settlement the handler owes it: the
    asset cannot be read, an engine fault that may pass, or a dependency's error. *)
Definition obstacle (ev : event orchE) : option settling :=
  match ev with
  | Ev e x =>
      match e in orchE Y return Y -> option settling with
      | Exists _ => fun r => match r with Ok true => None | _ => Some (SNak (10 * Second)) end
      | MkdirTemp _ _ => fun r => if is_ok r then None else Some (SNak (10 * Second))
      | Download _ _ => fun r => if is_ok r then None else Some (SNak (10 * Second))
      | EngProbe _ => fun r =>
          match r with
          | inl (EngineError stage _) =>
              Some (if String.eqb stage StageAsset then STerm else SNak (30 * Second))
          | inl (EngineCtx _) => Some (SNak (30 * Second))
          | inr _ => None
          end
      | OStore s => fun r =>
          match s with
          | UpsertSource _ | HasActiveJobForSource _ _ _ | CreateJob _ =>
              if is_ok r then None else Some (SNak (10 * Second))
          | DefaultPreset _ =>
              match r with Ok _ | Err ENotFound => None | Err _ => Some (SNak (10 * Second)) end
          | _ => None
          end
      | _ => fun _ => None
      end x
  end.

Definition obstacles (tr : list (event orchE)) : list settling := omap obstacle tr.
#[global] Arguments obstacles : simpl never.

Lemma obstacles_cons ev tr : obstacles (ev :: tr) = option_list (obstacle ev) ++ obstacles tr.
Proof. unfold obstacles. simpl. by destruct (obstacle ev). Qed.

Lemma obstacles_app t1 t2 : obstacles (t1 ++ t2) = obstacles t1 ++ obstacles t2.
Proof. apply omap_app. Qed.

(** Calls no answer of which stops a delivery. *)
Definition harmless (X : Type) (e : orchE X) : Prop := forall x, obstacle (Ev e x) = None.

Lemma unobstructed {A} (p : prog orchE A) tr a :
  all_calls harmless p -> exec p tr a -> obstacles tr = [].
Proof.
  revert tr. induction p as [b|X e k IH]; intros tr; [by intros _ [-> _]|].
  intros [He Hk] (x & tr' & -> & H). by rewrite obstacles_cons, (He x), (IH x tr' (Hk x) H).
Qed.

(** The scratch directories a run created. *)
Definition scratch (ev : event orchE) : option string :=
  match ev with
  | Ev e x => match e in orchE Y return Y -> option string with
              | MkdirTemp _ _ => fun r => match r with Ok dir => Some dir | Err _ => None end
              | _ => fun _ => None
              end x
  end.

Definition no_scratch (X : Type) (e : orchE X) : Prop :=
  match e with MkdirTemp _ _ => False | _ => True end.

Lemma scratchless {A} (p : prog orchE A) tr a :
  all_calls no_scratch p -> exec p tr a -> omap scratch tr = [].
Proof.
  revert tr. induction p as [b|X e k IH]; intros tr; [by intros _ [-> _]|].
  intros [He Hk] (x & tr' & -> & H). simpl. specialize (IH x tr' (Hk x) H). destruct e; done.
Qed.

Section landed.
Context (uuid_Parse : string -> option string) (cfg : LandedConfig).

(** The workspace has no preset, the job is there already, or it was created. *)
Definition job_ensured (ev : UploadLanded) (tr : list (event orchE)) : Prop :=
  Ev (OStore (DefaultPreset (ul_WorkspaceID ev))) (Err ENotFound) ∈ tr \/
  exists preset, Ev (OStore (DefaultPreset (ul_WorkspaceID ev))) (Ok preset) ∈ tr /\
    (Ev (OStore (HasActiveJobForSource (ul_WorkspaceID ev) (ul_ObjectKey ev) (p_ID preset))) (Ok true) ∈ tr \/
     exists j, Ev (OStore (CreateJob (landed_job ev preset))) (Ok j) ∈ tr).

Lemma autoCreateJob_unacking ev : all_calls unacking (autoCreateJob ev).
Proof. unfold autoCreateJob, Emit. worker_calls. Qed.

Lemma Emit_harmless ws u kind j b es : all_calls harmless (Emit ws u kind j b es).
Proof. unfold Emit. worker_calls; by intros []. Qed.

Lemma autoCreateJob_exec ev tr ok :
  exec (autoCreateJob ev) tr ok ->
  obstacles tr = (if ok then [] else [SNak (10 * Second)]) /\ (ok = true -> job_ensured ev tr).
Proof.
  unfold autoCreateJob, job_ensured. intros ([p|e] & t1 & -> & H); go_on H.
  2:{ destruct e; destruct H as [-> ->]; (split; [done|]); try done. intros _. left. left. }
  destruct H as ([[]|e] & t2 & -> & H); go_on H; rewrite !obstacles_cons; simpl.
  - destruct H as [-> ->]. split; [done|]. intros _. right. exists p. split; [left|].
    left. right. left.
  - destruct H as ([j|e] & t3 & -> & H); go_on H; rewrite obstacles_cons; [|by destruct H as [-> ->]].
    split.
    + assert (Hh : ok = true /\ obstacles t3 = []).
      { apply (exec_bind (A:=_)) in H as (t4 & t5 & r & -> & H1 & (x & t6 & -> & (y & t7 & -> & [-> ->]))).
        rewrite obstacles_app, (unobstructed _ _ _ (Emit_harmless _ _ _ _ _ _) H1). done. }
      destruct Hh as [-> ->]. done.
    + intros _. right. exists p. split; [left|]. right. exists j. do 2 right. left.
  - by destruct H as [-> ->].
Qed.

Lemma job_ensured_mono ev t1 t2 : t1 ⊆ t2 -> job_ensured ev t1 -> job_ensured ev t2.
Proof.
  intros Hs [H|(p & Hp & [H|(j & H)])]; [by left; apply Hs|right; exists p..]; (split; [by apply Hs|]).
  - left. by apply Hs.
  - right. exists j. by apply Hs.
Qed.

(** An acknowledged delivery: probed from a downloaded copy, its source persisted,
    its job ensured when jobs are created automatically. *)
Definition handled (ev : UploadLanded) (tr : list (event orchE)) : Prop :=
  exists mi path,
    Ev (Exists (ul_ObjectKey ev)) (Ok true) ∈ tr /\
    Ev (Download (ul_ObjectKey ev) path) (Ok ()) ∈ tr /\ Ev (EngProbe path) (inr mi) ∈ tr /\
    Ev (OStore (UpsertSource (landed_source ev mi))) (Ok ()) ∈ tr /\
    (AutoCreateJobs cfg = true -> job_ensured ev tr).

(** What the delivery of a valid event is settled with: the settlement its first
    obstacle calls for, and an acknowledgement when nothing went wrong. *)
Definition verdict (tr : list (event orchE)) : settling := default SAck (head (obstacles tr)).

Lemma persist_exec ev mi tr u :
  exec (persist cfg ev mi) tr u ->
  settled_by tr = [verdict tr] /\
  (settled_by tr = [SAck] ->
   Ev (OStore (UpsertSource (landed_source ev mi))) (Ok ()) ∈ tr /\
   (AutoCreateJobs cfg = true -> job_ensured ev tr)).
Proof.
  unfold persist, nak, verdict. intros ([[]|e] & t1 & -> & H); go_on H.
  2:{ by destruct H as (x & t2 & -> & [-> _]). }
  destruct (AutoCreateJobs cfg).
  2:{ destruct H as (x & t2 & -> & [-> _]). split; [done|]. intros _. split; [left|done]. }
  apply (exec_bind (A:=_)) in H as (t2 & t3 & ok & -> & H1 & H).
  pose proof (unacked _ _ _ (autoCreateJob_unacking ev) H1) as Hu.
  apply autoCreateJob_exec in H1 as [Ho Hj].
  destruct ok; destruct H as (x & t4 & -> & [-> _]);
    rewrite settled_by_cons, settled_by_app, Hu, obstacles_cons, obstacles_app, Ho; (split; [done|]);
    [|done].
  intros _. split; [left|]. intros _. eapply job_ensured_mono; [|by apply Hj]. set_solver.
Qed.

Lemma probe_in_exec ev dir tr u :
  exec (probe_in cfg ev dir) tr u ->
  settled_by tr = [verdict tr] /\
  (settled_by tr = [SAck] ->
   forall pre, Ev (Exists (ul_ObjectKey ev)) (Ok true) ∈ pre -> handled ev (pre ++ tr)).
Proof.
  unfold probe_in, nak, verdict. intros ([[]|e] & t1 & -> & H); go_on H.
  2:{ by destruct H as (x & t2 & -> & [-> _]). }
  destruct H as ([er|mi] & t2 & -> & H); go_on H.
  - destruct er as [stage msg|e].
    + rewrite !obstacles_cons. simpl.
      destruct (String.eqb stage StageAsset); by destruct H as (x & t3 & -> & [-> _]).
    + by destruct H as (x & t3 & -> & [-> _]).
  - apply persist_exec in H as [Hs Ha]. rewrite !settled_by_cons, !obstacles_cons. simpl.
    split; [exact Hs|]. intros Hack. destruct (Ha Hack) as [Hup Hj]. intros pre Hpre.
    exists mi, (FFmpeg.Join dir "source"). repeat (split; [set_solver|]).
    intros Hauto. eapply job_ensured_mono; [|by apply Hj]. set_solver.
Qed.

(** C17: every delivery of a landed event is settled exactly once, and exactly as its
    run calls for.  In every run of the handler, whatever the dependencies answer,
    the message is settled once: terminated if the event is invalid; otherwise as
    the first answer that stops the run demands (terminated if the probe called the
    asset unreadable, redelivered after 30 seconds on any other probe error and
    after 10 on any other dependency's error or a missing object), and acknowledged
    if and only if no answer stopped it.  An acknowledged event's object existed, was
    downloaded and probed, its source record was persisted, and (when jobs are
    created automatically) the workspace has no preset or its job is in the queue.
    A scratch directory that was created is removed last. *)
Theorem handle_settles_once data more tr u :
  exec (handle uuid_Parse cfg data more) tr u ->
  settled_by tr = [match ParseUploadLanded uuid_Parse data more with
                   | Err _ => STerm
                   | Ok _ => verdict tr
                   end] /\
  (settled_by tr = [SAck] ->
   exists ev, ParseUploadLanded uuid_Parse data more = Ok ev /\ handled ev tr) /\
  (forall dir, dir ∈ omap scratch tr -> exists t, tr = t ++ [Ev (RemoveAll dir) ()]).
Proof.
  unfold handle, nak, verdict. destruct (ParseUploadLanded uuid_Parse data more) as [ev|e] eqn:Hp.
  2:{ intros (x & t1 & -> & [-> _]). split; [done|]. split; [done|]. set_solver. }
  intros ([[]|e] & t1 & -> & H); go_on H.
  2,3: destruct H as (x & t2 & -> & [-> _]); (split; [done|]); (split; [done|set_solver]).
  destruct H as ([dir|e] & t2 & -> & H); go_on H.
  2:{ destruct H as (x & t3 & -> & [-> _]). split; [done|]. split; [done|]. set_solver. }
  apply (exec_bind (A:=_)) in H as (t3 & t4 & [] & -> & H & ([] & t5 & -> & [-> _])).
  assert (Hpro : all_calls no_scratch (probe_in cfg ev dir))
    by (unfold probe_in, persist, nak, autoCreateJob, Emit; worker_calls).
  pose proof (scratchless _ _ _ Hpro H) as Hsc. apply probe_in_exec in H as [Hs Ha].
  split; [|split].
  - rewrite !settled_by_cons, settled_by_app, Hs, !obstacles_cons, obstacles_app. simpl.
    unfold verdict. by destruct (obstacles t3).
  - rewrite !settled_by_cons, settled_by_app. simpl. rewrite app_nil_r. intros Hack. exists ev. split; [done|].
    destruct (Ha Hack [Ev (Exists (ul_ObjectKey ev)) (Ok true);
        Ev (MkdirTemp (ScratchDir cfg) "probe-") (Ok dir)] ltac:(left)) as (mi & path & H1 & H2 & H3 & H4 & H5).
    exists mi, path. repeat (split; [set_solver|]).
    intros Hauto. eapply job_ensured_mono; [|by apply H5]. set_solver.
  - intros d. simpl. rewrite omap_app, Hsc. simpl. rewrite list_elem_of_singleton.
    intros ->. by exists (Ev (Exists (ul_ObjectKey ev)) (Ok true)
      :: Ev (MkdirTemp (ScratchDir cfg) "probe-") (Ok dir) :: t3).
Qed.

(** ** Redelivery *)

(** At most one job that is not failed for a source and a preset. *)
Definition active_for (ws key pid : string) (j : Job) : bool :=
  String.eqb (j_WorkspaceID j) ws && String.eqb (j_SourceObjectKey j) key
  && String.eqb (j_PresetID j) pid && negb (String.eqb (j_State j) StateFailed).

Definition at_most_one (ws key pid : string) (d : db) : Prop :=
  forall id1 id2 j1 j2, jobs d !! id1 = Some j1 -> jobs d !! id2 = Some j2 ->
    active_for ws key pid j1 = true -> active_for ws key pid j2 = true -> id1 = id2.

Lemma no_active ws key pid d :
  pg_HasActiveJobForSource ws key pid d = false ->
  forall id j, jobs d !! id = Some j -> active_for ws key pid j = false.
Proof.
  unfold pg_HasActiveJobForSource, all_jobs. intros H id j Hj.
  destruct (active_for ws key pid j) eqn:Ha; [|done].
  assert (Hin : existsb (active_for ws key pid) (map_to_list (jobs d)).*2 = true).
  { apply existsb_exists. exists j. split; [|done]. apply list_elem_of_In, list_elem_of_fmap.
    exists (id, j). split; [done|]. by apply elem_of_map_to_list. }
  unfold active_for in Hin. congruence.
Qed.

Lemma create_at_most_one ws key pid d uid j :
  at_most_one ws key pid d -> jobs d !! uid = None ->
  (active_for ws key pid j = true -> pg_HasActiveJobForSource ws key pid d = false) ->
  at_most_one ws key pid (set_jobs d (<[uid := j]> (jobs d))).
Proof.
  intros Hd Hn Hj id1 id2 j1 j2. simpl.
  destruct (decide (uid = id1)) as [<-|N1], (decide (uid = id2)) as [<-|N2];
    rewrite ?lookup_insert_eq, ?lookup_insert_ne by done; [done|..].
  - intros [= <-] H2 A1 A2. by rewrite (no_active _ _ _ _ (Hj A1) _ _ H2) in A2.
  - intros H1 [= <-] A1 A2. by rewrite (no_active _ _ _ _ (Hj A2) _ _ H1) in A1.
  - apply Hd.
Qed.

Section redelivery.
Context {V : Type} (env : orch_env V) (ws key pid : string).

Definition one (w : pgworld * V) : Prop := at_most_one ws key pid (pw_db w.1).

(** Any call but a job's creation. *)
Definition no_create (X : Type) (e : orchE X) : Prop :=
  match e with
  | OStore e => match e with
                | UpsertSource _ | DefaultPreset _ | HasActiveJobForSource _ _ _ => True
                | _ => False
                end
  | _ => True
  end.

Lemma no_create_step X (e : orchE X) w :
  no_create X e -> jobs (pw_db (worker_sem env X e w).2.1) = jobs (pw_db w.1).
Proof.
  intros He. destruct e; simpl in *; try (by destruct (env _ _ _ _)).
  destruct (orch_exec e w.1) as [r d] eqn:Ho. simpl.
  destruct (orch_exec_spec e w.1) as (now & uid & Hs). rewrite Ho in Hs. simpl in Hs.
  assert (Hj : jobs (ostore_apply now uid e (pw_db w.1)).2 = jobs (pw_db w.1)) by (by destruct e).
  destruct Hs as [Hs|(er & _ & [-> | ->])]; [|done|done]. by rewrite <-Hs in Hj.
Qed.

Lemma no_create_run {A} (p : prog orchE A) w :
  all_calls no_create p -> jobs (pw_db (run (worker_sem env) p w).2.1) = jobs (pw_db w.1).
Proof.
  intros Hp. symmetry.
  assert (PreOrder (fun w w' : pgworld * V => jobs (pw_db w.1) = jobs (pw_db w'.1)))
    by (split; [by intros x|intros x y z Hxy Hyz; by rewrite Hxy]).
  apply (run_all_calls (worker_sem env) no_create (fun w w' => jobs (pw_db w.1) = jobs (pw_db w'.1)) p Hp).
  intros X e v He. symmetry. by apply no_create_step.
Qed.

Lemma one_jobs w w' : jobs (pw_db w'.1) = jobs (pw_db w.1) -> one w -> one w'.
Proof. unfold one, at_most_one. by intros ->. Qed.

Lemma has_active_step w0 k0 p0 w :
  let '(r, w') := worker_sem env _ (OStore (HasActiveJobForSource w0 k0 p0)) w in
  pw_db w'.1 = pw_db w.1 /\ forall b, r = Ok b -> pg_HasActiveJobForSource w0 k0 p0 (pw_db w.1) = b.
Proof.
  simpl. destruct (orch_exec (HasActiveJobForSource w0 k0 p0) w.1) as [r d] eqn:Ho. simpl.
  destruct (orch_exec_spec (HasActiveJobForSource w0 k0 p0) w.1) as (now & uid & Hs).
  rewrite Ho in Hs. simpl in Hs. split; [by eapply up_to_fault_read|].
  intros b ->. apply up_to_fault_ok in Hs. congruence.
Qed.

Lemma create_step ev preset w :
  one w ->
  pg_HasActiveJobForSource (ul_WorkspaceID ev) (ul_ObjectKey ev) (p_ID preset) (pw_db w.1) = false ->
  one (worker_sem env _ (OStore (CreateJob (landed_job ev preset))) w).2.
Proof.
  intros H1 Hno. simpl. destruct (orch_exec _ w.1) as [r d] eqn:Ho. unfold one. simpl.
  destruct (orch_exec_spec (CreateJob (landed_job ev preset)) w.1) as (now & uid & Hs).
  rewrite Ho in Hs. simpl in Hs.
  assert (Hc : at_most_one ws key pid (pg_CreateJob now uid (landed_job ev preset) (pw_db w.1)).2).
  { unfold pg_CreateJob. case_match eqn:Hb; [|exact H1]. bool_prop.
    apply create_at_most_one; [exact H1|done|]. unfold active_for. simpl.
    rewrite !andb_true_iff, !String.eqb_eq. intros [[[<- <-] <-] _]. exact Hno. }
  destruct Hs as [Hs|(er & _ & [-> | ->])]; [by rewrite <-Hs in Hc|exact H1|exact Hc].
Qed.

Lemma autoCreate_one ev w : one w -> one (run (worker_sem env) (autoCreateJob ev) w).2.
Proof.
  intros H1. unfold autoCreateJob. rewrite run_bind.
  destruct (run _ (call (OStore (DefaultPreset _))) w) as [r w1] eqn:Hd.
  assert (Hw1 : one w1).
  { replace w1 with (run (worker_sem env) (call (OStore (DefaultPreset (ul_WorkspaceID ev)))) w).2
      by (by rewrite Hd). eapply one_jobs; [apply no_create_run|exact H1]. worker_calls. }
  clear Hd. destruct r as [preset|er]; [|by destruct er].
  rewrite run_bind, run_call.
  pose proof (has_active_step (ul_WorkspaceID ev) (ul_ObjectKey ev) (p_ID preset) w1) as Ha.
  destruct (worker_sem env _ (OStore (HasActiveJobForSource _ _ _)) w1) as [active w2].
  destruct Ha as [Hdb Ha]. assert (Hw2 : one w2) by (unfold one; by rewrite Hdb).
  destruct active as [[]|er]; [done| |done].
  rewrite run_bind, run_call. specialize (Ha false eq_refl). rewrite <-Hdb in Ha.
  pose proof (create_step ev preset w2 Hw2 Ha) as Hc.
  destruct (worker_sem env _ (OStore (CreateJob _)) w2) as [created w3]. simpl in Hc.
  destruct created as [j|er]; [|done]. eapply one_jobs; [apply no_create_run|exact Hc].
  unfold Emit. worker_calls.
Qed.
End redelivery.

Lemma run_one_bind {V A B} (env : orch_env V) ws key pid (p : prog orchE A) (f : A -> prog orchE B) w :
  one ws key pid (run (worker_sem env) p w).2 ->
  (forall a w', one ws key pid w' -> one ws key pid (run (worker_sem env) (f a) w').2) ->
  one ws key pid (run (worker_sem env) (p ≫= f) w).2.
Proof. rewrite run_bind. destruct (run _ p w) as [a w']. simpl. auto. Qed.

Lemma call_one {V X B} (env : orch_env V) ws key pid (e : orchE X) (f : X -> prog orchE B) w :
  no_create X e -> one ws key pid w ->
  (forall x w', one ws key pid w' -> one ws key pid (run (worker_sem env) (f x) w').2) ->
  one ws key pid (run (worker_sem env) (call e ≫= f) w).2.
Proof.
  intros He H1 Hf. apply run_one_bind; [|done]. rewrite run_call.
  eapply one_jobs; [by apply no_create_step|done].
Qed.

Ltac one_tac :=
  repeat match goal with
  | |- one _ _ _ (run _ (mbind _ (call _)) _).2 => apply call_one; [exact I|assumption|intros ? ? ?]
  | |- one _ _ _ (run _ (mbind _ (autoCreateJob _)) _).2 =>
      apply run_one_bind; [by apply autoCreate_one|intros ? ? ?]
  | |- one _ _ _ (run _ (call _) _).2 =>
      rewrite run_call; eapply one_jobs; [by apply no_create_step|assumption]
  | |- one _ _ _ (run _ (match _ with _ => _ end) _).2 => case_match
  | |- _ => assumption
  end.

Lemma handle_one {V} (env : orch_env V) ws key pid data more w :
  one ws key pid w -> one ws key pid (run (worker_sem env) (handle uuid_Parse cfg data more) w).2.
Proof.
  intros H1. unfold handle, nak. one_tac.
  apply run_one_bind; [|intros; one_tac]. unfold probe_in, persist, nak. one_tac.
Qed.

(** A consumer's deliveries, one after the other. *)
Fixpoint deliver {V} (env : orch_env V) (msgs : list (result UploadLanded * bool)) (w : pgworld * V)
    : pgworld * V :=
  match msgs with
  | [] => w
  | (data, more) :: msgs' =>
      deliver env msgs' (run (worker_sem env) (handle uuid_Parse cfg data more) w).2
  end.

(** C18: redelivery never queues a job twice.  However often and in whatever mixture
    events are delivered to the consumer, one after the other, with database faults
    and lost replies at any statement and every other dependency answering
    anything, there is never more than one job that has not failed for a workspace,
    source and preset that had at most one before. *)
Theorem redelivery_queues_once {V} (env : orch_env V) ws key pid msgs (w : pgworld * V) :
  at_most_one ws key pid (pw_db w.1) -> at_most_one ws key pid (pw_db (deliver env msgs w).1).
Proof.
  revert w. induction msgs as [|[data more] msgs IH]; intros w H1; [done|].
  simpl. apply IH. by apply handle_one.
Qed.
End landed.

(** ** A lost reply, and the redelivery *)

Definition ex_landed : UploadLanded :=
  {| ul_UploadID := "u"; ul_WorkspaceID := "ws"; ul_UserID := "u"; ul_ObjectKey := ex_key;
     ul_SHA256 := ex_hex; ul_SizeBytes := 10; ul_Mime := "video/mp4"; ul_LandedAt := 5 |}.

(** The reply to the first job's insert is lost: the fourth statement. *)
Definition ex_lossy : pgworld * () :=
  ({| pw_db := ex_world_db;
      pw_inputs := [(1, "", FOk); (2, "", FOk); (3, "", FOk); (4, "j2", FAfter)] |}, ()).

Lemma redelivery_queues_once_witness :
  let once := deliver Some ex_lcfg ex_env [(Ok ex_landed, false)] ex_lossy in
  let twice := deliver Some ex_lcfg ex_env [(Ok ex_landed, false); (Ok ex_landed, false)] ex_lossy in
  pg_HasActiveJobForSource "ws" ex_key "p1" (pw_db once.1) = true /\
  jobs (pw_db once.1) = jobs (pw_db twice.1) /\ at_most_one "ws" ex_key "p1" (pw_db twice.1).
Proof.
  intros once twice. split; [vm_compute; reflexivity|]. split; [vm_compute; reflexivity|].
  apply (redelivery_queues_once Some ex_lcfg ex_env "ws" ex_key "p1").
  intros id1 id2 j1 j2. simpl. rewrite !lookup_singleton_Some. intros [<- _] [<- _]. done.
Defined.

Lemma handle_settles_once_witness :
  let p := handle Some ex_lcfg (Ok ex_landed) false in
  let tr := run_log (worker_sem ex_env) p ex_world in
  settled_by tr = [SAck] /\ exists ev, ParseUploadLanded Some (Ok ex_landed) false = Ok ev /\
                                      handled ex_lcfg ev tr.
Proof.
  intros p tr.
  destruct (handle_settles_once Some ex_lcfg (Ok ex_landed) false tr _ (run_log_exec _ _ ex_world))
    as (Hs & Ha & _).
  assert (Hv : verdict tr = SAck) by (vm_compute; reflexivity).
  simpl in Hs. rewrite Hv in Hs. split; [exact Hs|exact (Ha Hs)].
Defined.
