(* ===== verification/SchedLoop.v ===== *)
(** * services/orchestrator/internal/scheduler: the claim loop, the slots and cancellation

    The scheduler as a state machine: [Run]'s loop, the buffered channels [sem]
    and [wake], the goroutines it spawns (each a [runJob]), and the map of cancel
    functions the API's [Cancel] looks in.  An action is one atomic step of one
    participant; [sched_do] is executable, and [sched_step] lets any enabled
    participant move. *)
From S2P Require Export RunnerProofs.
#[local] Open Scope Z_scope.

(** Where [Run] stands. *)
Inductive loop_pc := LAcquire | LClaim | LWait | LDrain | LReturned.

#[export] Instance loop_pc_eq_dec : EqDecision loop_pc.
Proof. solve_decision. Defined.

(** *** [Cancel]

    A call of [Cancel] makes two steps: it looks the cancel function up under the
    mutex, and calls it after unlocking. *)
Inductive cancelE : Type -> Type :=
| LookupCancel (jobID : string) : cancelE (option nat)
| CallCancel (n : nat) : cancelE ().

(** From the found cancel function on. *)
Definition deliver_cancel (n : nat) : prog cancelE bool := _ ← call (CallCancel n); Ret true.

Definition Cancel (jobID : string) : prog cancelE bool :=
  cancel ← call (LookupCancel jobID);
  match cancel with
  | Some n => deliver_cancel n
  | None => Ret false
  end.

(** A goroutine is known by the number of its spawn; its context is cancelled by the
    user ([canceled]) or with the scheduler's ([ctxDone]).  The API's calls of [Cancel]
    are known by their number too ([cancelers]), and stay there with their answer. *)
Record scheduler := {
  pc : loop_pc;
  sem_len : Z;
  wake : bool;
  goroutines : gmap nat (prog orchE ());
  cancels : gmap string nat;
  canceled : gset nat;
  ctxDone : bool;
  spawned : nat;
  cancelers : gmap nat (prog cancelE bool);
  called : nat
}.

Definition new_scheduler : scheduler :=
  {| pc := LAcquire; sem_len := 0; wake := false; goroutines := ∅; cancels := ∅; canceled := ∅;
     ctxDone := false; spawned := 0; cancelers := ∅; called := 0 |}.

Definition set_pc (s : scheduler) p : scheduler :=
  {| pc := p; sem_len := sem_len s; wake := wake s; goroutines := goroutines s; cancels := cancels s;
     canceled := canceled s; ctxDone := ctxDone s; spawned := spawned s; cancelers := cancelers s; called :=
     called s |}.
Definition set_sem (s : scheduler) z : scheduler :=
  {| pc := pc s; sem_len := z; wake := wake s; goroutines := goroutines s; cancels := cancels s; canceled :=
     canceled s; ctxDone := ctxDone s; spawned := spawned s; cancelers := cancelers s; called := called s
     |}.
Definition set_wake (s : scheduler) b : scheduler :=
  {| pc := pc s; sem_len := sem_len s; wake := b; goroutines := goroutines s; cancels := cancels s; canceled
     := canceled s; ctxDone := ctxDone s; spawned := spawned s; cancelers := cancelers s; called := called s
     |}.
Definition set_goroutines (s : scheduler) g : scheduler :=
  {| pc := pc s; sem_len := sem_len s; wake := wake s; goroutines := g; cancels := cancels s; canceled :=
     canceled s; ctxDone := ctxDone s; spawned := spawned s; cancelers := cancelers s; called := called s
     |}.
Definition set_cancels (s : scheduler) m : scheduler :=
  {| pc := pc s; sem_len := sem_len s; wake := wake s; goroutines := goroutines s; cancels := m; canceled :=
     canceled s; ctxDone := ctxDone s; spawned := spawned s; cancelers := cancelers s; called := called s
     |}.
Definition set_canceled (s : scheduler) c : scheduler :=
  {| pc := pc s; sem_len := sem_len s; wake := wake s; goroutines := goroutines s; cancels := cancels s;
     canceled := c; ctxDone := ctxDone s; spawned := spawned s; cancelers := cancelers s; called := called s
     |}.
Definition set_ctxDone (s : scheduler)  : scheduler :=
  {| pc := pc s; sem_len := sem_len s; wake := wake s; goroutines := goroutines s; cancels := cancels s;
     canceled := canceled s; ctxDone := true; spawned := spawned s; cancelers := cancelers s; called :=
     called s |}.
Definition set_cancelers (s : scheduler) m : scheduler :=
  {| pc := pc s; sem_len := sem_len s; wake := wake s; goroutines := goroutines s; cancels := cancels s;
     canceled := canceled s; ctxDone := ctxDone s; spawned := spawned s; cancelers := m; called := called s
     |}.

(** [go func(j)]: the next goroutine. *)
Definition spawn (s : scheduler) (p : prog orchE ()) : scheduler :=
  {| pc := LAcquire; sem_len := sem_len s; wake := wake s; goroutines := <[spawned s := p]> (goroutines s);
     cancels := cancels s; canceled := canceled s; ctxDone := ctxDone s; spawned := S (spawned s); cancelers
     := cancelers s; called := called s |}.

(** A caller enters [Cancel]. *)
Definition start_cancel (s : scheduler) (jobID : string) : scheduler :=
  {| pc := pc s; sem_len := sem_len s; wake := wake s; goroutines := goroutines s; cancels := cancels s;
     canceled := canceled s; ctxDone := ctxDone s; spawned := spawned s; cancelers := <[called s := Cancel
     jobID]> (cancelers s); called := S (called s) |}.

(** [Wake]: a full channel drops the token. *)
Definition Wake_ (s : scheduler) : scheduler := set_wake s true.

(** One step of a [Cancel]. *)
Definition cancel_call {X} (e : cancelE X) (s : scheduler) : X * scheduler :=
  match e in cancelE Y return Y * scheduler with
  | LookupCancel jobID => (cancels s !! jobID, s)
  | CallCancel n => (tt, set_canceled s ({[ n ]} ∪ canceled s))
  end.

Definition cancel_next (p : prog cancelE bool) (s : scheduler) : option (prog cancelE bool * scheduler) :=
  match p with
  | Vis e k => let '(x, s') := cancel_call e s in Some (k x, s')
  | Ret _ => None
  end.

(** It touches nothing but the cancelled contexts, which only grow. *)
Lemma cancel_next_frame p s p' s' :
  cancel_next p s = Some (p', s') -> exists cs, canceled s ⊆ cs /\ s' = set_canceled s cs.
Proof.
  destruct p as [|X e k]; [done|]. destruct e; simpl; intros [= _ <-].
  - exists (canceled s). split; [done|]. by destruct s.
  - eexists. split; [|done]. set_solver.
Qed.

(** One step of the call [c], seen by the rest. *)
Ltac cancel_step_cases Hdo :=
  apply bind_Some in Hdo as (? & ? & Hdo); apply bind_Some in Hdo as ([? ?] & Hdo' & Hdo);
  let H := fresh in pose proof (cancel_next_frame _ _ _ _ Hdo') as (? & H & ->); injection Hdo as <- <-.

Definition Running (s : scheduler) : Z := sem_len s.

Inductive action :=
| AAcquire | AClaim | ATick | AWoken | ADone | AReturn
| AGo (n : nat) | AFinish (n : nat)
| AShutdown | ACancel (jobID : string) | ACancelStep (c : nat) | AWake
| AStore (Y : Type) (e : ostoreE Y).

Section loop.
Context {V : Type} (env : orch_env V) (cfg : SchedConfig).

Definition sworld : Type := scheduler * (pgworld * V).

(** One call of goroutine [n]. *)
Definition go_call (n : nat) {X} (e : orchE X) (s : scheduler) (w : pgworld * V)
    : X * scheduler * (pgworld * V) :=
  match e in orchE Y return Y * scheduler * (pgworld * V) with
  | Register id => (tt, set_cancels s (<[id := n]> (cancels s)), w)
  | Deregister id => (tt, set_cancels s (delete id (cancels s)), w)
  | Events.Wake => (tt, Wake_ s, w)
  | CtxErr => (if ctxDone s || bool_decide (n ∈ canceled s) then Some ECanceled else None, s, w)
  | ParentErr => (if ctxDone s then Some ECanceled else None, s, w)
  | e => let '(x, w') := worker_sem env _ e w in (x, s, w')
  end.

Definition sched_do (a : action) (sw : sworld) : option sworld :=
  let '(s, w) := sw in
  match a with
  | AAcquire =>
      if bool_decide (pc s = LAcquire) && (sem_len s <? Slots cfg)
      then Some (set_pc (set_sem s (sem_len s + 1)) LClaim, w) else None
  | AClaim =>
      if bool_decide (pc s = LClaim) then
        let '(r, d) := orch_exec ClaimNextQueued w.1 in
        match r with
        | Err _ => Some (set_pc (set_sem s (sem_len s - 1)) LWait, (d, w.2))
        | Ok j => Some (spawn s (runJob cfg j), (d, w.2))
        end
      else None
  | ATick => if bool_decide (pc s = LWait) then Some (set_pc s LAcquire, w) else None
  | AWoken =>
      if bool_decide (pc s = LWait) && wake s then Some (set_pc (set_wake s false) LAcquire, w) else None
  | ADone =>
      if bool_decide (pc s = LAcquire \/ pc s = LWait) && ctxDone s then Some (set_pc s LDrain, w) else None
  | AReturn =>
      if bool_decide (pc s = LDrain /\ goroutines s = ∅) then Some (set_pc s LReturned, w) else None
  | AGo n =>
      match goroutines s !! n with
      | Some (Vis e k) =>
          let '(x, s', w') := go_call n e s w in
          Some (set_goroutines s' (<[n := k x]> (goroutines s')), w')
      | _ => None
      end
  | AFinish n =>
      match goroutines s !! n with
      | Some (Ret _) => Some (Wake_ (set_sem (set_goroutines s (delete n (goroutines s))) (sem_len s - 1)), w)
      | _ => None
      end
  | AShutdown => Some (set_ctxDone s, w)
  | ACancel id => Some (start_cancel s id, w)
  | ACancelStep c =>
      p ← cancelers s !! c;
      '(p', s') ← cancel_next p s;
      Some (set_cancelers s' (<[c := p']> (cancelers s')), w)
  | AWake => Some (Wake_ s, w)
  | AStore _ e => Some (s, ((orch_exec e w.1).2, w.2))
  end.

Definition sched_step (a b : sworld) : Prop := exists act, sched_do act a = Some b.

Fixpoint sched_run (acts : list action) (sw : sworld) : option sworld :=
  match acts with
  | [] => Some sw
  | a :: acts' => sw' ← sched_do a sw; sched_run acts' sw'
  end.

Lemma sched_run_reachable acts sw sw' : sched_run acts sw = Some sw' -> rtc sched_step sw sw'.
Proof.
  revert sw. induction acts as [|a acts IH]; intros sw; simpl; [by intros [= ->]|].
  destruct (sched_do a sw) as [sw1|] eqn:Ha; [|done]. intros H. eapply rtc_l; [by exists a|]. by apply IH.
Qed.

(** ** The slots *)

Definition claiming (p : loop_pc) : Z := match p with LClaim => 1 | _ => 0 end.

(** The semaphore counts the goroutines and the slot the loop holds while it claims;
    goroutine numbers are fresh; [Run] returns only when it is done and drained. *)
Record sched_inv (s : scheduler) : Prop := {
  si_sem : sem_len s = Z.of_nat (size (goroutines s)) + claiming (pc s);
  si_slots : sem_len s <= Slots cfg;
  si_fresh : forall n, (spawned s <= n)%nat -> goroutines s !! n = None;
  si_done : pc s = LDrain \/ pc s = LReturned -> ctxDone s = true;
  si_drained : pc s = LReturned -> goroutines s = ∅
}.

Lemma go_call_same n {X} (e : orchE X) s w x s' w' :
  go_call n e s w = (x, s', w') ->
  pc s' = pc s /\ sem_len s' = sem_len s /\ goroutines s' = goroutines s /\ spawned s' = spawned s /\
  ctxDone s' = ctxDone s.
Proof.
  destruct e; simpl; try (intros [= _ <- _]; done);
    match goal with |- (let '(_, _) := ?p in _) = _ -> _ => destruct p end; by intros [= _ <- _].
Qed.

Lemma sched_inv_step act s w s' w' :
  sched_do act (s, w) = Some (s', w') -> sched_inv s -> sched_inv s'.
Proof.
  intros Hdo [Hsem Hslots Hfresh Hdone Hdr]. destruct act; simpl in Hdo.
  - case_match eqn:Hb; [|done]. injection Hdo as <- <-. bool_prop.
    rewrite H in Hsem; simpl in Hsem. split; simpl; try done; [lia|lia|by intros [|]].
  - case_match eqn:Hb; [|done]. bool_prop. rewrite Hb in Hsem; simpl in Hsem.
    destruct (orch_exec _ _) as [[j|er] d]; injection Hdo as <- <-; split; simpl; try done; try lia;
      try (by intros [|]).
    + rewrite map_size_insert_None by (by apply Hfresh). lia.
    + intros n Hn. rewrite lookup_insert_ne by lia. apply Hfresh. lia.
  - case_match eqn:Hb; [|done]. injection Hdo as <- <-. bool_prop. rewrite Hb in Hsem; simpl in Hsem.
    split; simpl; try done. by intros [|].
  - case_match eqn:Hb; [|done]. injection Hdo as <- <-. bool_prop. rewrite H in Hsem; simpl in Hsem.
    split; simpl; try done. by intros [|].
  - case_match eqn:Hb; [|done]. injection Hdo as <- <-. bool_prop.
    split; simpl; try done. destruct H as [H|H]; by rewrite H in Hsem.
  - case_match eqn:Hb; [|done]. injection Hdo as <- <-. bool_prop. destruct Hb as [H Hg].
    split; simpl; try done; [by rewrite H in Hsem|by intros _; apply Hdone; left].
  - destruct (goroutines s !! n) as [[u|X e k]|] eqn:Hn; [done| |done].
    destruct (go_call n e s w) as [[x s1] w1] eqn:Hc. injection Hdo as <- <-.
    apply go_call_same in Hc as (Hp & Hs & Hg & Hsp & Hct). 
    split; simpl; rewrite ?Hp, ?Hs, ?Hg, ?Hsp, ?Hct; try done.
    + rewrite map_size_insert_Some; [done|by eexists].
    + intros m Hm. rewrite lookup_insert_ne; [by apply Hfresh|]. intros ->. by rewrite Hfresh in Hn.
    + intros Hr. rewrite (Hdr Hr) in Hn. by rewrite lookup_empty in Hn.
  - destruct (goroutines s !! n) as [[u|X e k]|] eqn:Hn; [|done|done]. injection Hdo as <- <-.
    assert (Hsz : size (goroutines s) = S (size (delete n (goroutines s)))).
    { rewrite <-(map_size_insert_None n (Ret u)); [|apply lookup_delete_eq].
      f_equal. by rewrite insert_delete_id. }
    split; simpl; try done; [lia|lia| |].
    + intros m Hm. rewrite lookup_delete_None. right. by apply Hfresh.
    + intros Hr. rewrite (Hdr Hr). apply delete_empty.
  - injection Hdo as <- <-. by split.
  - injection Hdo as <- <-. by split.
  - cancel_step_cases Hdo. by split.
  - injection Hdo as <- <-. by split.
  - injection Hdo as <- <-. by split.
Qed.

Lemma sched_inv_reachable w sw : 1 <= Slots cfg -> rtc sched_step (new_scheduler, w) sw -> sched_inv sw.1.
Proof.
  intros Hs Hr. apply (rtc_ind_r (fun sw => sched_inv sw.1) (new_scheduler, w)) in Hr; [exact Hr| |].
  - split; simpl; try done; [lia|by intros [|]].
  - intros [s1 w1] [s2 w2] _ [act Hact] Hi. by eapply sched_inv_step.
Qed.

(** C25: the slots.  In every reachable state of the scheduler, whatever the loop,
    the goroutines, the API and shutdown do in whatever order, at most [Slots] jobs
    run at once, the semaphore is exactly their number (plus the slot the loop holds
    while it claims), so that no slot is ever lost: when fewer run, the loop can
    take one.  [Run] returns only after shutdown, with no job left running. *)
Theorem slots_bound_encodes w s w' :
  1 <= Slots cfg -> rtc sched_step (new_scheduler, w) (s, w') ->
  Z.of_nat (size (goroutines s)) <= Slots cfg /\
  Running s = Z.of_nat (size (goroutines s)) + claiming (pc s) /\
  (pc s = LAcquire -> Z.of_nat (size (goroutines s)) < Slots cfg -> is_Some (sched_do AAcquire (s, w'))) /\
  (pc s = LReturned -> ctxDone s = true /\ goroutines s = ∅).
Proof.
  intros Hs Hr. apply sched_inv_reachable in Hr as [Hsem Hslots _ Hdone Hdr]; [|done]. simpl in *.
  assert (0 <= claiming (pc s)) by (destruct (pc s); simpl; lia).
  split; [lia|]. split; [done|]. split.
  - intros Hp Hlt. unfold sched_do. rewrite Hp, bool_decide_true, (proj2 (Z.ltb_lt _ _)); [by eexists| |done].
    rewrite Hp in Hsem. simpl in Hsem. lia.
  - intros Hp. split; [apply Hdone; by right|by apply Hdr].
Qed.

(** ** Cancellation *)

Definition no_registry (X : Type) (e : orchE X) : Prop :=
  match e with Register _ | Deregister _ => False | _ => True end.

(** A run between its registration and its deregistration. *)
Definition live_run (id : string) (p : prog orchE ()) : Prop :=
  exists q : prog orchE (), p = (q ≫= fun _ => call (Deregister id)) /\ all_calls no_registry q.

(** The three phases of a goroutine. *)
Definition run_phase (p : prog orchE ()) : Prop :=
  (exists j, p = runJob cfg j) \/ (exists id, live_run id p) \/ p = Ret tt.

Lemma run_claimed_no_registry j : all_calls no_registry (run_claimed cfg j).
Proof. eapply all_calls_impl; [|apply run_claimed_calls]. intros X e. by destruct e. Qed.

(** Every goroutine is in a phase, and every cancel function is that of a live run of
    its job. *)
Record registry_inv (s : scheduler) : Prop := {
  ri_fresh : forall n, (spawned s <= n)%nat -> goroutines s !! n = None;
  ri_phase : forall n p, goroutines s !! n = Some p -> run_phase p;
  ri_owner : forall id n, cancels s !! id = Some n ->
               exists p, goroutines s !! n = Some p /\ live_run id p
}.

(** What a live run does next. *)
Definition live_next (id : string) {X} (e : orchE X) : (X -> prog orchE ()) -> Prop :=
  match e in orchE Y return (Y -> prog orchE ()) -> Prop with
  | Deregister id' => fun k => id' = id /\ k tt = Ret tt
  | Register _ => fun _ => False
  | _ => fun k => forall x, live_run id (k x)
  end.

Lemma live_run_next id p :
  live_run id p -> match p with Ret _ => False | Vis e k => live_next id e k end.
Proof.
  intros (q & -> & Hq). destruct q as [[]|X e k]; [done|]. destruct Hq as [He Hk].
  destruct e; try done; simpl; intros x; by exists (k x).
Qed.

Lemma run_phase_next p :
  run_phase p ->
  match p with
  | Ret _ => True
  | Vis e k => (exists id, live_next id e k) \/
               match e in orchE Y return (Y -> prog orchE ()) -> Prop with
               | Register id => fun k => live_run id (k tt)
               | _ => fun _ => False
               end k
  end.
Proof.
  intros [[j ->]|[[id Hl]| ->]]; [| |done].
  - right. exists (run_claimed cfg j). split; [done|apply run_claimed_no_registry].
  - apply live_run_next in Hl. destruct p; [done|]. left. by exists id.
Qed.

Lemma registry_inv_frame s s' :
  goroutines s' = goroutines s -> cancels s' = cancels s -> spawned s' = spawned s ->
  registry_inv s -> registry_inv s'.
Proof. intros Hg Hc Hs [Hf Hp Ho]. by split; rewrite ?Hg, ?Hc, ?Hs. Qed.

(** Moving goroutine [n] within its run. *)
Lemma registry_go s n p p' :
  goroutines s !! n = Some p -> run_phase p' ->
  (forall id, cancels s !! id = Some n -> live_run id p') ->
  registry_inv s -> registry_inv (set_goroutines s (<[n := p']> (goroutines s))).
Proof.
  intros Hn Hp' Hl [Hf Hp Ho]. split; simpl.
  - intros m Hm. rewrite lookup_insert_ne; [by apply Hf|]. intros ->. by rewrite Hf in Hn.
  - intros m q. destruct (decide (n = m)) as [<-|Hne]; [rewrite lookup_insert_eq; by intros [= <-]|].
    rewrite lookup_insert_ne by done. apply Hp.
  - intros id m Hm. destruct (decide (n = m)) as [<-|Hne].
    + exists p'. rewrite lookup_insert_eq. auto.
    + rewrite lookup_insert_ne by done. by apply Ho.
Qed.

Lemma registry_owner_live s n p id :
  registry_inv s -> goroutines s !! n = Some p -> cancels s !! id = Some n -> live_run id p.
Proof. intros [_ _ Ho] Hn Hc. destruct (Ho id n Hc) as (q & Hq & Hl). by rewrite Hq in Hn; simplify_eq. Qed.

Lemma live_phase id p : live_run id p -> run_phase p.
Proof. intros H. right. left. by exists id. Qed.

(** A call of a live run that is not a (de)registration. *)
Lemma registry_call s n X (e : orchE X) k x :
  no_registry X e -> goroutines s !! n = Some (Vis e k) -> registry_inv s ->
  registry_inv (set_goroutines s (<[n := k x]> (goroutines s))).
Proof.
  intros He Hn Hi.
  assert (Hnext : forall id, live_next id e k -> live_run id (k x)) by (intros id; destruct e; try done; intros H; apply H).
  eapply registry_go; [exact Hn| | |done].
  - pose proof (run_phase_next _ (ri_phase _ Hi _ _ Hn)) as [[id Hl]|Hr].
    + by eapply live_phase, Hnext.
    + by destruct e.
  - intros id Hc. apply Hnext. exact (live_run_next _ _ (registry_owner_live _ _ _ _ Hi Hn Hc)).
Qed.

Lemma registry_register s n id k :
  goroutines s !! n = Some (Vis (Register id) k) -> registry_inv s ->
  registry_inv (set_goroutines (set_cancels s (<[id := n]> (cancels s))) (<[n := k tt]> (goroutines s))).
Proof.
  intros Hn Hi.
  assert (Hl : live_run id (k tt)).
  { pose proof (run_phase_next _ (ri_phase _ Hi _ _ Hn)) as [[id' Hl]|Hr]; [done|exact Hr]. }
  assert (Hno : forall id', cancels s !! id' = Some n -> False).
  { intros id' Hc. exact (live_run_next _ _ (registry_owner_live _ _ _ _ Hi Hn Hc)). }
  destruct (registry_go s n _ (k tt) Hn) as [Hf Hp Ho]; [by eapply live_phase|by intros id' Hc%Hno|done|].
  split; simpl in *; [done|done|]. intros id' m. destruct (decide (id = id')) as [<-|Hne].
  - rewrite lookup_insert_eq. intros [= <-]. exists (k tt). by rewrite lookup_insert_eq.
  - rewrite lookup_insert_ne by done. apply Ho.
Qed.

Lemma registry_deregister s n id k :
  goroutines s !! n = Some (Vis (Deregister id) k) -> registry_inv s ->
  registry_inv (set_goroutines (set_cancels s (delete id (cancels s))) (<[n := k tt]> (goroutines s))).
Proof.
  intros Hn Hi.
  assert (Hk : k tt = Ret tt).
  { pose proof (run_phase_next _ (ri_phase _ Hi _ _ Hn)) as [[id' [_ Hl]]|Hr]; done. }
  assert (Hno : forall id', cancels s !! id' = Some n -> id' = id).
  { intros id' Hc. pose proof (live_run_next _ _ (registry_owner_live _ _ _ _ Hi Hn Hc)) as [Heq _]. done. }
  destruct Hi as [Hf Hp Ho]. split; simpl.
  - intros m Hm. rewrite lookup_insert_ne; [by apply Hf|]. intros ->. by rewrite Hf in Hn.
  - intros m q. destruct (decide (n = m)) as [<-|Hne].
    + rewrite lookup_insert_eq, Hk. intros [= <-]. by right; right.
    + rewrite lookup_insert_ne by done. apply Hp.
  - intros id' m. rewrite lookup_delete_Some. intros [Hne Hc]. destruct (decide (n = m)) as [<-|Hnm].
    + by apply Hno in Hc.
    + rewrite lookup_insert_ne by done. by apply Ho.
Qed.

Lemma go_call_cancels n {X} (e : orchE X) s w x s' w' :
  go_call n e s w = (x, s', w') -> no_registry X e -> cancels s' = cancels s.
Proof.
  destruct e; simpl; try (intros [= _ <- _]; done);
    match goal with |- (let '(_, _) := ?p in _) = _ -> _ => destruct p end; by intros [= _ <- _].
Qed.

Lemma registry_step act s w s' w' :
  sched_do act (s, w) = Some (s', w') -> registry_inv s -> registry_inv s'.
Proof.
  intros Hdo Hi. destruct act; simpl in Hdo;
    try (by repeat case_match; simplify_eq; eapply registry_inv_frame; [..|exact Hi]).
  - case_match; [|done]. destruct (orch_exec _ _) as [[j|er] d]; injection Hdo as <- <-; [|by destruct Hi].
    destruct Hi as [Hf Hp Ho]. split; simpl.
    + intros n Hn. rewrite lookup_insert_ne by lia. apply Hf. lia.
    + intros n p. destruct (decide (spawned s = n)) as [<-|Hne].
      * rewrite lookup_insert_eq. intros [= <-]. left. by exists j.
      * rewrite lookup_insert_ne by done. apply Hp.
    + intros id n Hc. destruct (Ho id n Hc) as (p & Hp' & Hl). exists p. split; [|done].
      rewrite lookup_insert_ne; [done|]. intros <-. by rewrite Hf in Hp'.
  - destruct (goroutines s !! n) as [[u|X e k]|] eqn:Hn; [done| |done].
    destruct (go_call n e s w) as [[x s1] w1] eqn:Hc. injection Hdo as <- <-.
    assert (Hd : no_registry X e \/ registry_inv (set_goroutines s1 (<[n := k x]> (goroutines s1)))).
    { destruct e; try (by left); right; simpl in Hc; injection Hc as <- <- <-;
        [exact (registry_register s n _ k Hn Hi)|exact (registry_deregister s n _ k Hn Hi)]. }
    destruct Hd as [Hno|H]; [|exact H].
    pose proof (go_call_cancels _ _ _ _ _ _ _ Hc Hno) as Hcc. apply go_call_same in Hc as (_ & _ & Hg & Hsp & _).
    eapply registry_inv_frame; [| | |eapply (registry_call s n X e k x Hno Hn Hi)]; simpl; by rewrite ?Hg.
  - destruct (goroutines s !! n) as [[u|X e k]|] eqn:Hn; [|done|done]. injection Hdo as <- <-.
    assert (Hno : forall id, cancels s !! id = Some n -> False).
    { intros id Hc. exact (live_run_next _ _ (registry_owner_live _ _ _ _ Hi Hn Hc)). }
    destruct Hi as [Hf Hp Ho]. split; simpl.
    + intros m Hm. rewrite lookup_delete_None. right. by apply Hf.
    + intros m p. rewrite lookup_delete_Some. intros [_ Hm]. by eapply Hp.
    + intros id m Hc. destruct (Ho id m Hc) as (p & Hm & Hl). exists p. split; [|done].
      rewrite lookup_delete_ne; [done|]. intros <-. by apply Hno in Hc.
  - cancel_step_cases Hdo. by eapply registry_inv_frame; [..|exact Hi].
Qed.

Lemma registry_reachable w sw : rtc sched_step (new_scheduler, w) sw -> registry_inv sw.1.
Proof.
  intros Hr. apply (rtc_ind_r (fun sw => registry_inv sw.1) (new_scheduler, w)) in Hr; [exact Hr| |].
  - split; simpl; try done.
  - intros [s1 w1] [s2 w2] _ [act Hact] Hi. by eapply registry_step.
Qed.

(** A run that was live is live, has deregistered, or is over; its number is not used
    again. *)
Definition was_live (id : string) (n : nat) (s : scheduler) : Prop :=
  (n < spawned s)%nat /\ forall p, goroutines s !! n = Some p -> live_run id p \/ p = Ret tt.

(** What a [Cancel] that found the cancel function of [n] has done so far. *)
Definition canceling (c n : nat) (s : scheduler) : Prop :=
  (c < called s)%nat /\
  (cancelers s !! c = Some (deliver_cancel n) \/
   (cancelers s !! c = Some (Ret true) /\ n ∈ canceled s)).

Lemma was_live_step id n act s w s' w' :
  sched_do act (s, w) = Some (s', w') -> was_live id n s -> was_live id n s'.
Proof.
  intros Hdo [Hlt Hp]. destruct act; simpl in Hdo;
    try (repeat case_match; simplify_eq; by split).
  - case_match; [|done]. destruct (orch_exec _ _) as [[j|er] d]; injection Hdo as <- <-; [|by split].
    split; simpl; [lia|]. intros p. rewrite lookup_insert_ne by lia. apply Hp.
  - destruct (goroutines s !! n0) as [[u|X e k]|] eqn:Hn; [done| |done].
    destruct (go_call n0 e s w) as [[x s1] w1] eqn:Hc. injection Hdo as <- <-.
    apply go_call_same in Hc as (_ & _ & Hg & Hsp & _). split; simpl; [by rewrite Hsp|].
    intros p. rewrite Hg. destruct (decide (n0 = n)) as [->|Hne]; [|rewrite lookup_insert_ne by done; apply Hp].
    rewrite lookup_insert_eq. intros [= <-]. destruct (Hp _ Hn) as [Hl%live_run_next|Hl]; [|done].
    destruct e; simpl in Hl; try (left; apply Hl); [done|]. right. by destruct Hl as [_ Hk], x.
  - destruct (goroutines s !! n0) as [[u|X e k]|]; [|done|done]. injection Hdo as <- <-.
    split; simpl; [done|]. intros p [_ Hp']%lookup_delete_Some. by apply Hp.
  - cancel_step_cases Hdo. by split.
Qed.

Lemma canceling_step c n act s w s' w' :
  sched_do act (s, w) = Some (s', w') -> canceling c n s -> canceling c n s'.
Proof.
  intros Hdo [Hlt Hc]. destruct act; simpl in Hdo;
    try (repeat case_match; simplify_eq; by split).
  - destruct (goroutines s !! n0) as [[u|X e k]|]; [done| |done].
    destruct (go_call n0 e s w) as [[x s1] w1] eqn:Hg. injection Hdo as <- <-.
    assert (He : called s1 = called s /\ cancelers s1 = cancelers s /\ canceled s1 = canceled s).
    { destruct e; simpl in Hg; try (injection Hg as _ <- _; done); case_match; by injection Hg as _ <- _. }
    destruct He as (E1 & E2 & E3). unfold canceling. simpl. by rewrite E1, E2, E3.
  - injection Hdo as <- <-. split; simpl; [lia|]. by rewrite lookup_insert_ne by lia.
  - destruct (decide (c0 = c)) as [->|Hne].
    + destruct Hc as [Hc|[Hc _]]; rewrite Hc in Hdo; simpl in Hdo; [|done]. injection Hdo as <- <-.
      split; simpl; [done|]. right. rewrite lookup_insert_eq. split; [done|set_solver].
    + cancel_step_cases Hdo. split; simpl; [done|]. rewrite lookup_insert_ne by done.
      destruct Hc as [Hc|[Hc Hin]]; [by left|right]. split; [done|set_solver].
Qed.

(** Cancelled contexts stay cancelled. *)
Lemma canceled_step act s w s' w' : sched_do act (s, w) = Some (s', w') -> canceled s ⊆ canceled s'.
Proof.
  intros Hdo. destruct act; simpl in Hdo; try (repeat case_match; simplify_eq; set_solver).
  - destruct (goroutines s !! n) as [[u|X e k]|]; [done| |done].
    destruct (go_call n e s w) as [[x s1] w1] eqn:Hg. injection Hdo as <- <-. simpl.
    destruct e; simpl in Hg; try (injection Hg as _ <- _; done); case_match; by injection Hg as _ <- _.
  - by cancel_step_cases Hdo.
Qed.

Lemma canceled_grows sw sw' : rtc sched_step sw sw' -> canceled sw.1 ⊆ canceled sw'.1.
Proof.
  induction 1 as [|[s1 w1] [s2 w2] x [act Ha] _ IH]; [done|]. by etrans; [eapply canceled_step|].
Qed.

(** The calls of [Cancel] are numbered as they come. *)
Lemma cancelers_called w sw :
  rtc sched_step (new_scheduler, w) sw -> forall c p, cancelers sw.1 !! c = Some p -> (c < called sw.1)%nat.
Proof.
  intros Hr.
  eapply (rtc_ind_r (fun sw => forall c p, cancelers sw.1 !! c = Some p -> (c < called sw.1)%nat)); [| |exact Hr];
    [intros c p; simpl; by rewrite lookup_empty|].
  intros [s1 w1] [s2 w2] _ [act Hdo] Hi c p. simpl in *. destruct act; simpl in Hdo;
    try (repeat case_match; simplify_eq; by apply Hi).
  - destruct (goroutines s1 !! n) as [[u|X e k]|]; [done| |done].
    destruct (go_call n e s1 w1) as [[x s'] w'] eqn:Hg. injection Hdo as <- <-.
    assert (He : called s' = called s1 /\ cancelers s' = cancelers s1).
    { destruct e; simpl in Hg; try (injection Hg as _ <- _; done); case_match; by injection Hg as _ <- _. }
    destruct He as [E1 E2]. simpl. rewrite E1, E2. apply Hi.
  - injection Hdo as <- <-. simpl. intros [[<- _]|[_ H]]%lookup_insert_Some; [lia|]. specialize (Hi _ _ H). lia.
  - apply bind_Some in Hdo as (q & Hq & Hdo). apply bind_Some in Hdo as ([q' s'] & Hdo' & Hdo).
    pose proof (cancel_next_frame _ _ _ _ Hdo') as (cs & _ & ->). injection Hdo as <- <-. simpl.
    intros [[<- _]|[_ H]]%lookup_insert_Some; by eapply Hi.
Qed.

(** C26: a cancellation the scheduler reports as delivered was delivered to a run of
    that very job, live when [Cancel] looked it up.  Take any reachable state in which a
    call of [Cancel] is about to look its job up.  If it finds no cancel function it
    answers false and changes nothing else.  If it finds one, then a goroutine is at
    that moment between registering that very job and deregistering it, and from then
    on, whatever else happens, the call can always go on to cancel that goroutine's
    context; by the time it answers true it has done so, and every later check of the
    context by that goroutine sees the cancellation.  The goroutine may have left its
    run in between ([cancel_after_the_end]): it is in the run, or at its end, or
    gone. *)
Theorem cancel_reaches_live_run w s0 w0 s1 w1 c id :
  rtc sched_step (new_scheduler, w) (s0, w0) ->
  cancelers s0 !! c = Some (Cancel id) ->
  sched_do (ACancelStep c) (s0, w0) = Some (s1, w1) ->
  match cancels s0 !! id with
  | None => s1 = set_cancelers s0 (<[c := Ret false]> (cancelers s0)) /\ w1 = w0
  | Some n =>
      (exists p, goroutines s0 !! n = Some p /\ live_run id p) /\
      forall s2 w2, rtc sched_step (s1, w1) (s2, w2) ->
        was_live id n s2 /\
        match cancelers s2 !! c with
        | Some (Ret answer) => answer = true /\
            forall s3 w3, rtc sched_step (s2, w2) (s3, w3) -> (go_call n CtxErr s3 w3).1.1 = Some ECanceled
        | Some (Vis _ _) => exists s3, sched_do (ACancelStep c) (s2, w2) = Some (s3, w2) /\
            cancelers s3 !! c = Some (Ret true)
        | None => False
        end
  end.
Proof.
  intros Hr Hc Hdo. apply registry_reachable in Hr as Hi. apply cancelers_called with (2 := Hc) in Hr as Hlt. simpl in Hi, Hdo. rewrite Hc in Hdo.
  simpl in Hdo. injection Hdo as <- <-.
  destruct (cancels s0 !! id) as [n|] eqn:Hn; [|done].
  destruct (ri_owner _ Hi id n Hn) as (p & Hp & Hl). split; [by exists p|]. intros s2 w2 Hr2.
  assert (Hrun : forall sw sw', rtc sched_step sw sw' -> was_live id n sw.1 /\ canceling c n sw.1 ->
            was_live id n sw'.1 /\ canceling c n sw'.1).
  { intros sw sw' Hx. induction Hx as [|[sa wa] [sb wb] x [act Ha] _ IH]; [done|]. intros [H1 H2]. apply IH.
    split; [by eapply was_live_step|by eapply canceling_step]. }
  apply Hrun in Hr2 as [Hw Hcan].
  2:{ split; (split; simpl); [|intros q; rewrite Hp; intros [= <-]; by left|done|left; apply lookup_insert_eq].
      destruct (decide (n < spawned s0)%nat) as [|Hge]; [done|]. rewrite (ri_fresh _ Hi) in Hp by lia. done. }
  split; [exact Hw|]. simpl in Hw, Hcan. destruct Hcan as [Hlt2 [Hc2|[Hc2 Hin]]]; rewrite Hc2.
  - simpl. rewrite Hc2. simpl. eexists. split; [reflexivity|]. simpl. apply lookup_insert_eq.
  - split; [done|]. intros s3 w3 Hr3. apply canceled_grows in Hr3. simpl in *.
    rewrite bool_decide_true by set_solver. by rewrite orb_true_r.
Qed.
End loop.

(** ** Concrete schedules *)

Definition ex_start : @sworld () := (new_scheduler, ex_world).

(** A cancelled run, retried while it is still returning. *)
Definition ex_retry_race : list action :=
  [AAcquire; AClaim; AGo 0; ACancel "j1"; ACancelStep 0; ACancelStep 0] ++ replicate 13 (AGo 0)
  ++ [AStore Job (RetryJob "ws" "j1"); AAcquire; AClaim; AGo 1] ++ replicate 6 (AGo 0)
  ++ [ACancel "j1"; ACancelStep 1].

(** A run that has registered, about to take its start time. *)
Definition at_start (p : prog orchE ()) : bool :=
  match p with Vis e _ => match e with Now => true | _ => false end | Ret _ => false end.

(** What a [Cancel] answered. *)
Definition answered (c : nat) (s : scheduler) : option bool :=
  cancelers s !! c ≫= fun p => match p with Ret b => Some b | Vis _ _ => None end.

Definition view (sw : @sworld ()) : Z * option JobState * bool * option bool :=
  let '(s, w) := sw in
  (sem_len s, j_State <$> jobs (pw_db w.1) !! "j1",
   from_option at_start false (goroutines s !! 1%nat), answered 1 s).

(** The second run of the job is registered and running, and its row says so, but
    the first run's deferred deletion removed the second run's cancel function: the
    API answers a cancellation with a conflict. *)
Example second_run_cannot_be_canceled :
  view <$> sched_run ex_env ex_sched ex_retry_race ex_start = Some (2, Some StateRunning, true, Some false).
Proof. vm_compute. reflexivity. Qed.

(** The run ends between the two steps of the [Cancel]: the job completes, and the
    cancellation is reported as delivered. *)
Example cancel_after_the_end :
  (fun sw => (j_State <$> jobs (pw_db sw.2.1) !! "j1", bool_decide (goroutines sw.1 = ∅), answered 0 sw.1)) <$>
    sched_run ex_env ex_sched
      ([AAcquire; AClaim; AGo 0; ACancel "j1"; ACancelStep 0] ++ replicate 23 (AGo 0)
       ++ [AFinish 0; ACancelStep 0]) ex_start
  = Some (Some StateCompleted, true, Some true).
Proof. vm_compute. reflexivity. Qed.

Lemma slots_bound_encodes_witness :
  exists s w, sched_run ex_env ex_sched ex_retry_race ex_start = Some (s, w) /\
    Running s = 2 /\ Z.of_nat (size (goroutines s)) <= 3.
Proof.
  destruct (sched_run ex_env ex_sched ex_retry_race ex_start) as [[s w]|] eqn:Hr.
  - exists s, w. split; [reflexivity|].
    assert (Hv : (fun sw => sem_len sw.1) <$> sched_run ex_env ex_sched ex_retry_race ex_start = Some 2)
      by (vm_compute; reflexivity).
    rewrite Hr in Hv. injection Hv as Hv. split; [exact Hv|].
    exact (proj1 (slots_bound_encodes ex_env ex_sched ex_world s w ltac:(simpl; lia)
                    (sched_run_reachable _ _ _ _ _ Hr))).
  - exfalso. assert (Hv : (fun _ => tt) <$> sched_run ex_env ex_sched ex_retry_race ex_start = Some tt)
      by (vm_compute; reflexivity).
    rewrite Hr in Hv. discriminate Hv.
Defined.

(** A cancellation of a run that goes on: it answers true, and the run sees it. *)
Definition ex_cancel_found : list action := [AAcquire; AClaim; AGo 0; AGo 0; ACancel "j1"].

Lemma cancel_reaches_live_run_witness :
  exists s0 w0 s1 w1 s2 w2,
    sched_run ex_env ex_sched ex_cancel_found ex_start = Some (s0, w0) /\
    sched_do ex_env ex_sched (ACancelStep 0) (s0, w0) = Some (s1, w1) /\
    sched_do ex_env ex_sched (ACancelStep 0) (s1, w1) = Some (s2, w2) /\
    (exists p, goroutines s0 !! 0%nat = Some p /\ live_run "j1" p) /\
    (go_call ex_env 0 CtxErr s2 w2).1.1 = Some ECanceled.
Proof.
  destruct (sched_run ex_env ex_sched ex_cancel_found ex_start) as [[s0 w0]|] eqn:Hr.
  - assert (Hv : (fun sw => cancels sw.1 !! "j1") <$> sched_run ex_env ex_sched ex_cancel_found ex_start
                 = Some (Some 0%nat)) by (vm_compute; reflexivity).
    rewrite Hr in Hv. injection Hv as Hv.
    assert (Hp : (fun sw => cancelers sw.1) <$> sched_run ex_env ex_sched ex_cancel_found ex_start
                 = Some {[ 0%nat := Cancel "j1" ]}) by reflexivity.
    rewrite Hr in Hp. injection Hp as Hp.
    assert (Hc : cancelers s0 !! 0%nat = Some (Cancel "j1")) by (by rewrite Hp).
    assert (H1 : sched_do ex_env ex_sched (ACancelStep 0) (s0, w0)
                 = Some (set_cancelers s0 (<[0%nat := deliver_cancel 0]> (cancelers s0)), w0)).
    { simpl. rewrite Hc. simpl. by rewrite Hv. }
    pose proof (cancel_reaches_live_run ex_env ex_sched ex_world s0 w0 _ w0 0 "j1"
                  (sched_run_reachable _ _ _ _ _ Hr) Hc H1) as Hx.
    rewrite Hv in Hx. destruct Hx as [Hlive Hx].
    set (s1 := set_cancelers s0 (<[0%nat := deliver_cancel 0]> (cancelers s0))) in *.
    destruct (Hx s1 w0 (rtc_refl _ _)) as [_ Hn].
    assert (Hc1 : cancelers s1 !! 0%nat = Some (deliver_cancel 0)) by apply lookup_insert_eq.
    rewrite Hc1 in Hn. simpl deliver_cancel in Hn. destruct Hn as (s2 & H2 & Hc2).
    exists s0, w0, s1, w0, s2, w0. split; [reflexivity|]. split; [exact H1|]. split; [exact H2|].
    split; [exact Hlive|].
    destruct (Hx s2 w0 (rtc_once _ _ (ex_intro _ (ACancelStep 0) H2))) as [_ Hfin].
    rewrite Hc2 in Hfin. exact (proj2 Hfin s2 w0 (rtc_refl _ _)).
  - exfalso. assert (Hv : (fun _ => tt) <$> sched_run ex_env ex_sched ex_cancel_found ex_start = Some tt)
      by (vm_compute; reflexivity).
    rewrite Hr in Hv. discriminate Hv.
Defined.
