(* ===== verification/CrossService.v ===== *)
(** * Across the services: what the upload service announces, the orchestrator accepts

    The landed event is built by services/upload/server.go and validated by
    services/orchestrator/internal/events: the two agree. *)
From S2P Require UploadServer.
From S2P Require Import LandedProofs.
#[local] Open Scope Z_scope.

(** The wire form is the same JSON object on both sides: the consumer's record has
    the producer's fields. *)
Definition as_landed (e : LandedObjectEvent) : UploadLanded :=
  {| ul_UploadID := le_UploadID e; ul_WorkspaceID := le_WorkspaceID e; ul_UserID := le_UserID e;
     ul_ObjectKey := le_ObjectKey e; ul_SHA256 := le_SHA256 e; ul_SizeBytes := le_SizeBytes e;
     ul_Mime := le_Mime e; ul_LandedAt := le_LandedAt e |}.

Lemma mime_length m : UploadServer.mimePattern m = true -> 1 <= slen m <= 255.
Proof.
  unfold UploadServer.mimePattern. destruct (Cut m "/") as [[a b]|] eqn:Hc; [|done].
  apply Cut_Some in Hc. intros H. bool_prop. apply match_class_spec in H as [Ha _].
  apply match_class_spec in H0 as [Hb _]. rewrite Hc, !slen_app. change (slen "/") with 1. lia.
Qed.

Lemma validateCreate_ok req mx :
  UploadServer.validateCreate req mx = "" ->
  0 < UploadServer.cr_SizeBytes req /\ UploadServer.mimePattern (UploadServer.cr_Mime req) = true.
Proof.
  unfold UploadServer.validateCreate.
  destruct ((slen _ =? 0) || _); [done|]. destruct (negb (all_chars _ _)); [done|].
  destruct (Z.leb_spec (UploadServer.cr_SizeBytes req) 0); [done|].
  destruct (mx <? _); [done|]. by destruct (UploadServer.mimePattern _).
Qed.

Section contract.
Context (sha256hex : string -> string) (uuid_Parse : string -> option string).
Context (sha256hex_hex : forall s, hex64 (sha256hex s) = true).

(** The session of an accepted create request, once assembled from [bytes]. *)
Definition assembled_session (srv : UploadServer.Server) (sid mp : string) (id : Identity)
    (req : UploadServer.createRequest) (bytes : string) : UploadStore.Session :=
  UploadStore.set_assembled (UploadServer.new_session srv sid id req mp) (sha256hex bytes)
    (UploadServer.object_key (id_WorkspaceID id) (sha256hex bytes)).

(** C32: the landed-object contract between the services.  For every create request
    the upload service accepts, the landed event it publishes for the assembled
    object passes the orchestrator's validation unchanged, if and only if the
    caller's workspace id is 1 to 64 letters, digits, hyphens or underscores and
    the user id is 1 to 128 bytes.  (The upload service takes both from the token
    without looking at them, so any other identity completes its upload and has the
    event terminated.) *)
Theorem landed_event_contract srv sid mp id req bytes now :
  is_Some (uuid_Parse sid) -> UploadServer.validateCreate req (UploadServer.maxObjectBytes srv) = "" ->
  now <> zero_time ->
  let ev := as_landed (UploadServer.landed_event (assembled_session srv sid mp id req bytes) now) in
  ParseUploadLanded uuid_Parse (Ok ev) false = Ok ev <->
  match_class ws_char 1 64 (id_WorkspaceID id) = true /\ 1 <= slen (id_UserID id) <= 128.
Proof.
  intros Hu Hv Hnow ev. apply validateCreate_ok in Hv as [Hsz Hm]. split.
  - intros (_ & _ & Hw)%ParseUploadLanded_sound. by destruct Hw.
  - intros [Hws Hus]. apply ParseUploadLanded_complete. split; simpl; try done. by apply mime_length.
Qed.
End contract.

Lemma landed_event_contract_witness :
  let srv := UploadServer.NewServer 1000 in
  let req := {| UploadServer.cr_Filename := "a.mp4"; UploadServer.cr_SizeBytes := 10;
                UploadServer.cr_Mime := "video/mp4" |} in
  let ev ws := as_landed (UploadServer.landed_event
     (assembled_session (fun _ => ex_hex) srv "u1" "mp" {| id_WorkspaceID := ws; id_UserID := "u" |}
        req "0123456789") 5) in
  ParseUploadLanded Some (Ok (ev "ws")) false = Ok (ev "ws") /\
  ParseUploadLanded Some (Ok (ev "team/a")) false <> Ok (ev "team/a").
Proof.
  intros srv req ev.
  assert (H : forall ws, ParseUploadLanded Some (Ok (ev ws)) false = Ok (ev ws) <->
                match_class ws_char 1 64 ws = true /\ 1 <= slen "u" <= 128).
  { intros ws. apply (landed_event_contract (fun _ => ex_hex) Some);
      [intros s; vm_compute; reflexivity|by eexists|vm_compute; reflexivity|discriminate]. }
  split.
  - apply H. split; [vm_compute; reflexivity|vm_compute; split; discriminate].
  - intros [Hc _]%H. vm_compute in Hc. discriminate Hc.
Defined.
