(* ===== verification/Calendar.v ===== *)
(** * The month of an instant

    [monthOf] formats a [time.Time] as "2006-01" in UTC: the civil year and month of
    its day.  [time.Time] counts days from year 1; the conversion works on 400-year
    eras of 146097 days, with years that start in March so that the leap day is the
    last of its year. *)
From S2P Require Export GoLib.
#[local] Open Scope Z_scope.

Definition Day : duration := 86400 * Second.

(** Year and month (1 to 12) of a day number, day 0 being 1970-01-01. *)
Definition civil (day : Z) : Z * Z :=
  let z := day + 719468 in
  let era := z / 146097 in
  let doe := z mod 146097 in
  let yoe := (doe - doe / 1460 + doe / 36524 - doe / 146096) / 365 in
  let doy := doe - (365 * yoe + yoe / 4 - yoe / 100) in
  let mp := (5 * doy + 2) / 153 in
  let m := if mp <? 10 then mp + 3 else mp - 9 in
  let y := yoe + era * 400 in
  (if m <=? 2 then y + 1 else y, m).

(** [appendInt]: at least [width] digits, the sign in front. *)
Definition pad2 (n : Z) : string := (if n <? 10 then "0" else "") +:+ itoa n.
Definition pad4 (n : Z) : string :=
  (if n <? 0 then "-" else "") +:+
  (let a := Z.abs n in (if a <? 10 then "000" else if a <? 100 then "00" else if a <? 1000 then "0" else "")
                       +:+ itoa a).

Definition monthOf (t : time) : string :=
  let '(y, m) := civil (t / Day) in pad4 y +:+ "-" +:+ pad2 m.

(** ** The calendar *)

Definition is_leap (y : Z) : bool := (y mod 4 =? 0) && (negb (y mod 100 =? 0) || (y mod 400 =? 0)).

Definition month_days (y m : Z) : Z :=
  if m =? 2 then if is_leap y then 29 else 28
  else if (m =? 4) || (m =? 6) || (m =? 9) || (m =? 11) then 30 else 31.

(** The day number of January 1. *)
Definition year_start (y : Z) : Z :=
  365 * (y - 1970) + ((y - 1) / 4 - (y - 1) / 100 + (y - 1) / 400) - (1969 / 4 - 1969 / 100 + 1969 / 400).

(** The days of the months before [m]. *)
Fixpoint months_before (n : nat) (y : Z) : Z :=
  match n with O => 0 | S n' => months_before n' y + month_days y (Z.of_nat n) end.

Definition month_start (y m : Z) : Z := year_start y + months_before (Z.to_nat (m - 1)) y.

Example civil_epoch : civil 0 = (1970, 1). Proof. reflexivity. Qed.
Example civil_leap : civil 19782 = (2024, 2) /\ civil 19783 = (2024, 3). Proof. split; reflexivity. Qed.

Definition in_month (y m day : Z) : Prop :=
  1 <= m <= 12 /\ month_start y m <= day < month_start y m + month_days y m.

(** *** Eras repeat *)

Lemma is_leap_era y k : is_leap (y + 400 * k) = is_leap y.
Proof.
  unfold is_leap. replace (y + 400 * k) with (y + (100 * k) * 4) by lia. rewrite Z_mod_plus_full.
  replace (y + 100 * k * 4) with (y + (4 * k) * 100) by lia. rewrite Z_mod_plus_full.
  replace (y + 4 * k * 100) with (y + k * 400) by lia. by rewrite Z_mod_plus_full.
Qed.

Lemma month_days_era y m k : month_days (y + 400 * k) m = month_days y m.
Proof. unfold month_days. by rewrite is_leap_era. Qed.

Lemma year_start_era y k : year_start (y + 400 * k) = year_start y + 146097 * k.
Proof.
  unfold year_start. replace (y + 400 * k - 1) with (y - 1 + (100 * k) * 4) by lia. rewrite Z_div_plus_full by lia.
  replace (y - 1 + 100 * k * 4) with (y - 1 + (4 * k) * 100) by lia. rewrite Z_div_plus_full by lia.
  replace (y - 1 + 4 * k * 100) with (y - 1 + k * 400) by lia. rewrite Z_div_plus_full by lia. lia.
Qed.

Lemma months_before_era n y k : months_before n (y + 400 * k) = months_before n y.
Proof. induction n as [|n IH]; [done|]. cbn [months_before]. by rewrite IH, month_days_era. Qed.

Lemma month_start_era y m k : month_start (y + 400 * k) m = month_start y m + 146097 * k.
Proof. unfold month_start. rewrite year_start_era, months_before_era. lia. Qed.

Lemma civil_era day k : civil (day + 146097 * k) = let '(y, m) := civil day in (y + 400 * k, m).
Proof.
  unfold civil. replace (day + 146097 * k + 719468) with (day + 719468 + k * 146097) by lia.
  rewrite Z_mod_plus_full, Z_div_plus_full by lia. cbv zeta. f_equal. case_match; lia.
Qed.

Lemma in_month_era y m day k : in_month (y + 400 * k) m (day + 146097 * k) <-> in_month y m day.
Proof. unfold in_month. rewrite month_start_era, month_days_era. lia. Qed.

(** *** One era, by computation *)

Fixpoint all_range (n : nat) (z : Z) (f : Z -> bool) : bool :=
  match n with O => true | S n' => f z && all_range n' (z + 1) f end.

Lemma all_range_spec n z f : all_range n z f = true -> forall x, z <= x < z + Z.of_nat n -> f x = true.
Proof.
  revert z. induction n as [|n IH]; intros z; [lia|]. cbn [all_range]. intros [H1 H2]%andb_true_iff x Hx.
  destruct (decide (x = z)) as [->|]; [done|]. apply (IH (z + 1)); [done|lia].
Qed.

(** Every day of every month of an era. *)
Definition month_ok (y m : Z) : bool :=
  all_range (Z.to_nat (month_days y m)) (month_start y m) (fun d => bool_decide (civil d = (y, m))).

Lemma era_months : all_range 400 0 (fun y => all_range 12 1 (month_ok y)) = true.
Proof. vm_compute. reflexivity. Qed.

(** The months of an era are consecutive. *)
Definition nth_start (i : nat) : Z := month_start (Z.of_nat i / 12) (Z.of_nat i mod 12 + 1).

Lemma era_consecutive :
  all_range (Z.to_nat 4800) 0 (fun i => month_start ((i + 1) / 12) ((i + 1) mod 12 + 1) =?
    month_start (i / 12) (i mod 12 + 1) + month_days (i / 12) (i mod 12 + 1)) = true.
Proof. vm_compute. reflexivity. Qed.

(** The step of a function that a value lies in. *)
Lemma between_steps (g : nat -> Z) n d : g O <= d < g n -> exists i, (i < n)%nat /\ g i <= d < g (S i).
Proof.
  induction n as [|n IH]; [lia|]. intros Hd. destruct (Z.lt_ge_cases d (g n)) as [Hlt|Hge].
  - destruct IH as (i & Hi & Hb); [lia|]. exists i. split; [lia|done].
  - exists n. split; [lia|]. lia.
Qed.

Lemma era_covered d : -719528 <= d < -719528 + 146097 -> exists y m, in_month y m d.
Proof.
  intros Hd. destruct (between_steps nth_start (Z.to_nat 4800) d) as (i & Hi & Hb).
  - replace (nth_start 0) with (-719528) by reflexivity.
    replace (nth_start (Z.to_nat 4800)) with (-719528 + 146097) by (unfold nth_start; rewrite Z2Nat.id by lia; reflexivity).
    done.
  - exists (Z.of_nat i / 12), (Z.of_nat i mod 12 + 1). unfold in_month.
    pose proof (all_range_spec _ _ _ era_consecutive (Z.of_nat i) ltac:(lia)) as H.
    apply Z.eqb_eq in H. unfold nth_start in Hb. rewrite Nat2Z.inj_succ in Hb.
    replace (Z.succ (Z.of_nat i)) with (Z.of_nat i + 1) in Hb by lia. rewrite H in Hb.
    split; [|done]. pose proof (Z.mod_pos_bound (Z.of_nat i) 12). lia.
Qed.

Lemma day_in_month day : exists y m, in_month y m day.
Proof.
  set (k := (day + 719528) / 146097). set (d := day - 146097 * k).
  assert (Hd : -719528 <= d < -719528 + 146097).
  { subst d k. pose proof (Z.div_mod (day + 719528) 146097). pose proof (Z.mod_pos_bound (day + 719528) 146097). lia. }
  destruct (era_covered d Hd) as (y & m & H). exists (y + 400 * k), m.
  replace day with (d + 146097 * k) by (subst d; lia). by apply in_month_era.
Qed.

Lemma in_month_civil y m day : in_month y m day -> civil day = (y, m).
Proof.
  intros H. set (k := y / 400). set (y0 := y mod 400).
  assert (Hy : y = y0 + 400 * k) by (subst y0 k; pose proof (Z.div_mod y 400); lia).
  assert (Hy0 : 0 <= y0 < 400) by (subst y0; apply Z.mod_pos_bound; lia).
  rewrite Hy in *. replace day with (day - 146097 * k + 146097 * k) in * by lia.
  rewrite in_month_era in H. destruct H as [Hm Hd]. rewrite civil_era.
  pose proof (all_range_spec _ _ _ era_months y0 ltac:(lia)) as Ho.
  pose proof (all_range_spec _ _ _ Ho m ltac:(lia)) as Hok.
  pose proof (all_range_spec _ _ _ Hok (day - 146097 * k) ltac:(lia)) as Hc.
  apply bool_decide_eq_true in Hc. by rewrite Hc.
Qed.

(** [civil] is the calendar. *)
Lemma civil_calendar day y m : civil day = (y, m) <-> in_month y m day.
Proof.
  split; [|apply in_month_civil]. intros H. destruct (day_in_month day) as (y' & m' & Hi).
  rewrite (in_month_civil _ _ _ Hi) in H. injection H as -> ->. done.
Qed.
