(* ===== verification/TenancyStore.v ===== *)
(** * services/tenancy: the store and its schema

    [store.go]'s records and interface, and [postgres.go]'s statements on the
    tables of migrations/000001_init.up.sql with their keys, unique indexes, foreign
    keys and checks.  [tstoreE] is the [Store] interface, [tstore_apply] one
    statement (or transaction), and [tstore_spec] what a call may do to the tables,
    faults included.  A statement sees [now()] and, for the user upsert, the
    generated id. *)
From S2P Require Export Http.
From stdpp Require Export sorting.
#[local] Open Scope Z_scope.

Definition RoleOwner : string := "owner".
Definition RoleAdmin : string := "admin".
Definition RoleMember : string := "member".

Definition validRole (r : string) : bool :=
  String.eqb r RoleOwner || String.eqb r RoleAdmin || String.eqb r RoleMember.

Record User := {
  u_ID : string; u_GoogleSub : string; u_Email : string; u_Name : string;
  u_ActiveWorkspaceID : string; u_CreatedAt : time; u_LastLoginAt : time
}.

Record Workspace := {
  w_ID : string; w_Name : string; w_PlanTier : string; w_CreatedBy : string; w_CreatedAt : time
}.

Record Membership := {
  m_WorkspaceID : string; m_UserID : string; m_Role : string; m_CreatedAt : time
}.

Record WorkspaceWithRole := { wr_Workspace : Workspace; wr_Role : string }.
Record MemberWithUser := { mu_Membership : Membership; mu_Email : string; mu_Name : string }.

Record RefreshToken := {
  rt_ID : string; rt_UserID : string; rt_FamilyID : string; rt_TokenHash : string;
  rt_CreatedAt : time; rt_ExpiresAt : time; rt_UsedAt : option time; rt_RevokedAt : option time
}.

Record LoginState := {
  ls_State : string; ls_Nonce : string; ls_PKCEVerifier : string; ls_CreatedAt : time; ls_ExpiresAt : time
}.

Record APIKey := {
  k_ID : string; k_WorkspaceID : string; k_Name : string; k_SecretHash : string; k_CreatedBy : string;
  k_CreatedAt : time; k_LastUsedAt : option time; k_RevokedAt : option time
}.

Record UsageRollup := {
  ur_WorkspaceID : string; ur_Month : string; ur_BytesUploaded : Z; ur_EncodeSeconds : spec_float;
  ur_UploadSessions : Z; ur_UploadsCompleted : Z; ur_JobsQueued : Z; ur_JobsStarted : Z;
  ur_JobsCompleted : Z; ur_JobsFailed : Z; ur_UpdatedAt : time
}.

(** ** The tables *)

Record tdb := {
  users : gmap string User;
  workspaces : gmap string Workspace;
  memberships : gmap (string * string) Membership;
  refresh_tokens : gmap string RefreshToken;
  login_states : gmap string LoginState;
  api_keys : gmap string APIKey;
  metering_events : gmap string MeteringEvent;
  usage_rollups : gmap (string * string) UsageRollup
}.

Definition empty_tdb : tdb :=
  {| users := ∅; workspaces := ∅; memberships := ∅; refresh_tokens := ∅; login_states := ∅;
     api_keys := ∅; metering_events := ∅; usage_rollups := ∅ |}.

Definition set_users (d : tdb) m :=
  {| users := m; workspaces := workspaces d; memberships := memberships d;
     refresh_tokens := refresh_tokens d; login_states := login_states d; api_keys := api_keys d;
     metering_events := metering_events d; usage_rollups := usage_rollups d |}.
Definition set_workspaces (d : tdb) m :=
  {| users := users d; workspaces := m; memberships := memberships d;
     refresh_tokens := refresh_tokens d; login_states := login_states d; api_keys := api_keys d;
     metering_events := metering_events d; usage_rollups := usage_rollups d |}.
Definition set_memberships (d : tdb) m :=
  {| users := users d; workspaces := workspaces d; memberships := m;
     refresh_tokens := refresh_tokens d; login_states := login_states d; api_keys := api_keys d;
     metering_events := metering_events d; usage_rollups := usage_rollups d |}.
Definition set_refresh_tokens (d : tdb) m :=
  {| users := users d; workspaces := workspaces d; memberships := memberships d;
     refresh_tokens := m; login_states := login_states d; api_keys := api_keys d;
     metering_events := metering_events d; usage_rollups := usage_rollups d |}.
Definition set_login_states (d : tdb) m :=
  {| users := users d; workspaces := workspaces d; memberships := memberships d;
     refresh_tokens := refresh_tokens d; login_states := m; api_keys := api_keys d;
     metering_events := metering_events d; usage_rollups := usage_rollups d |}.
Definition set_api_keys (d : tdb) m :=
  {| users := users d; workspaces := workspaces d; memberships := memberships d;
     refresh_tokens := refresh_tokens d; login_states := login_states d; api_keys := m;
     metering_events := metering_events d; usage_rollups := usage_rollups d |}.
Definition set_metering (d : tdb) evs rs :=
  {| users := users d; workspaces := workspaces d; memberships := memberships d;
     refresh_tokens := refresh_tokens d; login_states := login_states d; api_keys := api_keys d;
     metering_events := evs; usage_rollups := rs |}.

Inductive tstoreE : Type -> Type :=
| SaveLoginState (ls : LoginState) : tstoreE ()
| TakeLoginState (state : string) (now : time) : tstoreE LoginState
| UpsertUserByGoogleSub (googleSub email name : string) (now : time) : tstoreE User
| GetUser (id : string) : tstoreE User
| GetUserByEmail (email : string) : tstoreE User
| SetActiveWorkspace (userID workspaceID : string) : tstoreE ()
| CreateWorkspace (ws : Workspace) (ownerUserID : string) : tstoreE ()
| GetWorkspace (id : string) : tstoreE Workspace
| ListWorkspacesForUser (userID : string) : tstoreE (list WorkspaceWithRole)
| GetMembership (workspaceID userID : string) : tstoreE Membership
| ListMembers (workspaceID : string) : tstoreE (list MemberWithUser)
| AddMember (m : Membership) : tstoreE ()
| UpdateMemberRole (workspaceID userID role : string) : tstoreE ()
| RemoveMember (workspaceID userID : string) : tstoreE ()
| CountOwners (workspaceID : string) : tstoreE Z
| CreateRefreshToken (rt : RefreshToken) : tstoreE ()
| GetRefreshTokenByHash (tokenHash : string) : tstoreE RefreshToken
| MarkRefreshTokenUsed (id : string) (at_ : time) : tstoreE ()
| RevokeRefreshFamily (familyID : string) (at_ : time) : tstoreE ()
| CreateAPIKey (k : APIKey) : tstoreE ()
| GetAPIKey (id : string) : tstoreE APIKey
| ListAPIKeys (workspaceID : string) : tstoreE (list APIKey)
| RevokeAPIKey (workspaceID id : string) (at_ : time) : tstoreE ()
| TouchAPIKey (id : string) (at_ : time) : tstoreE ()
| ApplyMetering (ev : MeteringEvent) (month : string) (delta : UsageRollup) : tstoreE bool
| GetRollup (workspaceID month : string) : tstoreE UsageRollup
| SumStorageBytes (workspaceID : string) : tstoreE Z.

(** [SELECT .. WHERE key = ..] of one row. *)
Definition row {K A} `{Countable K} (m : gmap K A) (k : K) : result A :=
  match m !! k with Some a => Ok a | None => Err ENotFound end.

Definition rows {K A} `{Countable K} (m : gmap K A) : list A := (map_to_list m).*2.

(** [INSERT] of a row whose key must be new. *)
Definition new_key {K A} `{Countable K} (m : gmap K A) (k : K) : bool := bool_decide (m !! k = None).
Definition has {K A} `{Countable K} (m : gmap K A) (k : K) : bool := bool_decide (is_Some (m !! k)).

(** ** login states *)

Definition pg_SaveLoginState (ls : LoginState) (d : tdb) : result () * tdb :=
  if new_key (login_states d) (ls_State ls)
  then (Ok (), set_login_states d (<[ls_State ls := ls]> (login_states d)))
  else (Err (EMsg "save login state"), d).

(** The row is deleted whether or not it has expired. *)
Definition pg_TakeLoginState (state : string) (now : time) (d : tdb) : result LoginState * tdb :=
  match login_states d !! state with
  | None => (Err ENotFound, d)
  | Some ls =>
      (if ls_ExpiresAt ls <? now then Err ENotFound else Ok ls,
       set_login_states d (delete state (login_states d)))
  end.

(** ** users *)

(** The unique index on [lower(email)], for the row [id]. *)
Definition email_free (d : tdb) (id email : string) : bool :=
  forallb (fun u => String.eqb (u_ID u) id || negb (String.eqb (ToLower (u_Email u)) (ToLower email)))
    (rows (users d)).

Definition by_sub (d : tdb) (googleSub : string) : option User :=
  snd <$> list_find (fun u => u_GoogleSub u = googleSub) (rows (users d)).

Definition new_user (newID googleSub email name : string) (now : time) : User :=
  {| u_ID := newID; u_GoogleSub := googleSub; u_Email := ToLower email; u_Name := name;
     u_ActiveWorkspaceID := ""; u_CreatedAt := now; u_LastLoginAt := now |}.

Definition relogin (u : User) (email name : string) (now : time) : User :=
  {| u_ID := u_ID u; u_GoogleSub := u_GoogleSub u; u_Email := ToLower email; u_Name := name;
     u_ActiveWorkspaceID := u_ActiveWorkspaceID u; u_CreatedAt := u_CreatedAt u; u_LastLoginAt := now |}.

(** [ON CONFLICT (google_sub) DO UPDATE]; the other constraints are errors. *)
Definition pg_UpsertUserByGoogleSub (newID googleSub email name : string) (now : time) (d : tdb)
    : result User * tdb :=
  match by_sub d googleSub with
  | Some u =>
      if email_free d (u_ID u) email
      then (Ok (relogin u email name now), set_users d (<[u_ID u := relogin u email name now]> (users d)))
      else (Err (EMsg "scan user"), d)
  | None =>
      if new_key (users d) newID && email_free d newID email
      then (Ok (new_user newID googleSub email name now),
            set_users d (<[newID := new_user newID googleSub email name now]> (users d)))
      else (Err (EMsg "scan user"), d)
  end.

Definition pg_GetUserByEmail (email : string) (d : tdb) : result User :=
  match list_find (fun u => ToLower (u_Email u) = ToLower email) (rows (users d)) with
  | Some (_, u) => Ok u
  | None => Err ENotFound
  end.

Definition with_active (u : User) (workspaceID : string) : User :=
  {| u_ID := u_ID u; u_GoogleSub := u_GoogleSub u; u_Email := u_Email u; u_Name := u_Name u;
     u_ActiveWorkspaceID := workspaceID; u_CreatedAt := u_CreatedAt u; u_LastLoginAt := u_LastLoginAt u |}.

Definition pg_SetActiveWorkspace (userID workspaceID : string) (d : tdb) : result () * tdb :=
  match users d !! userID with
  | Some u => (Ok (), set_users d (<[userID := with_active u workspaceID]> (users d)))
  | None => (Err ENotFound, d)
  end.

(** ** workspaces and membership *)

Definition owner_membership (ws : Workspace) (userID : string) : Membership :=
  {| m_WorkspaceID := w_ID ws; m_UserID := userID; m_Role := RoleOwner; m_CreatedAt := w_CreatedAt ws |}.

(** One transaction: nothing stays of it when its second statement fails. *)
Definition pg_CreateWorkspace (ws : Workspace) (owner : string) (d : tdb) : result () * tdb :=
  if negb (new_key (workspaces d) (w_ID ws)) then (Err EDuplicate, d)
  else if negb (has (users d) (w_CreatedBy ws)) then (Err (EMsg "insert workspace"), d)
  else if new_key (memberships d) (w_ID ws, owner) && has (users d) owner
  then (Ok (), set_memberships (set_workspaces d (<[w_ID ws := ws]> (workspaces d)))
                 (<[(w_ID ws, owner) := owner_membership ws owner]> (memberships d)))
  else (Err (EMsg "insert owner membership"), d).

Definition older_ws (a b : WorkspaceWithRole) : Prop :=
  w_CreatedAt (wr_Workspace a) <= w_CreatedAt (wr_Workspace b).
#[export] Instance older_ws_dec : RelDecision older_ws.
Proof. intros a b. unfold older_ws. apply _. Defined.

Definition pg_ListWorkspacesForUser (userID : string) (d : tdb) : list WorkspaceWithRole :=
  merge_sort older_ws
    (omap (fun m => w ← workspaces d !! m_WorkspaceID m;
                    Some {| wr_Workspace := w; wr_Role := m_Role m |})
      (filter (fun m => m_UserID m = userID) (rows (memberships d)))).

Definition older_member (a b : MemberWithUser) : Prop :=
  m_CreatedAt (mu_Membership a) <= m_CreatedAt (mu_Membership b).
#[export] Instance older_member_dec : RelDecision older_member.
Proof. intros a b. unfold older_member. apply _. Defined.

Definition pg_ListMembers (workspaceID : string) (d : tdb) : list MemberWithUser :=
  merge_sort older_member
    (omap (fun m => u ← users d !! m_UserID m;
                    Some {| mu_Membership := m; mu_Email := u_Email u; mu_Name := u_Name u |})
      (filter (fun m => m_WorkspaceID m = workspaceID) (rows (memberships d)))).

(** The role check is evaluated before the key, the foreign keys after it. *)
Definition pg_AddMember (m : Membership) (d : tdb) : result () * tdb :=
  if negb (validRole (m_Role m)) then (Err (EMsg "add member"), d)
  else if negb (new_key (memberships d) (m_WorkspaceID m, m_UserID m)) then (Err EDuplicate, d)
  else if has (workspaces d) (m_WorkspaceID m) && has (users d) (m_UserID m)
  then (Ok (), set_memberships d (<[(m_WorkspaceID m, m_UserID m) := m]> (memberships d)))
  else (Err (EMsg "add member"), d).

Definition with_role (m : Membership) (role : string) : Membership :=
  {| m_WorkspaceID := m_WorkspaceID m; m_UserID := m_UserID m; m_Role := role;
     m_CreatedAt := m_CreatedAt m |}.

Definition pg_UpdateMemberRole (workspaceID userID role : string) (d : tdb) : result () * tdb :=
  match memberships d !! (workspaceID, userID) with
  | None => (Err ENotFound, d)
  | Some m =>
      if validRole role
      then (Ok (), set_memberships d (<[(workspaceID, userID) := with_role m role]> (memberships d)))
      else (Err (EMsg "update member role"), d)
  end.

Definition pg_RemoveMember (workspaceID userID : string) (d : tdb) : result () * tdb :=
  match memberships d !! (workspaceID, userID) with
  | None => (Err ENotFound, d)
  | Some _ => (Ok (), set_memberships d (delete (workspaceID, userID) (memberships d)))
  end.

Definition owners (workspaceID : string) (d : tdb) : list Membership :=
  filter (fun m => m_WorkspaceID m = workspaceID /\ m_Role m = RoleOwner) (rows (memberships d)).

Definition pg_CountOwners (workspaceID : string) (d : tdb) : Z :=
  Z.of_nat (length (owners workspaceID d)).

(** ** refresh tokens *)

Definition inserted_token (rt : RefreshToken) : RefreshToken :=
  {| rt_ID := rt_ID rt; rt_UserID := rt_UserID rt; rt_FamilyID := rt_FamilyID rt;
     rt_TokenHash := rt_TokenHash rt; rt_CreatedAt := rt_CreatedAt rt; rt_ExpiresAt := rt_ExpiresAt rt;
     rt_UsedAt := None; rt_RevokedAt := None |}.

Definition by_hash (d : tdb) (tokenHash : string) : option RefreshToken :=
  snd <$> list_find (fun rt => rt_TokenHash rt = tokenHash) (rows (refresh_tokens d)).

Definition pg_CreateRefreshToken (rt : RefreshToken) (d : tdb) : result () * tdb :=
  if new_key (refresh_tokens d) (rt_ID rt) && bool_decide (by_hash d (rt_TokenHash rt) = None)
     && has (users d) (rt_UserID rt)
  then (Ok (), set_refresh_tokens d (<[rt_ID rt := inserted_token rt]> (refresh_tokens d)))
  else (Err (EMsg "create refresh token"), d).

Definition pg_GetRefreshTokenByHash (tokenHash : string) (d : tdb) : result RefreshToken :=
  match by_hash d tokenHash with Some rt => Ok rt | None => Err ENotFound end.

Definition used (rt : RefreshToken) (at_ : time) : RefreshToken :=
  {| rt_ID := rt_ID rt; rt_UserID := rt_UserID rt; rt_FamilyID := rt_FamilyID rt;
     rt_TokenHash := rt_TokenHash rt; rt_CreatedAt := rt_CreatedAt rt; rt_ExpiresAt := rt_ExpiresAt rt;
     rt_UsedAt := Some at_; rt_RevokedAt := rt_RevokedAt rt |}.

Definition pg_MarkRefreshTokenUsed (id : string) (at_ : time) (d : tdb) : result () * tdb :=
  match refresh_tokens d !! id with
  | Some rt =>
      match rt_UsedAt rt with
      | Some _ => (Err ENotFound, d)
      | None => (Ok (), set_refresh_tokens d (<[id := used rt at_]> (refresh_tokens d)))
      end
  | None => (Err ENotFound, d)
  end.

(** [SET revoked_at = .. WHERE family_id = .. AND revoked_at IS NULL] *)
Definition revoked (familyID : string) (at_ : time) (rt : RefreshToken) : RefreshToken :=
  if String.eqb (rt_FamilyID rt) familyID && bool_decide (rt_RevokedAt rt = None)
  then {| rt_ID := rt_ID rt; rt_UserID := rt_UserID rt; rt_FamilyID := rt_FamilyID rt;
          rt_TokenHash := rt_TokenHash rt; rt_CreatedAt := rt_CreatedAt rt;
          rt_ExpiresAt := rt_ExpiresAt rt; rt_UsedAt := rt_UsedAt rt; rt_RevokedAt := Some at_ |}
  else rt.

Definition pg_RevokeRefreshFamily (familyID : string) (at_ : time) (d : tdb) : result () * tdb :=
  (Ok (), set_refresh_tokens d (revoked familyID at_ <$> refresh_tokens d)).

(** ** api keys *)

Definition inserted_key (k : APIKey) : APIKey :=
  {| k_ID := k_ID k; k_WorkspaceID := k_WorkspaceID k; k_Name := k_Name k;
     k_SecretHash := k_SecretHash k; k_CreatedBy := k_CreatedBy k; k_CreatedAt := k_CreatedAt k;
     k_LastUsedAt := None; k_RevokedAt := None |}.

Definition pg_CreateAPIKey (k : APIKey) (d : tdb) : result () * tdb :=
  if new_key (api_keys d) (k_ID k) && has (workspaces d) (k_WorkspaceID k) && has (users d) (k_CreatedBy k)
  then (Ok (), set_api_keys d (<[k_ID k := inserted_key k]> (api_keys d)))
  else (Err (EMsg "create api key"), d).

Definition older_key (a b : APIKey) : Prop := k_CreatedAt a <= k_CreatedAt b.
#[export] Instance older_key_dec : RelDecision older_key.
Proof. intros a b. unfold older_key. apply _. Defined.

Definition pg_ListAPIKeys (workspaceID : string) (d : tdb) : list APIKey :=
  merge_sort older_key (filter (fun k => k_WorkspaceID k = workspaceID) (rows (api_keys d))).

Definition with_key_times (k : APIKey) (lastUsed revokedAt : option time) : APIKey :=
  {| k_ID := k_ID k; k_WorkspaceID := k_WorkspaceID k; k_Name := k_Name k;
     k_SecretHash := k_SecretHash k; k_CreatedBy := k_CreatedBy k; k_CreatedAt := k_CreatedAt k;
     k_LastUsedAt := lastUsed; k_RevokedAt := revokedAt |}.

Definition pg_RevokeAPIKey (workspaceID id : string) (at_ : time) (d : tdb) : result () * tdb :=
  match api_keys d !! id with
  | Some k =>
      if String.eqb (k_WorkspaceID k) workspaceID && bool_decide (k_RevokedAt k = None)
      then (Ok (), set_api_keys d (<[id := with_key_times k (k_LastUsedAt k) (Some at_)]> (api_keys d)))
      else (Err ENotFound, d)
  | None => (Err ENotFound, d)
  end.

Definition pg_TouchAPIKey (id : string) (at_ : time) (d : tdb) : result () * tdb :=
  match api_keys d !! id with
  | Some k => (Ok (), set_api_keys d (<[id := with_key_times k (Some at_) (k_RevokedAt k)]> (api_keys d)))
  | None => (Ok (), d)
  end.

(** ** metering *)

(** Additions in SQL: [bigint] and [double precision] raise an error where Go wraps
    around or goes to infinity. *)
Definition bigint (z : Z) : option Z := if (- 2 ^ 63 <=? z) && (z <? 2 ^ 63) then Some z else None.

Definition is_inf (f : spec_float) : bool := match f with S754_infinity _ => true | _ => false end.
Definition float8pl (a b : spec_float) : option spec_float :=
  if is_inf (fadd a b) && negb (is_inf a) && negb (is_inf b) then None else Some (fadd a b).

Definition rollup_add (now : time) (old delta : UsageRollup) : option UsageRollup :=
  bytes ← bigint (ur_BytesUploaded old + ur_BytesUploaded delta);
  secs ← float8pl (ur_EncodeSeconds old) (ur_EncodeSeconds delta);
  sessions ← bigint (ur_UploadSessions old + ur_UploadSessions delta);
  completed ← bigint (ur_UploadsCompleted old + ur_UploadsCompleted delta);
  queued ← bigint (ur_JobsQueued old + ur_JobsQueued delta);
  started ← bigint (ur_JobsStarted old + ur_JobsStarted delta);
  jcompleted ← bigint (ur_JobsCompleted old + ur_JobsCompleted delta);
  failed ← bigint (ur_JobsFailed old + ur_JobsFailed delta);
  Some {| ur_WorkspaceID := ur_WorkspaceID old; ur_Month := ur_Month old; ur_BytesUploaded := bytes;
          ur_EncodeSeconds := secs; ur_UploadSessions := sessions; ur_UploadsCompleted := completed;
          ur_JobsQueued := queued; ur_JobsStarted := started; ur_JobsCompleted := jcompleted;
          ur_JobsFailed := failed; ur_UpdatedAt := now |}.

Definition rollup_row (now : time) (month : string) (delta : UsageRollup) : UsageRollup :=
  {| ur_WorkspaceID := ur_WorkspaceID delta; ur_Month := month;
     ur_BytesUploaded := ur_BytesUploaded delta; ur_EncodeSeconds := ur_EncodeSeconds delta;
     ur_UploadSessions := ur_UploadSessions delta; ur_UploadsCompleted := ur_UploadsCompleted delta;
     ur_JobsQueued := ur_JobsQueued delta; ur_JobsStarted := ur_JobsStarted delta;
     ur_JobsCompleted := ur_JobsCompleted delta; ur_JobsFailed := ur_JobsFailed delta;
     ur_UpdatedAt := now |}.

Definition upserted_rollup (now : time) (month : string) (delta : UsageRollup) (d : tdb)
    : option UsageRollup :=
  match usage_rollups d !! (ur_WorkspaceID delta, month) with
  | None => Some (rollup_row now month delta)
  | Some old => rollup_add now old delta
  end.

(** One transaction: the event's row is the idempotency record of the increment. *)
Definition pg_ApplyMetering (now : time) (ev : MeteringEvent) (month : string) (delta : UsageRollup)
    (d : tdb) : result bool * tdb :=
  if has (metering_events d) (me_EventID ev) then (Ok false, d)
  else match upserted_rollup now month delta d with
       | None => (Err (EMsg "upsert rollup"), d)
       | Some r =>
           (Ok true, set_metering d (<[me_EventID ev := ev]> (metering_events d))
                       (<[(ur_WorkspaceID delta, month) := r]> (usage_rollups d)))
       end.

Definition sumZ (l : list Z) : Z := foldr Z.add 0 l.

(** [sum(bigint)] is [numeric]; the scan into an [int64] can fail. *)
Definition pg_SumStorageBytes (workspaceID : string) (d : tdb) : result Z :=
  let n := sumZ (ur_BytesUploaded <$>
             filter (fun r => ur_WorkspaceID r = workspaceID) (rows (usage_rollups d))) in
  match bigint n with Some n => Ok n | None => Err (EMsg "sum storage bytes") end.

(** ** Rows by key *)

Definition pg_GetUser (id : string) (d : tdb) : result User := row (users d) id.
Definition pg_GetWorkspace (id : string) (d : tdb) : result Workspace := row (workspaces d) id.
Definition pg_GetMembership (workspaceID userID : string) (d : tdb) : result Membership :=
  row (memberships d) (workspaceID, userID).
Definition pg_GetAPIKey (id : string) (d : tdb) : result APIKey := row (api_keys d) id.
Definition pg_GetRollup (workspaceID month : string) (d : tdb) : result UsageRollup :=
  row (usage_rollups d) (workspaceID, month).

Definition tstore_apply (now : time) (uid : string) {Y} (e : tstoreE Y) (d : tdb) : result Y * tdb :=
  match e in tstoreE Y return result Y * tdb with
  | SaveLoginState ls => pg_SaveLoginState ls d
  | TakeLoginState state now => pg_TakeLoginState state now d
  | UpsertUserByGoogleSub sub email name now => pg_UpsertUserByGoogleSub uid sub email name now d
  | GetUser id => (pg_GetUser id d, d)
  | GetUserByEmail email => (pg_GetUserByEmail email d, d)
  | SetActiveWorkspace user ws => pg_SetActiveWorkspace user ws d
  | CreateWorkspace ws owner => pg_CreateWorkspace ws owner d
  | GetWorkspace id => (pg_GetWorkspace id d, d)
  | ListWorkspacesForUser user => (Ok (pg_ListWorkspacesForUser user d), d)
  | GetMembership ws user => (pg_GetMembership ws user d, d)
  | ListMembers ws => (Ok (pg_ListMembers ws d), d)
  | AddMember m => pg_AddMember m d
  | UpdateMemberRole ws user role => pg_UpdateMemberRole ws user role d
  | RemoveMember ws user => pg_RemoveMember ws user d
  | CountOwners ws => (Ok (pg_CountOwners ws d), d)
  | CreateRefreshToken rt => pg_CreateRefreshToken rt d
  | GetRefreshTokenByHash h => (pg_GetRefreshTokenByHash h d, d)
  | MarkRefreshTokenUsed id at_ => pg_MarkRefreshTokenUsed id at_ d
  | RevokeRefreshFamily fam at_ => pg_RevokeRefreshFamily fam at_ d
  | CreateAPIKey k => pg_CreateAPIKey k d
  | GetAPIKey id => (pg_GetAPIKey id d, d)
  | ListAPIKeys ws => (Ok (pg_ListAPIKeys ws d), d)
  | RevokeAPIKey ws id at_ => pg_RevokeAPIKey ws id at_ d
  | TouchAPIKey id at_ => pg_TouchAPIKey id at_ d
  | ApplyMetering ev month delta => pg_ApplyMetering now ev month delta d
  | GetRollup ws month => (pg_GetRollup ws month d, d)
  | SumStorageBytes ws => (pg_SumStorageBytes ws d, d)
  end.

(** One call: some [now()] and id, and possibly a fault. *)
Definition tstore_spec {Y} (e : tstoreE Y) (d : tdb) (r : result Y) (d' : tdb) : Prop :=
  exists now uid, up_to_fault (tstore_apply now uid e d) d r d'.

(** The pool with the clock, the ids and the outcomes of its future statements. *)
Record tworld := { tw_db : tdb; tw_inputs : list (time * string * fault) }.

Definition tstore_exec {Y} (e : tstoreE Y) (w : tworld) : result Y * tworld :=
  let '(now, uid, f) := default (0, "", FOk) (head (tw_inputs w)) in
  let '(r, d) := faulty f (EMsg "postgres") (tw_db w) (tstore_apply now uid e (tw_db w)) in
  (r, {| tw_db := d; tw_inputs := tail (tw_inputs w) |}).

Lemma tstore_exec_spec {Y} (e : tstoreE Y) w :
  tstore_spec e (tw_db w) (tstore_exec e w).1 (tw_db (tstore_exec e w).2).
Proof.
  unfold tstore_exec, tstore_spec. destruct (default _ _) as [[now uid] f]. exists now, uid.
  destruct (faulty f _ _ _) as [r d] eqn:Hf. simpl.
  pose proof (faulty_up_to_fault f (EMsg "postgres") (tw_db w) (tstore_apply now uid e (tw_db w))) as H.
  by rewrite Hf in H.
Qed.

(** What every nominal statement respects, every call respects. *)
Lemma tstore_exec_rel (R : tdb -> tdb -> Prop) `{!Reflexive R} {Y} (e : tstoreE Y) w :
  (forall now uid, R (tw_db w) (tstore_apply now uid e (tw_db w)).2) ->
  R (tw_db w) (tw_db (tstore_exec e w).2).
Proof.
  intros H. destruct (tstore_exec_spec e w) as (now & uid & Hs). eapply up_to_fault_rel; [done|apply H|exact Hs].
Qed.

(** ** Lookups *)

Lemma elem_of_rows {K A} `{Countable K} (m : gmap K A) a : a ∈ rows m <-> exists k, m !! k = Some a.
Proof.
  unfold rows. rewrite list_elem_of_fmap. split.
  - intros [[k a'] [-> Hin%elem_of_map_to_list]]. by exists k.
  - intros [k Hk]. exists (k, a). split; [done|]. by apply elem_of_map_to_list.
Qed.

Lemma row_Ok {K A} `{Countable K} (m : gmap K A) k a : row m k = Ok a <-> m !! k = Some a.
Proof. unfold row. destruct (m !! k); split; congruence. Qed.
Lemma row_Err {K A} `{Countable K} (m : gmap K A) k e : row m k = Err e -> e = ENotFound /\ m !! k = None.
Proof. unfold row. destruct (m !! k); intros [= <-]; done. Qed.

Lemma list_find_Some_row {A} (P : A -> Prop) `{!forall x, Decision (P x)} (l : list A) a :
  snd <$> list_find P l = Some a -> a ∈ l /\ P a.
Proof.
  intros Hf. destruct (list_find P l) as [[i b]|] eqn:Hl; simplify_eq/=.
  apply list_find_Some in Hl as (Hi & HP & _). split; [by eapply list_elem_of_lookup_2|done].
Qed.
Lemma list_find_None_row {A} (P : A -> Prop) `{!forall x, Decision (P x)} (l : list A) :
  snd <$> list_find P l = None -> forall a, a ∈ l -> ~ P a.
Proof.
  intros Hf a Ha HP. destruct (list_find P l) as [[i b]|] eqn:Hl; simplify_eq/=.
  apply list_find_None in Hl. rewrite Forall_forall in Hl. by apply (Hl a).
Qed.

Lemma by_hash_Some d h rt :
  by_hash d h = Some rt -> (exists id, refresh_tokens d !! id = Some rt) /\ rt_TokenHash rt = h.
Proof. intros [Hin Hh]%list_find_Some_row. split; [by apply elem_of_rows|done]. Qed.
Lemma by_hash_None d h : by_hash d h = None ->
  forall id rt, refresh_tokens d !! id = Some rt -> rt_TokenHash rt <> h.
Proof. intros Hn id rt Hrt. apply (list_find_None_row _ _ Hn). apply elem_of_rows. by exists id. Qed.
Lemma by_sub_Some d s u :
  by_sub d s = Some u -> (exists id, users d !! id = Some u) /\ u_GoogleSub u = s.
Proof. intros [Hin Hh]%list_find_Some_row. split; [by apply elem_of_rows|done]. Qed.
Lemma by_sub_None d s : by_sub d s = None ->
  forall id u, users d !! id = Some u -> u_GoogleSub u <> s.
Proof. intros Hn id u Hu. apply (list_find_None_row _ _ Hn). apply elem_of_rows. by exists id. Qed.
Lemma email_free_true d id email : email_free d id email = true ->
  forall i u, users d !! i = Some u -> ToLower (u_Email u) = ToLower email -> u_ID u = id.
Proof.
  unfold email_free. intros Hf i u Hu He. rewrite forallb_forall in Hf.
  specialize (Hf u). rewrite orb_true_iff, String.eqb_eq, negb_true_iff, String.eqb_neq in Hf.
  destruct Hf as [?|?]; [|done|done]. apply list_elem_of_In, elem_of_rows. by exists i.
Qed.

(** ** The schema *)

Record tdb_wf (d : tdb) : Prop := {
  wf_user : forall id u, users d !! id = Some u -> u_ID u = id;
  wf_sub : forall i j u v, users d !! i = Some u -> users d !! j = Some v ->
    u_GoogleSub u = u_GoogleSub v -> i = j;
  wf_email : forall i j u v, users d !! i = Some u -> users d !! j = Some v ->
    ToLower (u_Email u) = ToLower (u_Email v) -> i = j;
  wf_workspace : forall id w, workspaces d !! id = Some w -> w_ID w = id /\ is_Some (users d !! w_CreatedBy w);
  wf_membership : forall ws user m, memberships d !! (ws, user) = Some m ->
    m_WorkspaceID m = ws /\ m_UserID m = user /\ validRole (m_Role m) = true /\
    is_Some (workspaces d !! ws) /\ is_Some (users d !! user);
  wf_token : forall id rt, refresh_tokens d !! id = Some rt ->
    rt_ID rt = id /\ is_Some (users d !! rt_UserID rt);
  wf_hash : forall i j a b, refresh_tokens d !! i = Some a -> refresh_tokens d !! j = Some b ->
    rt_TokenHash a = rt_TokenHash b -> i = j;
  wf_key : forall id k, api_keys d !! id = Some k ->
    k_ID k = id /\ is_Some (workspaces d !! k_WorkspaceID k) /\ is_Some (users d !! k_CreatedBy k);
  wf_event : forall id ev, metering_events d !! id = Some ev -> me_EventID ev = id;
  wf_rollup : forall ws month r, usage_rollups d !! (ws, month) = Some r ->
    ur_WorkspaceID r = ws /\ ur_Month r = month
}.

Lemma empty_tdb_wf : tdb_wf empty_tdb.
Proof. split; intros *; simpl; rewrite ?lookup_empty; done. Qed.

(** Replacing a user row keeps the references to it. *)
Lemma wf_set_user d id u :
  tdb_wf d -> u_ID u = id ->
  (forall j v, users d !! j = Some v -> u_GoogleSub u = u_GoogleSub v -> j = id) ->
  (forall j v, users d !! j = Some v -> ToLower (u_Email u) = ToLower (u_Email v) -> j = id) ->
  tdb_wf (set_users d (<[id := u]> (users d))).
Proof.
  intros Hwf Hid Hsub Hem. split; simpl; try by apply Hwf.
  - intros j v [[-> ->]|[_ Hv]]%lookup_insert_Some; [done|by apply Hwf].
  - intros i j a b [[-> ->]|[Hi Ha]]%lookup_insert_Some [[<- <-]|[Hj Hb]]%lookup_insert_Some; eauto.
    + intros He. symmetry. by eapply Hsub.
    + by eapply (wf_sub _ Hwf).
  - intros i j a b [[-> ->]|[Hi Ha]]%lookup_insert_Some [[<- <-]|[Hj Hb]]%lookup_insert_Some; eauto.
    + intros He. symmetry. by eapply Hem.
    + by eapply (wf_email _ Hwf).
  - intros j w Hw. destruct (wf_workspace _ Hwf _ _ Hw). split; [done|].
    rewrite lookup_insert_is_Some'. by right.
  - intros ws us m Hm. destruct (wf_membership _ Hwf _ _ _ Hm) as (? & ? & ? & ? & ?). split_and!; try done.
    rewrite lookup_insert_is_Some'. by right.
  - intros j rt Hrt. destruct (wf_token _ Hwf _ _ Hrt). split; [done|].
    rewrite lookup_insert_is_Some'. by right.
  - intros j k Hk. destruct (wf_key _ Hwf _ _ Hk) as (? & ? & ?). split_and!; try done.
    rewrite lookup_insert_is_Some'. by right.
Qed.

(** The foreign keys into a table only ask for a row. *)
Lemma wf_set_memberships d f :
  tdb_wf d ->
  (forall ws user m, f !! (ws, user) = Some m ->
     m_WorkspaceID m = ws /\ m_UserID m = user /\ validRole (m_Role m) = true /\
     is_Some (workspaces d !! ws) /\ is_Some (users d !! user)) ->
  tdb_wf (set_memberships d f).
Proof. intros Hwf Hf. split; simpl; first [done | apply Hwf]. Qed.

Lemma wf_set_tokens d f :
  tdb_wf d ->
  (forall id rt, f !! id = Some rt -> rt_ID rt = id /\ is_Some (users d !! rt_UserID rt)) ->
  (forall i j a b, f !! i = Some a -> f !! j = Some b -> rt_TokenHash a = rt_TokenHash b -> i = j) ->
  tdb_wf (set_refresh_tokens d f).
Proof. intros Hwf Hf Hh. split; simpl; first [done | apply Hwf]. Qed.

Lemma wf_set_keys d f :
  tdb_wf d ->
  (forall id k, f !! id = Some k ->
     k_ID k = id /\ is_Some (workspaces d !! k_WorkspaceID k) /\ is_Some (users d !! k_CreatedBy k)) ->
  tdb_wf (set_api_keys d f).
Proof. intros Hwf Hf. split; simpl; first [done | apply Hwf]. Qed.

(** A token row rewritten in place. *)
Lemma wf_map_token d id rt rt' :
  tdb_wf d -> refresh_tokens d !! id = Some rt ->
  rt_ID rt' = rt_ID rt -> rt_UserID rt' = rt_UserID rt -> rt_TokenHash rt' = rt_TokenHash rt ->
  tdb_wf (set_refresh_tokens d (<[id := rt']> (refresh_tokens d))).
Proof.
  intros Hwf Hrt Hi Hu Hh. apply wf_set_tokens; [done|..].
  - intros j a [[-> ->]|[_ Ha]]%lookup_insert_Some; [rewrite Hi, Hu|]; by apply Hwf.
  - intros i j a b [[-> ->]|[? Ha]]%lookup_insert_Some [[<- <-]|[? Hb]]%lookup_insert_Some He; eauto;
      eapply (wf_hash _ Hwf); eauto; congruence.
Qed.

Ltac guards :=
  repeat match goal with
  | H : new_key _ _ = true |- _ => apply bool_decide_eq_true in H
  | H : has _ _ = true |- _ => apply bool_decide_eq_true in H
  | H : new_key _ _ = false |- _ => apply bool_decide_eq_false in H
  | H : has _ _ = false |- _ => apply bool_decide_eq_false in H
  | _ => progress bool_prop
  end.

Lemma upsert_wf newID sub email name now d :
  tdb_wf d -> tdb_wf (pg_UpsertUserByGoogleSub newID sub email name now d).2.
Proof.
  intros Hwf. unfold pg_UpsertUserByGoogleSub. destruct (by_sub d sub) as [u|] eqn:Hs.
  - apply by_sub_Some in Hs as [[id Hu] Hs]. pose proof (wf_user _ Hwf _ _ Hu) as Hid. subst id.
    destruct (email_free _ _ _) eqn:He; [|done]. apply wf_set_user; simpl; try done.
    + intros j v Hv Heq. symmetry. by eapply (wf_sub _ Hwf).
    + intros j v Hv Heq. rewrite <-(wf_user _ Hwf _ _ Hv). eapply email_free_true; [done|done|].
      rewrite <-Heq. apply ToLower_idem.
  - destruct (new_key _ _ && _) eqn:Hg; [|done]. guards. apply wf_set_user; simpl; try done.
    + intros j v Hv Heq. by destruct (by_sub_None _ _ Hs _ _ Hv).
    + intros j v Hv Heq. rewrite <-(wf_user _ Hwf _ _ Hv). eapply email_free_true; [done|done|].
      rewrite <-Heq. apply ToLower_idem.
Qed.

Lemma create_workspace_wf ws owner d : tdb_wf d -> tdb_wf (pg_CreateWorkspace ws owner d).2.
Proof.
  intros Hwf. unfold pg_CreateWorkspace. destruct (new_key (workspaces d) _) eqn:Hf; [|done].
  destruct (has (users d) (w_CreatedBy ws)) eqn:Hc; [|done]. destruct (new_key _ _ && _) eqn:Hg; [|done].
  simpl. guards. split; simpl; try by apply Hwf.
  - intros id w [[<- <-]|[_ Hw]]%lookup_insert_Some; [done|by apply Hwf].
  - intros i j m [[[= <- <-] <-]|[_ Hm]]%lookup_insert_Some.
    + split_and!; try done. rewrite lookup_insert_eq. by eexists.
    + destruct (wf_membership _ Hwf _ _ _ Hm) as (? & ? & ? & ? & ?). split_and!; try done.
      rewrite lookup_insert_is_Some'. by right.
  - intros id k Hk. destruct (wf_key _ Hwf _ _ Hk) as (? & ? & ?). split_and!; try done.
    rewrite lookup_insert_is_Some'. by right.
Qed.

Lemma member_wf d ws user m role :
  tdb_wf d -> memberships d !! (ws, user) = Some m -> validRole role = true ->
  tdb_wf (set_memberships d (<[(ws, user) := with_role m role]> (memberships d))).
Proof.
  intros Hwf Hm Hr. apply wf_set_memberships; [done|].
  intros i j m' [[[= <- <-] <-]|[_ H]]%lookup_insert_Some; [|by apply Hwf].
  destruct (wf_membership _ Hwf _ _ _ Hm) as (? & ? & ? & ? & ?). done.
Qed.

Lemma revoke_wf fam at_ d : tdb_wf d -> tdb_wf (pg_RevokeRefreshFamily fam at_ d).2.
Proof.
  assert (Hr : forall rt, rt_ID (revoked fam at_ rt) = rt_ID rt /\ rt_UserID (revoked fam at_ rt) = rt_UserID rt
                /\ rt_TokenHash (revoked fam at_ rt) = rt_TokenHash rt)
    by (intros rt; unfold revoked; by destruct (_ && _)).
  intros Hwf. apply wf_set_tokens; [done|..].
  - intros id rt. rewrite lookup_fmap, fmap_Some. intros (a & Ha & ->).
    destruct (Hr a) as (-> & -> & _). by apply Hwf.
  - intros i j a b. rewrite !lookup_fmap, !fmap_Some. intros (a' & Ha & ->) (b' & Hb & ->).
    destruct (Hr a') as (_ & _ & ->), (Hr b') as (_ & _ & ->). by eapply (wf_hash _ Hwf).
Qed.

Lemma create_token_wf rt d : tdb_wf d -> tdb_wf (pg_CreateRefreshToken rt d).2.
Proof.
  intros Hwf. unfold pg_CreateRefreshToken. destruct (_ && _) eqn:Hg; [|done]. guards.
  apply wf_set_tokens; [done|..].
  - intros id a [[<- <-]|[_ Ha]]%lookup_insert_Some; [done|by apply Hwf].
  - pose proof (by_hash_None _ _ H1) as Hn.
    intros i j a b [[<- <-]|[? Ha]]%lookup_insert_Some [[<- <-]|[? Hb]]%lookup_insert_Some; simpl; try done.
    + intros He. by destruct (Hn _ _ Hb).
    + intros He. by destruct (Hn _ _ Ha).
    + by eapply (wf_hash _ Hwf).
Qed.

Lemma key_wf d id k k' :
  tdb_wf d -> api_keys d !! id = Some k ->
  k_ID k' = k_ID k -> k_WorkspaceID k' = k_WorkspaceID k -> k_CreatedBy k' = k_CreatedBy k ->
  tdb_wf (set_api_keys d (<[id := k']> (api_keys d))).
Proof.
  intros Hwf Hk Hi Hw Hc. apply wf_set_keys; [done|].
  intros j a [[-> ->]|[_ Ha]]%lookup_insert_Some; [rewrite Hi, Hw, Hc|]; by apply Hwf.
Qed.

Lemma rollup_add_key now old delta r : rollup_add now old delta = Some r ->
  ur_WorkspaceID r = ur_WorkspaceID old /\ ur_Month r = ur_Month old.
Proof. unfold rollup_add. intros H. repeat (apply bind_Some in H as (? & _ & H)). by simplify_eq/=. Qed.

Lemma metering_wf now ev month delta d : tdb_wf d -> tdb_wf (pg_ApplyMetering now ev month delta d).2.
Proof.
  intros Hwf. unfold pg_ApplyMetering. destruct (has _ _); [done|].
  destruct (upserted_rollup _ _ _ _) as [r|] eqn:Hr; [|done]. split; simpl; try by apply Hwf.
  - intros id e [[<- <-]|[_ He]]%lookup_insert_Some; [done|by apply Hwf].
  - intros ws mo r' [[[= <- <-] <-]|[_ H]]%lookup_insert_Some; [|by apply Hwf].
    unfold upserted_rollup in Hr. destruct (usage_rollups d !! _) as [old|] eqn:Ho; [|by simplify_eq/=].
    apply rollup_add_key in Hr as [-> ->]. by apply Hwf.
Qed.

Lemma statement_wf now uid {Y} (e : tstoreE Y) d : tdb_wf d -> tdb_wf (tstore_apply now uid e d).2.
Proof.
  intros Hwf. destruct e; simpl; try done.
  - unfold pg_SaveLoginState. destruct (new_key _ _); [|done]. split; simpl; apply Hwf.
  - unfold pg_TakeLoginState. destruct (login_states d !! _); [|done]. split; simpl; apply Hwf.
  - by apply upsert_wf.
  - unfold pg_SetActiveWorkspace. destruct (users d !! userID) as [u|] eqn:Hu; [|done].
    pose proof (wf_user _ Hwf _ _ Hu) as <-. apply wf_set_user; simpl; try done.
    + intros j v Hv Heq. symmetry. by eapply (wf_sub _ Hwf).
    + intros j v Hv Heq. symmetry. by eapply (wf_email _ Hwf).
  - by apply create_workspace_wf.
  - unfold pg_AddMember. destruct (validRole _) eqn:Hr; [|done]. destruct (new_key _ _) eqn:Hf; [|done].
    simpl. destruct (_ && _) eqn:Hg; [|done]. guards. apply wf_set_memberships; [done|].
    intros i j m' [[[= <- <-] <-]|[_ H']]%lookup_insert_Some; [done|by apply Hwf].
  - unfold pg_UpdateMemberRole. destruct (memberships d !! _) as [m|] eqn:Hm; [|done].
    destruct (validRole role) eqn:Hr; [|done]. by apply member_wf.
  - unfold pg_RemoveMember. destruct (memberships d !! _) as [m|]; [|done]. apply wf_set_memberships; [done|].
    intros i j m' [_ H]%lookup_delete_Some. by apply Hwf.
  - by apply create_token_wf.
  - unfold pg_MarkRefreshTokenUsed. destruct (refresh_tokens d !! id) as [rt|] eqn:Hrt; [|done].
    destruct (rt_UsedAt rt); [done|]. by eapply wf_map_token.
  - by apply revoke_wf.
  - unfold pg_CreateAPIKey. destruct (_ && _) eqn:Hg; [|done]. guards. apply wf_set_keys; [done|].
    intros j a [[<- <-]|[_ Ha]]%lookup_insert_Some; [done|by apply Hwf].
  - unfold pg_RevokeAPIKey. destruct (api_keys d !! id) as [k|] eqn:Hk; [|done].
    destruct (_ && _); [|done]. by eapply key_wf.
  - unfold pg_TouchAPIKey. destruct (api_keys d !! id) as [k|] eqn:Hk; [|done]. by eapply key_wf.
  - by apply metering_wf.
Qed.

Lemma tstore_exec_wf {Y} (e : tstoreE Y) w : tdb_wf (tw_db w) -> tdb_wf (tw_db (tstore_exec e w).2).
Proof.
  assert (Reflexive (fun d d' => tdb_wf d -> tdb_wf d')) by (by intros ?).
  apply (tstore_exec_rel (fun d d' => tdb_wf d -> tdb_wf d')). intros now uid. apply statement_wf.
Qed.
