(* ===== verification/Tenancy.v ===== *)
(** * services/tenancy: what the handlers share

    The dependencies of the service as one interface [tenE], the request as the
    handlers read it, and the helpers of [server.go] and [tokens.go].  A request
    carries its headers, path and query values and the outcome of reading and
    strictly decoding its body, one field per body type. *)
From S2P Require Export Tokens TenancyStore.
#[local] Open Scope Z_scope.

(** ** The dependencies *)

Record http_request := {
  hr_Method : string; hr_URL : string; hr_Header : list (string * string); hr_Body : string
}.

(** What a client reads of a reply: its status and its body. *)
Record http_reply := { hp_Status : Z; hp_Body : stream }.

(** [rsa.PublicKey] *)
Record rsa_key := { key_N : Z; key_E : Z }.

Inductive tenE : Type -> Type :=
| TStore {Y} (e : tstoreE Y) : tenE (result Y)
| TNow : tenE time
| NewString : tenE string
| RandRead (n : Z) : tenE (result string)
| HttpDo (req : http_request) : tenE (result http_reply)
| LoadKeys : tenE (gmap string rsa_key * time)
| StoreKeys (keys : gmap string rsa_key) (fetched : time) : tenE ().

(** ** Requests and replies *)

Record trequest := {
  tr_Authorization : string;
  tr_XAPIKey : string;
  tr_XInternalToken : string;
  tr_Cookie : option string;              (* the aether_refresh cookie *)
  tr_id : string;                         (* path values *)
  tr_userId : string;
  tr_error : string;                      (* query values *)
  tr_state : string;
  tr_code : string;
  tr_raw : result string;                 (* the body, read to its bound *)
  tr_single : bool;                       (* nothing follows the first value *)
  tr_name : result string;                (* the body types, decoded *)
  tr_workspaceId : result string;
  tr_member : result (string * string);
  tr_role : result string;
  tr_refreshToken : result string;
  tr_apiKey : result string;
  tr_upload : result (string * Z);
  tr_job : result string
}.

Record cookie := { ck_Value : string; ck_Expires : time; ck_Secure : bool }.

(** What a handler leaves on the [ResponseWriter]: the response, and the refresh
    cookie where it sets one. *)
Record treply := { rp_response : response; rp_cookie : option cookie }.

Definition plain (r : response) : treply := {| rp_response := r; rp_cookie := None |}.

(** ** server.go *)

Definition apiKeyUserPrefix : string := "apikey:".

Definition internalError : response := writeError 500 "internal" "internal error".

Definition roleRank (role : string) : Z :=
  if String.eqb role RoleOwner then 3
  else if String.eqb role RoleAdmin then 2
  else if String.eqb role RoleMember then 1
  else 0.

(** The caller the middleware put into the context. *)
Definition requireIdentity (caller : option Identity) (k : Identity -> prog tenE response)
    : prog tenE response :=
  match caller with
  | None => Ret (writeError 401 "unauthorized" "no identity")
  | Some id => k id
  end.

Definition requireUser (caller : option Identity) (k : Identity -> prog tenE response)
    : prog tenE response :=
  requireIdentity caller (fun id =>
    if HasPrefix (id_UserID id) apiKeyUserPrefix
    then Ret (writeError 403 "user_required" "this endpoint requires a user session, not an api key")
    else k id).

Definition requireRole (workspaceID userID minRole : string) (k : prog tenE response)
    : prog tenE response :=
  m ← call (TStore (GetMembership workspaceID userID));
  match m with
  | Err ENotFound => Ret (writeError 403 "not_a_member" "caller is not a member of this workspace")
  | Err _ => Ret internalError
  | Ok m =>
      if roleRank (m_Role m) <? roleRank minRole
      then Ret (writeError 403 "insufficient_role"
                  ("this action requires the " +:+ minRole +:+ " role or better"))
      else k
  end.

Definition decodeJSONBody {A} (r : trequest) (body : result A) (k : A -> prog tenE response)
    : prog tenE response :=
  match body with
  | Err _ => Ret (writeError 400 "invalid_body" "request body must be valid JSON with known fields only")
  | Ok v =>
      if tr_single r then k v
      else Ret (writeError 400 "invalid_body" "request body must contain a single JSON object")
  end.

(** ** tokens.go *)

Section tokens.
Context (sha256 : string -> string).

Definition newOpaqueToken (nBytes : Z) : prog tenE (result string) :=
  buf ← call (RandRead nBytes);
  Ret (match buf with Err e => Err e | Ok buf => Ok (EncodeToString buf) end).

(** [hex.EncodeToString] *)
Definition hex_digit (n : Z) : ascii := if n <? 10 then char_of (48 + n) else char_of (87 + n).
Fixpoint hex (s : string) : string :=
  match s with
  | EmptyString => ""
  | String c s' => String (hex_digit (byte_of c / 16)) (String (hex_digit (byte_of c mod 16)) (hex s'))
  end.

Definition hashOpaqueToken (raw : string) : string := hex (sha256 raw).
End tokens.

(** ** The world of the service *)

(** The other dependencies: they keep a state of their own. *)
Definition tenancy_env (V : Type) : Type := forall X, tenE X -> tdb -> V -> X * V.

Definition tenancy_sem {V} (env : tenancy_env V) : sem tenE (tworld * V) := fun X e w =>
  match e in tenE X return X * (tworld * V) with
  | TStore e' => let '(r, d) := tstore_exec e' w.1 in (r, (d, w.2))
  | e' => let '(x, v) := env _ e' (tw_db w.1) w.2 in (x, (w.1, v))
  end.

(** Decompose a handler into its calls. *)
Ltac tenancy_calls :=
  repeat first
    [ exact I | done
    | progress intros
    | solve [eauto with calls nocore]
    | apply all_calls_bind
    | apply all_calls_call
    | case_match ].

(** A predicate on the statements a handler sends. *)
Definition tstore_calls (P : forall Y, tstoreE Y -> Prop) (X : Type) (e : tenE X) : Prop :=
  match e with TStore e' => P _ e' | _ => True end.

Lemma tenancy_sem_rel {V} (env : tenancy_env V) (R : tdb -> tdb -> Prop) `{!Reflexive R}
    (P : forall Y, tstoreE Y -> Prop) X (e : tenE X) w :
  (forall Y (e' : tstoreE Y) d now uid, P _ e' -> R d (tstore_apply now uid e' d).2) ->
  tstore_calls P _ e -> R (tw_db w.1) (tw_db (tenancy_sem env _ e w).2.1).
Proof.
  intros HP He. destruct e; simpl in *; try (by destruct (env _ _ _ _) as [x v]).
  destruct (tstore_exec e w.1) as [r d] eqn:Hs. simpl.
  pose proof (tstore_exec_rel R e w.1) as H. rewrite Hs in H. apply H. intros now uid. by apply HP.
Qed.
