(* ===== verification/MeteredQuota.v ===== *)
(** * services/tenancy: plan tiers and the metered quota

    [tiers.go], and [quota.go]'s checker with its HTTP endpoints.  The checker is a
    program over the tenancy store; [metered_quota] makes it an instance of the
    shared [QuotaChecker] interface. *)
From S2P Require Export Tenancy Calendar.
#[local] Open Scope Z_scope.

(** ** tiers.go *)

Record Tier := {
  EncodeHoursPerMonth : spec_float; StorageBytes : Z; t_MaxUploadBytes : Z;
  t_AllowUploads : bool; t_AllowJobs : bool
}.

#[export] Instance spec_float_eq_dec : EqDecision spec_float.
Proof. solve_decision. Defined.
#[export] Instance Tier_eq_dec : EqDecision Tier.
Proof. solve_decision. Defined.

Record TierConfig := { DefaultTier : string; Tiers : gmap string Tier }.

Definition Lookup (c : TierConfig) (name : string) : option Tier := Tiers c !! name.

(** The loop body; Go visits the map in any order. *)
Definition validate_tier (name : string) (t : Tier) : result () :=
  if String.eqb name "" then Err (EMsg "empty tier name")
  else if flt (EncodeHoursPerMonth t) f0
  then Err (EMsg ("tier " +:+ name +:+ ": encodeHoursPerMonth must not be negative"))
  else if StorageBytes t <? 0 then Err (EMsg ("tier " +:+ name +:+ ": storageBytes must not be negative"))
  else if t_MaxUploadBytes t <? 0
  then Err (EMsg ("tier " +:+ name +:+ ": maxUploadBytes must not be negative"))
  else Ok ().

Fixpoint validate_tiers (l : list (string * Tier)) : result () :=
  match l with
  | [] => Ok ()
  | (name, t) :: l' => match validate_tier name t with Err e => Err e | Ok _ => validate_tiers l' end
  end.

Definition tiers_validate (c : TierConfig) : result () :=
  if bool_decide (Tiers c = ∅) then Err (EMsg "at least one tier is required")
  else if String.eqb (DefaultTier c) "" then Err (EMsg "defaultTier is required")
  else match Lookup c (DefaultTier c) with
       | None => Err (EMsg ("defaultTier " +:+ DefaultTier c +:+ " is not a defined tier"))
       | Some _ => validate_tiers (map_to_list (Tiers c))
       end.

(** Reading the file and decoding its YAML strictly are given. *)
Definition LoadTierConfig (raw : result string) (decode : string -> result TierConfig) : result TierConfig :=
  raw ← raw; c ← decode raw; _ ← tiers_validate c; Ok c.

(** ** quota.go *)

Definition ReasonStorageExceeded : string := "quota_storage_exceeded".
Definition ReasonEncodeHoursExhausted : string := "quota_encode_hours_exhausted".
Definition ReasonTierUnknown : string := "quota_tier_unknown".

(** The program of a check: its decision or an error. *)
Abbreviation check := (prog tenE (result QuotaDecision)).

Definition f3600 : spec_float := f64_of_Z 3600.

Definition zero_rollup : UsageRollup :=
  {| ur_WorkspaceID := ""; ur_Month := ""; ur_BytesUploaded := 0; ur_EncodeSeconds := f0;
     ur_UploadSessions := 0; ur_UploadsCompleted := 0; ur_JobsQueued := 0; ur_JobsStarted := 0;
     ur_JobsCompleted := 0; ur_JobsFailed := 0; ur_UpdatedAt := zero_time |}.

(** A Go value and an error come back together: [ErrNotFound] comes with the zero value. *)
Definition or_zero {A} (zero : A) (r : result A) : result A :=
  match r with Err ENotFound => Ok zero | r => r end.

Section metered.
Context (tiers : TierConfig).

(** The tier, or the decision that denies. *)
Definition resolveTier (workspaceID : string) : prog tenE (result (Tier + QuotaDecision)) :=
  ws ← call (TStore (GetWorkspace workspaceID));
  Ret (match ws with
       | Err ENotFound => Ok (inr (deny ReasonWorkspaceUnknown))
       | Err e => Err e
       | Ok ws => match Lookup tiers (w_PlanTier ws) with
                  | None => Ok (inr (deny ReasonTierUnknown))
                  | Some tier => Ok (inl tier)
                  end
       end).

Definition metered_CheckUploadSession (workspaceID : string) (sizeHintBytes : Z) : check :=
  if String.eqb workspaceID "" then Ret (Ok (deny ReasonWorkspaceUnknown))
  else if sizeHintBytes <? 0
  then Ret (Err (EMsg ("quota: negative sizeHintBytes " +:+ itoa sizeHintBytes)))
  else
    tier ← resolveTier workspaceID;
    match tier with
    | Err e => Ret (Err e)
    | Ok (inr d) => Ret (Ok d)
    | Ok (inl tier) =>
        if negb (t_AllowUploads tier) then Ret (Ok (deny ReasonUploadsDisabled))
        else if (0 <? t_MaxUploadBytes tier) && (t_MaxUploadBytes tier <? sizeHintBytes)
        then Ret (Ok (deny ReasonUploadSizeExceeded))
        else if 0 <? StorageBytes tier then
          used ← call (TStore (SumStorageBytes workspaceID));
          Ret (match used with
               | Err e => Err e
               | Ok used => if StorageBytes tier <? i64 (used + sizeHintBytes)
                            then Ok (deny ReasonStorageExceeded) else Ok allow
               end)
        else Ret (Ok allow)
    end.

Definition metered_CheckJobAdmission (workspaceID : string) : check :=
  if String.eqb workspaceID "" then Ret (Ok (deny ReasonWorkspaceUnknown))
  else
    tier ← resolveTier workspaceID;
    match tier with
    | Err e => Ret (Err e)
    | Ok (inr d) => Ret (Ok d)
    | Ok (inl tier) =>
        if negb (t_AllowJobs tier) then Ret (Ok (deny ReasonJobsDisabled))
        else if flt f0 (EncodeHoursPerMonth tier) then
          now ← call TNow;
          rollup ← call (TStore (GetRollup workspaceID (monthOf now)));
          Ret (match or_zero zero_rollup rollup with
               | Err e => Err e
               | Ok rollup =>
                   if fle (fmul (EncodeHoursPerMonth tier) f3600) (ur_EncodeSeconds rollup)
                   then Ok (deny ReasonEncodeHoursExhausted) else Ok allow
               end)
        else Ret (Ok allow)
    end.

(** *** The internal HTTP API *)

Definition decision_json (d : QuotaDecision) : json :=
  JObj ([("allowed", JBool (Allowed d))]
        ++ (if String.eqb (Reason d) "" then [] else [("reason", JStr (Reason d))])).

Definition answer_check (d : result QuotaDecision) : response :=
  match d with
  | Err _ => internalError
  | Ok d => writeJSON 200 (decision_json d)
  end.

Definition handleQuotaCheckUpload (r : trequest) : prog tenE response :=
  decodeJSONBody r (tr_upload r) (fun '(workspaceID, sizeHintBytes) =>
    if String.eqb workspaceID ""
    then Ret (writeError 400 "invalid_workspace_id" "workspaceId is required")
    else if sizeHintBytes <? 0
    then Ret (writeError 400 "invalid_size_hint" "sizeHintBytes must not be negative")
    else d ← metered_CheckUploadSession workspaceID sizeHintBytes; Ret (answer_check d)).

Definition handleQuotaCheckJob (r : trequest) : prog tenE response :=
  decodeJSONBody r (tr_job r) (fun workspaceID =>
    if String.eqb workspaceID ""
    then Ret (writeError 400 "invalid_workspace_id" "workspaceId is required")
    else d ← metered_CheckJobAdmission workspaceID; Ret (answer_check d)).

(** [subtle.ConstantTimeCompare] on the shared token. *)
Definition internalAuthMiddleware (internalToken : string) (r : trequest) (next : prog tenE response)
    : prog tenE response :=
  if String.eqb (tr_XInternalToken r) internalToken then next
  else Ret (writeError 401 "unauthorized" "missing or invalid internal token").
End metered.

(** The checker with the world it reads; a cancelled context fails the store calls. *)
Record metered := { mq_tiers : TierConfig; mq_world : tworld; mq_clock : list time }.

Definition metered_env : tenancy_env (list time) := fun X e _ clock =>
  match e in tenE X return X * list time with
  | TStore _ => (Err (EMsg ""), clock)
  | TNow => (default 0 (head clock), tail clock)
  | NewString => ("", clock)
  | RandRead _ => (Err (EMsg "entropy"), clock)
  | HttpDo _ => (Err (EMsg "http"), clock)
  | LoadKeys => ((∅, zero_time), clock)
  | StoreKeys _ _ => (tt, clock)
  end.

Definition run_check (c : TierConfig -> check) (q : metered) : result QuotaDecision * metered :=
  let '(d, (w, clock)) := run (tenancy_sem metered_env) (c (mq_tiers q)) (mq_world q, mq_clock q) in
  (d, {| mq_tiers := mq_tiers q; mq_world := w; mq_clock := clock |}).

#[export] Instance metered_quota : QuotaChecker metered := {
  CheckUploadSession ctx ws size q :=
    match ctx with
    | Some e => if String.eqb ws "" then (Ok (deny ReasonWorkspaceUnknown), q) else (Err e, q)
    | None => run_check (fun t => metered_CheckUploadSession t ws size) q
    end;
  CheckJobAdmission ctx ws q :=
    match ctx with
    | Some e => if String.eqb ws "" then (Ok (deny ReasonWorkspaceUnknown), q) else (Err e, q)
    | None => run_check (fun t => metered_CheckJobAdmission t ws) q
    end
}.

(** ** What the checker decides *)

(** The bytes of a workspace's landed uploads, over all months. *)
Definition landed_bytes (d : tdb) (ws : string) : Z :=
  sumZ (ur_BytesUploaded <$> filter (fun r => ur_WorkspaceID r = ws) (rows (usage_rollups d))).

Definition encode_seconds (d : tdb) (ws month : string) : spec_float :=
  match usage_rollups d !! (ws, month) with Some r => ur_EncodeSeconds r | None => f0 end.

(** The tier of a known workspace. *)
Definition tier_of (tiers : TierConfig) (d : tdb) (ws : string) (t : Tier) : Prop :=
  ws <> "" /\ exists w, workspaces d !! ws = Some w /\ Lookup tiers (w_PlanTier w) = Some t.

Definition upload_allowed (tiers : TierConfig) (d : tdb) (ws : string) (size : Z) : Prop :=
  exists t, tier_of tiers d ws t /\ t_AllowUploads t = true /\
    (0 < t_MaxUploadBytes t -> size <= t_MaxUploadBytes t) /\
    (0 < StorageBytes t -> landed_bytes d ws + size <= StorageBytes t).

Definition job_allowed (tiers : TierConfig) (d : tdb) (ws month : string) : Prop :=
  exists t, tier_of tiers d ws t /\ t_AllowJobs t = true /\
    (flt f0 (EncodeHoursPerMonth t) = true ->
     fle (fmul (EncodeHoursPerMonth t) f3600) (encode_seconds d ws month) = false).

(** A read answers with what is in the tables, or fails. *)
Definition reads {Y} (e : tstoreE Y) : Prop :=
  forall now uid d, (tstore_apply now uid e d).2 = d.

Lemma read_answers {Y} (e : tstoreE Y) w :
  reads e ->
  tw_db (tstore_exec e w).2 = tw_db w /\
  ((exists now uid, (tstore_exec e w).1 = (tstore_apply now uid e (tw_db w)).1) \/
   exists m, (tstore_exec e w).1 = Err (EMsg m)).
Proof.
  intros He. unfold tstore_exec. destruct (default _ _) as [[now uid] f].
  pose proof (He now uid (tw_db w)) as Hd. destruct (tstore_apply now uid e _) as [r d] eqn:Ha. simpl in Hd. subst d.
  destruct f; simpl; (split; [done|]); [left; exists now, uid; by rewrite Ha|right; by eexists|right; by eexists].
Qed.

Lemma bigint_Some z n : bigint z = Some n -> n = z /\ - 2 ^ 63 <= z < 2 ^ 63.
Proof. unfold bigint. destruct (_ && _) eqn:H; [|done]. intros [= <-]. bool_prop. lia. Qed.

(** One read of a check: the world's tables stay, and the answer is theirs or a fault. *)
Lemma run_read {Y A} (e : tstoreE Y) (k : result Y -> prog tenE A) w clock :
  reads e ->
  exists r w', tw_db w' = tw_db w /\
    ((exists now uid, r = (tstore_apply now uid e (tw_db w)).1) \/ exists m, r = Err (EMsg m)) /\
    run (tenancy_sem metered_env) (call (TStore e) ≫= k) (w, clock)
    = run (tenancy_sem metered_env) (k r) (w', clock).
Proof.
  intros He. destruct (read_answers e w He) as [Hd Ha].
  exists (tstore_exec e w).1, (tstore_exec e w).2. split; [done|]. split; [done|].
  rewrite run_bind, run_call. simpl. by destruct (tstore_exec e w).
Qed.

Ltac run_read_tac r w' Hw Ha :=
  match goal with
  | |- context [run (tenancy_sem metered_env) (call (TStore ?e) ≫= ?k) (?w, ?clock)] =>
      destruct (run_read e k w clock) as (r & w' & Hw & Ha & ->); [done|]
  end.

(** The outcome of a check: a decision that satisfies [P], or an error; and the
    tables are as they were. *)
Definition decided (P : QuotaDecision -> Prop) (w : tworld) (o : result QuotaDecision * (tworld * list time))
    : Prop :=
  tw_db o.2.1 = tw_db w /\ match o.1 with Ok d => P d | Err _ => True end.

Lemma run_resolve tiers ws (k : result (Tier + QuotaDecision) -> check) w clock P :
  (forall e w', tw_db w' = tw_db w -> decided P w (run (tenancy_sem metered_env) (k (Err e)) (w', clock))) ->
  (forall r w', tw_db w' = tw_db w ->
     (forall t, ws <> "" -> ~ tier_of tiers (tw_db w) ws t) -> Allowed r = false ->
     decided P w (run (tenancy_sem metered_env) (k (Ok (inr r))) (w', clock))) ->
  (forall t w', tw_db w' = tw_db w -> (ws <> "" -> tier_of tiers (tw_db w) ws t) ->
     decided P w (run (tenancy_sem metered_env) (k (Ok (inl t))) (w', clock))) ->
  decided P w (run (tenancy_sem metered_env) (resolveTier tiers ws ≫= k) (w, clock)).
Proof.
  intros He Hd Ht. unfold resolveTier. rewrite run_bind.
  run_read_tac r w' Hw Ha. simpl.
  destruct Ha as [(now & uid & ->)|(m & ->)]; [simpl|by apply He].
  unfold pg_GetWorkspace. destruct (row (workspaces (tw_db w)) ws) as [x|e] eqn:Hx.
  - apply row_Ok in Hx. destruct (Lookup tiers (w_PlanTier x)) as [t|] eqn:Hl.
    + apply Ht; [done|]. intros Hne. split; [done|]. by exists x.
    + apply Hd; [done| |done]. intros t Hne (_ & x' & Hx' & Hl'). congruence.
  - apply row_Err in Hx as [-> Hx]. apply Hd; [done| |done].
    intros t Hne (_ & x' & Hx' & _). congruence.
Qed.

(** the metered upload gate.  Whatever the database answers or fails to answer,
    the check changes nothing, and a decision it gives allows the upload exactly when
    the workspace exists, its tier is defined and allows uploads, the declared size
    is within the tier's cap for one upload (when it has one), and the bytes landed so
    far plus that size are within the tier's storage (when it is limited).  The
    sizes are those for which the sum does not overflow an [int64]. *)
Theorem metered_upload_admits_iff ws size q d q' :
  0 <= size -> landed_bytes (tw_db (mq_world q)) ws + size < 2 ^ 63 ->
  CheckUploadSession None ws size q = (Ok d, q') ->
  tw_db (mq_world q') = tw_db (mq_world q) /\
  (Allowed d = true <-> upload_allowed (mq_tiers q) (tw_db (mq_world q)) ws size).
Proof.
  intros Hsz Hov. simpl. unfold run_check, metered_CheckUploadSession.
  set (w := mq_world q) in *. set (tiers := mq_tiers q).
  destruct (String.eqb_spec ws "") as [->|Hne].
  { simpl. intros [= <- <-]. split; [done|]. split; [done|]. by intros (t & [H _] & _). }
  destruct (Z.ltb_spec size 0); [lia|].
  match goal with |- context [run ?h ?p ?s] => set (o := run h p s) end.
  assert (Hdec : decided (fun d => Allowed d = true <-> upload_allowed tiers (tw_db w) ws size) w o).
  { subst o. apply run_resolve.
    - intros e w' Hw. by split.
    - intros r w' Hw Hno Hr. split; [done|]. simpl. rewrite Hr. split; [done|].
      intros (t & Ht & _). by destruct (Hno t Hne).
    - intros t w' Hw Ht. specialize (Ht Hne).
      assert (Hunique : forall t', tier_of tiers (tw_db w) ws t' -> t' = t).
      { intros t' (_ & x' & Hx' & Hl'). destruct Ht as (_ & x & Hx & Hl). congruence. }
      destruct (t_AllowUploads t) eqn:Hu; cbn [negb].
      2:{ split; [done|]. split; [done|]. intros (t' & Ht' & Hu' & _). by rewrite (Hunique _ Ht'), Hu in Hu'. }
      destruct (_ && _) eqn:Hm.
      { bool_prop. split; [done|]. split; [done|]. intros (t' & Ht' & _ & Hm' & _).
        rewrite (Hunique _ Ht') in Hm'. lia. }
      assert (Hcap : 0 < t_MaxUploadBytes t -> size <= t_MaxUploadBytes t)
        by (intros Hpos; apply andb_false_iff in Hm; destruct Hm as [Hm|Hm]; bool_prop; lia).
      destruct (Z.ltb_spec 0 (StorageBytes t)) as [Hs|Hs].
      2:{ split; [done|]. split; [|done]. intros _. exists t. split_and!; try done. lia. }
      run_read_tac r w2 Hw2 Ha. split; [by rewrite <-Hw|]. cbn [run fst]. rewrite Hw in Ha.
      destruct Ha as [(now & uid & ->)|(m & ->)]; [simpl|done].
      unfold pg_SumStorageBytes. fold (landed_bytes (tw_db w) ws).
      destruct (bigint _) as [n|] eqn:Hn; [|done]. apply bigint_Some in Hn as [-> Hn].
      rewrite i64_id by lia. destruct (Z.ltb_spec (StorageBytes t) (landed_bytes (tw_db w) ws + size)); simpl.
      + split; [done|]. intros (t' & Ht' & _ & _ & Hs'). rewrite (Hunique _ Ht') in Hs'. lia.
      + split; [|done]. intros _. exists t. split_and!; try done. }
  destruct o as [r [w' clock]] eqn:Ho. destruct Hdec as [Hw Hd]. simpl in *. intros [= -> <-]. done.
Qed.

(** the metered job gate.  Likewise, a decision on a job allows it exactly when
    the workspace's tier allows jobs and, when the tier limits encode hours, the
    encode seconds recorded for the calendar month of the call are below the limit. *)
Theorem metered_job_admits_iff ws q d q' :
  CheckJobAdmission None ws q = (Ok d, q') ->
  tw_db (mq_world q') = tw_db (mq_world q) /\
  (Allowed d = true <->
   job_allowed (mq_tiers q) (tw_db (mq_world q)) ws (monthOf (default 0 (head (mq_clock q))))).
Proof.
  simpl. unfold run_check, metered_CheckJobAdmission.
  set (w := mq_world q) in *. set (tiers := mq_tiers q). set (month := monthOf _).
  destruct (String.eqb_spec ws "") as [->|Hne].
  { simpl. intros [= <- <-]. split; [done|]. split; [done|]. by intros (t & [H _] & _). }
  match goal with |- context [run ?h ?p ?s] => set (o := run h p s) end.
  assert (Hdec : decided (fun d => Allowed d = true <-> job_allowed tiers (tw_db w) ws month) w o).
  { subst o. apply run_resolve.
    - intros e w' Hw. by split.
    - intros r w' Hw Hno Hr. split; [done|]. simpl. rewrite Hr. split; [done|].
      intros (t & Ht & _). by destruct (Hno t Hne).
    - intros t w' Hw Ht. specialize (Ht Hne).
      assert (Hunique : forall t', tier_of tiers (tw_db w) ws t' -> t' = t).
      { intros t' (_ & x' & Hx' & Hl'). destruct Ht as (_ & x & Hx & Hl). congruence. }
      destruct (t_AllowJobs t) eqn:Hu; cbn [negb].
      2:{ split; [done|]. split; [done|]. intros (t' & Ht' & Hu' & _). by rewrite (Hunique _ Ht'), Hu in Hu'. }
      destruct (flt f0 (EncodeHoursPerMonth t)) eqn:Hs.
      2:{ split; [done|]. split; [|done]. intros _. exists t. split_and!; try done. by rewrite Hs. }
      rewrite run_bind, run_call. cbn [tenancy_sem metered_env fst snd].
      run_read_tac r w2 Hw2 Ha. split; [by rewrite <-Hw|]. cbn [run fst]. rewrite Hw in Ha.
      destruct Ha as [(now & uid & ->)|(m & ->)]; [|done]. cbn [tstore_apply fst]. unfold pg_GetRollup.
      assert (Hz : exists u, or_zero zero_rollup (row (usage_rollups (tw_db w)) (ws, month)) = Ok u /\
                             ur_EncodeSeconds u = encode_seconds (tw_db w) ws month).
      { unfold encode_seconds, row. destruct (usage_rollups _ !! _) as [u|]; [by exists u|by exists zero_rollup]. }
      fold month. destruct Hz as (u & -> & ->). destruct (fle _ _) eqn:Hf; simpl.
      + split; [done|]. intros (t' & Ht' & _ & Hs'). rewrite (Hunique _ Ht') in Hs'. by rewrite Hs' in Hf.
      + split; [|done]. intros _. exists t. done. }
  destruct o as [r [w' clock]] eqn:Ho. destruct Hdec as [Hw Hd]. simpl in *. intros [= -> <-]. done.
Qed.

(** ** A concrete tenant *)

Definition ex_tier : Tier :=
  {| EncodeHoursPerMonth := f64_of_Z 1; StorageBytes := 100; t_MaxUploadBytes := 60;
     t_AllowUploads := true; t_AllowJobs := true |}.
Definition ex_tiers : TierConfig := {| DefaultTier := "free"; Tiers := {[ "free" := ex_tier ]} |}.

Definition ex_user : User :=
  {| u_ID := "u1"; u_GoogleSub := "g1"; u_Email := "a@b.c"; u_Name := "Ann"; u_ActiveWorkspaceID := "ws";
     u_CreatedAt := 0; u_LastLoginAt := 0 |}.
Definition ex_workspace : Workspace :=
  {| w_ID := "ws"; w_Name := "Ann's workspace"; w_PlanTier := "free"; w_CreatedBy := "u1"; w_CreatedAt := 0 |}.
Definition ex_rollup (bytes : Z) (secs : spec_float) : UsageRollup :=
  {| ur_WorkspaceID := "ws"; ur_Month := "1970-01"; ur_BytesUploaded := bytes; ur_EncodeSeconds := secs;
     ur_UploadSessions := 0; ur_UploadsCompleted := 0; ur_JobsQueued := 0; ur_JobsStarted := 0;
     ur_JobsCompleted := 0; ur_JobsFailed := 0; ur_UpdatedAt := 0 |}.
Definition ex_tdb (bytes : Z) (secs : spec_float) : tdb :=
  {| users := {[ "u1" := ex_user ]}; workspaces := {[ "ws" := ex_workspace ]};
     memberships := {[ ("ws", "u1") := owner_membership ex_workspace "u1" ]};
     refresh_tokens := ∅; login_states := ∅; api_keys := ∅; metering_events := ∅;
     usage_rollups := {[ ("ws", "1970-01") := ex_rollup bytes secs ]} |}.
Definition ex_metered (tiers : TierConfig) (bytes : Z) (secs : spec_float) : metered :=
  {| mq_tiers := tiers; mq_world := {| tw_db := ex_tdb bytes secs; tw_inputs := [] |}; mq_clock := [5] |}.

Lemma metered_upload_admits_iff_witness :
  upload_allowed ex_tiers (ex_tdb 50 f0) "ws" 50 /\ ~ upload_allowed ex_tiers (ex_tdb 50 f0) "ws" 51.
Proof.
  split.
  - eapply (metered_upload_admits_iff "ws" 50 (ex_metered ex_tiers 50 f0) allow);
      [done|vm_compute; reflexivity|vm_compute; reflexivity|reflexivity].
  - intros H. eapply (metered_upload_admits_iff "ws" 51 (ex_metered ex_tiers 50 f0) (deny ReasonStorageExceeded)) in H;
      [discriminate H|done|vm_compute; reflexivity|vm_compute; reflexivity].
Defined.

Lemma metered_job_admits_iff_witness :
  job_allowed ex_tiers (ex_tdb 0 (f64_of_Z 3599)) "ws" "1970-01" /\
  ~ job_allowed ex_tiers (ex_tdb 0 (f64_of_Z 3600)) "ws" "1970-01".
Proof.
  split.
  - eapply (metered_job_admits_iff "ws" (ex_metered ex_tiers 0 (f64_of_Z 3599)) allow);
      [vm_compute; reflexivity|reflexivity].
  - intros H. eapply (metered_job_admits_iff "ws" (ex_metered ex_tiers 0 (f64_of_Z 3600)) (deny ReasonEncodeHoursExhausted)) in H;
      [discriminate H|vm_compute; reflexivity].
Defined.

(** Without a cap on one upload the sum [used + sizeHintBytes] wraps around, and a
    declared size near the top of [int64] is admitted whatever the storage limit. *)
Definition ex_uncapped : TierConfig :=
  {| DefaultTier := "free";
     Tiers := {[ "free" := {| EncodeHoursPerMonth := f0; StorageBytes := 100; t_MaxUploadBytes := 0;
                              t_AllowUploads := true; t_AllowJobs := true |} ]} |}.

Example storage_sum_overflows :
  (CheckUploadSession None "ws" (2 ^ 63 - 1) (ex_metered ex_uncapped 1 f0)).1 = Ok allow /\
  (CheckUploadSession None "ws" 100 (ex_metered ex_uncapped 1 f0)).1 = Ok (deny ReasonStorageExceeded).
Proof. split; vm_compute; reflexivity. Qed.
