(* ===== verification/QuotaClient.v ===== *)
(** * services/tenancy/quotaclient: the quota checker over HTTP

    The client the upload and orchestrator services use, and the path from its
    request to tenancy's internal endpoints and back.  JSON encoding and decoding
    are functions of the section. *)
From S2P Require Export MeteredQuota.
#[local] Open Scope Z_scope.

Record Client := { baseURL : string; c_internalToken : string }.

Definition NewClient (base internalToken : string) : result Client :=
  if String.eqb base "" then Err (EMsg "quotaclient: baseURL is required")
  else if String.eqb internalToken "" then Err (EMsg "quotaclient: internalToken is required")
  else Ok {| baseURL := TrimSuffix base "/"; c_internalToken := internalToken |}.

Definition upload_path : string := "/internal/v1/quota/check-upload-session".
Definition job_path : string := "/internal/v1/quota/check-job-admission".

Section client.
Context (json_upload : string -> Z -> result string) (json_job : string -> result string).
Context (json_decision : string -> result (bool * string)).

(** The decision in a reply. *)
Definition decode_reply (path : string) (reply : http_reply) : result QuotaDecision :=
  let '(raw, err) := read_limited (2 ^ 20) (hp_Body reply) in
  match err with
  | Some e => Err e
  | None =>
      if negb (hp_Status reply =? 200)
      then Err (EMsg ("quotaclient: " +:+ path +:+ " returned " +:+ itoa (hp_Status reply)))
      else match json_decision raw with
           | Err e => Err e
           | Ok (allowed, reason) => Ok {| Allowed := allowed; Reason := reason |}
           end
  end.

(** A failure anywhere is an error, never a decision. *)
Definition post (c : Client) (path : string) (payload : result string) : check :=
  match payload with
  | Err e => Ret (Err e)
  | Ok payload =>
      reply ← call (HttpDo {| hr_Method := "POST"; hr_URL := baseURL c +:+ path;
                              hr_Header := [("Content-Type", "application/json");
                                            ("X-Internal-Token", c_internalToken c)];
                              hr_Body := payload |});
      Ret (match reply with Err e => Err e | Ok reply => decode_reply path reply end)
  end.

Definition client_CheckUploadSession (c : Client) (ws : string) (sizeHintBytes : Z) : check :=
  post c upload_path (json_upload ws sizeHintBytes).

Definition client_CheckJobAdmission (c : Client) (ws : string) : check := post c job_path (json_job ws).

(** ** The server's side of the wire *)

(** [url.Parse]: the path of an absolute URL without percent escapes, the fragment and
    the query cut off. *)
Definition before (sep s : string) : string := match Cut s sep with Some (a, _) => a | None => s end.
Definition url_path (url : string) : string :=
  match Cut url "://" with
  | Some (_, rest) =>
      match Cut (before "?" (before "#" rest)) "/" with Some (_, p) => String "/" p | None => "/" end
  | None => ""
  end.

(** A base URL that names a service and no path below it. *)
Definition service_root (base : string) : Prop :=
  exists scheme host, base = scheme +:+ "://" +:+ host /\
    no_char ":" scheme = true /\ no_char "/" host = true /\ no_char "?" host = true /\ no_char "#" host = true.

Lemma Cut_none c s : no_char c s = true -> Cut s (String c "") = None.
Proof.
  induction s as [|x s IH]; [done|]. unfold no_char in *. simpl. intros [Hx Hs]%andb_true_iff.
  apply negb_true_iff in Hx. by rewrite Hx, IH.
Qed.

Lemma Cut_sep c p s rest :
  no_char c s = true -> Cut (s +:+ String c p +:+ rest) (String c p) = Some (s, rest).
Proof.
  induction s as [|d s IH]; intros Hs.
  - simpl. by rewrite Ascii.eqb_refl, strip_prefix_app.
  - unfold no_char in *. cbn [all_chars] in Hs. apply andb_true_iff in Hs as [Hd Hs].
    apply negb_true_iff in Hd. specialize (IH Hs). cbn in *. by rewrite Hd, IH.
Qed.

Lemma url_path_root base p :
  service_root base -> no_char "?" p = true -> no_char "#" p = true ->
  url_path (base +:+ String "/" p) = String "/" p.
Proof.
  intros (scheme & host & -> & Hs & Hh & Hq & Hf) Hpq Hpf. unfold url_path, before.
  rewrite !sapp_assoc, (Cut_sep _ "//") by done.
  rewrite (Cut_none "#"), (Cut_none "?") by (unfold no_char; rewrite all_chars_app; apply andb_true_iff; by split).
  by rewrite Cut_char.
Qed.

Context (json_text : json -> string).
Context (receive : http_request -> trequest).
(** What the root mux answers outside of [/internal/v1/], and to a path that is not
    clean, which it redirects. *)
Context (elsewhere : http_request -> prog tenE response).

(** The internal mux behind its middleware. *)
Definition internal_mux (tiers : TierConfig) (req : http_request) : prog tenE response :=
  let path := url_path (hr_URL req) in
  let post (handler : trequest -> prog tenE response) :=
    if String.eqb (hr_Method req) "POST" then handler (receive req) else Ret (writeHeader 405) in
  if String.eqb path upload_path then post (handleQuotaCheckUpload tiers)
  else if String.eqb path job_path then post (handleQuotaCheckJob tiers)
  else Ret (writeHeader 404).

Definition clean_path (path : string) : bool :=
  let segs := tail (Split "/" path) in
  forallb (fun seg => negb (String.eqb seg "." || String.eqb seg "..")) segs &&
  forallb (fun seg => negb (String.eqb seg "")) (removelast segs).

Definition internal_route (tiers : TierConfig) (internalToken : string) (req : http_request)
    : prog tenE response :=
  let path := url_path (hr_URL req) in
  if clean_path path && HasPrefix path "/internal/v1/"
  then internalAuthMiddleware internalToken (receive req) (internal_mux tiers req)
  else elsewhere req.

Definition reply_of (resp : response) : http_reply :=
  {| hp_Status := rs_status resp;
     hp_Body := {| st_bytes := match rs_body resp with Some j => json_text j | None => "" end; st_err := None |} |}.

(** A network that delivers: the reply is the server's response. *)
Definition serve_http (tiers : TierConfig) (internalToken : string) (req : http_request) (s : tworld * list time)
    : result http_reply * (tworld * list time) :=
  let '(resp, s') := run (tenancy_sem metered_env) (internal_route tiers internalToken req) s in
  (Ok (reply_of resp), s').

Definition wire (tiers : TierConfig) (internalToken : string) : sem tenE (tworld * list time) := fun X e s =>
  match e in tenE X return X * (tworld * list time) with
  | HttpDo req => serve_http tiers internalToken req s
  | e => tenancy_sem metered_env _ e s
  end.

(** Text that JSON carries unchanged: short, in ASCII. *)
Definition wire_text (s : string) : Prop :=
  slen s <= 1024 /\ all_chars (fun c => (nat_of_ascii c <? 128)%nat) s = true.

(** What [encoding/json] and [net/http] do with these values: a decision survives
    encoding and decoding and is short, and the server decodes the body the client
    encoded and sees its token. *)
Record codec_laws (c : Client) := {
  law_decision : forall d, wire_text (Reason d) ->
    json_decision (json_text (decision_json d)) = Ok (Allowed d, Reason d) /\
    slen (json_text (decision_json d)) < 2 ^ 20;
  law_upload : forall ws size, wire_text ws -> - 2 ^ 63 <= size < 2 ^ 63 -> exists payload,
    json_upload ws size = Ok payload /\
    forall url, let r := receive {| hr_Method := "POST"; hr_URL := url;
                  hr_Header := [("Content-Type", "application/json"); ("X-Internal-Token", c_internalToken c)];
                  hr_Body := payload |} in
    tr_XInternalToken r = c_internalToken c /\ tr_upload r = Ok (ws, size) /\ tr_single r = true;
  law_job : forall ws, wire_text ws -> exists payload, json_job ws = Ok payload /\
    forall url, let r := receive {| hr_Method := "POST"; hr_URL := url;
                  hr_Header := [("Content-Type", "application/json"); ("X-Internal-Token", c_internalToken c)];
                  hr_Body := payload |} in
    tr_XInternalToken r = c_internalToken c /\ tr_job r = Ok ws /\ tr_single r = true
}.

(** The reasons the checker gives are such text. *)
Definition wire_outcome (r : result QuotaDecision) : Prop :=
  match r with Ok d => wire_text (Reason d) | Err _ => True end.

Lemma const_wire s : (slen s <=? 1024) && all_chars (fun c => (nat_of_ascii c <? 128)%nat) s = true -> wire_text s.
Proof. intros H. unfold wire_text. bool_prop. done. Qed.

Ltac reasons :=
  repeat match goal with
  | |- returns _ (Ret (Ok (deny _))) => apply const_wire; reflexivity
  | |- returns _ (Ret (Ok allow)) => apply const_wire; reflexivity
  | |- returns _ (Ret (Err _)) => exact I
  | |- wire_outcome (Ok (deny _)) => apply const_wire; reflexivity
  | |- wire_outcome (Err _) => exact I
  | |- returns _ (call _ ≫= _) => apply returns_call_bind; intros ?
  | |- returns _ (Ret (if ?b then _ else _)) => destruct b
  | |- returns _ (Ret (match ?x with _ => _ end)) => destruct x
  | |- returns _ (if ?b then _ else _) => destruct b
  end.

Lemma upload_reasons tiers ws size : returns wire_outcome (metered_CheckUploadSession tiers ws size).
Proof.
  unfold metered_CheckUploadSession. case_match; [apply const_wire; reflexivity|]. case_match; [exact I|].
  apply returns_bind_post. unfold resolveTier. apply returns_call_bind. intros [w|[]];
    [cbn [returns]; destruct (Lookup _ _)|..]; cbn [returns]; reasons.
Qed.
Lemma job_reasons tiers ws : returns wire_outcome (metered_CheckJobAdmission tiers ws).
Proof.
  unfold metered_CheckJobAdmission. case_match; [apply const_wire; reflexivity|].
  apply returns_bind_post. unfold resolveTier. apply returns_call_bind. intros [w|[]];
    [cbn [returns]; destruct (Lookup _ _)|..]; cbn [returns]; reasons.
Qed.

(** Two outcomes of a check: the same decision, or both an error; and the same world. *)
Definition same_outcome {S} (a b : result QuotaDecision * S) : Prop :=
  a.2 = b.2 /\ match b.1 with Ok d => a.1 = Ok d | Err _ => is_ok a.1 = false end.

(** The response to a check, read back by the client. *)
Lemma read_answer c path d :
  codec_laws c -> wire_outcome d ->
  match d with
  | Ok d => decode_reply path (reply_of (answer_check (Ok d))) = Ok d
  | Err e => is_ok (decode_reply path (reply_of (answer_check (Err e)))) = false
  end.
Proof.
  intros Hl Hw. unfold decode_reply. destruct d as [d|e]; cbn [answer_check].
  - destruct (law_decision _ Hl d Hw) as [Hd Hs]. unfold reply_of, read_limited. cbn [hp_Body hp_Status st_bytes st_err rs_status rs_body writeJSON].
    destruct (Z.leb_spec (2 ^ 20) (slen (json_text (decision_json d)))) as [Hc|_]; [lia|].
    cbn [negb Z.eqb Pos.eqb]. rewrite Hd. by destruct d.
  - unfold reply_of, read_limited. cbn [hp_Body hp_Status st_bytes st_err rs_status rs_body internalError writeError writeJSON].
    destruct (2 ^ 20 <=? _); reflexivity.
Qed.

(** A check through the wire, for a request the server hands to its handler. *)
Lemma wire_check c tiers path payload s d s' :
  codec_laws c -> wire_outcome d ->
  run (tenancy_sem metered_env) (internal_route tiers (c_internalToken c)
    {| hr_Method := "POST"; hr_URL := baseURL c +:+ path;
       hr_Header := [("Content-Type", "application/json"); ("X-Internal-Token", c_internalToken c)];
       hr_Body := payload |}) s = (answer_check d, s') ->
  same_outcome (run (wire tiers (c_internalToken c)) (post c path (Ok payload)) s) (d, s').
Proof.
  intros Hl Hw Hr. unfold post. rewrite run_bind, run_call. cbn [wire]. unfold serve_http. rewrite Hr.
  fold (reply_of (answer_check d)). split; [done|]. simpl. pose proof (read_answer c path d Hl Hw). by destruct d.
Qed.

(** A request the server refuses. *)
Lemma wire_refused c tiers path payload s resp s' :
  rs_status resp <> 200 ->
  run (tenancy_sem metered_env) (internal_route tiers (c_internalToken c)
    {| hr_Method := "POST"; hr_URL := baseURL c +:+ path;
       hr_Header := [("Content-Type", "application/json"); ("X-Internal-Token", c_internalToken c)];
       hr_Body := payload |}) s = (resp, s') ->
  let r := run (wire tiers (c_internalToken c)) (post c path (Ok payload)) s in
  is_ok r.1 = false /\ r.2 = s'.
Proof.
  intros Hst Hr. unfold post. rewrite run_bind, run_call. cbn [wire]. unfold serve_http. rewrite Hr.
  cbn [run fst snd]. split; [|done]. unfold decode_reply, read_limited, reply_of. cbn [hp_Body hp_Status st_bytes st_err].
  by destruct (2 ^ 20 <=? _), (Z.eqb_spec (rs_status resp) 200).
Qed.

(** What reaches the two handlers. *)
Lemma route_upload c tiers payload ws size :
  service_root (baseURL c) ->
  let req := {| hr_Method := "POST"; hr_URL := baseURL c +:+ upload_path;
                hr_Header := [("Content-Type", "application/json"); ("X-Internal-Token", c_internalToken c)];
                hr_Body := payload |} in
  tr_XInternalToken (receive req) = c_internalToken c -> tr_upload (receive req) = Ok (ws, size) ->
  tr_single (receive req) = true ->
  internal_route tiers (c_internalToken c) req =
    if String.eqb ws "" then Ret (writeError 400 "invalid_workspace_id" "workspaceId is required")
    else if size <? 0 then Ret (writeError 400 "invalid_size_hint" "sizeHintBytes must not be negative")
    else d ← metered_CheckUploadSession tiers ws size; Ret (answer_check d).
Proof.
  intros Hb req Ht Hu Hs. subst req. unfold internal_route, internalAuthMiddleware, internal_mux. cbn [hr_URL hr_Method].
  assert (Hpath : url_path (baseURL c +:+ upload_path) = upload_path) by (by apply url_path_root).
  rewrite Hpath, Ht, !String.eqb_refl. change (clean_path upload_path && HasPrefix upload_path "/internal/v1/") with true.
  unfold handleQuotaCheckUpload, decodeJSONBody. by rewrite Hu, Hs.
Qed.

Lemma route_job c tiers payload ws :
  service_root (baseURL c) ->
  let req := {| hr_Method := "POST"; hr_URL := baseURL c +:+ job_path;
                hr_Header := [("Content-Type", "application/json"); ("X-Internal-Token", c_internalToken c)];
                hr_Body := payload |} in
  tr_XInternalToken (receive req) = c_internalToken c -> tr_job (receive req) = Ok ws ->
  tr_single (receive req) = true ->
  internal_route tiers (c_internalToken c) req =
    if String.eqb ws "" then Ret (writeError 400 "invalid_workspace_id" "workspaceId is required")
    else d ← metered_CheckJobAdmission tiers ws; Ret (answer_check d).
Proof.
  intros Hb req Ht Hu Hs. subst req. unfold internal_route, internalAuthMiddleware, internal_mux. cbn [hr_URL hr_Method].
  assert (Hpath : url_path (baseURL c +:+ job_path) = job_path) by (by apply url_path_root).
  rewrite Hpath, Ht, !String.eqb_refl. change (clean_path job_path && HasPrefix job_path "/internal/v1/") with true. change (String.eqb job_path upload_path) with false.
  unfold handleQuotaCheckJob, decodeJSONBody. by rewrite Hu, Hs.
Qed.

(** C21: the remote checker decides as the local one.  For a base URL that is a
    service's root, over a network that delivers every request and reply, the client's
    check of an upload or of a job (of a workspace named in short ASCII, with any int64
    size) has the outcome of the metered checker itself: the same decision, or an error
    when it fails, on the same database.  For an empty workspace, which the endpoints
    refuse with 400, the remote check is an error where the local one denies: neither
    lets anything through or touches the database. *)
Theorem remote_check_agrees c tiers ws size s :
  codec_laws c -> service_root (baseURL c) -> wire_text ws -> - 2 ^ 63 <= size < 2 ^ 63 ->
  let remote_upload := run (wire tiers (c_internalToken c)) (client_CheckUploadSession c ws size) s in
  let local_upload := run (tenancy_sem metered_env) (metered_CheckUploadSession tiers ws size) s in
  let remote_job := run (wire tiers (c_internalToken c)) (client_CheckJobAdmission c ws) s in
  let local_job := run (tenancy_sem metered_env) (metered_CheckJobAdmission tiers ws) s in
  if String.eqb ws "" then
    (is_ok remote_upload.1 = false /\ remote_upload.2 = s) /\ (is_ok remote_job.1 = false /\ remote_job.2 = s) /\
    local_upload = (Ok (deny ReasonWorkspaceUnknown), s) /\ local_job = (Ok (deny ReasonWorkspaceUnknown), s)
  else same_outcome remote_upload local_upload /\ same_outcome remote_job local_job.
Proof.
  intros Hl Hb Hwt Hsz. cbv zeta.
  destruct (law_upload _ Hl ws size Hwt Hsz) as (pu & Hpu & Hu). specialize (Hu (baseURL c +:+ upload_path)).
  destruct (law_job _ Hl ws Hwt) as (pj & Hpj & Hj). specialize (Hj (baseURL c +:+ job_path)).
  destruct Hu as (Htu & Hu & Hsu), Hj as (Htj & Hj & Hsj).
  pose proof (route_upload c tiers _ ws size Hb Htu Hu Hsu) as Hru.
  pose proof (route_job c tiers _ ws Hb Htj Hj Hsj) as Hrj.
  unfold client_CheckUploadSession, client_CheckJobAdmission. rewrite Hpu, Hpj.
  destruct (String.eqb_spec ws "") as [->|Hws].
  - split; [|split; [|by split]]; (eapply wire_refused; [|rewrite ?Hru, ?Hrj; reflexivity]; done).
  - apply String.eqb_neq in Hws. split.
    + destruct (Z.ltb_spec size 0) as [Hneg|Hpos].
      * unfold metered_CheckUploadSession. rewrite Hws. apply Z.ltb_lt in Hneg. rewrite Hneg.
        edestruct (wire_refused c tiers upload_path pu s) as [H1 H2]; [|rewrite Hru; reflexivity|]; [done|].
        split; [exact H2|exact H1].
      * destruct (run _ (metered_CheckUploadSession _ _ _) s) as [d s'] eqn:Hd.
        apply wire_check; [done|by eapply run_returns, upload_reasons|]. rewrite Hru. by rewrite run_bind, Hd.
    + destruct (run _ (metered_CheckJobAdmission _ _) s) as [d s'] eqn:Hd.
      apply wire_check; [done|by eapply run_returns, job_reasons|]. rewrite Hrj. by rewrite run_bind, Hd.
Qed.

(** the client is fail closed.  In every run of a check, whatever the network and
    the server do, a decision is returned only from a reply that arrived with status
    200, whose body was read without error and decodes to exactly that decision; in
    particular nothing but such a reply allows anything. *)
Theorem client_fails_closed c ws size tr d :
  exec (client_CheckUploadSession c ws size) tr (Ok d) \/ exec (client_CheckJobAdmission c ws) tr (Ok d) ->
  exists req reply raw, tr = [Ev (HttpDo req) (Ok reply)] /\ hp_Status reply = 200 /\
    read_limited (2 ^ 20) (hp_Body reply) = (raw, None) /\
    json_decision raw = Ok (Allowed d, Reason d).
Proof.
  assert (Hpost : forall path payload, exec (post c path payload) tr (Ok d) ->
    exists req reply raw, tr = [Ev (HttpDo req) (Ok reply)] /\ hp_Status reply = 200 /\
      read_limited (2 ^ 20) (hp_Body reply) = (raw, None) /\ json_decision raw = Ok (Allowed d, Reason d)).
  { intros path [payload|e]; [|by intros [_ [=]]]. intros (reply & t & -> & [-> Hr]).
    destruct reply as [reply|e]; [|done]. symmetry in Hr. unfold decode_reply in Hr.
    destruct (read_limited _ _) as [raw [e|]] eqn:Hraw; [done|].
    destruct (Z.eqb_spec (hp_Status reply) 200) as [Hst|]; [|done]. cbn [negb] in Hr.
    destruct (json_decision raw) as [[a r]|e] eqn:Hj; [|done]. injection Hr as <-.
    by eexists _, reply, raw. }
  intros [H|H]; by eapply Hpost.
Qed.
End client.

(** ** A concrete wire *)

Definition ex_client : Client := {| baseURL := "http://tenancy"; c_internalToken := "secret" |}.

Definition ex_text (j : json) : string :=
  match j with
  | JObj [(_, JBool b)] => if b then "1" else "0"
  | JObj [(_, JBool b); (_, JStr r)] => (if b then "1" else "0") +:+ r
  | _ => ""
  end.
Definition ex_decision (s : string) : result (bool * string) :=
  match s with String c r => Ok (Ascii.eqb c "1", r) | EmptyString => Err (EMsg "json") end.
Definition ex_upload_body (ws : string) (size : Z) : result string := Ok (ToyJwt.pos_string (encode (ws, size))).
Definition ex_job_body (ws : string) : result string := Ok (ToyJwt.pos_string (encode ws)).

Definition no_body : trequest :=
  {| tr_Authorization := ""; tr_XAPIKey := ""; tr_XInternalToken := ""; tr_Cookie := None; tr_id := "";
     tr_userId := ""; tr_error := ""; tr_state := ""; tr_code := ""; tr_raw := Ok ""; tr_single := true;
     tr_name := Err (EMsg "json"); tr_workspaceId := Err (EMsg "json"); tr_member := Err (EMsg "json");
     tr_role := Err (EMsg "json"); tr_refreshToken := Err (EMsg "json"); tr_apiKey := Err (EMsg "json");
     tr_upload := Err (EMsg "json"); tr_job := Err (EMsg "json") |}.

Definition or_json {A} (o : option A) : result A := match o with Some a => Ok a | None => Err (EMsg "json") end.

Definition ex_receive (req : http_request) : trequest :=
  {| tr_Authorization := ""; tr_XAPIKey := "";
     tr_XInternalToken := default "" (snd <$> (snd <$> list_find (fun p => p.1 = "X-Internal-Token") (hr_Header req)));
     tr_Cookie := None; tr_id := ""; tr_userId := ""; tr_error := ""; tr_state := ""; tr_code := "";
     tr_raw := Ok (hr_Body req); tr_single := true;
     tr_name := Err (EMsg "json"); tr_workspaceId := Err (EMsg "json"); tr_member := Err (EMsg "json");
     tr_role := Err (EMsg "json"); tr_refreshToken := Err (EMsg "json"); tr_apiKey := Err (EMsg "json");
     tr_upload := or_json (decode (ToyJwt.string_pos (hr_Body req)));
     tr_job := or_json (decode (ToyJwt.string_pos (hr_Body req))) |}.

Lemma ex_codec : codec_laws ex_upload_body ex_job_body ex_decision ex_text ex_receive ex_client.
Proof.
  split.
  - intros [b r] [Hs _]. unfold decision_json. simpl. simpl in Hs. destruct (String.eqb_spec r "") as [->|Hr].
    + destruct b; by vm_compute.
    + split; [by destruct b|]. simpl. rewrite slen_app. destruct b; change (slen "1") with 1; change (slen "0") with 1; lia.
  - intros ws size _ _. eexists. split; [reflexivity|]. intros url. split; [reflexivity|]. split; [|reflexivity].
    unfold ex_receive. cbn [tr_upload hr_Body]. by rewrite ToyJwt.string_pos_string, decode_encode.
  - intros ws _. eexists. split; [reflexivity|]. intros url. split; [reflexivity|]. split; [|reflexivity].
    unfold ex_receive. cbn [tr_job hr_Body]. by rewrite ToyJwt.string_pos_string, decode_encode.
Qed.

Definition ex_state : tworld * list time := ({| tw_db := ex_tdb 50 f0; tw_inputs := [] |}, [5]).

Definition ex_elsewhere (_ : http_request) : prog tenE response := Ret (writeHeader 404).

Lemma remote_check_agrees_witness :
  (run (wire ex_text ex_receive ex_elsewhere ex_tiers "secret")
     (client_CheckUploadSession ex_upload_body ex_decision ex_client "ws" 51) ex_state).1
  = Ok (deny ReasonStorageExceeded).
Proof.
  destruct (remote_check_agrees ex_upload_body ex_job_body ex_decision ex_text ex_receive ex_elsewhere ex_client
              ex_tiers "ws" 51 ex_state) as [[_ H] _];
    [exact ex_codec|by exists "http", "tenancy"|split; [vm_compute; discriminate|reflexivity]|
     split; [discriminate|reflexivity]|].
  assert (Hl : (run (tenancy_sem metered_env) (metered_CheckUploadSession ex_tiers "ws" 51) ex_state).1
               = Ok (deny ReasonStorageExceeded)) by (vm_compute; reflexivity).
  rewrite Hl in H. exact H.
Defined.

(** Below a path the mux does not know, every check is an error. *)
Example base_with_a_path :
  let c := {| baseURL := "http://gateway/tenancy"; c_internalToken := "secret" |} in
  (run (wire ex_text ex_receive ex_elsewhere ex_tiers "secret")
     (client_CheckUploadSession ex_upload_body ex_decision c "ws" 1) ex_state).1
  = Err (EMsg "quotaclient: /internal/v1/quota/check-upload-session returned 404").
Proof. vm_compute. reflexivity. Qed.

Lemma client_fails_closed_witness :
  exists req reply raw,
    [Ev (HttpDo {| hr_Method := "POST"; hr_URL := "http://tenancy" +:+ job_path;
           hr_Header := [("Content-Type", "application/json"); ("X-Internal-Token", "secret")];
           hr_Body := ToyJwt.pos_string (encode "ws") |})
        (Ok {| hp_Status := 200; hp_Body := {| st_bytes := "1"; st_err := None |} |})]
    = [Ev (HttpDo req) (Ok reply)] /\
    hp_Status reply = 200 /\ read_limited (2 ^ 20) (hp_Body reply) = (raw, None) /\
    ex_decision raw = Ok (true, "").
Proof.
  apply (client_fails_closed ex_upload_body ex_job_body ex_decision ex_client "ws" 5 _ allow). right.
  eexists _, []. split; [reflexivity|]. split; [reflexivity|]. vm_compute. reflexivity.
Defined.
