(* ===== verification/Metering.v ===== *)
(** * services/tenancy: the metering consumer and the usage endpoint

    [metering.go].  A delivery is a program over [consumerE]: the store, and the
    three ways to settle the message.  [data] is the outcome of decoding the payload. *)
From S2P Require Import Triples.
From S2P Require Export MeteredQuota.
#[local] Open Scope Z_scope.

(** ** The rollup increment of an event *)

Definition zero_delta (ws month : string) : UsageRollup :=
  {| ur_WorkspaceID := ws; ur_Month := month; ur_BytesUploaded := 0; ur_EncodeSeconds := f0;
     ur_UploadSessions := 0; ur_UploadsCompleted := 0; ur_JobsQueued := 0; ur_JobsStarted := 0;
     ur_JobsCompleted := 0; ur_JobsFailed := 0; ur_UpdatedAt := zero_time |}.

Definition delta_counts (d : UsageRollup) (bytes : Z) (secs : spec_float) (sessions completed queued started
    jcompleted failed : Z) : UsageRollup :=
  {| ur_WorkspaceID := ur_WorkspaceID d; ur_Month := ur_Month d; ur_BytesUploaded := bytes;
     ur_EncodeSeconds := secs; ur_UploadSessions := sessions; ur_UploadsCompleted := completed;
     ur_JobsQueued := queued; ur_JobsStarted := started; ur_JobsCompleted := jcompleted;
     ur_JobsFailed := failed; ur_UpdatedAt := ur_UpdatedAt d |}.

Definition negative {A} (neg : A -> bool) (v : option A) : bool :=
  match v with Some v => neg v | None => false end.

Definition rollupDelta (ev : MeteringEvent) : result UsageRollup :=
  if String.eqb (me_EventID ev) "" || String.eqb (me_WorkspaceID ev) ""
  then Err (EMsg "metering event missing eventId or workspaceId")
  else if IsZero (me_At ev) then Err (EMsg ("metering event " +:+ me_EventID ev +:+ " missing at"))
  else if negative (fun b => b <? 0) (me_Bytes ev)
  then Err (EMsg ("metering event " +:+ me_EventID ev +:+ ": negative bytes"))
  else if negative (fun s => flt s f0) (me_EncodeSeconds ev)
  then Err (EMsg ("metering event " +:+ me_EventID ev +:+ ": negative encodeSeconds"))
  else
    let d := zero_delta (me_WorkspaceID ev) (monthOf (me_At ev)) in
    let kind := me_Kind ev in
    if String.eqb kind MeteringUploadSessionCreated then Ok (delta_counts d 0 f0 1 0 0 0 0 0)
    else if String.eqb kind MeteringUploadCompleted
    then Ok (delta_counts d (default 0 (me_Bytes ev)) f0 0 1 0 0 0 0)
    else if String.eqb kind MeteringJobQueued then Ok (delta_counts d 0 f0 0 0 1 0 0 0)
    else if String.eqb kind MeteringJobStarted then Ok (delta_counts d 0 f0 0 0 0 1 0 0)
    else if String.eqb kind MeteringJobCompleted
    then Ok (delta_counts d 0 (default f0 (me_EncodeSeconds ev)) 0 0 0 0 1 0)
    else if String.eqb kind MeteringJobFailed
    then Ok (delta_counts d 0 (default f0 (me_EncodeSeconds ev)) 0 0 0 0 0 1)
    else Err (EMsg ("metering event " +:+ me_EventID ev +:+ ": unknown kind " +:+ kind)).

(** ** The consumer *)

Inductive consumerE : Type -> Type :=
| CStore {Y} (e : tstoreE Y) : consumerE (result Y)
| Ack : consumerE ()
| Term : consumerE ()
| NakWithDelay (d : duration) : consumerE ().

Definition meteringNakDelay : duration := 5 * Second.

Definition consumeMeteringPayload (data : result MeteringEvent) : prog consumerE (result bool) :=
  match data with
  | Err e => Ret (Err e)
  | Ok ev =>
      match rollupDelta ev with
      | Err e => Ret (Err e)
      | Ok delta => call (CStore (ApplyMetering ev (ur_Month delta) delta))
      end
  end.

Definition isTerminalMeteringErr (data : result MeteringEvent) : bool :=
  match data with
  | Err _ => true
  | Ok ev => negb (is_ok (rollupDelta ev))
  end.

Definition handle (data : result MeteringEvent) : prog consumerE () :=
  applied ← consumeMeteringPayload data;
  match applied with
  | Err _ => if isTerminalMeteringErr data then call Term else call (NakWithDelay meteringNakDelay)
  | Ok _ => call Ack
  end.

(** ** The usage endpoint *)

Definition isAPIKeyIdentity (id : Identity) : bool :=
  (slen apiKeyUserPrefix <? slen (id_UserID id)) && HasPrefix (id_UserID id) apiKeyUserPrefix.

Definition usage_json (ws : string) (planTier month : string) (r : UsageRollup) (storage : Z)
    (tier : option Tier) : json :=
  JObj [("workspaceId", JStr ws); ("planTier", JStr planTier); ("month", JStr month);
        ("encodeSecondsUsed", JFloat (ur_EncodeSeconds r));
        ("encodeHoursUsed", JFloat (fdiv (ur_EncodeSeconds r) f3600));
        ("encodeHoursLimit", JFloat (match tier with Some t => EncodeHoursPerMonth t | None => f0 end));
        ("storageBytesUsed", JNum storage);
        ("storageBytesLimit", JNum (match tier with Some t => StorageBytes t | None => 0 end));
        ("uploadSessions", JNum (ur_UploadSessions r)); ("uploadsCompleted", JNum (ur_UploadsCompleted r));
        ("jobsQueued", JNum (ur_JobsQueued r)); ("jobsStarted", JNum (ur_JobsStarted r));
        ("jobsCompleted", JNum (ur_JobsCompleted r)); ("jobsFailed", JNum (ur_JobsFailed r))].

Definition usage_of (tiers : TierConfig) (id : Identity) : prog tenE response :=
  ws ← call (TStore (GetWorkspace (id_WorkspaceID id)));
  match ws with
  | Err ENotFound => Ret (writeError 404 "workspace_not_found" "token workspace no longer exists")
  | Err _ => Ret internalError
  | Ok ws =>
      now ← call TNow;
      let month := monthOf now in
      rollup ← call (TStore (GetRollup (id_WorkspaceID id) month));
      match or_zero zero_rollup rollup with
      | Err _ => Ret internalError
      | Ok rollup =>
          storage ← call (TStore (SumStorageBytes (id_WorkspaceID id)));
          match storage with
          | Err _ => Ret internalError
          | Ok storage =>
              Ret (writeJSON 200 (usage_json (id_WorkspaceID id) (w_PlanTier ws) month rollup storage
                                    (Lookup tiers (w_PlanTier ws))))
          end
      end
  end.

Definition handleUsage (tiers : TierConfig) (caller : option Identity) : prog tenE response :=
  requireIdentity caller (fun id =>
    if isAPIKeyIdentity id then usage_of tiers id
    else requireRole (id_WorkspaceID id) (id_UserID id) RoleMember (usage_of tiers id)).

(** ** The consumer on the store *)

(** Settling is told to the message broker, whose view is the list of settlements. *)
Inductive settled := SAck | STerm | SNak (d : duration).

Definition consumer_sem : sem consumerE (tworld * list settled) := fun X e w =>
  match e in consumerE X return X * (tworld * list settled) with
  | CStore e' => let '(r, d) := tstore_exec e' w.1 in (r, (d, w.2))
  | Ack => (tt, (w.1, w.2 ++ [SAck]))
  | Term => (tt, (w.1, w.2 ++ [STerm]))
  | NakWithDelay d => (tt, (w.1, w.2 ++ [SNak d]))
  end.

(** The event and the increment of a payload, if it is not a terminal one. *)
Definition countable (data : result MeteringEvent) : option (MeteringEvent * UsageRollup) :=
  match data with
  | Ok ev => match rollupDelta ev with Ok delta => Some (ev, delta) | Err _ => None end
  | Err _ => None
  end.

(** A delivery's calls: a terminal payload is terminated without touching the store;
    any other is applied by one store call and settled by that call's answer. *)
Lemma handle_trace data tr u :
  exec (handle data) tr u ->
  match countable data with
  | None => tr = [Ev Term ()]
  | Some (ev, delta) => exists r,
      tr = [Ev (CStore (ApplyMetering ev (ur_Month delta) delta)) r;
            if is_ok r then Ev Ack () else Ev (NakWithDelay (5 * Second)) ()]
  end.
Proof.
  unfold handle, consumeMeteringPayload, isTerminalMeteringErr, countable.
  destruct data as [ev|e]; [|by intros ([] & t & -> & [-> _])].
  destruct (rollupDelta ev) as [delta|e]; [|by intros ([] & t & -> & [-> _])].
  intros (r & t & -> & H). exists r. by destruct r; destruct H as ([] & t' & -> & [-> _]).
Qed.

(** ** Accounting *)

(** The recorded events that count towards the rollup of [ws] and [month]. *)
Definition counts_towards (ws month : string) (ev : MeteringEvent) : Prop :=
  me_WorkspaceID ev = ws /\ monthOf (me_At ev) = month.

Definition kind_count (kind : MeteringKind) (l : list MeteringEvent) : Z :=
  Z.of_nat (length (filter (fun ev => me_Kind ev = kind) l)).

Definition uploaded (ev : MeteringEvent) : Z :=
  if String.eqb (me_Kind ev) MeteringUploadCompleted then default 0 (me_Bytes ev) else 0.

Definition encoded (ev : MeteringEvent) : spec_float :=
  if String.eqb (me_Kind ev) MeteringJobCompleted || String.eqb (me_Kind ev) MeteringJobFailed
  then default f0 (me_EncodeSeconds ev) else f0.

(** Floating-point addition is not associative: the sum is in the order of the list. *)
Fixpoint seconds (l : list MeteringEvent) : spec_float :=
  match l with
  | [] => f0
  | [ev] => encoded ev
  | ev :: l' => fadd (seconds l') (encoded ev)
  end.

(** The rollup of the events [l], the latest first. *)
Record rolls_up (r : UsageRollup) (l : list MeteringEvent) : Prop := {
  ru_bytes : ur_BytesUploaded r = sumZ (uploaded <$> l);
  ru_seconds : ur_EncodeSeconds r = seconds l;
  ru_sessions : ur_UploadSessions r = kind_count MeteringUploadSessionCreated l;
  ru_completed : ur_UploadsCompleted r = kind_count MeteringUploadCompleted l;
  ru_queued : ur_JobsQueued r = kind_count MeteringJobQueued l;
  ru_started : ur_JobsStarted r = kind_count MeteringJobStarted l;
  ru_jcompleted : ur_JobsCompleted r = kind_count MeteringJobCompleted l;
  ru_failed : ur_JobsFailed r = kind_count MeteringJobFailed l
}.

(** Every rollup row is the sum of the recorded events of its workspace and month,
    each of them counted once, and there is no row where there is no event. *)
Definition accounted (d : tdb) : Prop :=
  (forall id ev, metering_events d !! id = Some ev -> me_EventID ev = id) /\
  forall ws month, exists l,
    NoDup l /\ (forall ev, ev ∈ l <-> metering_events d !! me_EventID ev = Some ev /\ counts_towards ws month ev) /\
    match usage_rollups d !! (ws, month) with
    | Some r => l <> [] /\ rolls_up r l
    | None => l = []
    end.

Lemma empty_accounted : accounted empty_tdb.
Proof.
  split; [intros *; simpl; by rewrite lookup_empty|]. intros ws month. exists [].
  split; [constructor|]. split; [|simpl; by rewrite lookup_empty].
  intros ev. simpl. rewrite lookup_empty. split; [by intros ?%not_elem_of_nil|by intros [? _]].
Qed.

Lemma kind_count_cons kind ev l :
  kind_count kind (ev :: l) = kind_count kind l + (if decide (me_Kind ev = kind) then 1 else 0).
Proof. unfold kind_count. rewrite filter_cons. case_decide; simpl; lia. Qed.

(** The increment of one event, field by field. *)
Lemma rollupDelta_fields ev delta :
  rollupDelta ev = Ok delta ->
  ur_WorkspaceID delta = me_WorkspaceID ev /\ ur_Month delta = monthOf (me_At ev) /\ rolls_up delta [ev].
Proof.
  unfold rollupDelta. destruct (_ || _); [done|]. destruct (IsZero _); [done|].
  destruct (negative _ _); [done|]. destruct (negative _ _); [done|].
  repeat match goal with |- context [String.eqb ?a ?b] => destruct (String.eqb_spec a b) as [Hk|] end;
    intros [= <-]; (split; [done|]); (split; [done|]); split;
    cbn [fmap list_fmap sumZ foldr seconds]; unfold kind_count, uploaded, encoded;
    rewrite ?filter_cons, ?filter_nil; rewrite ?Hk;
    repeat case_decide; try match goal with H : @eq MeteringKind _ _ |- _ => discriminate H end;
    try (exfalso; congruence); cbn; try done; lia.
Qed.

Lemma rolls_up_single delta ev : rolls_up delta [ev] ->
  ur_BytesUploaded delta = uploaded ev /\ ur_EncodeSeconds delta = encoded ev /\
  ur_UploadSessions delta = kind_count MeteringUploadSessionCreated [ev] /\
  ur_UploadsCompleted delta = kind_count MeteringUploadCompleted [ev] /\
  ur_JobsQueued delta = kind_count MeteringJobQueued [ev] /\
  ur_JobsStarted delta = kind_count MeteringJobStarted [ev] /\
  ur_JobsCompleted delta = kind_count MeteringJobCompleted [ev] /\
  ur_JobsFailed delta = kind_count MeteringJobFailed [ev].
Proof. intros [H]. simpl in *. split_and!; try done. lia. Qed.

Lemma rollup_add_rolls now old delta r l ev :
  rollup_add now old delta = Some r -> l <> [] -> rolls_up old l -> rolls_up delta [ev] -> rolls_up r (ev :: l).
Proof.
  unfold rollup_add. intros Hr Hl Ho Hd.
  destruct (rolls_up_single _ _ Hd) as (Eb & Es & E1 & E2 & E3 & E4 & E5 & E6).
  repeat match type of Hr with
         | mbind _ (bigint _) = Some _ => apply bind_Some in Hr as (? & [-> _]%bigint_Some & Hr)
         | mbind _ (float8pl _ _) = Some _ =>
             let Hf := fresh "Hf" in apply bind_Some in Hr as (? & Hf & Hr);
             unfold float8pl in Hf; destruct (_ && _); [done|]; injection Hf as <-
         end.
  injection Hr as <-.
  split; cbn [ur_BytesUploaded ur_EncodeSeconds ur_UploadSessions ur_UploadsCompleted ur_JobsQueued
              ur_JobsStarted ur_JobsCompleted ur_JobsFailed]; rewrite ?kind_count_cons.
  - rewrite (ru_bytes _ _ Ho), Eb. cbn [fmap list_fmap sumZ foldr]. unfold sumZ. simpl. lia.
  - rewrite (ru_seconds _ _ Ho), Es. destruct l as [|x l]; [done|]. reflexivity.
  - rewrite (ru_sessions _ _ Ho), E1, kind_count_cons. unfold kind_count at 2. simpl. lia.
  - rewrite (ru_completed _ _ Ho), E2, kind_count_cons. unfold kind_count at 2. simpl. lia.
  - rewrite (ru_queued _ _ Ho), E3, kind_count_cons. unfold kind_count at 2. simpl. lia.
  - rewrite (ru_started _ _ Ho), E4, kind_count_cons. unfold kind_count at 2. simpl. lia.
  - rewrite (ru_jcompleted _ _ Ho), E5, kind_count_cons. unfold kind_count at 2. simpl. lia.
  - rewrite (ru_failed _ _ Ho), E6, kind_count_cons. unfold kind_count at 2. simpl. lia.
Qed.

Lemma apply_accounted now ev delta d :
  rollupDelta ev = Ok delta -> accounted d -> accounted (pg_ApplyMetering now ev (ur_Month delta) delta d).2.
Proof.
  intros Hd [Hid Hacc]. destruct (rollupDelta_fields _ _ Hd) as (Hw & Hm & Hr).
  unfold pg_ApplyMetering. destruct (has _ _) eqn:Hh; [done|]. apply bool_decide_eq_false in Hh.
  apply eq_None_not_Some in Hh. destruct (upserted_rollup _ _ _ _) as [row|] eqn:Hu; [|done].
  split; cbn [snd set_metering metering_events usage_rollups].
  { intros id e [[<- <-]|[_ He]]%lookup_insert_Some; [done|by apply Hid]. }
  intros ws month. destruct (Hacc ws month) as (l & Hnd & Hin & Hl).
  assert (Hnew : ev ∉ l) by (intros [He _]%Hin; congruence).
  assert (Hrec : forall e, <[me_EventID ev := ev]> (metering_events d) !! me_EventID e = Some e <->
                   e = ev \/ metering_events d !! me_EventID e = Some e).
  { intros e. rewrite lookup_insert_Some. split; [naive_solver|]. intros [->|He]; [by left|].
    right. split; [|done]. intros Heq. rewrite Heq in Hh. congruence. }
  destruct (decide ((ur_WorkspaceID delta, ur_Month delta) = (ws, month))) as [[= <- <-]|Hne].
  - exists (ev :: l). rewrite lookup_insert_eq. split_and!; [by constructor| |done|].
    + intros e. rewrite elem_of_cons, Hin, Hrec. unfold counts_towards. rewrite Hw, Hm. naive_solver.
    + unfold upserted_rollup in Hu. destruct (usage_rollups d !! _) as [old|] eqn:Ho.
      * destruct Hl as [Hne Hl]. by eapply rollup_add_rolls.
      * subst l. injection Hu as <-. by destruct Hr; split.
  - exists l. rewrite lookup_insert_ne by done. split_and!; [done| |done].
    intros e. rewrite Hin, Hrec. unfold counts_towards. split; [naive_solver|].
    intros [[->|He] [Hw' Hm']]; [|done]. destruct Hne. congruence.
Qed.

(** ** Concurrent deliveries

    Each has its own list of settlements, which is what the broker sees of it. *)
Definition consumer_do (_ : nat) : nsem consumerE (tworld * list settled) :=
  fun X e w x w' => consumer_sem X e w = (x, w').

Section deliveries.
Context (msgs : list (result MeteringEvent)).

(** What a delivery relies on: recorded events stay, new ones are delivered ones, and
    the rollups go on accounting for them. *)
Record metering_rely (d d' : tdb) : Prop := {
  mr_accounted : accounted d -> accounted d';
  mr_kept : metering_events d ⊆ metering_events d';
  mr_source : forall id ev, metering_events d' !! id = Some ev ->
    metering_events d !! id = Some ev \/
    (id = me_EventID ev /\ Ok ev ∈ msgs /\ is_Some (countable (Ok ev)))
}.

#[global] Instance metering_rely_pre : PreOrder metering_rely.
Proof.
  split; [split; auto|]. intros d1 d2 d3 [A1 K1 S1] [A2 K2 S2].
  split; [auto|by trans (metering_events d2)|]. intros id ev H3.
  destruct (S2 _ _ H3) as [H2|H2]; [by apply S1|by right].
Qed.

#[global] Instance metering_relied :
  Relied (fun w => accounted (tw_db w)) (fun (_ : nat) w w' => metering_rely (tw_db w) (tw_db w')).
Proof.
  split; [|by intros _ w w' Ha [H _ _]; apply H].
  intros _. split; [intros w; reflexivity|intros x y z H1 H2; by trans (tw_db y)].
Qed.

Lemma apply_relied now ev delta d :
  Ok ev ∈ msgs -> rollupDelta ev = Ok delta ->
  metering_rely d (pg_ApplyMetering now ev (ur_Month delta) delta d).2.
Proof.
  intros Hin Hd. split; [by apply apply_accounted| |]; unfold pg_ApplyMetering;
    (destruct (has _ _) eqn:Hh; [by auto|]); (destruct (upserted_rollup _ _ _ _); [|by auto]);
    cbn [snd set_metering metering_events].
  - apply insert_subseteq. apply bool_decide_eq_false in Hh. by apply eq_None_not_Some in Hh.
  - intros id e [[<- <-]|[_ He]]%lookup_insert_Some; [right|by left].
    split; [done|]. split; [done|]. unfold countable. rewrite Hd. by eexists.
Qed.

Lemma apply_ok now ev month delta d b d' :
  pg_ApplyMetering now ev month delta d = (Ok b, d') -> is_Some (metering_events d' !! me_EventID ev).
Proof.
  unfold pg_ApplyMetering. destruct (has _ _) eqn:Hh.
  - intros [= _ <-]. by apply bool_decide_eq_true in Hh.
  - destruct (upserted_rollup _ _ _ _); [|done]. intros [= _ <-]. simpl. rewrite lookup_insert_eq. by eexists.
Qed.

Lemma apply_call_relied ev delta w r w' :
  Ok ev ∈ msgs -> rollupDelta ev = Ok delta ->
  tstore_exec (ApplyMetering ev (ur_Month delta) delta) w = (r, w') ->
  metering_rely (tw_db w) (tw_db w') /\
  (is_ok r = true -> is_Some (metering_events (tw_db w') !! me_EventID ev)).
Proof.
  intros Hin Hd He. split.
  - assert (H := tstore_exec_rel metering_rely (ApplyMetering ev (ur_Month delta) delta) w).
    rewrite He in H. apply H. intros now uid. by apply apply_relied.
  - destruct (tstore_exec_spec (ApplyMetering ev (ur_Month delta) delta) w) as (now & uid & Hs).
    rewrite He in Hs. destruct r as [b|]; [|done]. intros _. by eapply apply_ok, up_to_fault_ok.
Qed.

(** How a finished delivery was settled. *)
Definition settled_right (data : result MeteringEvent) (w : tworld) (log : list settled) : Prop :=
  match countable data with
  | None => log = [STerm]
  | Some (ev, _) => (log = [SAck] /\ is_Some (metering_events (tw_db w) !! me_EventID ev)) \/
                    log = [SNak (5 * Second)]
  end.

Lemma settled_right_stable i data : stable (fun w => accounted (tw_db w))
  (fun (_ : nat) w w' => metering_rely (tw_db w) (tw_db w')) i (settled_right data).
Proof.
  intros w w' log _ Hs Hr. unfold settled_right in *. destruct (countable data) as [[ev _]|]; [|done].
  destruct Hs as [[-> [e He]] | ->]; [left|by right]. split; [done|]. exists e.
  eapply lookup_weaken; [exact He|apply Hr].
Qed.

Lemma settling_call i data (e : consumerE ()) s (P : assertion tworld (list settled)) :
  (forall w log, consumer_sem _ e (w, log) = (tt, (w, log ++ [s]))) ->
  stable (fun w => accounted (tw_db w)) (fun (_ : nat) w w' => metering_rely (tw_db w) (tw_db w')) i P ->
  (forall w log, P w log -> settled_right data w (log ++ [s])) ->
  tri consumer_do (fun w => accounted (tw_db w)) (fun (_ : nat) w w' => metering_rely (tw_db w) (tw_db w'))
    i P (call e) (fun _ => settled_right data).
Proof.
  intros He HP Hs. eapply (tri_vis i e P (fun _ => settled_right data)); [exact HP| |].
  - intros w log x w' log' Ha Hp Hx. unfold consumer_do in Hx. rewrite He in Hx. simplify_eq.
    split; [done|]. split; [intros; reflexivity|]. by apply Hs.
  - intros x. apply tri_ret; [apply settled_right_stable|done].
Qed.

Lemma handle_tri i data :
  data ∈ msgs ->
  tri consumer_do (fun w => accounted (tw_db w)) (fun (_ : nat) w w' => metering_rely (tw_db w) (tw_db w'))
    i (fun _ log => log = []) (handle data) (fun _ => settled_right data).
Proof.
  intros Hin. pose proof (settling_call i data) as Hcall. unfold settled_right in Hcall at 1. revert Hcall.
  unfold handle, consumeMeteringPayload, isTerminalMeteringErr, countable.
  destruct data as [ev|e]; [destruct (rollupDelta ev) as [delta|e] eqn:Hd|]; intros Hcall.
  2,3: eapply (Hcall Term STerm); [done|apply stable_own|]; intros w log ->; done.
  eapply (tri_vis i _ _ (fun r w log => log = [] /\
    (is_ok r = true -> is_Some (metering_events (tw_db w) !! me_EventID ev)))); [apply stable_own| |].
  - intros w log r w' log' Ha -> Hx. unfold consumer_do in Hx. cbn [consumer_sem fst snd] in Hx.
    destruct (tstore_exec _ w) as [r' d] eqn:He. simplify_eq.
    destruct (apply_call_relied _ _ _ _ _ Hin Hd He) as [Hr Hok]. split; [by apply Hr|]. auto.
  - intros r. assert (Hst : stable (fun w => accounted (tw_db w))
      (fun (_ : nat) w w' => metering_rely (tw_db w) (tw_db w')) i (fun w (log : list settled) => log = [] /\
        (is_ok r = true -> is_Some (metering_events (tw_db w) !! me_EventID ev)))).
    { intros w w' log _ [-> Hok] Hr. split; [done|]. intros Ho. destruct (Hok Ho) as [e He].
      exists e. eapply lookup_weaken; [exact He|apply Hr]. }
    destruct r as [b|e].
    + eapply (Hcall Ack SAck); [done|exact Hst|]. intros w log [-> Hok]. left. auto.
    + eapply (Hcall (NakWithDelay _)); [done|exact Hst|].
      intros w log [-> _]. by right.
Qed.
End deliveries.

(** C19: usage is accounted exactly once.  However often the events are delivered and
    redelivered, in any interleaving of concurrent deliveries, with store faults and
    lost replies at any call: every monthly rollup of every workspace is the sum of
    the distinct events recorded for it (its bytes are the sum of the completed
    uploads' bytes, its encode seconds their sum in the order of recording, each of
    its counters the number of events of its kind); no recorded event is lost, and
    none is recorded that was not delivered.  A delivery is settled once: a payload
    that does not decode or has no increment is terminated without a store call; any
    other makes one store call with its own increment and is acknowledged if that
    call succeeded, when its event is recorded and stays so, and is otherwise
    redelivered after five seconds. *)
Theorem metering_counts_events_once (msgs : list (result MeteringEvent)) w ts w' :
  accounted (tw_db w) ->
  rtc (lpool_step consumer_do) ((fun m => (handle m, [])) <$> msgs, w) (ts, w') ->
  accounted (tw_db w') /\
  metering_events (tw_db w) ⊆ metering_events (tw_db w') /\
  (forall id ev, metering_events (tw_db w') !! id = Some ev ->
     metering_events (tw_db w) !! id = Some ev \/
     (id = me_EventID ev /\ Ok ev ∈ msgs /\ is_Some (countable (Ok ev)))) /\
  (forall i data log, msgs !! i = Some data -> ts !! i = Some (Ret (), log) ->
     settled_right data w' log) /\
  (forall data tr u, exec (handle data) tr u ->
     match countable data with
     | None => tr = [Ev Term ()]
     | Some (ev, delta) => exists r,
         tr = [Ev (CStore (ApplyMetering ev (ur_Month delta) delta)) r;
               if is_ok r then Ev Ack () else Ev (NakWithDelay (5 * Second)) ()]
     end).
Proof.
  intros Ha Hr.
  destruct (tri_sound (h := consumer_do) (inv := fun w => accounted (tw_db w))
              (rely := fun (_ : nat) w w' => metering_rely msgs (tw_db w) (tw_db w'))
              (fun i _ w log => forall data, msgs !! i = Some data -> settled_right data w log)
              ((fun m => (handle m, [])) <$> msgs) w ts w' Ha) as (Ha' & Hrely & Hdone); [|exact Hr|].
  - intros i p l Hi. rewrite list_lookup_fmap in Hi. destruct (msgs !! i) as [data|] eqn:Hd; simplify_eq/=.
    exists (fun _ log => log = []). split; [done|].
    eapply tri_weaken; [|apply (handle_tri msgs i data); by eapply list_elem_of_lookup_2|]; [done|].
    intros a s l Hs data' Hd'. by injection Hd' as <-.
  - destruct (Hrely _ (le_n _)) as [_ Hk Hsrc]. split; [done|]. split; [done|]. split; [done|].
    split; [|exact handle_trace]. intros i data log Hd Hi. by apply (Hdone i () log).
Qed.

(** ** A redelivery *)

Definition ex_event : MeteringEvent :=
  {| me_EventID := "e1"; me_WorkspaceID := "ws"; me_UserID := "u1"; me_Kind := MeteringUploadCompleted;
     me_Bytes := Some 7; me_EncodeSeconds := None; me_JobID := ""; me_At := 5 |}.

(** The first delivery's reply is lost; both deliveries race. *)
Definition ex_deliveries : list (prog consumerE () * list settled) * tworld :=
  lrun_sched (fun _ => consumer_sem) [0; 1; 0; 1]%nat
    ((fun m => (handle m, [])) <$> [Ok ex_event; Ok ex_event],
     {| tw_db := empty_tdb; tw_inputs := [(0, "", FAfter)] |}).

Lemma metering_counts_events_once_witness :
  ex_deliveries.1 = [(Ret (), [SNak meteringNakDelay]); (Ret (), [SAck])] /\
  accounted (tw_db ex_deliveries.2) /\
  (ur_BytesUploaded <$> usage_rollups (tw_db ex_deliveries.2) !! ("ws", "1970-01")) = Some 7.
Proof.
  split; [vm_compute; reflexivity|]. split; [|vm_compute; reflexivity].
  apply (metering_counts_events_once [Ok ex_event; Ok ex_event]
           {| tw_db := empty_tdb; tw_inputs := [(0, "", FAfter)] |} ex_deliveries.1);
    [exact empty_accounted|].
  rewrite <-surjective_pairing. apply lrun_sched_reachable. intros i X e w0. apply surjective_pairing.
Defined.
