(* ===== verification/ApiKeys.v ===== *)
(** * services/tenancy: API keys and the bearer middleware

    [apikeys.go] and the [authMiddleware] of [server.go].  argon2id
    ([golang.org/x/crypto]) is the function [IDKey]; golang-jwt is as in Tokens.v. *)
From S2P Require Export Tenancy.
#[local] Open Scope Z_scope.

(** ** encoding/base64.RawStdEncoding, by its alphabet *)

Fixpoint smap (f : ascii -> ascii) (s : string) : string :=
  match s with EmptyString => "" | String c s' => String (f c) (smap f s') end.

Definition url_to_std (c : ascii) : ascii :=
  if Ascii.eqb c "-" then "+" else if Ascii.eqb c "_" then "/" else c.
Definition std_to_url (c : ascii) : ascii :=
  if Ascii.eqb c "+" then "-" else if Ascii.eqb c "/" then "_"
  else if Ascii.eqb c "-" || Ascii.eqb c "_" then "!" else c.

Definition Std_EncodeToString (s : string) : string := smap url_to_std (EncodeToString s).
Definition Std_DecodeString (s : string) : option string := DecodeString (smap std_to_url s).

(** ** fmt.Sscanf with literal text and [%d] *)

Definition newline : ascii := ascii_of_nat 10.

Fixpoint SkipSpace (n : nat) (s : string) : option string :=
  match n, s with
  | S n', String c _ =>
      if Ascii.eqb c newline then None
      else match strip_space space_runes s with
           | Some s' => SkipSpace n' s'
           | None => Some s
           end
  | _, _ => Some s
  end.

Fixpoint span_digits (s : string) : string * string :=
  match s with
  | String c s' => if is_digit c then let '(d, r) := span_digits s' in (String c d, r) else ("", s)
  | EmptyString => ("", "")
  end.

(** The value scanned and the rest of the input. *)
Definition scanUint (bits : Z) (s : string) : option (Z * string) :=
  s ← SkipSpace (String.length s) s;
  let '(d, r) := span_digits s in
  v ← parse_digits d;
  if v <? 2 ^ bits then Some (v, r) else None.

Definition scanInt (s : string) : option (Z * string) :=
  s ← SkipSpace (String.length s) s;
  let '(neg, s) := match s with
                   | String c s' => if Ascii.eqb c "-" then (true, s')
                                    else if Ascii.eqb c "+" then (false, s') else (false, s)
                   | EmptyString => (false, s)
                   end in
  let '(d, r) := span_digits s in
  v ← parse_digits d;
  let v := if (neg : bool) then - v else v in
  if (- 2 ^ 63 <=? v) && (v <? 2 ^ 63) then Some (v, r) else None.

Definition scan_version (s : string) : option Z :=
  s ← GoLib.strip_prefix "v=" s; '(v, _) ← scanInt s; Some v.

Definition scan_params (s : string) : option (Z * Z * Z) :=
  s ← GoLib.strip_prefix "m=" s; '(m, s) ← scanUint 32 s;
  s ← GoLib.strip_prefix ",t=" s; '(t, s) ← scanUint 32 s;
  s ← GoLib.strip_prefix ",p=" s; '(p, _) ← scanUint 8 s;
  Some (m, t, p).

(** ** apikeys.go *)

Definition apiKeyPrefix : string := "aek_".

Definition argonTime : Z := 2.
Definition argonMemory : Z := 19 * 1024.
Definition argonThreads : Z := 1.
Definition argonKeyLen : Z := 32.
Definition argonSaltLen : Z := 16.
(** [argon2.Version] *)
Definition argonVersion : Z := 19.

Definition splitAPIKey (raw : string) : option (string * string) :=
  if negb (HasPrefix raw apiKeyPrefix) then None
  else match Cut (TrimPrefix raw apiKeyPrefix) "_" with
       | None => None
       | Some (id, secret) =>
           if String.eqb id "" || String.eqb secret "" then None else Some (id, secret)
       end.

Definition viewAPIKey (k : APIKey) : json :=
  JObj ([("id", JStr (k_ID k)); ("workspaceId", JStr (k_WorkspaceID k)); ("name", JStr (k_Name k));
         ("createdBy", JStr (k_CreatedBy k)); ("createdAt", JNum (k_CreatedAt k))]
        ++ (match k_LastUsedAt k with Some t => [("lastUsedAt", JNum t)] | None => [] end)
        ++ (match k_RevokedAt k with Some t => [("revokedAt", JNum t)] | None => [] end)).

Section apikeys.
(** [argon2.IDKey(password, salt, time, memory, threads, keyLen)] *)
Context (IDKey : string -> string -> Z -> Z -> Z -> Z -> string).
Context (ParseWithClaims : string -> keyfunc -> parse_options -> result jwt_claims).

Definition phc (salt digest : string) : string :=
  "$argon2id$v=" +:+ itoa argonVersion +:+ "$m=" +:+ itoa argonMemory +:+ ",t=" +:+ itoa argonTime
  +:+ ",p=" +:+ itoa argonThreads +:+ "$" +:+ Std_EncodeToString salt +:+ "$" +:+ Std_EncodeToString digest.

Definition hashAPIKeySecret (secret : string) : prog tenE (result string) :=
  salt ← call (RandRead argonSaltLen);
  Ret (match salt with
       | Err e => Err e
       | Ok salt => Ok (phc salt (IDKey secret salt argonTime argonMemory argonThreads argonKeyLen))
       end).

Definition verifyAPIKeySecret (secret phc : string) : result bool :=
  match Split "$" phc with
  | [_; alg; version; params; salt; digest] =>
      if negb (String.eqb alg "argon2id") then Err (EMsg "apikey hash: not an argon2id PHC string")
      else match scan_version version with
      | None => Err (EMsg "apikey hash: bad version field")
      | Some v =>
      if negb (v =? argonVersion)
      then Err (EMsg ("apikey hash: unsupported argon2 version " +:+ itoa v))
      else match scan_params params with
      | None => Err (EMsg "apikey hash: bad parameter field")
      | Some (m, t, p) =>
      match Std_DecodeString salt with
      | None => Err (EMsg "apikey hash: bad salt")
      | Some salt =>
      match Std_DecodeString digest with
      | None => Err (EMsg "apikey hash: bad digest")
      | Some want => Ok (String.eqb (IDKey secret salt t m p (slen want mod 2 ^ 32)) want)
      end end end end
  | _ => Err (EMsg "apikey hash: not an argon2id PHC string")
  end.

(** The id, the raw key and its secret. *)
Definition mintAPIKey : prog tenE (result (string * string * string)) :=
  id ← call NewString;
  secret ← newOpaqueToken 32;
  Ret (match secret with
       | Err e => Err e
       | Ok secret => Ok (id, apiKeyPrefix +:+ id +:+ "_" +:+ secret, secret)
       end).

Definition verifyAPIKeyString (raw : string) : prog tenE (result APIKey) :=
  match splitAPIKey raw with
  | None => Ret (Err ENotFound)
  | Some (id, secret) =>
      key ← call (TStore (GetAPIKey id));
      match key with
      | Err e => Ret (Err e)
      | Ok key =>
          match k_RevokedAt key with
          | Some _ => Ret (Err ENotFound)
          | None =>
              match verifyAPIKeySecret secret (k_SecretHash key) with
              | Err _ => Ret (Err (EMsg "apikey verify"))
              | Ok false => Ret (Err ENotFound)
              | Ok true =>
                  now ← call TNow;
                  _ ← call (TStore (TouchAPIKey (k_ID key) now));
                  Ret (Ok key)
              end
          end
      end
  end.

Definition handleCreateAPIKey (caller : option Identity) (r : trequest) : prog tenE response :=
  requireUser caller (fun id =>
  requireRole (id_WorkspaceID id) (id_UserID id) RoleAdmin (
  decodeJSONBody r (tr_name r) (fun name =>
    let name := TrimSpace name in
    if String.eqb name "" || (128 <? slen name)
    then Ret (writeError 400 "invalid_name" "name is required and at most 128 characters")
    else
      minted ← mintAPIKey;
      match minted with
      | Err _ => Ret internalError
      | Ok (keyID, raw, secret) =>
          hash ← hashAPIKeySecret secret;
          match hash with
          | Err _ => Ret internalError
          | Ok hash =>
              now ← call TNow;
              let rec_ := {| k_ID := keyID; k_WorkspaceID := id_WorkspaceID id; k_Name := name;
                             k_SecretHash := hash; k_CreatedBy := id_UserID id; k_CreatedAt := now;
                             k_LastUsedAt := None; k_RevokedAt := None |} in
              created ← call (TStore (CreateAPIKey rec_));
              match created with
              | Err _ => Ret internalError
              | Ok _ => Ret (writeJSON 201 (JObj [("key", JStr raw); ("apiKey", viewAPIKey rec_)]))
              end
          end
      end))).

Definition handleListAPIKeys (caller : option Identity) : prog tenE response :=
  requireUser caller (fun id =>
  requireRole (id_WorkspaceID id) (id_UserID id) RoleMember (
    keys ← call (TStore (ListAPIKeys (id_WorkspaceID id)));
    match keys with
    | Err _ => Ret internalError
    | Ok keys => Ret (writeJSON 200 (JObj [("apiKeys", JArr (viewAPIKey <$> keys))]))
    end)).

Definition handleRevokeAPIKey (caller : option Identity) (r : trequest) : prog tenE response :=
  requireUser caller (fun id =>
  requireRole (id_WorkspaceID id) (id_UserID id) RoleAdmin (
    if String.eqb (tr_id r) "" then Ret (writeError 400 "invalid_key_id" "key id is required")
    else
      now ← call TNow;
      revoked ← call (TStore (RevokeAPIKey (id_WorkspaceID id) (tr_id r) now));
      match revoked with
      | Err ENotFound => Ret (writeError 404 "key_not_found" "no such api key in this workspace")
      | Err _ => Ret internalError
      | Ok _ => Ret (writeHeader 204)
      end)).

(** ** server.go: authMiddleware *)

Definition presented_token (r : trequest) : string :=
  if HasPrefix (tr_Authorization r) bearer then TrimPrefix (tr_Authorization r) bearer
  else tr_XAPIKey r.

(** The identity the middleware resolves, or what it answers; [key] is the signer's. *)
Definition authenticate (key : string) (r : trequest) : prog tenE (response + Identity) :=
  let token := presented_token r in
  if String.eqb token "" then Ret (inl (writeError 401 "unauthorized" "missing bearer token or api key"))
  else if HasPrefix token apiKeyPrefix then
    k ← verifyAPIKeyString token;
    match k with
    | Err ENotFound => Ret (inl (writeError 401 "unauthorized" "invalid api key"))
    | Err _ => Ret (inl internalError)
    | Ok k => Ret (inr {| id_WorkspaceID := k_WorkspaceID k; id_UserID := apiKeyUserPrefix +:+ k_ID k |})
    end
  else
    now ← call TNow;
    match tenancy_Verify ParseWithClaims key token now with
    | Err _ => Ret (inl (writeError 401 "unauthorized" "invalid bearer token"))
    | Ok id => Ret (inr id)
    end.

Definition authMiddleware (key : string) (r : trequest) (next : Identity -> prog tenE response)
    : prog tenE response :=
  out ← authenticate key r;
  match out with
  | inl resp => Ret resp
  | inr id => next id
  end.

(** ** Round trips *)

Lemma smap_smap f g s (P : ascii -> bool) :
  (forall c, P c = true -> g (f c) = c) -> all_chars P s = true -> smap g (smap f s) = s.
Proof.
  intros Hfg. induction s as [|c s IH]; simpl; [done|]. intros [Hc Hs]%andb_true_iff. by rewrite Hfg, IH.
Qed.

Lemma all_chars_smap f s (P Q : ascii -> bool) :
  (forall c, P c = true -> Q (f c) = true) -> all_chars P s = true -> all_chars Q (smap f s) = true.
Proof.
  intros Hf. induction s as [|c s IH]; simpl; [done|]. intros [Hc Hs]%andb_true_iff. by rewrite Hf, IH.
Qed.

Lemma std_alphabet c : is_b64 c = true ->
  std_to_url (url_to_std c) = c /\ negb (Ascii.eqb "$" (url_to_std c)) = true.
Proof.
  intros H. destruct c as [[][][][][][][][]]; first [split; reflexivity | vm_compute in H; discriminate H].
Qed.

Lemma Std_round_trip s : Std_DecodeString (Std_EncodeToString s) = Some s.
Proof.
  unfold Std_DecodeString, Std_EncodeToString. rewrite (smap_smap _ _ _ is_b64).
  - apply DecodeString_EncodeToString.
  - intros c Hc. by apply std_alphabet.
  - apply EncodeToString_b64.
Qed.

Lemma Std_no_dollar s : no_char "$" (Std_EncodeToString s) = true.
Proof.
  unfold Std_EncodeToString, no_char. apply (all_chars_smap _ _ is_b64); [|apply EncodeToString_b64].
  intros c Hc. by apply std_alphabet.
Qed.

Lemma phc_fields salt digest :
  Split "$" (phc salt digest) =
    [""; "argon2id"; "v=19"; "m=19456,t=2,p=1"; Std_EncodeToString salt; Std_EncodeToString digest].
Proof.
  unfold phc. change ("$argon2id$v=" +:+ itoa argonVersion +:+ "$m=" +:+ itoa argonMemory +:+ ",t=" +:+
    itoa argonTime +:+ ",p=" +:+ itoa argonThreads +:+ "$" +:+ Std_EncodeToString salt +:+ "$" +:+ Std_EncodeToString digest)
    with ("" +:+ String "$" ("argon2id" +:+ String "$" ("v=19" +:+ String "$" ("m=19456,t=2,p=1" +:+
           String "$" (Std_EncodeToString salt +:+ String "$" (Std_EncodeToString digest)))))).
  rewrite !Split_app, !Split_no_char; [reflexivity|..]; try reflexivity; apply Std_no_dollar.
Qed.

(** What is documented of [argon2.IDKey]: it returns as many bytes as asked. *)
Definition IDKey_length : Prop := forall password salt t m p n,
  0 <= n -> slen (IDKey password salt t m p n) = n.

Definition argon2id (salt secret : string) : string :=
  IDKey secret salt argonTime argonMemory argonThreads argonKeyLen.

Lemma verify_phc candidate salt secret :
  IDKey_length ->
  verifyAPIKeySecret candidate (phc salt (argon2id salt secret))
  = Ok (String.eqb (argon2id salt candidate) (argon2id salt secret)).
Proof.
  intros Hlen. unfold verifyAPIKeySecret. rewrite phc_fields. cbn [negb String.eqb].
  replace (scan_version "v=19") with (Some 19) by reflexivity.
  replace (scan_params "m=19456,t=2,p=1") with (Some (19456, 2, 1)) by reflexivity.
  change (negb (19 =? argonVersion)) with false. cbn [negb]. rewrite !Std_round_trip.
  unfold argon2id at 1. rewrite Hlen by done. reflexivity.
Qed.

Lemma split_key id secret :
  no_char "_" id = true -> id <> "" -> secret <> "" ->
  splitAPIKey (apiKeyPrefix +:+ id +:+ "_" +:+ secret) = Some (id, secret).
Proof.
  intros Hid Hne Hs. unfold splitAPIKey, HasPrefix, TrimPrefix. rewrite strip_prefix_app.
  rewrite bool_decide_eq_true_2 by (by eexists). cbn [negb].
  change (default (apiKeyPrefix +:+ id +:+ "_" +:+ secret) (Some (id +:+ "_" +:+ secret)))
    with (id +:+ String "_" secret). rewrite Cut_char by done.
  apply String.eqb_neq in Hne, Hs. by rewrite Hne, Hs.
Qed.

Lemma token_not_empty n bytes : slen bytes = n -> 0 < n -> EncodeToString bytes <> "".
Proof.
  intros Hl Hn He. assert (Hd : DecodeString (EncodeToString bytes) = Some "") by (by rewrite He).
  rewrite DecodeString_EncodeToString in Hd. injection Hd as ->. unfold slen in Hl. simpl in Hl. lia.
Qed.

(** What [uuid.NewString] and [crypto/rand.Read] document: an identifier in the
    hyphenated form, and as many bytes as the buffer holds. *)
Definition documented (ev : event tenE) : Prop :=
  match ev with
  | Ev e x =>
      match e in tenE Y return Y -> Prop with
      | NewString => fun id => id <> "" /\ no_char "_" id = true
      | RandRead n => fun r => match r with Ok bytes => slen bytes = n | Err _ => True end
      | _ => fun _ => True
      end x
  end.

Lemma mint_exec tr id raw secret :
  exec mintAPIKey tr (Ok (id, raw, secret)) -> Forall documented tr ->
  (exists bytes, tr = [Ev NewString id; Ev (RandRead 32) (Ok bytes)] /\ secret = EncodeToString bytes) /\
  splitAPIKey raw = Some (id, secret).
Proof.
  intros (id' & t & -> & rb & t3 & -> & [-> Hr]) Hd. destruct rb as [bytes|e]; [|done].
  injection Hr as -> -> ->.
  apply Forall_cons in Hd as [[Hne Hid] Hd]. apply Forall_cons in Hd as [Hlen _]. simpl in Hlen.
  split; [by exists bytes|]. apply split_key; [done|done|]. by eapply token_not_empty.
Qed.

Lemma hash_exec tr secret hash :
  exec (hashAPIKeySecret secret) tr (Ok hash) ->
  exists salt, tr = [Ev (RandRead argonSaltLen) (Ok salt)] /\ hash = phc salt (argon2id salt secret).
Proof. intros ([salt|e] & t & -> & [-> Hr]); [|done]. injection Hr as ->. by exists salt. Qed.

(** The answer of a key lookup. *)
Definition looked_up (ev : event tenE) : option (result APIKey) :=
  match ev with
  | Ev e x =>
      match e in tenE Y return Y -> option (result APIKey) with
      | TStore s => fun r =>
          match s in tstoreE Z return result Z -> option (result APIKey) with
          | GetAPIKey _ => Some
          | _ => fun _ => None
          end r
      | _ => fun _ => None
      end x
  end.

Lemma verify_string_exec raw id secret key tr out :
  splitAPIKey raw = Some (id, secret) -> verifyAPIKeySecret secret (k_SecretHash key) = Ok true ->
  k_RevokedAt key = None ->
  exec (verifyAPIKeyString raw) tr out -> Ev (TStore (GetAPIKey id)) (Ok key) ∈ tr -> out = Ok key.
Proof.
  intros Hs Hv Hrev H Hin. unfold verifyAPIKeyString in H. rewrite Hs in H.
  destruct H as (kr & t & -> & H). go_on H.
  assert (Hk : kr = Ok key).
  { apply elem_of_cons in Hin as [Heq|Hin]; [by apply (f_equal looked_up) in Heq; injection Heq as ->|].
    exfalso. destruct kr as [k0|e]; [|destruct H as [-> _]; by apply not_elem_of_nil in Hin].
    destruct (k_RevokedAt k0); [destruct H as [-> _]; by apply not_elem_of_nil in Hin|].
    destruct (verifyAPIKeySecret secret (k_SecretHash k0)) as [[]|e]; [|destruct H as [-> _]; by apply not_elem_of_nil in Hin..].
    destruct H as (now & t3 & -> & H). go_on H. destruct H as (u & t4 & -> & [-> _]).
    repeat (apply elem_of_cons in Hin as [Heq|Hin]; [discriminate Heq|]). by apply not_elem_of_nil in Hin. }
  subst kr. rewrite Hrev, Hv in H. destruct H as (now & t3 & -> & H). go_on H.
  by destruct H as (u & t4 & -> & [_ ->]).
Qed.

(** C39: an API key round trip.  Whenever the handler answers 201 to a request for a
    new key, having drawn an identifier and random bytes of the documented shapes, the
    raw key in its answer is the one [mintAPIKey] made of 32 random bytes, and the
    record it stored, under the key's id, holds the [hashAPIKeySecret] of the key's
    secret under a salt of its own.  That hash then decides every
    candidate without an error, accepting it exactly when argon2id gives it the digest
    of the secret under that salt; and every later lookup of the raw key that finds the
    record, with that hash and not revoked, authenticates as that record. *)
Theorem api_key_round_trip caller r tr resp :
  IDKey_length -> exec (handleCreateAPIKey caller r) tr resp -> Forall documented tr -> rs_status resp = 201 ->
  exists k raw bytes salt,
    resp = writeJSON 201 (JObj [("key", JStr raw); ("apiKey", viewAPIKey k)]) /\
    Ev (TStore (CreateAPIKey k)) (Ok ()) ∈ tr /\ k_RevokedAt k = None /\
    Ev (RandRead 32) (Ok bytes) ∈ tr /\ Ev (RandRead 16) (Ok salt) ∈ tr /\
    let secret := EncodeToString bytes in
    splitAPIKey raw = Some (k_ID k, secret) /\ k_SecretHash k = phc salt (argon2id salt secret) /\
    (forall candidate, verifyAPIKeySecret candidate (k_SecretHash k)
                       = Ok (String.eqb (argon2id salt candidate) (argon2id salt secret))) /\
    (forall k' tr' out, exec (verifyAPIKeyString raw) tr' out ->
       Ev (TStore (GetAPIKey (k_ID k))) (Ok k') ∈ tr' -> k_SecretHash k' = k_SecretHash k ->
       k_RevokedAt k' = None -> out = Ok k').
Proof.
  clear ParseWithClaims. intros Hlen H Hd Hst. unfold handleCreateAPIKey, requireUser, requireIdentity, requireRole, decodeJSONBody in H.
  destruct caller as [id|]; [|by destruct H as [_ ->]].
  destruct (HasPrefix _ _); [by destruct H as [_ ->]|].
  destruct H as ([m|e] & t0 & -> & H); go_on H; [|destruct e; by destruct H as [_ ->]].
  destruct (_ <? _); [by destruct H as [_ ->]|]. destruct (tr_name r) as [name|]; [|by destruct H as [_ ->]].
  destruct (tr_single r); [|by destruct H as [_ ->]]. destruct (_ || _); [by destruct H as [_ ->]|].
  apply (exec_bind (A:=_)) in H as (t1 & t2 & minted & -> & H1 & H).
  destruct minted as [[[keyID raw] secret]|]; [|by destruct H as [_ ->]].
  apply (exec_bind (A:=_)) in H as (t3 & t4 & hash & -> & H3 & H).
  destruct hash as [hash|]; [|by destruct H as [_ ->]].
  destruct H as (now & t5 & -> & H). go_on H. destruct H as ([[]|] & t6 & -> & [-> ->]); [|done].
  apply Forall_cons in Hd as [_ Hd]. apply Forall_app in Hd as [Hd _].
  apply mint_exec in H1 as [(bytes & -> & ->) Hsplit]; [|done].
  apply hash_exec in H3 as (salt & -> & ->).
  eexists _, raw, bytes, salt. split; [reflexivity|].
  repeat (split; [first [reflexivity|set_solver]|]). cbn [k_ID k_SecretHash k_RevokedAt]. cbv zeta.
  split; [intros c; by apply verify_phc|].
  intros k' tr' out Hx Hin Hh Hrev. eapply verify_string_exec; [exact Hsplit| |done|done|done].
  by rewrite Hh, verify_phc, String.eqb_refl.
Qed.

(** ** Who gets past the middleware *)

(** The evidence for an identity in the calls made. *)
Definition authenticated (key : string) (r : trequest) (id : Identity) (tr : list (event tenE)) : Prop :=
  let token := presented_token r in
  (exists kid secret k, splitAPIKey token = Some (kid, secret) /\
     Ev (TStore (GetAPIKey kid)) (Ok k) ∈ tr /\ k_RevokedAt k = None /\
     verifyAPIKeySecret secret (k_SecretHash k) = Ok true /\
     id = {| id_WorkspaceID := k_WorkspaceID k; id_UserID := apiKeyUserPrefix +:+ k_ID k |}) \/
  (HasPrefix token apiKeyPrefix = false /\ exists now,
     Ev TNow now ∈ tr /\ tenancy_Verify ParseWithClaims key token now = Ok id).

Lemma authenticate_sound key r tr out :
  exec (authenticate key r) tr out ->
  match out with
  | inl resp => rs_status resp = 401 \/ rs_status resp = 500
  | inr id => authenticated key r id tr
  end.
Proof.
  unfold authenticate. destruct (String.eqb _ "") eqn:He; [intros [_ ->]; by left|].
  destruct (HasPrefix _ apiKeyPrefix) eqn:Hp.
  - unfold verifyAPIKeyString. destruct (splitAPIKey _) as [[kid secret]|] eqn:Hs; [|intros [_ ->]; by left].
    intros (t1 & t2 & k & -> & H1 & H2)%exec_bind. destruct H1 as (kr & t1' & -> & H1).
    destruct kr as [k0|e]; go_on H1; [|destruct H1 as [-> ->]; destruct e; destruct H2 as [_ ->]; auto].
    destruct (k_RevokedAt k0) eqn:Hrev; [destruct H1 as [-> ->]; destruct H2 as [_ ->]; auto|].
    destruct (verifyAPIKeySecret _ _) as [[]|e] eqn:Hv;
      [|destruct H1 as [-> ->]; destruct H2 as [_ ->]; auto..].
    destruct H1 as (now & t3 & -> & H1). go_on H1. destruct H1 as (u & t4 & -> & [-> ->]). destruct H2 as [-> ->].
    left. exists kid, secret, k0. split_and!; try done. left.
  - intros (now & t & -> & H). go_on H. destruct (tenancy_Verify _ _ _ _) as [id|e] eqn:Hv; destruct H as [-> ->]; [|by left].
    right. split; [done|]. exists now. split; [left|done].
Qed.

(** C31: no handler runs without authentication.  In every run of the bearer
    middleware, the request is answered 401 or 500 without entering the handler, or
    the handler runs with an identity that is established by the token: the workspace
    and id of a stored API key that is not revoked and whose hash accepts the
    presented secret, or the claims of a token the signer verified at the time of
    the call. *)
Theorem authentication_is_sound key r next tr resp :
  exec (authMiddleware key r next) tr resp ->
  (rs_status resp = 401 \/ rs_status resp = 500) \/
  exists id t1 t2, tr = t1 ++ t2 /\ authenticated key r id t1 /\ exec (next id) t2 resp.
Proof.
  intros (t1 & t2 & out & -> & H1 & H2)%exec_bind. apply authenticate_sound in H1.
  destruct out as [resp'|id]; [destruct H2 as [_ ->]; by left|right]. by exists id, t1, t2.
Qed.

(** ** Revocation *)

Definition key_revoked (kid : string) (d : tdb) : Prop :=
  exists k, api_keys d !! kid = Some k /\ is_Some (k_RevokedAt k).

Lemma statement_key_revoked kid now uid {Y} (e : tstoreE Y) d :
  key_revoked kid d -> key_revoked kid (tstore_apply now uid e d).2.
Proof.
  intros (k & Hk & Hr).
  destruct e; simpl; try (by exists k);
    unfold pg_SaveLoginState, pg_TakeLoginState, pg_UpsertUserByGoogleSub, pg_SetActiveWorkspace,
      pg_CreateWorkspace, pg_AddMember, pg_UpdateMemberRole, pg_RemoveMember, pg_CreateRefreshToken,
      pg_MarkRefreshTokenUsed, pg_RevokeRefreshFamily, pg_ApplyMetering;
    try (repeat case_match; by exists k).
  - unfold pg_CreateAPIKey. destruct (_ && _) eqn:Hg; [|by exists k]. guards. exists k.
    split; [|done]. simpl. rewrite lookup_insert_ne; [done|]. intros Heq. rewrite Heq in *. congruence.
  - unfold pg_RevokeAPIKey. destruct (api_keys d !! id) as [k'|] eqn:Hk'; [|by exists k].
    destruct (_ && _) eqn:Hg; [|by exists k]. unfold key_revoked. simpl.
    destruct (decide (id = kid)) as [->|Hne]; [rewrite lookup_insert_eq|rewrite lookup_insert_ne by done; by exists k].
    eexists. split; [done|]. by eexists.
  - unfold pg_TouchAPIKey. destruct (api_keys d !! id) as [k'|] eqn:Hk'; [|by exists k]. unfold key_revoked. simpl.
    destruct (decide (id = kid)) as [->|Hne]; [rewrite lookup_insert_eq|rewrite lookup_insert_ne by done; by exists k].
    eexists. split; [done|]. simpl. by simplify_eq.
Qed.

Lemma world_key_revoked {V} (env : tenancy_env V) kid X (e : tenE X) w :
  key_revoked kid (tw_db w.1) -> key_revoked kid (tw_db (tenancy_sem env _ e w).2.1).
Proof.
  assert (Reflexive (fun d d' => key_revoked kid d -> key_revoked kid d')) by (by intros ?).
  apply (tenancy_sem_rel env (fun d d' => key_revoked kid d -> key_revoked kid d') (fun _ _ => True)).
  - intros Y e' d now uid _. apply statement_key_revoked.
  - by destruct e.
Qed.

(** revocation is immediate and final.  Once an API key is revoked, then after
    anything the service does (any programs over its store and other dependencies,
    interleaved, with store faults and lost replies) a request presenting a key with
    that id is refused with 401 (or 500 when the lookup fails), and no handler runs. *)
Theorem revoked_key_stays_refused {V} (env : tenancy_env V) {A} kid (ps ps' : list (prog tenE A)) w w' key r
    secret next :
  key_revoked kid (tw_db w.1) ->
  rtc (pool_step (tenancy_sem env)) (ps, w) (ps', w') ->
  splitAPIKey (presented_token r) = Some (kid, secret) ->
  let '(resp, _) := run (tenancy_sem env) (authMiddleware key r next) w' in
  resp = writeError 401 "unauthorized" "invalid api key" \/ resp = internalError.
Proof.
  intros Hrev Hr Hs.
  set (R := fun w w' : tworld * V => key_revoked kid (tw_db w.1) -> key_revoked kid (tw_db w'.1)).
  pose proof (pool_preorder (tenancy_sem env) R (fun X e v => world_key_revoked env kid X e v) _ _ Hr Hrev)
    as (k & Hk & [t Ht]). simpl in Hk.
  unfold authMiddleware, authenticate, verifyAPIKeyString. rewrite Hs.
  destruct (String.eqb_spec (presented_token r) "") as [He|_]; [by rewrite He in Hs|].
  assert (HasPrefix (presented_token r) apiKeyPrefix = true) as ->.
  { unfold splitAPIKey in Hs. by destruct (HasPrefix _ _). }
  rewrite !run_bind, run_call. cbn [tenancy_sem].
  destruct (tstore_exec_spec (GetAPIKey kid) w'.1) as (now & uid & Hsp).
  destruct (tstore_exec (GetAPIKey kid) w'.1) as [[k'|e] d] eqn:Hx; simpl in *.
  - apply up_to_fault_ok in Hsp. injection Hsp as Hrow Hd. apply row_Ok in Hrow.
    assert (k' = k) as -> by congruence. rewrite Ht. simpl. by left.
  - destruct e; simpl; auto.
Qed.
End apikeys.

(** ** A concrete key *)

(** A stand-in for argon2id with digests of the right length. *)
Fixpoint pad_to (n : nat) (s : string) : string :=
  match n, s with
  | O, _ => ""
  | S n', String c s' => String c (pad_to n' s')
  | S n', EmptyString => String "0" (pad_to n' "")
  end.
Definition toy_IDKey (password salt : string) (t m p n : Z) : string := pad_to (Z.to_nat n) password.

Lemma slen_pad_to n s : slen (pad_to n s) = Z.of_nat n.
Proof.
  revert s. induction n as [|n IH]; intros s; [done|]. unfold slen in *.
  destruct s; cbn [pad_to String.length]; rewrite Nat2Z.inj_succ, IH; lia.
Qed.

Lemma toy_IDKey_length : IDKey_length toy_IDKey.
Proof. intros pw salt t m p n Hn. unfold toy_IDKey. rewrite slen_pad_to. lia. Qed.

Definition ex_api_key (revoked : option time) : APIKey :=
  {| k_ID := "k-1"; k_WorkspaceID := "ws"; k_Name := "ci";
     k_SecretHash := phc "saltsaltsaltsalt" (toy_IDKey "s3cret" "saltsaltsaltsalt" 2 19456 1 32);
     k_CreatedBy := "u1"; k_CreatedAt := 0; k_LastUsedAt := None; k_RevokedAt := revoked |}.

Definition bearer_request (token : string) : trequest :=
  {| tr_Authorization := "Bearer " +:+ token; tr_XAPIKey := ""; tr_XInternalToken := ""; tr_Cookie := None;
     tr_id := ""; tr_userId := ""; tr_error := ""; tr_state := ""; tr_code := ""; tr_raw := Ok "";
     tr_single := true; tr_name := Err (EMsg "json"); tr_workspaceId := Err (EMsg "json");
     tr_member := Err (EMsg "json"); tr_role := Err (EMsg "json"); tr_refreshToken := Err (EMsg "json");
     tr_apiKey := Err (EMsg "json"); tr_upload := Err (EMsg "json"); tr_job := Err (EMsg "json") |}.

Definition ex_claims : jwt_claims := mint_claims "u1" "ws" 0 Second "jti".

Definition no_env : tenancy_env () := fun X e _ v =>
  match e in tenE X return X * () with
  | TStore _ => (Err (EMsg ""), v)
  | TNow => (7, v)
  | NewString => ("id", v)
  | RandRead _ => (Err (EMsg "entropy"), v)
  | HttpDo _ => (Err (EMsg "http"), v)
  | LoadKeys => ((∅, zero_time), v)
  | StoreKeys _ _ => (tt, v)
  end.

(** The library's answers: an id and as many bytes as asked. *)
Definition drawing_env : tenancy_env () := fun X e d v =>
  match e in tenE X return X * () with
  | NewString => ("k-1", v)
  | RandRead n => (if 0 <=? n then Ok (pad_to (Z.to_nat n) "entropy") else Err (EMsg "entropy"), v)
  | e => no_env _ e d v
  end.

Definition ex_create_key : prog tenE response :=
  handleCreateAPIKey toy_IDKey (Some {| id_WorkspaceID := "ws"; id_UserID := "u1" |})
    {| tr_Authorization := ""; tr_XAPIKey := ""; tr_XInternalToken := ""; tr_Cookie := None;
       tr_id := ""; tr_userId := ""; tr_error := ""; tr_state := ""; tr_code := ""; tr_raw := Ok "";
       tr_single := true; tr_name := Ok "ci"; tr_workspaceId := Err (EMsg "json");
       tr_member := Err (EMsg "json"); tr_role := Err (EMsg "json"); tr_refreshToken := Err (EMsg "json");
       tr_apiKey := Err (EMsg "json"); tr_upload := Err (EMsg "json"); tr_job := Err (EMsg "json") |}.

Definition ex_key_world : tworld * () :=
  ({| tw_db :=
        {| users := {[ "u1" := {| u_ID := "u1"; u_GoogleSub := "g"; u_Email := "e"; u_Name := "n";
                                  u_ActiveWorkspaceID := "ws"; u_CreatedAt := 0; u_LastLoginAt := 0 |} ]};
           workspaces := {[ "ws" := {| w_ID := "ws"; w_Name := "w"; w_PlanTier := "free";
                                       w_CreatedBy := "u1"; w_CreatedAt := 0 |} ]};
           memberships := {[ ("ws", "u1") := {| m_WorkspaceID := "ws"; m_UserID := "u1";
                                                m_Role := RoleOwner; m_CreatedAt := 0 |} ]};
           refresh_tokens := ∅; login_states := ∅; api_keys := ∅; metering_events := ∅; usage_rollups := ∅ |};
      tw_inputs := [] |}, tt).

Lemma api_key_round_trip_witness :
  exists k raw bytes salt,
    (run (tenancy_sem drawing_env) ex_create_key ex_key_world).1
      = writeJSON 201 (JObj [("key", JStr raw); ("apiKey", viewAPIKey k)]) /\
    splitAPIKey raw = Some (k_ID k, EncodeToString bytes) /\
    verifyAPIKeySecret toy_IDKey "guess" (k_SecretHash k)
      = Ok (String.eqb (argon2id toy_IDKey salt "guess") (argon2id toy_IDKey salt (EncodeToString bytes))).
Proof.
  destruct (api_key_round_trip toy_IDKey _ _ _ _ toy_IDKey_length
              (run_log_exec (tenancy_sem drawing_env) ex_create_key ex_key_world))
    as (k & raw & bytes & salt & H1 & _ & _ & _ & _ & H2 & _ & H3 & _).
  - apply run_log_answers. intros X e [d v]. destruct e; try exact I.
    + split; [discriminate|reflexivity].
    + simpl. destruct (Z.leb_spec 0 n); [|exact I]. rewrite slen_pad_to. lia.
  - vm_compute. reflexivity.
  - exists k, raw, bytes, salt. split; [exact H1|]. split; [exact H2|exact (H3 "guess")].
Defined.

Lemma authentication_is_sound_witness :
  exists id t1 t2,
    [Ev TNow 9] = t1 ++ t2 /\
    authenticated toy_IDKey (fun _ _ _ => Ok ex_claims) "key" (bearer_request "jwt") id t1 /\
    exec (Ret (E:=tenE) (writeJSON 200 (JStr (id_UserID id)))) t2 (writeJSON 200 (JStr "u1")).
Proof.
  destruct (authentication_is_sound toy_IDKey (fun _ _ _ => Ok ex_claims) "key" (bearer_request "jwt")
    (fun id => Ret (writeJSON 200 (JStr (id_UserID id)))) [Ev TNow 9] (writeJSON 200 (JStr "u1")))
    as [[H|H]|H]; [|discriminate H|discriminate H|exact H].
  exists 9, []. split; [reflexivity|]. split; reflexivity.
Defined.

Definition ex_revoked : tworld * () :=
  ({| tw_db := set_api_keys empty_tdb {[ "k-1" := ex_api_key (Some 3) ]}; tw_inputs := [] |}, tt).

Lemma revoked_key_stays_refused_witness :
  (run (tenancy_sem no_env) (authMiddleware toy_IDKey ToyJwt.parse "key" (bearer_request "aek_k-1_s3cret")
     (fun _ => Ret (writeHeader 204))) ex_revoked).1 = writeError 401 "unauthorized" "invalid api key".
Proof.
  pose proof (revoked_key_stays_refused toy_IDKey ToyJwt.parse no_env "k-1" (@nil (prog tenE ())) []
    ex_revoked ex_revoked "key" (bearer_request "aek_k-1_s3cret") "s3cret" (fun _ => Ret (writeHeader 204))) as H.
  destruct (run _ _ _) as [resp s] eqn:Hrun. destruct H as [H|H]; [|constructor|reflexivity|exact H|].
  - exists (ex_api_key (Some 3)). split; [reflexivity|by eexists].
  - exfalso. assert (rs_status (run (tenancy_sem no_env) (authMiddleware toy_IDKey ToyJwt.parse "key"
      (bearer_request "aek_k-1_s3cret") (fun _ => Ret (writeHeader 204))) ex_revoked).1 = 401) as Hc
      by (vm_compute; reflexivity).
    rewrite Hrun in Hc. simpl in Hc. rewrite H in Hc. discriminate Hc.
Defined.
