(* ===== verification/Workspaces.v ===== *)
(** * services/tenancy: workspaces and membership

    The handlers of [workspaces.go]. *)
From S2P Require Export ApiKeys MeteredQuota.
#[local] Open Scope Z_scope.

Definition workspace_json (ws : Workspace) (role : string) (active : bool) : json :=
  JObj ([("id", JStr (w_ID ws)); ("name", JStr (w_Name ws)); ("planTier", JStr (w_PlanTier ws));
         ("createdAt", JNum (w_CreatedAt ws))]
        ++ (if String.eqb role "" then [] else [("role", JStr role)])
        ++ [("active", JBool active)]).

Definition member_json (user email name role : string) (createdAt : time) : json :=
  JObj [("userId", JStr user); ("email", JStr email); ("name", JStr name); ("role", JStr role);
        ("createdAt", JNum createdAt)].

Definition user_json (u : User) : json :=
  JObj [("id", JStr (u_ID u)); ("email", JStr (u_Email u)); ("name", JStr (u_Name u))].

Section workspaces.
Context (NewWithClaims_SignedString : string -> jwt_claims -> string -> result string).
Context (tiers : TierConfig) (signer_key : string) (accessTokenTTL : duration).

(** [s.signer.Mint] with the current time: the token id is a fresh uuid. *)
Definition mint (userID workspaceID : string) (now : time) : prog tenE (result string) :=
  jti ← call NewString;
  Ret (Mint NewWithClaims_SignedString signer_key userID workspaceID now accessTokenTTL jti).

Definition expires_in : Z := Z.quot accessTokenTTL Second.

Definition handleMe (caller : option Identity) : prog tenE response :=
  requireUser caller (fun id =>
    user ← call (TStore (GetUser (id_UserID id)));
    match user with
    | Err _ => Ret internalError
    | Ok user =>
        let out := [("user", user_json user)] in
        m ← call (TStore (GetMembership (id_WorkspaceID id) (id_UserID id)));
        match m with
        | Err _ => Ret (writeJSON 200 (JObj out))
        | Ok m =>
            ws ← call (TStore (GetWorkspace (id_WorkspaceID id)));
            match ws with
            | Err _ => Ret (writeJSON 200 (JObj out))
            | Ok ws => Ret (writeJSON 200 (JObj (out ++ [("workspace", workspace_json ws (m_Role m) true)])))
            end
        end
    end).

Definition handleCreateWorkspace (caller : option Identity) (r : trequest) : prog tenE response :=
  requireUser caller (fun id =>
  decodeJSONBody r (tr_name r) (fun name =>
    let name := TrimSpace name in
    if String.eqb name "" || (128 <? slen name)
    then Ret (writeError 400 "invalid_name" "name is required and at most 128 characters")
    else
      wsID ← call NewString;
      now ← call TNow;
      let ws := {| w_ID := wsID; w_Name := name; w_PlanTier := DefaultTier tiers;
                   w_CreatedBy := id_UserID id; w_CreatedAt := now |} in
      created ← call (TStore (CreateWorkspace ws (id_UserID id)));
      match created with
      | Err _ => Ret internalError
      | Ok _ => Ret (writeJSON 201 (workspace_json ws RoleOwner false))
      end)).

Definition handleListWorkspaces (caller : option Identity) : prog tenE response :=
  requireUser caller (fun id =>
    user ← call (TStore (GetUser (id_UserID id)));
    match user with
    | Err _ => Ret internalError
    | Ok user =>
        list ← call (TStore (ListWorkspacesForUser (id_UserID id)));
        match list with
        | Err _ => Ret internalError
        | Ok list =>
            Ret (writeJSON 200 (JObj [("workspaces", JArr
              ((fun wr => workspace_json (wr_Workspace wr) (wr_Role wr)
                            (String.eqb (w_ID (wr_Workspace wr)) (u_ActiveWorkspaceID user))) <$> list))]))
        end
    end).

Definition handleActiveWorkspace (caller : option Identity) : prog tenE response :=
  requireUser caller (fun id =>
    m ← call (TStore (GetMembership (id_WorkspaceID id) (id_UserID id)));
    match m with
    | Err ENotFound => Ret (writeError 403 "not_a_member" "caller is no longer a member of the token workspace")
    | Err _ => Ret internalError
    | Ok m =>
        ws ← call (TStore (GetWorkspace (id_WorkspaceID id)));
        match ws with
        | Err _ => Ret internalError
        | Ok ws => Ret (writeJSON 200 (workspace_json ws (m_Role m) true))
        end
    end).

Definition handleSwitchWorkspace (caller : option Identity) (r : trequest) : prog tenE response :=
  requireUser caller (fun id =>
  decodeJSONBody r (tr_workspaceId r) (fun wsID =>
    if String.eqb wsID "" then Ret (writeError 400 "invalid_workspace_id" "workspaceId is required")
    else
      m ← call (TStore (GetMembership wsID (id_UserID id)));
      match m with
      | Err ENotFound => Ret (writeError 403 "not_a_member" "caller is not a member of that workspace")
      | Err _ => Ret internalError
      | Ok m =>
          set ← call (TStore (SetActiveWorkspace (id_UserID id) wsID));
          match set with
          | Err _ => Ret internalError
          | Ok _ =>
              now ← call TNow;
              access ← mint (id_UserID id) wsID now;
              match access with
              | Err _ => Ret internalError
              | Ok access =>
                  ws ← call (TStore (GetWorkspace wsID));
                  match ws with
                  | Err _ => Ret internalError
                  | Ok ws =>
                      Ret (writeJSON 200 (JObj [("accessToken", JStr access); ("tokenType", JStr "Bearer");
                             ("expiresIn", JNum expires_in);
                             ("workspace", workspace_json ws (m_Role m) true)]))
                  end
              end
          end
      end)).

Definition handleListMembers (caller : option Identity) (r : trequest) : prog tenE response :=
  requireUser caller (fun id =>
  requireRole (tr_id r) (id_UserID id) RoleMember (
    members ← call (TStore (ListMembers (tr_id r)));
    match members with
    | Err _ => Ret internalError
    | Ok members =>
        Ret (writeJSON 200 (JObj [("members", JArr
          ((fun m => member_json (m_UserID (mu_Membership m)) (mu_Email m) (mu_Name m)
                       (m_Role (mu_Membership m)) (m_CreatedAt (mu_Membership m))) <$> members))]))
    end)).

Definition handleAddMember (caller : option Identity) (r : trequest) : prog tenE response :=
  requireUser caller (fun id =>
  decodeJSONBody r (tr_member r) (fun '(email, role) =>
    let email := TrimSpace (ToLower email) in
    if String.eqb email "" || negb (Contains email "@")
    then Ret (writeError 400 "invalid_email" "a valid email is required")
    else if negb (validRole role)
    then Ret (writeError 400 "invalid_role" "role must be owner, admin, or member")
    else
      let minRole := if String.eqb role RoleMember then RoleAdmin else RoleOwner in
      requireRole (tr_id r) (id_UserID id) minRole (
        target ← call (TStore (GetUserByEmail email));
        match target with
        | Err ENotFound => Ret (writeError 404 "user_not_found" "no user with that email has signed in yet")
        | Err _ => Ret internalError
        | Ok target =>
            now ← call TNow;
            let m := {| m_WorkspaceID := tr_id r; m_UserID := u_ID target; m_Role := role; m_CreatedAt := now |} in
            added ← call (TStore (AddMember m));
            match added with
            | Err EDuplicate => Ret (writeError 409 "already_member" "user is already a member of this workspace")
            | Err _ => Ret internalError
            | Ok _ => Ret (writeJSON 201 (member_json (u_ID target) (u_Email target) (u_Name target) role now))
            end
        end))).

(** The last owner stays: [CountOwners] before a change that takes an owner away. *)
Definition keep_owner (wsID message : string) (k : prog tenE response) : prog tenE response :=
  owners ← call (TStore (CountOwners wsID));
  match owners with
  | Err _ => Ret internalError
  | Ok owners => if owners <=? 1 then Ret (writeError 409 "last_owner" message) else k
  end.

Definition update_role (wsID targetID role : string) : prog tenE response :=
  updated ← call (TStore (UpdateMemberRole wsID targetID role));
  match updated with
  | Err _ => Ret internalError
  | Ok _ => Ret (writeJSON 200 (JObj [("userId", JStr targetID); ("role", JStr role)]))
  end.

Definition handleUpdateMemberRole (caller : option Identity) (r : trequest) : prog tenE response :=
  requireUser caller (fun id =>
  requireRole (tr_id r) (id_UserID id) RoleOwner (
  decodeJSONBody r (tr_role r) (fun role =>
    if negb (validRole role)
    then Ret (writeError 400 "invalid_role" "role must be owner, admin, or member")
    else
      current ← call (TStore (GetMembership (tr_id r) (tr_userId r)));
      match current with
      | Err ENotFound => Ret (writeError 404 "member_not_found" "no such member in this workspace")
      | Err _ => Ret internalError
      | Ok current =>
          if String.eqb (m_Role current) RoleOwner && negb (String.eqb role RoleOwner)
          then keep_owner (tr_id r) "cannot demote the last owner" (update_role (tr_id r) (tr_userId r) role)
          else update_role (tr_id r) (tr_userId r) role
      end))).

Definition remove_member (wsID targetID : string) : prog tenE response :=
  removed ← call (TStore (RemoveMember wsID targetID));
  match removed with
  | Err _ => Ret internalError
  | Ok _ => Ret (writeHeader 204)
  end.

Definition handleRemoveMember (caller : option Identity) (r : trequest) : prog tenE response :=
  requireUser caller (fun id =>
    current ← call (TStore (GetMembership (tr_id r) (tr_userId r)));
    match current with
    | Err ENotFound => Ret (writeError 404 "member_not_found" "no such member in this workspace")
    | Err _ => Ret internalError
    | Ok current =>
        let minRole := if negb (String.eqb (tr_userId r) (id_UserID id))
                       then (if String.eqb (m_Role current) RoleMember then RoleAdmin else RoleOwner)
                       else RoleMember in
        requireRole (tr_id r) (id_UserID id) minRole (
          if String.eqb (m_Role current) RoleOwner
          then keep_owner (tr_id r) "cannot remove the last owner" (remove_member (tr_id r) (tr_userId r))
          else remove_member (tr_id r) (tr_userId r))
    end).
End workspaces.
