(* ===== verification/Oidc.v ===== *)
(** * services/tenancy: the OIDC client

    [oidc.go].  The issuer's endpoints are reached through [HttpDo]; the key cache,
    which its mutex guards, is read and written by [LoadKeys] and [StoreKeys].
    Decoding JSON and verifying a JWT with a given key ([encoding/json],
    golang-jwt) are functions of the section. *)
From S2P Require Export Tenancy.
#[local] Open Scope Z_scope.

(** ** net/url: [QueryEscape] and [Values.Encode] *)

Definition is_unreserved (c : ascii) : bool := is_alnum c || one_of "-_.~" c.

Definition upper_hex (n : Z) : ascii := if n <? 10 then char_of (48 + n) else char_of (55 + n).

Fixpoint QueryEscape (s : string) : string :=
  match s with
  | EmptyString => ""
  | String c s' =>
      (if is_unreserved c then String c ""
       else if Ascii.eqb c " " then "+"
       else String "%" (String (upper_hex (byte_of c / 16)) (String (upper_hex (byte_of c mod 16)) "")))
      +:+ QueryEscape s'
  end.

Definition key_le (a b : string * string) : Prop := String.leb a.1 b.1 = true.
#[export] Instance key_le_dec : RelDecision key_le.
Proof. intros a b. unfold key_le. apply _. Defined.

Definition Encode (vs : list (string * string)) : string :=
  GoLib.join "&" ((fun p => QueryEscape p.1 +:+ "=" +:+ QueryEscape p.2) <$> merge_sort key_le vs).

(** ** oidc.go *)

Record OIDCVerifiedIdentity := { vi_Subject : string; vi_Email : string; vi_Name : string }.

Record OIDCClient := {
  issuer : string; clientID : string; clientSecret : string; redirectURL : string;
  authorizationEndpoint : string; tokenEndpoint : string; jwksURI : string
}.

Definition jwksMaxAge : duration := 3600 * Second.

Record discoveryDoc := {
  dd_Issuer : string; dd_AuthorizationEndpoint : string; dd_TokenEndpoint : string; dd_JWKSURI : string
}.

Record jwk := { jwk_Kty : string; jwk_Kid : string; jwk_N : string; jwk_E : string }.

Record idTokenClaims := {
  ic_Nonce : string; ic_Email : string; ic_EmailVerified : bool; ic_Name : string; ic_Subject : string
}.

Record id_options := {
  io_Methods : list string; io_Now : time; io_ExpirationRequired : bool; io_Issuer : string; io_Audience : string
}.

(** [new(big.Int).SetBytes] *)
Fixpoint SetBytes (acc : Z) (s : string) : Z :=
  match s with EmptyString => acc | String c s' => SetBytes (acc * 256 + byte_of c) s' end.

(** The keys of a document: the first unusable RSA key is an error. *)
Fixpoint jwks_keys (l : list jwk) (keys : gmap string rsa_key) : result (gmap string rsa_key) :=
  match l with
  | [] => Ok keys
  | k :: l' =>
      if negb (String.eqb (jwk_Kty k) "RSA") || String.eqb (jwk_Kid k) "" then jwks_keys l' keys
      else match DecodeString (jwk_N k) with
      | None => Err (EMsg ("jwks: key " +:+ jwk_Kid k +:+ ": bad modulus"))
      | Some nBytes =>
      match DecodeString (jwk_E k) with
      | None => Err (EMsg ("jwks: key " +:+ jwk_Kid k +:+ ": bad exponent"))
      | Some eBytes =>
          let e := SetBytes 0 eBytes in
          if (max_i64 <? e) || (e <=? 1) || (2 ^ 31 <? e)
          then Err (EMsg ("jwks: key " +:+ jwk_Kid k +:+ ": exponent out of range"))
          else jwks_keys l' (<[jwk_Kid k := {| key_N := SetBytes 0 nBytes; key_E := e |}]> keys)
      end end
  end.

Section oidc.
Context (sha256 : string -> string).
(** [json.Decoder.Decode] of the first value of a stream, [json.Unmarshal]. *)
Context (decode_discovery : string * option gerror -> result discoveryDoc).
Context (decode_jwks : string * option gerror -> result (list jwk)).
Context (decode_id_token : string -> result string).
(** golang-jwt: the algorithm and [kid] of a token's header, and the claims of a token
    that verifies with a key under the options. *)
Context (jwt_header : string -> result (string * string)).
Context (jwt_verify : string -> rsa_key -> id_options -> result idTokenClaims).

Definition http_get (url : string) : http_request :=
  {| hr_Method := "GET"; hr_URL := url; hr_Header := []; hr_Body := "" |}.

Definition NewOIDCClient (iss client secret redirect : string) : prog tenE (result OIDCClient) :=
  let wellKnown := TrimSuffix iss "/" +:+ "/.well-known/openid-configuration" in
  resp ← call (HttpDo (http_get wellKnown));
  Ret (match resp with
       | Err e => Err e
       | Ok resp =>
           if negb (hp_Status resp =? 200)
           then Err (EMsg ("oidc discovery: " +:+ wellKnown +:+ " returned " +:+ itoa (hp_Status resp)))
           else match decode_discovery (read_limited (2 ^ 20) (hp_Body resp)) with
           | Err e => Err e
           | Ok doc =>
               if negb (String.eqb (dd_Issuer doc) (TrimSuffix iss "/")) && negb (String.eqb (dd_Issuer doc) iss)
               then Err (EMsg "oidc discovery: issuer mismatch")
               else if String.eqb (dd_AuthorizationEndpoint doc) "" || String.eqb (dd_TokenEndpoint doc) ""
                       || String.eqb (dd_JWKSURI doc) ""
               then Err (EMsg "oidc discovery: document missing required endpoints")
               else Ok {| issuer := dd_Issuer doc; clientID := client; clientSecret := secret;
                          redirectURL := redirect; authorizationEndpoint := dd_AuthorizationEndpoint doc;
                          tokenEndpoint := dd_TokenEndpoint doc; jwksURI := dd_JWKSURI doc |}
           end
       end).

Section client.
Context (c : OIDCClient).

Definition AuthCodeURL (state nonce pkceVerifier : string) : string :=
  let q := [("response_type", "code"); ("client_id", clientID c); ("redirect_uri", redirectURL c);
            ("scope", "openid email profile"); ("state", state); ("nonce", nonce);
            ("code_challenge", EncodeToString (sha256 pkceVerifier)); ("code_challenge_method", "S256")] in
  let sep := if Contains (authorizationEndpoint c) "?" then "&" else "?" in
  authorizationEndpoint c +:+ sep +:+ Encode q.

(** The request that redeems the code. *)
Definition exchange_request (code pkceVerifier : string) : http_request :=
  let form := [("grant_type", "authorization_code"); ("code", code); ("client_id", clientID c);
               ("client_secret", clientSecret c); ("redirect_uri", redirectURL c);
               ("code_verifier", pkceVerifier)] in
  {| hr_Method := "POST"; hr_URL := tokenEndpoint c;
     hr_Header := [("Content-Type", "application/x-www-form-urlencoded")]; hr_Body := Encode form |}.

Definition Exchange (code pkceVerifier : string) : prog tenE (result string) :=
  resp ← call (HttpDo (exchange_request code pkceVerifier));
  Ret (match resp with
       | Err e => Err e
       | Ok resp =>
           match read_limited (2 ^ 20) (hp_Body resp) with
           | (_, Some e) => Err e
           | (body, None) =>
               if negb (hp_Status resp =? 200)
               then Err (EMsg ("oidc exchange: token endpoint returned " +:+ itoa (hp_Status resp)))
               else match decode_id_token body with
                    | Err e => Err e
                    | Ok t => if String.eqb t "" then Err (EMsg "oidc exchange: response carries no id_token")
                              else Ok t
                    end
           end
       end).

Definition fetchJWKS : prog tenE (result ()) :=
  resp ← call (HttpDo (http_get (jwksURI c)));
  match resp with
  | Err e => Ret (Err e)
  | Ok resp =>
      if negb (hp_Status resp =? 200)
      then Ret (Err (EMsg ("jwks: " +:+ jwksURI c +:+ " returned " +:+ itoa (hp_Status resp))))
      else match decode_jwks (read_limited (2 ^ 20) (hp_Body resp)) with
      | Err e => Ret (Err e)
      | Ok doc =>
          match jwks_keys doc ∅ with
          | Err e => Ret (Err e)
          | Ok keys =>
              if bool_decide (keys = ∅) then Ret (Err (EMsg "jwks: document carries no usable RSA keys"))
              else
                now ← call TNow;
                _ ← call (StoreKeys keys now);
                Ret (Ok ())
          end
      end
  end.

Definition keyForKid (kid : string) : prog tenE (result rsa_key) :=
  cached ← call LoadKeys;
  now ← call TNow;
  let refetch :=
    fetched ← fetchJWKS;
    match fetched with
    | Err e => Ret (Err e)
    | Ok _ =>
        cached ← call LoadKeys;
        Ret (match cached.1 !! kid with
             | None => Err (EMsg ("jwks: no key with kid " +:+ kid))
             | Some key => Ok key
             end)
    end in
  match cached.1 !! kid with
  | Some key => if jwksMaxAge <? now - cached.2 then refetch else Ret (Ok key)
  | None => refetch
  end.

Definition id_token_options (now : time) : id_options :=
  {| io_Methods := ["RS256"]; io_Now := now; io_ExpirationRequired := true; io_Issuer := issuer c;
     io_Audience := clientID c |}.

(** The checks on the claims of a verified token. *)
Definition verified_identity (claims : idTokenClaims) (expectedNonce : string) : result OIDCVerifiedIdentity :=
  if String.eqb (ic_Nonce claims) "" || negb (String.eqb (ic_Nonce claims) expectedNonce)
  then Err (EMsg "id token: nonce mismatch")
  else if String.eqb (ic_Subject claims) "" then Err (EMsg "id token: missing sub")
  else if String.eqb (ic_Email claims) "" || negb (ic_EmailVerified claims)
  then Err (EMsg "id token: email missing or unverified")
  else Ok {| vi_Subject := ic_Subject claims; vi_Email := ic_Email claims;
             vi_Name := if String.eqb (ic_Name claims) "" then ic_Email claims else ic_Name claims |}.

(** golang-jwt parses the header, refuses other methods, asks the key function for the
    key, and verifies. *)
Definition VerifyIDToken (rawToken expectedNonce : string) (now : time)
    : prog tenE (result OIDCVerifiedIdentity) :=
  match jwt_header rawToken with
  | Err e => Ret (Err e)
  | Ok (alg, kid) =>
      if negb (String.eqb alg "RS256") then Ret (Err (EMsg ("unexpected signing method " +:+ alg)))
      else
        key ← keyForKid kid;
        Ret (match key with
             | Err e => Err e
             | Ok key =>
                 match jwt_verify rawToken key (id_token_options now) with
                 | Err e => Err e
                 | Ok claims => verified_identity claims expectedNonce
                 end
             end)
  end.
End client.
End oidc.
