(* ===== verification/AuthFlow.v ===== *)
(** * services/tenancy: login, refresh, logout and the API key exchange

    The handlers of [authflow.go].  They set the refresh cookie, so they return a
    [treply]. *)
From S2P Require Export Workspaces Oidc.
#[local] Open Scope Z_scope.

Definition loginStateTTL : duration := 600 * Second.

(** What [issueSession] returns. *)
Record sessionResponse := {
  sr_AccessToken : string; sr_ExpiresIn : Z; sr_RefreshToken : string; sr_User : User;
  sr_ActiveWorkspaceID : string
}.

Definition session_json (s : sessionResponse) : json :=
  JObj ([("accessToken", JStr (sr_AccessToken s)); ("tokenType", JStr "Bearer");
         ("expiresIn", JNum (sr_ExpiresIn s))]
        ++ (if String.eqb (sr_RefreshToken s) "" then [] else [("refreshToken", JStr (sr_RefreshToken s))])
        ++ [("user", user_json (sr_User s)); ("activeWorkspaceId", JStr (sr_ActiveWorkspaceID s))]).

Definition set_active (u : User) (ws : string) : User := with_active u ws.

(** A bound and the request's body, decoded when it is not blank: whether there was one. *)
Definition readOptionalJSONBody {A} (r : trequest) (body : result A) : response + option A :=
  match tr_raw r with
  | Err _ => inl (writeError 400 "invalid_body" "request body unreadable or too large")
  | Ok raw =>
      if slen (TrimSpace raw) =? 0 then inr None
      else match body with
      | Err _ => inl (writeError 400 "invalid_body" "request body must be valid JSON with known fields only")
      | Ok v =>
          if tr_single r then inr (Some v)
          else inl (writeError 400 "invalid_body" "request body must contain a single JSON object")
      end
  end.

Definition takeRefreshToken (r : trequest) : response + string :=
  let cookie_token :=
    match tr_Cookie r with
    | Some v => if String.eqb v "" then None else Some v
    | None => None
    end in
  let fallback :=
    match cookie_token with
    | Some v => inr v
    | None => inl (writeError 400 "missing_refresh_token" "refresh token required in body or cookie")
    end in
  match readOptionalJSONBody r (tr_refreshToken r) with
  | inl resp => inl resp
  | inr (Some v) => if String.eqb v "" then fallback else inr v
  | inr None => fallback
  end.

(** [strings.IndexByte(email, '@') > 0] and the part before it. *)
Definition local_part (email : string) : option string :=
  match Cut email "@" with
  | Some (a, _) => if String.eqb a "" then None else Some a
  | None => None
  end.

(** [%q] on ASCII; other bytes are kept. *)
Definition quote_char (c : ascii) : string :=
  let n := nat_of_ascii c in
  let esc (x : ascii) := String "\" (String x "") in
  if (n =? 34)%nat || Ascii.eqb c "\" then esc c
  else if (n =? 7)%nat then esc "a"%char else if (n =? 8)%nat then esc "b"%char else if (n =? 12)%nat then esc "f"%char
  else if (n =? 10)%nat then esc "n"%char else if (n =? 13)%nat then esc "r"%char else if (n =? 9)%nat then esc "t"%char
  else if (n =? 11)%nat then esc "v"%char
  else if (n <? 32)%nat || (n =? 127)%nat
  then String "\" (String "x" (String (hex_digit (byte_of c / 16)) (String (hex_digit (byte_of c mod 16)) "")))
  else String c "".

Definition Quote (s : string) : string :=
  let q := String (ascii_of_nat 34) "" in
  q +:+ String.concat "" (quote_char <$> list_ascii_of_string s) +:+ q.

Section authflow.
Context (sha256 : string -> string).
Context (IDKey : string -> string -> Z -> Z -> Z -> Z -> string).
Context (decode_jwks : string * option gerror -> result (list jwk)).
Context (decode_id_token : string -> result string).
Context (jwt_header : string -> result (string * string)).
Context (jwt_verify : string -> rsa_key -> id_options -> result idTokenClaims).
Context (NewWithClaims_SignedString : string -> jwt_claims -> string -> result string).
Context (tiers : TierConfig) (oidc : OIDCClient) (signer_key : string).
Context (accessTokenTTL refreshTokenTTL : duration) (cookieSecure : bool).

Definition setRefreshCookie (value : string) (expires : time) (resp : response) : treply :=
  {| rp_response := resp;
     rp_cookie := Some {| ck_Value := value; ck_Expires := expires; ck_Secure := cookieSecure |} |}.

Definition failed : prog tenE treply := Ret (plain internalError).

(** [http.Redirect] with 302; the link in its HTML body repeats the location. *)
Definition redirect (url : string) : treply :=
  plain {| rs_status := 302; rs_headers := [("Location", url)]; rs_body := None |}.

Definition handleLogin : prog tenE treply :=
  state ← newOpaqueToken 32;
  match state with
  | Err _ => failed
  | Ok state =>
  nonce ← newOpaqueToken 32;
  match nonce with
  | Err _ => failed
  | Ok nonce =>
  verifier ← newOpaqueToken 48;
  match verifier with
  | Err _ => failed
  | Ok verifier =>
  now ← call TNow;
  saved ← call (TStore (SaveLoginState {| ls_State := state; ls_Nonce := nonce; ls_PKCEVerifier := verifier;
                                          ls_CreatedAt := now; ls_ExpiresAt := now + loginStateTTL |}));
  match saved with
  | Err _ => failed
  | Ok _ => Ret (redirect (AuthCodeURL sha256 oidc state nonce verifier))
  end end end end.

Definition bootstrapWorkspace (user : User) : prog tenE (result Workspace) :=
  let name := match local_part (u_Email user) with
              | Some local => if String.eqb (u_Name user) (u_Email user) then local else u_Name user
              | None => u_Name user
              end in
  wsID ← call NewString;
  now ← call TNow;
  let ws := {| w_ID := wsID; w_Name := name +:+ "'s workspace"; w_PlanTier := DefaultTier tiers;
               w_CreatedBy := u_ID user; w_CreatedAt := now |} in
  created ← call (TStore (CreateWorkspace ws (u_ID user)));
  match created with
  | Err e => Ret (Err e)
  | Ok _ =>
      set ← call (TStore (SetActiveWorkspace (u_ID user) (w_ID ws)));
      Ret (match set with Err e => Err e | Ok _ => Ok ws end)
  end.

Definition new_refresh (user : User) (familyID id raw : string) (now : time) : RefreshToken :=
  {| rt_ID := id; rt_UserID := u_ID user; rt_FamilyID := familyID; rt_TokenHash := hashOpaqueToken sha256 raw;
     rt_CreatedAt := now; rt_ExpiresAt := now + refreshTokenTTL; rt_UsedAt := None; rt_RevokedAt := None |}.

Definition issueSession (user : User) (familyID : string) : prog tenE (result sessionResponse) :=
  now ← call TNow;
  if String.eqb (u_ActiveWorkspaceID user) ""
  then Ret (Err (EMsg ("user " +:+ u_ID user +:+ " has no active workspace")))
  else
    m ← call (TStore (GetMembership (u_ActiveWorkspaceID user) (u_ID user)));
    match m with
    | Err e => Ret (Err e)
    | Ok _ =>
    access ← mint NewWithClaims_SignedString signer_key accessTokenTTL (u_ID user) (u_ActiveWorkspaceID user) now;
    match access with
    | Err e => Ret (Err e)
    | Ok access =>
    raw ← newOpaqueToken 32;
    match raw with
    | Err e => Ret (Err e)
    | Ok raw =>
    familyID ← (if String.eqb familyID "" then call NewString else Ret familyID);
    id ← call NewString;
    created ← call (TStore (CreateRefreshToken (new_refresh user familyID id raw now)));
    Ret (match created with
         | Err e => Err e
         | Ok _ => Ok {| sr_AccessToken := access; sr_ExpiresIn := Z.quot accessTokenTTL Second;
                         sr_RefreshToken := raw; sr_User := user;
                         sr_ActiveWorkspaceID := u_ActiveWorkspaceID user |}
         end)
    end end end.

(** The end of a login or a refresh. *)
Definition answer_session (issued : result sessionResponse) (now : time) : prog tenE treply :=
  match issued with
  | Err _ => failed
  | Ok s => Ret (setRefreshCookie (sr_RefreshToken s) (now + refreshTokenTTL) (writeJSON 200 (session_json s)))
  end.

(** The user's first login creates a workspace. *)
Definition login_user (user : User) (now : time) : prog tenE treply :=
  user ← (if String.eqb (u_ActiveWorkspaceID user) "" then
            ws ← bootstrapWorkspace user;
            Ret (match ws with Err e => Err e | Ok ws => Ok (set_active user (w_ID ws)) end)
          else Ret (Ok user));
  match user with
  | Err _ => failed
  | Ok user => issued ← issueSession user ""; answer_session issued now
  end.

Definition handleCallback (r : trequest) : prog tenE treply :=
  if negb (String.eqb (tr_error r) "")
  then Ret (plain (writeError 400 "oidc_error" ("identity provider returned error " +:+ Quote (tr_error r))))
  else if String.eqb (tr_state r) "" || String.eqb (tr_code r) ""
  then Ret (plain (writeError 400 "invalid_callback" "state and code are required"))
  else
    now ← call TNow;
    ls ← call (TStore (TakeLoginState (tr_state r) now));
    match ls with
    | Err ENotFound => Ret (plain (writeError 400 "invalid_state" "unknown, expired, or already used state"))
    | Err _ => failed
    | Ok ls =>
    rawIDToken ← Exchange decode_id_token oidc (tr_code r) (ls_PKCEVerifier ls);
    match rawIDToken with
    | Err _ => Ret (plain (writeError 401 "oidc_exchange_failed" "authorization code exchange failed"))
    | Ok rawIDToken =>
    verified ← VerifyIDToken decode_jwks jwt_header jwt_verify oidc rawIDToken (ls_Nonce ls) now;
    match verified with
    | Err _ => Ret (plain (writeError 401 "oidc_token_invalid" "id token verification failed"))
    | Ok verified =>
    user ← call (TStore (UpsertUserByGoogleSub (vi_Subject verified) (vi_Email verified) (vi_Name verified) now));
    match user with
    | Err _ => failed
    | Ok user => login_user user now
    end end end end.

(** An unused, live token: it is spent, and a new one of its family issued. *)
Definition rotate (rt : RefreshToken) (now : time) : prog tenE treply :=
  marked ← call (TStore (MarkRefreshTokenUsed (rt_ID rt) now));
  match marked with
  | Err _ => failed
  | Ok _ =>
      user ← call (TStore (GetUser (rt_UserID rt)));
      match user with
      | Err _ => failed
      | Ok user => issued ← issueSession user (rt_FamilyID rt); answer_session issued now
      end
  end.

Definition handleRefresh (r : trequest) : prog tenE treply :=
  match takeRefreshToken r with
  | inl resp => Ret (plain resp)
  | inr raw =>
      now ← call TNow;
      rt ← call (TStore (GetRefreshTokenByHash (hashOpaqueToken sha256 raw)));
      match rt with
      | Err ENotFound => Ret (plain (writeError 401 "invalid_refresh_token" "unknown refresh token"))
      | Err _ => failed
      | Ok rt =>
          if rt_RevokedAt rt is Some _
          then Ret (plain (writeError 401 "refresh_revoked" "refresh token has been revoked"))
          else if rt_UsedAt rt is Some _ then
            revoked ← call (TStore (RevokeRefreshFamily (rt_FamilyID rt) now));
            match revoked with
            | Err _ => failed
            | Ok _ => Ret (plain (writeError 401 "refresh_reused" "refresh token reuse detected; session revoked"))
            end
          else if rt_ExpiresAt rt <? now
          then Ret (plain (writeError 401 "refresh_expired" "refresh token expired"))
          else rotate rt now
      end
  end.

Definition handleLogout (r : trequest) : prog tenE treply :=
  match takeRefreshToken r with
  | inl resp => Ret (plain resp)
  | inr raw =>
      rt ← call (TStore (GetRefreshTokenByHash (hashOpaqueToken sha256 raw)));
      match rt with
      | Err ENotFound => Ret (setRefreshCookie "" 0 (writeHeader 204))
      | Err _ => failed
      | Ok rt =>
          now ← call TNow;
          revoked ← call (TStore (RevokeRefreshFamily (rt_FamilyID rt) now));
          match revoked with
          | Err _ => failed
          | Ok _ => Ret (setRefreshCookie "" 0 (writeHeader 204))
          end
      end
  end.

(** An API key for an access token of its workspace. *)
Definition exchange_key (raw : string) : prog tenE treply :=
  if String.eqb raw ""
  then Ret (plain (writeError 400 "missing_api_key" "api key required in X-API-Key header or body"))
  else
    key ← verifyAPIKeyString IDKey raw;
    match key with
    | Err ENotFound => Ret (plain (writeError 401 "unauthorized" "invalid api key"))
    | Err _ => failed
    | Ok key =>
        now ← call TNow;
        access ← mint NewWithClaims_SignedString signer_key accessTokenTTL (apiKeyUserPrefix +:+ k_ID key)
                   (k_WorkspaceID key) now;
        match access with
        | Err _ => failed
        | Ok access =>
            Ret (plain (writeJSON 200 (JObj [("accessToken", JStr access); ("tokenType", JStr "Bearer");
                   ("expiresIn", JNum (Z.quot accessTokenTTL Second));
                   ("workspaceId", JStr (k_WorkspaceID key))])))
        end
    end.

Definition handleAPIKeyToken (r : trequest) : prog tenE treply :=
  if negb (String.eqb (tr_XAPIKey r) "") then exchange_key (tr_XAPIKey r)
  else match readOptionalJSONBody r (tr_apiKey r) with
       | inl resp => Ret (plain resp)
       | inr body => exchange_key (default "" body)
       end.
End authflow.
