(* ===== verification/TenancyServer.v ===== *)
(** * services/tenancy: the routes

    [Routes] of [server.go]: the API group behind the bearer middleware, the internal
    group behind the shared token, and the endpoints that authenticate by
    themselves; the request logger around them is in Web.v. *)
From S2P Require Export AuthFlow Metering.
#[local] Open Scope Z_scope.

Inductive api_route :=
| RMe | RCreateWorkspace | RListWorkspaces | RActiveWorkspace | RSwitchWorkspace
| RListMembers | RAddMember | RUpdateMemberRole | RRemoveMember
| RCreateAPIKey | RListAPIKeys | RRevokeAPIKey | RUsage.

#[export] Instance api_route_eq_dec : EqDecision api_route.
Proof. solve_decision. Defined.

Inductive troute :=
| RApi (rt : api_route)
| RLogin | RCallback | RRefresh | RLogout | RToken
| RQuotaUpload | RQuotaJob
| RHealthz.

(** What the service is built from ([NewServer]) and the libraries it calls. *)
Record libraries := {
  l_sha256 : string -> string;
  l_IDKey : string -> string -> Z -> Z -> Z -> Z -> string;
  l_decode_jwks : string * option gerror -> result (list jwk);
  l_decode_id_token : string -> result string;
  l_jwt_header : string -> result (string * string);
  l_jwt_verify : string -> rsa_key -> id_options -> result idTokenClaims;
  l_ParseWithClaims : string -> keyfunc -> parse_options -> result jwt_claims;
  l_SignedString : string -> jwt_claims -> string -> result string
}.

Record Server := {
  srv_tiers : TierConfig; srv_oidc : OIDCClient; srv_signer : string; srv_accessTokenTTL : duration;
  srv_refreshTokenTTL : duration; srv_internalToken : string; srv_cookieSecure : bool
}.

Section server.
Context (lib : libraries) (s : Server).

Definition api_handler (rt : api_route) (caller : option Identity) (r : trequest) : prog tenE response :=
  match rt with
  | RMe => handleMe caller
  | RCreateWorkspace => handleCreateWorkspace (srv_tiers s) caller r
  | RListWorkspaces => handleListWorkspaces caller
  | RActiveWorkspace => handleActiveWorkspace caller
  | RSwitchWorkspace =>
      handleSwitchWorkspace (l_SignedString lib) (srv_signer s) (srv_accessTokenTTL s) caller r
  | RListMembers => handleListMembers caller r
  | RAddMember => handleAddMember caller r
  | RUpdateMemberRole => handleUpdateMemberRole caller r
  | RRemoveMember => handleRemoveMember caller r
  | RCreateAPIKey => handleCreateAPIKey (l_IDKey lib) caller r
  | RListAPIKeys => handleListAPIKeys caller
  | RRevokeAPIKey => handleRevokeAPIKey caller r
  | RUsage => handleUsage (srv_tiers s) caller
  end.

Definition as_reply (p : prog tenE response) : prog tenE treply := resp ← p; Ret (plain resp).

Definition serve (rt : troute) (r : trequest) : prog tenE treply :=
  match rt with
  | RApi rt => as_reply (authMiddleware (l_IDKey lib) (l_ParseWithClaims lib) (srv_signer s) r
                           (fun id => api_handler rt (Some id) r))
  | RLogin => handleLogin (l_sha256 lib) (srv_oidc s)
  | RCallback => handleCallback (l_sha256 lib) (l_decode_jwks lib) (l_decode_id_token lib) (l_jwt_header lib)
      (l_jwt_verify lib) (l_SignedString lib) (srv_tiers s) (srv_oidc s) (srv_signer s) (srv_accessTokenTTL s)
      (srv_refreshTokenTTL s) (srv_cookieSecure s) r
  | RRefresh => handleRefresh (l_sha256 lib) (l_SignedString lib) (srv_signer s) (srv_accessTokenTTL s)
      (srv_refreshTokenTTL s) (srv_cookieSecure s) r
  | RLogout => handleLogout (l_sha256 lib) (srv_cookieSecure s) r
  | RToken => handleAPIKeyToken (l_IDKey lib) (l_SignedString lib) (srv_signer s) (srv_accessTokenTTL s) r
  | RQuotaUpload => as_reply (internalAuthMiddleware (srv_internalToken s) r (handleQuotaCheckUpload (srv_tiers s) r))
  | RQuotaJob => as_reply (internalAuthMiddleware (srv_internalToken s) r (handleQuotaCheckJob (srv_tiers s) r))
  | RHealthz => Ret (plain (writeJSON 200 (JObj [("status", JStr "ok")])))
  end.
End server.
