(* ===== verification/TenancyProofs.v ===== *)
(** * services/tenancy: who may change what

    The schema's invariants, role-gated access to workspaces, and what keeps a
    workspace owned. *)
From S2P Require Export TenancyServer.
#[local] Open Scope Z_scope.

(** ** The schema *)

Lemma world_wf {V} (env : tenancy_env V) X (e : tenE X) w :
  tdb_wf (tw_db w.1) -> tdb_wf (tw_db (tenancy_sem env _ e w).2.1).
Proof.
  assert (Reflexive (fun d d' => tdb_wf d -> tdb_wf d')) by (by intros ?).
  apply (tenancy_sem_rel env (fun d d' => tdb_wf d -> tdb_wf d') (fun _ _ => True)).
  - intros Y e' d now uid _. apply statement_wf.
  - by destruct e.
Qed.

(** What the schema gives every handler.  Any requests of any routes, interleaved at
    every call, with store faults and lost replies, leave rows under their ids, one user
    per Google subject and per email (whatever its case), memberships with a known role
    of existing users in existing workspaces, refresh tokens of existing users with
    distinct hashes, API keys of existing workspaces, and rollups under their workspace
    and month: the constraints of the statements themselves, whoever sends them. *)
Theorem tenancy_tables_well_formed {V} (env : tenancy_env V) lib s (reqs : list (troute * trequest)) w ps w' :
  tdb_wf (tw_db w.1) ->
  rtc (pool_step (tenancy_sem env)) ((fun q => serve lib s q.1 q.2) <$> reqs, w) (ps, w') ->
  tdb_wf (tw_db w'.1).
Proof.
  intros Hwf Hr.
  exact (pool_preorder (tenancy_sem env) (fun w w' => tdb_wf (tw_db w.1) -> tdb_wf (tw_db w'.1))
           (fun X e v => world_wf env X e v) _ _ Hr Hwf).
Qed.

(** ** Access control *)

Definition human (id : Identity) : Prop := HasPrefix (id_UserID id) apiKeyUserPrefix = false.

(** The caller was seen to hold at least this rank in the workspace. *)
Definition role_at_least (ws user : string) (rank : Z) (past : list (event tenE)) : Prop :=
  exists m, Ev (TStore (GetMembership ws user)) (Ok m) ∈ past /\ rank <= roleRank (m_Role m).

(** What must have been seen before a statement that changes the tables. *)
Definition authorized_write (id : Identity) (past : list (event tenE)) (Y : Type) (e : tstoreE Y) : Prop :=
  let caller := id_UserID id in
  match e with
  | AddMember m =>
      human id /\ validRole (m_Role m) = true /\
      role_at_least (m_WorkspaceID m) caller (if String.eqb (m_Role m) RoleMember then 2 else 3) past
  | UpdateMemberRole ws _ role => human id /\ validRole role = true /\ role_at_least ws caller 3 past
  | RemoveMember ws user =>
      human id /\ exists current, Ev (TStore (GetMembership ws user)) (Ok current) ∈ past /\
        role_at_least ws caller
          (if String.eqb user caller then 1 else if String.eqb (m_Role current) RoleMember then 2 else 3) past
  | CreateAPIKey k =>
      human id /\ k_WorkspaceID k = id_WorkspaceID id /\ k_CreatedBy k = caller /\
      role_at_least (k_WorkspaceID k) caller 2 past
  | RevokeAPIKey ws _ _ => human id /\ ws = id_WorkspaceID id /\ role_at_least ws caller 2 past
  | CreateWorkspace ws owner => human id /\ owner = caller /\ w_CreatedBy ws = caller
  | SetActiveWorkspace user ws =>
      human id /\ user = caller /\ exists m, Ev (TStore (GetMembership ws caller)) (Ok m) ∈ past
  | GetUser _ | GetUserByEmail _ | GetWorkspace _ | ListWorkspacesForUser _ | GetMembership _ _
  | ListMembers _ | CountOwners _ | ListAPIKeys _ | GetRollup _ _ | SumStorageBytes _ => True
  | _ => False
  end.

Definition authorized (id : Identity) (past : list (event tenE)) (ev : event tenE) : Prop :=
  match ev with
  | Ev e _ => match e with TStore e' => authorized_write id past _ e' | _ => True end
  end.

Ltac in_past := simpl; repeat first [apply list_elem_of_here | apply list_elem_of_further].

Lemma ranks : roleRank RoleOwner = 3 /\ roleRank RoleAdmin = 2 /\ roleRank RoleMember = 1.
Proof. done. Qed.

Ltac rank_tac :=
  destruct ranks as (? & ? & ?); bool_prop; cbn [m_Role m_WorkspaceID k_WorkspaceID] in *;
  repeat match goal with
  | |- validRole _ = true => assumption
  | |- role_at_least _ _ _ _ => eexists; split; [in_past|]
  | |- exists m, Ev _ (Ok m) ∈ _ /\ _ => eexists; split; [in_past|]
  | |- exists m, Ev _ (Ok m) ∈ _ => eexists; in_past
  end; repeat case_match; simplify_eq/=; bool_prop; try congruence; try lia.

Ltac access_tac :=
  repeat first
    [ steps_step
    | exact I
    | match goal with
      | |- steps _ _ _ _ (mbind _ (mbind _ _)) => apply steps_bind
      | |- authorized _ _ (Ev (TStore _) _) => cbn [authorized authorized_write]
      | |- authorized _ _ (Ev _ _) => exact I
      end
    | progress cbv beta ].

Section access.
Context (lib : libraries) (s : Server).

Lemma access_api id r rt :
  steps (fun _ => True) (authorized id) (fun _ _ => True) [] (api_handler lib s rt (Some id) r).
Proof.
  destruct rt; unfold api_handler;
  unfold handleMe, handleCreateWorkspace, handleListWorkspaces, handleActiveWorkspace, handleSwitchWorkspace,
    handleListMembers, handleAddMember, handleUpdateMemberRole, handleRemoveMember, handleCreateAPIKey,
    handleListAPIKeys, handleRevokeAPIKey, handleUsage;
  unfold requireUser; unfold requireIdentity; unfold requireRole, decodeJSONBody, usage_of, keep_owner,
    update_role, remove_member, mint, mintAPIKey, newOpaqueToken, hashAPIKeySecret; access_tac.
  all: try split_and!; try done. all: try rank_tac.
Qed.

(** C7: no change without the role for it.  In every run of every API handler for an
    authenticated caller, each statement that changes the tables is one the caller
    may make, as seen earlier in the same request: members are added, changed and
    removed, and API keys created and revoked, only by human callers who hold a
    sufficient role in that very workspace (an admin for plain members and for keys,
    an owner for anything that makes, changes or removes an admin or an owner;
    everyone may leave); workspaces are created for the caller, and only the
    caller's own active workspace changes, to one the caller is a member of. *)
Theorem changes_are_authorized rt id r tr resp :
  exec (api_handler lib s rt (Some id) r) tr resp ->
  forall t1 Y (e : tstoreE Y) x t2, tr = t1 ++ Ev (TStore e) x :: t2 -> authorized_write id t1 _ e.
Proof.
  intros H t1 Y e x t2 Htr.
  destruct (steps_exec _ _ _ _ _ _ _ (access_api id r rt) H (Forall_True _)) as [_ Ha].
  exact (Ha _ _ _ Htr).
Qed.
End access.

(** ** Specification runs on the tables *)

(** A call to the store has an outcome its specification allows; any other call
    answers anything. *)
Definition tenancy_nsem : nsem tenE tdb := fun X e d x d' =>
  match e in tenE X return X -> Prop with
  | TStore e' => fun x => tstore_spec e' d x d'
  | _ => fun _ => d' = d
  end x.

Lemma tenancy_run_nrun {V A} (env : tenancy_env V) (p : prog tenE A) w :
  nrun tenancy_nsem p (tw_db w.1) (run (tenancy_sem env) p w).1 (tw_db (run (tenancy_sem env) p w).2.1).
Proof.
  assert (Hstep : forall X (e : tenE X) c d, d = tw_db c.1 ->
    exists d', tenancy_nsem X e d (tenancy_sem env X e c).1 d' /\ d' = tw_db (tenancy_sem env X e c).2.1).
  { intros X e c d ->. exists (tw_db (tenancy_sem env X e c).2.1). split; [|done].
    destruct e; simpl; try (by destruct (env _ _ _ _)).
    pose proof (tstore_exec_spec e c.1) as H. by destruct (tstore_exec e c.1). }
  by destruct (run_nrun _ _ _ Hstep p w _ eq_refl) as (d' & Hn & ->).
Qed.

Lemma spec_read {Y} (e : tstoreE Y) d x d' :
  reads e -> tstore_spec e d x d' -> d' = d /\
    match x with Ok y => exists now uid, (tstore_apply now uid e d).1 = Ok y | Err _ => True end.
Proof.
  intros He (now & uid & Hs). pose proof (He now uid d) as Hd.
  destruct Hs as [Hs|(er & -> & [-> | ->])]; [|done|done].
  rewrite <-Hs in Hd. simpl in Hd. split; [done|]. destruct x; [|done]. exists now, uid. by rewrite <-Hs.
Qed.

Lemma spec_rel {Y} (R : tdb -> tdb -> Prop) `{!Reflexive R} (e : tstoreE Y) d x d' :
  (forall now uid, R d (tstore_apply now uid e d).2) -> tstore_spec e d x d' -> R d d'.
Proof. intros HR (now & uid & Hs). by eapply up_to_fault_rel; [|apply HR|exact Hs]. Qed.

(** ** A workspace keeps an owner *)

Definition has_owner (ws : string) (d : tdb) : Prop :=
  exists user m, memberships d !! (ws, user) = Some m /\ m_Role m = RoleOwner.

(** Statements that never take an owner away. *)
Definition owner_safe (Y : Type) (e : tstoreE Y) : Prop :=
  match e with UpdateMemberRole _ _ role => role = RoleOwner | RemoveMember _ _ => False | _ => True end.

Lemma owner_insert ws key m d :
  has_owner ws d -> (forall old, memberships d !! key = Some old -> m_Role old = RoleOwner -> m_Role m = RoleOwner) ->
  has_owner ws (set_memberships d (<[key := m]> (memberships d))).
Proof.
  intros (u & o & Ho & Hr) Hm. destruct (decide (key = (ws, u))) as [->|Hne].
  - exists u, m. simpl. rewrite lookup_insert_eq. split; [done|]. by eapply Hm.
  - exists u, o. simpl. by rewrite lookup_insert_ne.
Qed.

Lemma statement_owner_safe ws now uid {Y} (e : tstoreE Y) d :
  owner_safe _ e -> has_owner ws d -> has_owner ws (tstore_apply now uid e d).2.
Proof.
  intros He Hd. destruct e; simpl in *; try done;
    unfold pg_SaveLoginState, pg_TakeLoginState, pg_UpsertUserByGoogleSub, pg_SetActiveWorkspace,
      pg_CreateRefreshToken, pg_MarkRefreshTokenUsed, pg_RevokeRefreshFamily, pg_ApplyMetering,
      pg_CreateAPIKey, pg_RevokeAPIKey, pg_TouchAPIKey;
    try (repeat case_match; exact Hd).
  - unfold pg_CreateWorkspace. destruct (negb _); [done|]. destruct (negb _); [done|].
    destruct (_ && _) eqn:Hg; [|done]. guards.
    refine (owner_insert ws _ _ (set_workspaces d (<[w_ID ws0:=ws0]> (workspaces d))) Hd _).
    intros old Hold. simpl in Hold. congruence.
  - unfold pg_AddMember. destruct (negb _); [done|]. destruct (new_key _ _) eqn:Hf; [|done]. cbn [negb].
    destruct (_ && _); [|done]. guards. apply owner_insert; [exact Hd|]. intros old Hold. congruence.
  - unfold pg_UpdateMemberRole. destruct (memberships d !! _) as [m|] eqn:Hm; [|done].
    subst role. by apply owner_insert.
Qed.

(** With more than one owner, changing one member leaves another. *)
Lemma two_owners ws user d :
  tdb_wf d -> 1 < pg_CountOwners ws d ->
  exists u m, u <> user /\ memberships d !! (ws, u) = Some m /\ m_Role m = RoleOwner.
Proof.
  intros Hwf. unfold pg_CountOwners, owners. intros Hc.
  assert (Hnd : NoDup (filter (fun m => m_WorkspaceID m = ws /\ m_Role m = RoleOwner) (rows (memberships d)))).
  { apply NoDup_filter. apply NoDup_alt. intros i j m Hi Hj. unfold rows in *.
    rewrite list_lookup_fmap in Hi, Hj.
    destruct (map_to_list _ !! i) as [[k1 m1]|] eqn:H1; [|done]. destruct (map_to_list _ !! j) as [[k2 m2]|] eqn:H2; [|done].
    simplify_eq/=. assert (k1 = k2).
    { apply list_elem_of_lookup_2, elem_of_map_to_list in H1, H2. destruct k1, k2.
      destruct (wf_membership _ Hwf _ _ _ H1) as (<- & <- & _). by destruct (wf_membership _ Hwf _ _ _ H2) as (<- & <- & _). }
    subst k2. exact (NoDup_lookup _ _ _ _ (NoDup_map_to_list (memberships d)) H1 H2). }
  set (l := filter _ _) in *.
  assert (Hl : forall m, m ∈ l -> exists u, memberships d !! (ws, u) = Some m /\ m_Role m = RoleOwner /\ m_UserID m = u).
  { intros m Hm. subst l. apply list_elem_of_filter in Hm as [[Hw Hr] [[w u] Hk]%elem_of_rows].
    destruct (wf_membership _ Hwf _ _ _ Hk) as (E1 & E2 & _). exists u. split; [|done]. congruence. }
  destruct l as [|a [|b l]]; simpl in Hc; [lia|lia|].
  destruct (Hl a) as (ua & Ha & Hra & Hua); [left|]. destruct (Hl b) as (ub & Hb & Hrb & Hub); [right; left|].
  destruct (decide (ua = user)) as [->|Hne]; [|by exists ua, a].
  exists ub, b. split; [|done]. intros ->. apply NoDup_cons in Hnd as [Hn _]. destruct Hn.
  assert (a = b) as -> by congruence. left.
Qed.

Lemma wp_read {Y A} (e : tstoreE Y) (f : result Y -> prog tenE A) Q d :
  reads e ->
  (forall x, match x with Ok y => exists now uid, (tstore_apply now uid e d).1 = Ok y | Err _ => True end ->
     wp tenancy_nsem (f x) Q d) ->
  wp tenancy_nsem (call (TStore e) ≫= f) Q d.
Proof.
  intros He Hf. apply wp_call_bind. intros x d' Hs. destruct (spec_read e d x d' He Hs) as [-> Hx]. by apply Hf.
Qed.

Lemma wp_owner_safe {A} ws (p : prog tenE A) d :
  all_calls (tstore_calls owner_safe) p -> has_owner ws d -> wp tenancy_nsem p (fun _ => has_owner ws) d.
Proof.
  intros Hp Hd. apply wp_nrun. intros a d' Hr.
  assert (PreOrder (fun d d' => has_owner ws d -> has_owner ws d')) by apply implied_preorder.
  eapply (nrun_all_calls tenancy_nsem (tstore_calls owner_safe) (fun d d' => has_owner ws d -> has_owner ws d'));
    [exact Hp| |exact Hr|exact Hd].
  intros X e w x w' He Hs. destruct e; simpl in *; try (by subst w').
  intros Hw. eapply (spec_rel (fun d d' => has_owner ws d -> has_owner ws d')); [|exact Hs|exact Hw].
  intros now uid. by apply statement_owner_safe.
Qed.

(** One statement on a member, when another owner is known or the member is none. *)
Lemma wp_last {A} {Y} ws (e : tstoreE Y) (f : result Y -> A) d :
  has_owner ws d -> (forall now uid, has_owner ws (tstore_apply now uid e d).2) ->
  wp tenancy_nsem (x ← call (TStore e); Ret (f x)) (fun _ => has_owner ws) d.
Proof.
  intros Hd He. apply wp_call_bind. intros x d' Hs. apply wp_ret.
  assert (Reflexive (fun d d' => has_owner ws d -> has_owner ws d')) by (by intros ?).
  by apply (spec_rel (fun d d' => has_owner ws d -> has_owner ws d') e d x d').
Qed.

(** The member may go: another owner stays, or it is not an owner of this workspace. *)
Definition replaceable (ws wsID target : string) (d : tdb) : Prop :=
  (exists u m, (ws, u) <> (wsID, target) /\ memberships d !! (ws, u) = Some m /\ m_Role m = RoleOwner).

Lemma owner_other ws wsID target current d :
  has_owner ws d -> memberships d !! (wsID, target) = Some current -> m_Role current <> RoleOwner ->
  replaceable ws wsID target d.
Proof. intros (u & m & Hm & Hr) Hc Hne. exists u, m. split; [|done]. congruence. Qed.

Lemma owner_counted ws wsID target d :
  tdb_wf d -> has_owner ws d -> 1 < pg_CountOwners wsID d -> replaceable ws wsID target d.
Proof.
  intros Hwf (u & m & Hm & Hr) Hc. destruct (decide (ws = wsID)) as [->|Hne].
  - destruct (two_owners wsID target d Hwf Hc) as (u' & m' & Hu' & Hm'). exists u', m'. split; [congruence|done].
  - exists u, m. split; [congruence|done].
Qed.

Lemma update_replaceable ws wsID target role d now uid :
  replaceable ws wsID target d -> has_owner ws (tstore_apply now uid (UpdateMemberRole wsID target role) d).2.
Proof.
  intros (u & m & Hne & Hm & Hr). simpl. unfold pg_UpdateMemberRole.
  destruct (memberships d !! (wsID, target)) as [m'|]; [|by exists u, m]. destruct (validRole role); [|by exists u, m].
  exists u, m. simpl. by rewrite lookup_insert_ne.
Qed.

Lemma remove_replaceable ws wsID target d now uid :
  replaceable ws wsID target d -> has_owner ws (tstore_apply now uid (RemoveMember wsID target) d).2.
Proof.
  intros (u & m & Hne & Hm & Hr). simpl. unfold pg_RemoveMember.
  destruct (memberships d !! (wsID, target)) as [m'|]; [|by exists u, m].
  exists u, m. simpl. by rewrite lookup_delete_ne.
Qed.

Lemma replaceable_owner ws wsID target d : replaceable ws wsID target d -> has_owner ws d.
Proof. intros (u & m & _ & Hm). by exists u, m. Qed.

Lemma wp_keep_owner ws wsID target message k d :
  tdb_wf d -> has_owner ws d ->
  (replaceable ws wsID target d -> wp tenancy_nsem k (fun _ => has_owner ws) d) ->
  wp tenancy_nsem (keep_owner wsID message k) (fun _ => has_owner ws) d.
Proof.
  intros Hwf Hd Hk. unfold keep_owner. apply wp_read; [done|]. intros [n|e] Hx; [|by apply wp_ret].
  destruct Hx as (now & uid & [= <-]). destruct (Z.leb_spec (pg_CountOwners wsID d) 1); [by apply wp_ret|].
  apply Hk. by apply owner_counted.
Qed.

Lemma wp_update_role ws wsID target role d :
  has_owner ws d -> role = RoleOwner \/ replaceable ws wsID target d ->
  wp tenancy_nsem (update_role wsID target role) (fun _ => has_owner ws) d.
Proof.
  intros Hd Hor. unfold update_role. apply wp_call_bind. intros x d' Hs.
  assert (has_owner ws d').
  { assert (Reflexive (fun d d' => has_owner ws d -> has_owner ws d')) by (by intros ?).
    eapply (spec_rel (fun d d' => has_owner ws d -> has_owner ws d')); [|exact Hs|exact Hd].
    intros now uid _. destruct Hor as [->|Hor]; [|by apply update_replaceable].
    by apply (statement_owner_safe ws now uid (UpdateMemberRole wsID target RoleOwner)). }
  by destruct x; apply wp_ret.
Qed.

Lemma wp_remove_member ws wsID target d :
  replaceable ws wsID target d -> wp tenancy_nsem (remove_member wsID target) (fun _ => has_owner ws) d.
Proof.
  intros Hor. unfold remove_member. apply wp_call_bind. intros x d' Hs.
  assert (has_owner ws d').
  { assert (Reflexive (fun d d' => has_owner ws d -> has_owner ws d')) by (by intros ?).
    eapply (spec_rel (fun d d' => has_owner ws d -> has_owner ws d')); [|exact Hs|by eapply replaceable_owner].
    intros now uid _. by apply remove_replaceable. }
  by destruct x; apply wp_ret.
Qed.

Lemma wp_requireRole wsID user minRole k Q d :
  Q internalError d -> (forall code msg, Q (writeError 403 code msg) d) -> wp tenancy_nsem k Q d ->
  wp tenancy_nsem (requireRole wsID user minRole k) Q d.
Proof.
  intros H5 H4 Hk. unfold requireRole. apply wp_read; [done|]. intros [m|[]] _; try (by apply wp_ret).
  destruct (_ <? _); [by apply wp_ret|done].
Qed.

Section owners.
Context (lib : libraries) (s : Server).

Lemma api_owner_safe rt caller r :
  rt <> RUpdateMemberRole -> rt <> RRemoveMember ->
  all_calls (tstore_calls owner_safe) (api_handler lib s rt caller r).
Proof.
  intros H1 H2. destruct rt; try done; unfold api_handler;
  unfold handleMe, handleCreateWorkspace, handleListWorkspaces, handleActiveWorkspace, handleSwitchWorkspace,
    handleListMembers, handleAddMember, handleCreateAPIKey, handleListAPIKeys, handleRevokeAPIKey, handleUsage;
  unfold requireUser; unfold requireIdentity; unfold requireRole, decodeJSONBody, usage_of,
    mint, mintAPIKey, newOpaqueToken, hashAPIKeySecret; tenancy_calls.
Qed.

Lemma verifyAPIKeyString_owner_safe IDKey raw :
  all_calls (tstore_calls owner_safe) (verifyAPIKeyString IDKey raw).
Proof. unfold verifyAPIKeyString. tenancy_calls. Qed.
Lemma authenticate_owner_safe IDKey parse key r :
  all_calls (tstore_calls owner_safe) (authenticate IDKey parse key r).
Proof. unfold authenticate, verifyAPIKeyString. tenancy_calls. Qed.
Lemma issueSession_owner_safe a b c d e u f :
  all_calls (tstore_calls owner_safe) (issueSession a b c d e u f).
Proof. unfold issueSession, mint, newOpaqueToken. tenancy_calls. Qed.
Lemma bootstrap_owner_safe t u : all_calls (tstore_calls owner_safe) (bootstrapWorkspace t u).
Proof. unfold bootstrapWorkspace. tenancy_calls. Qed.
Lemma verify_id_owner_safe a b c d e f g :
  all_calls (tstore_calls owner_safe) (VerifyIDToken a b c d e f g).
Proof. unfold VerifyIDToken, keyForKid, fetchJWKS. tenancy_calls. Qed.
Lemma answer_owner_safe a b c d : all_calls (tstore_calls owner_safe) (answer_session a b c d).
Proof. unfold answer_session, failed. tenancy_calls. Qed.
#[local] Hint Resolve answer_owner_safe verifyAPIKeyString_owner_safe issueSession_owner_safe bootstrap_owner_safe
  verify_id_owner_safe : calls.

Lemma auth_owner_safe rt r :
  (forall a, rt <> RApi a) -> all_calls (tstore_calls owner_safe) (serve lib s rt r).
Proof.
  intros H. destruct rt as [a| | | | | | | |]; [by destruct (H a)|..]; unfold serve, as_reply;
  unfold handleLogin, handleCallback, handleRefresh, handleLogout, handleAPIKeyToken, internalAuthMiddleware,
    handleQuotaCheckUpload, handleQuotaCheckJob, failed, decodeJSONBody, metered_CheckUploadSession,
    metered_CheckJobAdmission, resolveTier, login_user, rotate, exchange_key, Exchange, answer_session, mint, newOpaqueToken;
  tenancy_calls.
Qed.

Lemma wp_auth ws key r next d :
  has_owner ws d -> (forall id d', has_owner ws d' -> tdb_wf d' -> wp tenancy_nsem (next id) (fun _ => has_owner ws) d') ->
  tdb_wf d ->
  wp tenancy_nsem (authMiddleware (l_IDKey lib) (l_ParseWithClaims lib) key r next) (fun _ => has_owner ws) d.
Proof.
  intros Hd Hn Hwf. unfold authMiddleware. apply wp_bind. eapply wp_mono.
  - apply (wp_nrun tenancy_nsem _ (fun _ d' => has_owner ws d' /\ tdb_wf d')). intros a d' Hr.
    assert (PreOrder (fun d d' => (has_owner ws d /\ tdb_wf d) -> (has_owner ws d' /\ tdb_wf d'))) by apply implied_preorder.
    eapply (nrun_all_calls tenancy_nsem (tstore_calls owner_safe)
      (fun d d' => (has_owner ws d /\ tdb_wf d) -> (has_owner ws d' /\ tdb_wf d')));
      [apply authenticate_owner_safe| |exact Hr|done].
    intros X e w x w' He Hs. destruct e; simpl in *; try (by subst w').
    intros Hw. eapply (spec_rel (fun d d' => (has_owner ws d /\ tdb_wf d) -> (has_owner ws d' /\ tdb_wf d'))); [|exact Hs|exact Hw].
    intros now uid [? ?]. split; [by apply statement_owner_safe|by apply statement_wf].
  - intros [resp|id] d' [Ho Hw]; [by apply wp_ret|by apply Hn].
Qed.

(** C24: a workspace keeps an owner.  Any request of any route, served on its own, with
    store faults and lost replies at any call, leaves every workspace that had an
    owner with one: the last owner is neither demoted nor removed, by anyone. *)
Theorem workspace_keeps_an_owner ws rt r d reply d' :
  tdb_wf d -> has_owner ws d ->
  nrun tenancy_nsem (serve lib s rt r) d reply d' ->
  has_owner ws d'.
Proof.
  intros Hwf Hd Hr. revert reply d' Hr. apply (wp_nrun tenancy_nsem _ (fun _ d' => has_owner ws d')).
  destruct rt as [a| | | | | | | |]; try (apply wp_owner_safe; [by apply auth_owner_safe|done]).
  cbn [serve]. unfold as_reply. apply wp_bind.
  apply (wp_mono tenancy_nsem _ (fun _ => has_owner ws)); [|intros resp d' H; by apply wp_ret].
  apply wp_auth; [done| |done]. clear d Hwf Hd. intros id d Hd Hwf.
  destruct (decide (a = RUpdateMemberRole)) as [->|H1]; [|destruct (decide (a = RRemoveMember)) as [->|H2]].
  3:{ apply wp_owner_safe; [by apply api_owner_safe|done]. }
  - cbn [api_handler]. unfold handleUpdateMemberRole, requireUser, requireIdentity.
    destruct (HasPrefix _ _); [by apply wp_ret|]. apply wp_requireRole; [done|done|]. unfold decodeJSONBody.
    destruct (tr_role r) as [role|]; [|by apply wp_ret]. destruct (tr_single r); [|by apply wp_ret].
    destruct (negb _); [by apply wp_ret|]. apply wp_read; [done|].
    intros [current|[]] Hc; try (by apply wp_ret). destruct Hc as (now & uid & Hc%row_Ok).
    destruct (String.eqb_spec (m_Role current) RoleOwner) as [Ho|Hno].
    + destruct (String.eqb_spec role RoleOwner) as [->|]; simpl; [apply wp_update_role; auto|].
      apply (wp_keep_owner ws (tr_id r) (tr_userId r)); [done|done|]. intros Hor. apply wp_update_role; auto.
    + simpl. apply wp_update_role; [done|]. right. by eapply owner_other.
  - cbn [api_handler]. unfold handleRemoveMember, requireUser, requireIdentity.
    destruct (HasPrefix _ _); [by apply wp_ret|]. apply wp_read; [done|].
    intros [current|[]] Hc; try (by apply wp_ret). destruct Hc as (now & uid & Hc%row_Ok).
    cbv zeta. apply wp_requireRole; [done|done|].
    destruct (String.eqb_spec (m_Role current) RoleOwner) as [Ho|Hno].
    + apply (wp_keep_owner ws (tr_id r) (tr_userId r)); [done|done|]. apply wp_remove_member.
    + apply wp_remove_member. by eapply owner_other.
Qed.
End owners.

(** ** A concrete service *)

(** Tokens that are their subject, scoped to the workspace [ws]. *)
Definition ex_lib : libraries :=
  {| l_sha256 := fun s => s; l_IDKey := toy_IDKey; l_decode_jwks := fun _ => Err (EMsg "json");
     l_decode_id_token := fun _ => Err (EMsg "json"); l_jwt_header := fun _ => Err (EMsg "jwt");
     l_jwt_verify := fun _ _ _ => Err (EMsg "jwt");
     l_ParseWithClaims := fun tok _ _ => Ok (mint_claims tok "ws" 0 Second "jti");
     l_SignedString := fun _ c _ => Ok (jc_Subject c +:+ "@" +:+ jc_WorkspaceID c) |}.

Definition ex_oidc : OIDCClient :=
  {| issuer := "https://id"; clientID := "client"; clientSecret := "s"; redirectURL := "https://app/cb";
     authorizationEndpoint := "https://id/auth"; tokenEndpoint := "https://id/token"; jwksURI := "https://id/jwks" |}.

Definition ex_server : Server :=
  {| srv_tiers := ex_tiers; srv_oidc := ex_oidc; srv_signer := "key"; srv_accessTokenTTL := 900 * Second;
     srv_refreshTokenTTL := 86400 * Second; srv_internalToken := "secret"; srv_cookieSecure := true |}.

(** Alice and Bob own the workspace [ws]. *)
Definition ex_statements (d : tdb) : tdb :=
  let d := (tstore_apply 0 "alice" (UpsertUserByGoogleSub "g1" "alice@x" "Alice" 1) d).2 in
  let d := (tstore_apply 0 "bob" (UpsertUserByGoogleSub "g2" "bob@x" "Bob" 2) d).2 in
  let d := (tstore_apply 0 "" (CreateWorkspace {| w_ID := "ws"; w_Name := "W"; w_PlanTier := "free";
                                                  w_CreatedBy := "alice"; w_CreatedAt := 3 |} "alice") d).2 in
  (tstore_apply 0 "" (AddMember {| m_WorkspaceID := "ws"; m_UserID := "bob"; m_Role := RoleOwner; m_CreatedAt := 4 |}) d).2.

Definition ex_owners : tdb := ex_statements empty_tdb.

Lemma ex_owners_wf : tdb_wf ex_owners.
Proof. unfold ex_owners, ex_statements. repeat apply statement_wf. exact empty_tdb_wf. Qed.

Definition ex_start (fs : list (time * string * fault)) : tworld * () := ({| tw_db := ex_owners; tw_inputs := fs |}, tt).

(** A request of [caller] that sets the role of [target]. *)
Definition ex_demote (caller target : string) : trequest :=
  {| tr_Authorization := "Bearer " +:+ caller; tr_XAPIKey := ""; tr_XInternalToken := ""; tr_Cookie := None;
     tr_id := "ws"; tr_userId := target; tr_error := ""; tr_state := ""; tr_code := ""; tr_raw := Ok "";
     tr_single := true; tr_name := Err (EMsg "json"); tr_workspaceId := Err (EMsg "json");
     tr_member := Err (EMsg "json"); tr_role := Ok RoleMember; tr_refreshToken := Err (EMsg "json");
     tr_apiKey := Err (EMsg "json"); tr_upload := Err (EMsg "json"); tr_job := Err (EMsg "json") |}.

Definition ex_demotions : list (troute * trequest) :=
  [(RApi RUpdateMemberRole, ex_demote "alice" "bob"); (RApi RUpdateMemberRole, ex_demote "bob" "alice")].

(** The two demotions, interleaved call by call. *)
Definition ex_race : pool tenE treply (tworld * ()) :=
  run_sched (tenancy_sem no_env) [0; 1; 0; 1; 0; 1; 0; 1; 0; 1]%nat
    ((fun q => serve ex_lib ex_server q.1 q.2) <$> ex_demotions, ex_start []).

Definition statuses (ps : list (prog tenE treply)) : list Z :=
  (fun p => match p with Ret r => rs_status (rp_response r) | _ => 0 end) <$> ps.

(** Counting the owners and changing a role are two statements: two owners who demote
    each other at the same time both succeed, and nobody owns the workspace. *)
Example last_owner_race :
  statuses ex_race.1 = [200; 200] /\ pg_CountOwners "ws" ex_owners = 2 /\
  pg_CountOwners "ws" (tw_db ex_race.2.1) = 0.
Proof. vm_compute. repeat split. Qed.

Lemma tenancy_tables_well_formed_witness : tdb_wf (tw_db ex_race.2.1).
Proof.
  eapply (tenancy_tables_well_formed no_env ex_lib ex_server ex_demotions (ex_start []) ex_race.1 ex_race.2);
    [exact ex_owners_wf|]. rewrite <-surjective_pairing. apply run_sched_reachable.
Defined.

(** One after the other, the second request is refused. *)
Lemma workspace_keeps_an_owner_witness :
  has_owner "ws" (tw_db (run (tenancy_sem no_env) (serve ex_lib ex_server (RApi RUpdateMemberRole)
                           (ex_demote "bob" "bob")) (ex_start [])).2.1).
Proof.
  eapply (workspace_keeps_an_owner ex_lib ex_server "ws" (RApi RUpdateMemberRole) (ex_demote "bob" "bob"));
    [exact ex_owners_wf| |exact (tenancy_run_nrun no_env _ (ex_start []))].
  exists "alice". eexists. split; [vm_compute; reflexivity|reflexivity].
Defined.

Lemma changes_are_authorized_witness :
  let m role := {| m_WorkspaceID := "ws"; m_UserID := "alice"; m_Role := role; m_CreatedAt := 0 |} in
  authorized_write {| id_WorkspaceID := "ws"; id_UserID := "alice" |}
    [Ev (TStore (GetMembership "ws" "alice")) (Ok (m RoleOwner)); Ev (TStore (GetMembership "ws" "bob")) (Ok (m RoleMember))]
    _ (UpdateMemberRole "ws" "bob" RoleMember).
Proof.
  intros m.
  eapply (changes_are_authorized ex_lib ex_server RUpdateMemberRole _ (ex_demote "alice" "bob") _
            (writeJSON 200 (JObj [("userId", JStr "bob"); ("role", JStr RoleMember)])))
    with (x := Ok ()) (t2 := []); [|reflexivity].
  do 2 eexists. split; [reflexivity|]. do 2 eexists. split; [reflexivity|]. do 2 eexists. split; [reflexivity|].
  split; reflexivity.
Defined.
