(* ===== verification/Web.v ===== *)
(** * The HTTP plumbing of services/upload and services/tenancy

    What stands between net/http and the handlers: the request context, the response
    writer with the [statusRecorder] around it, the [logState] by which the bearer
    middleware hands the identity to the request logger, [writeJSON], and the
    middlewares themselves.  Both services have the same code ([server.go] of each,
    and upload's [auth.go]); it is a program over [webE E], where [E] are the calls of
    the handlers behind it.  A handler's reply is sent when its
    program ends; in the source only the deferred release of the inflight gauge comes
    after it. *)
From S2P Require Export Triples Tenancy.
#[local] Open Scope Z_scope.

(** ** The request context *)

Inductive ctx_value :=
| CIdentity (id : Identity)           (* identityKey *)
| CRequestID (requestID : string)     (* requestIDKey *)
| CLogState (state : nat).            (* logStateKey: a pointer *)

(** The innermost value first. *)
Definition context := list ctx_value.

Fixpoint Value {A} (key : ctx_value -> option A) (ctx : context) : option A :=
  match ctx with
  | [] => None
  | v :: ctx' => match key v with Some a => Some a | None => Value key ctx' end
  end.
Definition WithValue (ctx : context) (v : ctx_value) : context := v :: ctx.

Definition identityKey (v : ctx_value) : option Identity := match v with CIdentity id => Some id | _ => None end.
Definition logStateKey (v : ctx_value) : option nat := match v with CLogState p => Some p | _ => None end.

Definition IdentityFrom (ctx : context) : option Identity := Value identityKey ctx.

(** ** net/http *)

(** A header value; the rendering of a cookie is left to net/http. *)
Inductive header_value := HText (s : string) | HCookie (c : cookie).
Definition header := gmap string (list header_value).

(** The server's [ResponseWriter]: the header map, the status line with the headers it
    was sent with, and what was written after it. *)
Record responseWriter := {
  w_header : header;
  w_sent : option (Z * header);
  w_body : list json
}.
Definition new_writer : responseWriter := {| w_header := ∅; w_sent := None; w_body := [] |}.

Definition header_set (k : string) (v : header_value) (h : header) : header := <[k := [v]]> h.
Definition header_add (k : string) (v : header_value) (h : header) : header := <[k := default [] (h !! k) ++ [v]]> h.
Definition set_header (w : responseWriter) (h : header) : responseWriter :=
  {| w_header := h; w_sent := w_sent w; w_body := w_body w |}.

(** Only the first call counts; a status of 1xx, which no handler sends, is left out. *)
Definition rw_WriteHeader (code : Z) (w : responseWriter) : responseWriter :=
  match w_sent w with
  | Some _ => w
  | None => {| w_header := w_header w; w_sent := Some (code, w_header w); w_body := w_body w |}
  end.
Definition rw_Encode (v : json) (w : responseWriter) : responseWriter :=
  let w := rw_WriteHeader 200 w in
  {| w_header := w_header w; w_sent := w_sent w; w_body := w_body w ++ [v] |}.

(** What the client gets once the outermost handler returned. *)
Definition status_line (w : responseWriter) : Z * header := default (200, w_header w) (w_sent w).

(** ** The calls *)

Record log_line := {
  ln_requestId : string; ln_method : string; ln_path : string; ln_status : Z;
  ln_durationMs : Z; ln_identity : option Identity
}.

Inductive webE (E : Type -> Type) : Type -> Type :=
| WApp {X} (e : E X) : webE E X
| NewString : webE E string
| WNow : webE E time
| Header_Set (k : string) (v : header_value) : webE E ()
| Header_Add (k : string) (v : header_value) : webE E ()
| W_WriteHeader (code : Z) : webE E ()
| W_Encode (v : json) : webE E ()
| Rec_set (status : Z) : webE E ()            (* the field of the statusRecorder *)
| Rec_status : webE E Z
| New_logState : webE E nat
| setIdentity (state : nat) (id : Identity) : webE E ()
| identity (state : nat) : webE E (option Identity)
| Log_Info (line : log_line) : webE E ().
Arguments WApp {_ _} _.
Arguments NewString {_}.
Arguments WNow {_}.
Arguments Header_Set {_} _ _.
Arguments Header_Add {_} _ _.
Arguments W_WriteHeader {_} _.
Arguments W_Encode {_} _.
Arguments Rec_set {_} _.
Arguments Rec_status {_}.
Arguments New_logState {_}.
Arguments setIdentity {_} _ _.
Arguments identity {_} _.
Arguments Log_Info {_} _.

Section web.
Context {E : Type -> Type}.
Abbreviation web := (prog (webE E)).

Definition app {A} (p : prog E A) : web A := embed (fun X e => WApp e) p.

(** ** The middlewares *)

(** [writeJSON], [writeError] and a bare [WriteHeader], after the headers and the cookie
    the handler set. *)
Fixpoint set_headers (l : list (string * string)) : web () :=
  match l with
  | [] => Ret ()
  | (k, v) :: l' => _ ← call (Header_Set k (HText v)); set_headers l'
  end.

Definition send (r : treply) : web () :=
  _ ← match rp_cookie r with
      | Some c => call (Header_Add "Set-Cookie" (HCookie c))
      | None => Ret ()
      end;
  _ ← set_headers (rs_headers (rp_response r));
  match rs_body (rp_response r) with
  | Some v =>
      _ ← call (Header_Set "Content-Type" (HText "application/json"));
      _ ← call (W_WriteHeader (rs_status (rp_response r)));
      call (W_Encode v)
  | None => call (W_WriteHeader (rs_status (rp_response r)))
  end.

(** The bearer middleware: [auth] is how the service authenticates a request. *)
Definition web_authMiddleware (auth : prog E (response + Identity)) (next : context -> web ())
    (ctx : context) : web () :=
  out ← app auth;
  match out with
  | inl resp => send (plain resp)
  | inr id =>
      _ ← match Value logStateKey ctx with
          | Some state => call (setIdentity state id)
          | None => Ret ()
          end;
      next (WithValue ctx (CIdentity id))
  end.

(** The writer the handlers are given: [WriteHeader] notes the status first. *)
Definition statusRecorder {X} (e : webE E X) : web X :=
  match e in webE _ X return web X with
  | W_WriteHeader code => _ ← call (Rec_set code); call (W_WriteHeader code)
  | e => call e
  end.

Definition requestLogger (method path : string) (next : context -> web ()) (ctx : context) : web () :=
  requestID ← call NewString;
  _ ← call (Header_Set "X-Request-Id" (HText requestID));
  state ← call New_logState;
  let ctx := WithValue ctx (CRequestID requestID) in
  let ctx := WithValue ctx (CLogState state) in
  _ ← call (Rec_set 200);
  start ← call WNow;
  _ ← interp (fun X => statusRecorder) (next ctx);
  status ← call Rec_status;
  now ← call WNow;
  id ← call (identity state);
  call (Log_Info {| ln_requestId := requestID; ln_method := method; ln_path := path; ln_status := status;
                    ln_durationMs := Z.quot (now - start) Millisecond; ln_identity := id |}).

(** ** The routes *)

(** A route outside the bearer group, or one inside it. *)
Inductive mux_entry :=
| Public (p : prog E treply)
| Guarded (auth : prog E (response + Identity)) (handler : option Identity -> prog E treply).

Definition handle_entry (en : mux_entry) : context -> web () :=
  match en with
  | Public p => fun _ => r ← app p; send r
  | Guarded auth handler => web_authMiddleware auth (fun ctx => r ← app (handler (IdentityFrom ctx)); send r)
  end.

Record exchange := { ex_method : string; ex_path : string; ex_entry : mux_entry }.

Definition Routes (x : exchange) : web () :=
  requestLogger (ex_method x) (ex_path x) (handle_entry (ex_entry x)) [].

(** ** Requests at the same time *)

(** What belongs to one request; [o_calls] records what its handler called. *)
Record own := { o_writer : responseWriter; o_rec : Z; o_calls : list (event E) }.
Definition new_own : own := {| o_writer := new_writer; o_rec := 0; o_calls := [] |}.
Definition on_writer (f : responseWriter -> responseWriter) (o : own) : own :=
  {| o_writer := f (o_writer o); o_rec := o_rec o; o_calls := o_calls o |}.
Definition set_rec (o : own) (n : Z) : own := {| o_writer := o_writer o; o_rec := n; o_calls := o_calls o |}.
Definition called (o : own) (l : list (event E)) : own :=
  {| o_writer := o_writer o; o_rec := o_rec o; o_calls := o_calls o ++ l |}.

(** What they share: the world of the handlers, the heap of log states (with the request
    that allocated each, an auxiliary), and the log, each line with the request that wrote it. *)
Context {W : Type} (app_do : nat -> nsem E W).
Record web_world := {
  ww_app : W;
  ww_states : gmap nat (nat * option Identity);
  ww_log : list (nat * log_line)
}.
Definition set_app (w : web_world) (a : W) : web_world :=
  {| ww_app := a; ww_states := ww_states w; ww_log := ww_log w |}.
Definition set_states (w : web_world) (m : gmap nat (nat * option Identity)) : web_world :=
  {| ww_app := ww_app w; ww_states := m; ww_log := ww_log w |}.
Definition set_log (w : web_world) (l : list (nat * log_line)) : web_world :=
  {| ww_app := ww_app w; ww_states := ww_states w; ww_log := l |}.

Definition web_do (i : nat) : nsem (webE E) (web_world * own) := fun X e c x c' =>
  let '(w, o) := c in
  match e in webE _ X return X -> Prop with
  | WApp e => fun x => exists a, app_do i _ e (ww_app w) x a /\ c' = (set_app w a, called o [Ev e x])
  | NewString | WNow => fun _ => c' = c
  | Header_Set k v => fun _ => c' = (w, on_writer (fun rw => set_header rw (header_set k v (w_header rw))) o)
  | Header_Add k v => fun _ => c' = (w, on_writer (fun rw => set_header rw (header_add k v (w_header rw))) o)
  | W_WriteHeader code => fun _ => c' = (w, on_writer (rw_WriteHeader code) o)
  | W_Encode v => fun _ => c' = (w, on_writer (rw_Encode v) o)
  | Rec_set status => fun _ => c' = (w, set_rec o status)
  | Rec_status => fun x => x = o_rec o /\ c' = c
  | New_logState => fun p => ww_states w !! p = None /\ c' = (set_states w (<[p := (i, None)]> (ww_states w)), o)
  | setIdentity p id => fun _ => c' = (set_states w (alter (fun s => (s.1, Some id)) p (ww_states w)), o)
  | identity p => fun x => x = (ww_states w !! p ≫= snd) /\ c' = c
  | Log_Info line => fun _ => c' = (set_log w (ww_log w ++ [(i, line)]), o)
  end x.

Definition lines (i : nat) (w : web_world) : list log_line := (List.filter (fun l => bool_decide (l.1 = i)) (ww_log w)).*2.

(** ** What a request leaves behind *)

(** The writer after [send], from a writer with these headers. *)
Definition reply_header (r : treply) (h : header) : header :=
  let h := match rp_cookie r with Some c => header_add "Set-Cookie" (HCookie c) h | None => h end in
  let h := foldl (fun h kv => header_set kv.1 (HText kv.2) h) h (rs_headers (rp_response r)) in
  match rs_body (rp_response r) with
  | Some _ => header_set "Content-Type" (HText "application/json") h
  | None => h
  end.
Definition reply_writer (r : treply) (h : header) : responseWriter :=
  {| w_header := reply_header r h;
     w_sent := Some (rs_status (rp_response r), reply_header r h);
     w_body := match rs_body (rp_response r) with Some v => [v] | None => [] end |}.

(** The calls a request made and the reply it got, when it is served as its route says:
    by the handler with the identity that was authenticated, or not at all. *)
Definition handled (en : mux_entry) (tr : list (event E)) (r : treply) (who : option Identity) : Prop :=
  match en with
  | Public p => exec p tr r /\ who = None
  | Guarded auth handler => exists out t1 t2, tr = t1 ++ t2 /\ exec auth t1 out /\
      match out with
      | inl resp => t2 = [] /\ r = plain resp /\ who = None
      | inr id => exec (handler (Some id)) t2 r /\ who = Some id
      end
  end.

(** Answered, and logged by this line. *)
Definition answered (x : exchange) (o : own) (line : log_line) : Prop :=
  exists r, handled (ex_entry x) (o_calls o) r (ln_identity line) /\
    o_writer o = reply_writer r {["X-Request-Id" := [HText (ln_requestId line)]]} /\
    ln_status line = rs_status (rp_response r) /\ ln_method line = ex_method x /\ ln_path line = ex_path x.
End web.
Arguments mux_entry : clear implicits.
Arguments exchange : clear implicits.
Arguments own : clear implicits.
Arguments web_world : clear implicits.

(** ** Proofs *)

Section proofs.
Context {E : Type -> Type} {W : Type} (app_do : nat -> nsem E W).
Abbreviation do := (web_do app_do).

(** What request [i] relies on: the log states it allocated and its log lines are its own. *)
Definition wrely (i : nat) (w w' : web_world W) : Prop :=
  (forall p who, ww_states w !! p = Some (i, who) -> ww_states w' !! p = Some (i, who)) /\
  lines i w' = lines i w.

#[export] Instance wrely_relied : Relied (fun _ : web_world W => True) wrely.
Proof.
  split; [|done]. intros i. split; [done|]. intros w1 w2 w3 [H1 H2] [H3 H4]. split; [auto|]. by rewrite H4.
Qed.

Abbreviation tri := (Triples.tri do (fun _ : web_world W => True) wrely).
Abbreviation assertion := (Triples.assertion (web_world W) (own E)).

(** Request [i] has written nothing to the log yet; its log state, once it has one; and
    its own state. *)
Definition at_ (i : nat) (st : option (nat * option Identity)) (o : own E) : assertion := fun w l =>
  l = o /\ lines i w = [] /\ (forall p who, st = Some (p, who) -> ww_states w !! p = Some (i, who)).

Lemma at_stable i st o : stable (fun _ => True) wrely i (at_ i st o).
Proof. intros w w' l _ (-> & Hl & Hs) [H1 H2]. split_and!; [done|by rewrite H2|]. intros p who Hst. auto. Qed.

Lemma wrely_same i w w' : ww_states w' = ww_states w -> ww_log w' = ww_log w -> wrely i w w'.
Proof. intros H1 H2. unfold wrely, lines. by rewrite H1, H2. Qed.

(** A call that changes nothing that is shared but the handlers' world. *)
Lemma tri_private i st o {X B} (e : webE E X) (R : X -> own E -> Prop) (Q : B -> assertion) k :
  (forall w x w' o', do i X e (w, o) x (w', o') -> ww_states w' = ww_states w /\ ww_log w' = ww_log w /\ R x o') ->
  (forall x o', R x o' -> tri i (at_ i st o') (k x) Q) -> tri i (at_ i st o) (Vis e k) Q.
Proof.
  intros He Hk. apply (tri_vis i e _ (fun x w l => exists o', R x o' /\ at_ i st o' w l)); [apply at_stable| |].
  - intros w l x w' l' _ (-> & Hl & Hs) Hx. destruct (He _ _ _ _ Hx) as (H1 & H2 & HR). split; [done|].
    split; [by intros; apply wrely_same|]. exists l'. split; [done|]. split; [done|]. unfold lines. by rewrite H1, H2.
  - intros x. apply tri_exists. intros o'. apply tri_pure. apply Hk.
Qed.

(** The same when the outcome is determined. *)
Lemma tri_local i st o {X B} (e : webE E X) (x0 : X) (o1 : own E) (Q : B -> assertion) k :
  (forall w x c', do i X e (w, o) x c' -> x = x0 /\ c' = (w, o1)) ->
  tri i (at_ i st o1) (k x0) Q -> tri i (at_ i st o) (Vis e k) Q.
Proof.
  intros He Hk. apply (tri_private i st o e (fun x o' => x = x0 /\ o' = o1)).
  - intros w x w' o' Hx. by destruct (He _ _ _ Hx) as [-> [= -> ->]].
  - by intros x o' [-> ->].
Qed.

Lemma tri_at_ret i st o {B} (b : B) (Q : B -> assertion) :
  (forall w l, at_ i st o w l -> Q b w l) -> tri i (at_ i st o) (Ret b) Q.
Proof. intros H. apply tri_ret; [apply at_stable|]. auto. Qed.

Abbreviation rec_ := (interp (fun X => statusRecorder (E := E))).

Lemma tri_app i st o {A} (p : prog E A) :
  tri i (at_ i st o) (rec_ (app p)) (fun a w l => exists tr, exec p tr a /\ at_ i st (called o tr) w l).
Proof.
  revert o. induction p as [a|X e k IH]; intros o.
  - apply tri_at_ret. intros w l H. exists []. split; [done|].
    replace (called o []) with o; [done|]. destruct o. unfold called. simpl. by rewrite app_nil_r.
  - apply (tri_private i st o (WApp e) (fun x o' => o' = called o [Ev e x])).
    + by intros w x w' o' (a & _ & [= -> ->]).
    + intros x o' ->. eapply tri_weaken; [|apply IH|]; [done|]. intros a w l (tr & Htr & Hat).
      exists (Ev e x :: tr). split; [by exists x, tr|]. unfold called in Hat. simpl in Hat. by rewrite <-app_assoc in Hat.
Qed.

Lemma tri_set_headers i st l o :
  tri i (at_ i st o) (rec_ (set_headers l)) (fun _ => at_ i st
    (on_writer (fun rw => set_header rw (foldl (fun h kv => header_set kv.1 (HText kv.2) h) (w_header rw) l)) o)).
Proof.
  revert o. induction l as [|[k v] l IH]; intros o.
  - apply tri_at_ret. intros w l H. by destruct o as [[] ? ?].
  - eapply (tri_local i st o); [by intros w [] c' ->|]. apply IH.
Qed.

Lemma tri_send i st o r :
  w_sent (o_writer o) = None -> w_body (o_writer o) = [] ->
  tri i (at_ i st o) (rec_ (send r)) (fun _ => at_ i st
    {| o_writer := reply_writer r (w_header (o_writer o)); o_rec := rs_status (rp_response r);
       o_calls := o_calls o |}).
Proof.
  intros Hs Hb. destruct o as [[h sent body] rc calls]. simpl in Hs, Hb. subst.
  destruct r as [[status hs v] ck]. unfold send, reply_writer, reply_header. cbn [rp_cookie rp_response rs_headers rs_body rs_status].
  apply (tri_interp_bind _ i _ (fun _ => at_ i st
    {| o_writer := set_header new_writer (match ck with Some c => header_add "Set-Cookie" (HCookie c) h | None => h end);
       o_rec := rc; o_calls := calls |})).
  { destruct ck as [c|]; [|by apply tri_at_ret]. eapply (tri_local i st); [by intros w [] c' ->|]. by apply tri_at_ret. }
  intros []. eapply (tri_interp_bind _ i); [apply tri_set_headers|]. intros [].
  destruct v as [v|].
  - eapply (tri_local i st); [by intros w [] c' ->|]. eapply (tri_local i st); [by intros w [] c' ->|].
    eapply (tri_local i st); [by intros w [] c' ->|]. eapply (tri_local i st); [by intros w [] c' ->|]. by apply tri_at_ret.
  - eapply (tri_local i st); [by intros w [] c' ->|]. eapply (tri_local i st); [by intros w [] c' ->|]. by apply tri_at_ret.
Qed.

Lemma tri_setIdentity i p who o id {B} (Q : B -> assertion) k :
  tri i (at_ i (Some (p, Some id)) o) (k ()) Q -> tri i (at_ i (Some (p, who)) o) (Vis (setIdentity p id) k) Q.
Proof.
  intros Hk. apply (tri_vis i _ _ (fun _ => at_ i (Some (p, Some id)) o)); [apply at_stable| |by intros []].
  intros w l [] w' l' _ (-> & Hl & Hs) [= -> ->]. specialize (Hs p who eq_refl). split; [done|]. split.
  - intros j Hj. split; [|done]. intros q who2 Hq. simpl. rewrite lookup_alter_ne; [done|]. intros ->. congruence.
  - split_and!; [done|done|]. intros q who2 [= <- <-]. simpl. by rewrite lookup_alter_eq, Hs.
Qed.

Definition served_by (o : own E) (tr : list (event E)) (r : treply) : own E :=
  {| o_writer := reply_writer r (w_header (o_writer o)); o_rec := rs_status (rp_response r);
     o_calls := o_calls o ++ tr |}.

(** A handler's program and its reply. *)
Lemma tri_serve_reply i st o (p : prog E treply) :
  w_sent (o_writer o) = None -> w_body (o_writer o) = [] ->
  tri i (at_ i st o) (rec_ (r ← app p; send r)) (fun _ w l =>
    exists tr r, exec p tr r /\ at_ i st (served_by o tr r) w l).
Proof.
  intros Hs Hb. eapply (tri_interp_bind _ i); [apply tri_app|]. intros r. apply tri_exists. intros tr. apply tri_pure. intros Htr.
  eapply tri_weaken; [|apply tri_send|]; [done..|]. intros [] w l H. by exists tr, r.
Qed.

Lemma tri_handle i p o en ctx :
  w_sent (o_writer o) = None -> w_body (o_writer o) = [] -> Value logStateKey ctx = Some p ->
  tri i (at_ i (Some (p, None)) o) (rec_ (handle_entry en ctx)) (fun _ w l =>
    exists tr r who, handled en tr r who /\ at_ i (Some (p, who)) (served_by o tr r) w l).
Proof.
  intros Hs Hb Hctx. destruct en as [q|auth handler]; cbn [handle_entry].
  - eapply tri_weaken; [|by apply tri_serve_reply|]; [done|]. intros [] w l (tr & r & Htr & H). by exists tr, r, None.
  - unfold web_authMiddleware. eapply (tri_interp_bind _ i); [apply tri_app|]. intros out.
    apply tri_exists. intros t1. apply tri_pure. intros H1. destruct out as [resp|id].
    + eapply tri_weaken; [|apply tri_send|]; [done..|]. intros [] w l H. exists t1, (plain resp), None. split; [|exact H].
      exists (inl resp), t1, []. by rewrite app_nil_r.
    + rewrite Hctx. apply tri_setIdentity. eapply tri_weaken; [|apply (tri_serve_reply i (Some (p, Some id)) (called o t1) (handler (Some id)) Hs Hb)|]; [done|].
      intros [] w l (t2 & r & Htr & H). exists (t1 ++ t2), r, (Some id). split; [by exists (inr id), t1, t2|].
      unfold served_by in *. simpl in H. by rewrite app_assoc.
Qed.

Lemma lines_snoc i j line (w : web_world W) :
  lines i (set_log w (ww_log w ++ [(j, line)])) = lines i w ++ (if decide (j = i) then [line] else []).
Proof.
  unfold lines. simpl. rewrite List.filter_app, fmap_app. f_equal. simpl.
  case_decide; case_bool_decide; naive_solver.
Qed.

Lemma tri_routes i x :
  tri i (at_ i None new_own) (Routes x) (fun _ w o => exists line, lines i w = [line] /\ answered x o line).
Proof.
  unfold Routes, requestLogger. apply (tri_private i None _ NewString (fun _ o' => o' = new_own)); [by intros ? ? ? ? [= -> ->]|].
  intros rid o' ->. eapply (tri_local i None); [by intros w [] c' ->|].
  apply (tri_vis i _ _ (fun p => at_ i (Some (p, None)) (on_writer (fun rw => set_header rw
    (header_set "X-Request-Id" (HText rid) (w_header rw))) new_own))); [apply at_stable| |].
  { intros w l p w' l' _ (-> & Hl & _) (Hp & [= -> ->]). split; [done|]. split.
    - intros j Hj. split; [|done]. intros q who Hq. simpl. rewrite lookup_insert_ne; [done|]. intros ->. congruence.
    - split_and!; [done|done|]. intros q who [= <- <-]. apply lookup_insert_eq. }
  intros p. eapply (tri_local i (Some (p, None))); [by intros w [] c' ->|].
  eapply (tri_private i (Some (p, None)) _ WNow (fun _ o' => o' = _)); [by intros ? ? ? ? [= -> ->]|]. intros start o' ->.
  eapply tri_bind; [by apply tri_handle|]. intros []. apply tri_exists. intros tr. apply tri_exists. intros r.
  apply tri_exists. intros who. apply tri_pure. intros Hr. set (o := served_by _ tr r).
  eapply (tri_local i _ _ Rec_status (o_rec o) o); [by intros w y c' [-> ->]|].
  eapply (tri_private i _ _ WNow (fun _ o' => o' = o)); [by intros ? ? ? ? [= -> ->]|]. intros now o' ->.
  apply (tri_vis i _ _ (fun y w l => y = who /\ at_ i (Some (p, who)) o w l)); [apply at_stable| |].
  { intros w l y w' l' _ (-> & Hl & Hs) (Hy & [= -> ->]). rewrite (Hs p who eq_refl) in Hy. simpl in Hy.
    split; [done|]. split; [by intros; apply wrely_same|]. by split_and!. }
  intros y. apply tri_pure. intros ->.
  apply (tri_vis i _ _ (fun _ w l => exists line, lines i w = [line] /\ answered x l line)); [apply at_stable| |].
  - intros w l [] w' l' _ (-> & Hl & Hs) [= -> ->]. split; [done|]. split.
    + intros j Hj. split; [done|]. rewrite lines_snoc. rewrite decide_False by congruence. by rewrite app_nil_r.
    + eexists. rewrite lines_snoc, Hl, decide_True by done. split; [done|]. by exists r.
  - intros []. apply tri_ret; [|done]. intros w w' l _ (line & Hl & Ha) [_ Hr']. exists line. by rewrite Hr'.
Qed.
End proofs.
