(* ===== verification/Routes.v ===== *)
(** * The handler chains of services/upload and services/tenancy

    [Routes] of both [server.go]: each route as a [mux_entry] of Web.v, and what every
    request to them leaves behind, however many are served at the same time. *)
From S2P Require Export Web.
From S2P Require UploadServer UploadProofs Tokens TenancyServer.
#[local] Open Scope Z_scope.

(** ** services/upload *)

Section upload.
Import UploadServer Tokens.
Context (hmac_sha256 : string -> string -> string).
Context (json_alg : string -> option string) (json_claims : string -> option tokenClaims).
Context (sha256hex : string -> string) (uuid_Parse : string -> option string).
Context (srv : UploadServer.Server) (authKey : string).

(** [AuthMiddleware] of [auth.go], up to the identity. *)
Definition upload_authenticate (header : string) : prog upE (response + Identity) :=
  if negb (HasPrefix header bearer)
  then Ret (inl (writeError 401 "unauthorized" "missing bearer token"))
  else
    now ← call Now;
    match VerifyHS256 hmac_sha256 json_alg json_claims (TrimPrefix header bearer) authKey now with
    | inl _ => Ret (inl (writeError 401 "unauthorized" "invalid bearer token"))
    | inr id => Ret (inr id)
    end.

(** The request as the handlers see it. *)
Definition with_identity (r : request) (id : option Identity) : request :=
  {| rq_identity := id; rq_id := rq_id r; rq_n := rq_n r; rq_decode := rq_decode r; rq_more := rq_more r;
     rq_ContentLength := rq_ContentLength r; rq_ChunkSha256 := rq_ChunkSha256 r; rq_body := rq_body r |}.

Inductive upload_route := UHealthz | UApi (rt : route).

Definition upload_routes (rt : upload_route) (authorization : string) (r : request) : mux_entry upE :=
  match rt with
  | UHealthz => Public (Ret (plain (writeJSON 200 (JObj [("status", JStr "ok")]))))
  | UApi rt => Guarded (upload_authenticate authorization) (fun id =>
      resp ← UploadServer.serve sha256hex uuid_Parse srv rt (with_identity r id); Ret (plain resp))
  end.

(** The chain resolves the identity that [AuthMiddleware] of Tokens.v does. *)
Lemma upload_authenticate_exec header tr out :
  exec (upload_authenticate header) tr out ->
  exists now, out = AuthMiddleware hmac_sha256 json_alg json_claims authKey header now /\
    (forall id, out = inr id -> tr = [Ev Now now]).
Proof.
  unfold upload_authenticate, AuthMiddleware. destruct (negb _); [intros [-> ->]; by exists 0|].
  intros (now & t & -> & H). go_on H. exists now. by destruct (VerifyHS256 _ _ _ _ _ _); destruct H as [-> ->].
Qed.
End upload.

(** ** services/tenancy *)

Section tenancy.
Import TenancyServer.
Context (lib : libraries) (s : TenancyServer.Server).

(** The endpoints outside the API group authenticate by themselves, or by the internal
    token, which gives no identity. *)
Definition tenancy_routes (rt : troute) (r : trequest) : mux_entry tenE :=
  match rt with
  | RApi rt => Guarded (authenticate (l_IDKey lib) (l_ParseWithClaims lib) (srv_signer s) r)
                 (fun id => as_reply (api_handler lib s rt id r))
  | rt => Public (TenancyServer.serve lib s rt r)
  end.

(** The chain serves what [serve] of TenancyServer.v does. *)
Lemma tenancy_routes_serve rt r tr reply who :
  handled (tenancy_routes rt r) tr reply who -> exec (TenancyServer.serve lib s rt r) tr reply.
Proof.
  destruct rt; try by intros [H _]. intros (out & t1 & t2 & -> & H1 & H2). cbn [TenancyServer.serve]. unfold as_reply, authMiddleware.
  destruct out as [resp|id].
  - destruct H2 as (-> & -> & ->). apply exec_bind. exists t1, [], resp. split; [done|]. split; [|done].
    apply exec_bind. exists t1, [], (inl resp). by rewrite app_nil_r.
  - destruct H2 as [H2 _]. apply exec_bind in H2 as (t3 & t4 & resp & -> & H2 & [-> ->]).
    apply exec_bind. exists (t1 ++ t3), [], resp. rewrite !app_nil_r. split; [done|]. split; [|done].
    apply exec_bind. by exists t1, t3, (inr id).
Qed.
End tenancy.

(** ** What every request leaves behind *)

(** C10: every request is answered by its handler and logged as it was answered.  However
    many requests a service serves at the same time, interleaved at every call of a
    handler, every step on a response and every access to a log state, and whatever the
    calls answer: a request that was served has exactly one line in the log.  The client
    got the reply of the route's handler, run with the identity its credentials resolved
    to, or the refusal of the bearer middleware, in which case the handler made no call;
    the response carries that line's request id, and the line has the request's method
    and path, the status that was sent, and the identity if and only if it was
    authenticated: nothing of another request.  Nobody else writes lines. *)
Theorem requests_are_answered_and_logged {E W} (app_do : nat -> nsem E W) (works : list (exchange E)) w ts w' :
  ww_log w = [] ->
  rtc (lpool_step (web_do app_do)) ((fun x => (Routes x, new_own)) <$> works, w) (ts, w') ->
  (forall i x o, works !! i = Some x -> ts !! i = Some (Ret (), o) ->
     exists line, lines i w' = [line] /\ answered x o line) /\
  (forall i, (length works <= i)%nat -> lines i w' = []).
Proof.
  intros Hlog Hr. assert (Hl : forall i, lines i w = []) by (intros i; unfold lines; by rewrite Hlog).
  apply (tri_sound (inv := fun _ => True) (rely := wrely) (fun i _ w o =>
    forall x, works !! i = Some x -> exists line, lines i w = [line] /\ answered x o line)) in Hr as (_ & Hj & Hi); [|done|].
  - split; [by intros i x o Hx Ho; eapply Hi|]. intros i Hlen. rewrite (proj2 (Hj i ltac:(by rewrite length_fmap))). apply Hl.
  - intros i p l. rewrite list_lookup_fmap. destruct (works !! i) as [x|] eqn:Hx; [|done]. intros [= <- <-].
    exists (at_ i None new_own). split; [by split_and!; [|apply Hl|]|].
    eapply tri_weaken; [|apply tri_routes|]; [done|]. intros a w1 o H y Hy. assert (y = x) as -> by congruence. exact H.
Qed.

(** ** A concrete run *)

Definition web_exec {E W} (h : sem E W) (i : nat) : sem (webE E) (web_world W * own E) := fun X e c =>
  match e in webE _ X return X * (web_world W * own E) with
  | WApp e => let r := h _ e (ww_app c.1) in (r.1, (set_app c.1 r.2, called c.2 [Ev e r.1]))
  | NewString => ("r" +:+ itoa (Z.of_nat i), c)
  | WNow => (0, c)
  | Header_Set k v => ((), (c.1, on_writer (fun rw => set_header rw (header_set k v (w_header rw))) c.2))
  | Header_Add k v => ((), (c.1, on_writer (fun rw => set_header rw (header_add k v (w_header rw))) c.2))
  | W_WriteHeader code => ((), (c.1, on_writer (rw_WriteHeader code) c.2))
  | W_Encode v => ((), (c.1, on_writer (rw_Encode v) c.2))
  | Rec_set status => ((), (c.1, set_rec c.2 status))
  | Rec_status => (o_rec c.2, c)
  | New_logState =>
      let p := fresh (dom (ww_states c.1)) in
      (p, (set_states c.1 (<[p := (i, None)]> (ww_states c.1)), c.2))
  | setIdentity p id => ((), (set_states c.1 (alter (fun s => (s.1, Some id)) p (ww_states c.1)), c.2))
  | identity p => (ww_states c.1 !! p ≫= snd, c)
  | Log_Info line => ((), (set_log c.1 (ww_log c.1 ++ [(i, line)]), c.2))
  end.

Definition as_step {E W} (h : sem E W) (i : nat) : nsem E W := fun X e w x w' => (x, w') = h X e w.

Lemma web_exec_spec {E W} (h : sem E W) i X e c :
  web_do (as_step h) i X e c (web_exec h i X e c).1 (web_exec h i X e c).2.
Proof.
  destruct c as [w o]. destruct e; try done; simpl.
  - eexists. split; [|done]. symmetry. apply surjective_pairing.
  - split; [|done]. apply not_elem_of_dom, is_fresh.
Qed.

#[local] Existing Instance UploadStore.postgres_store.

Definition ex_mac (key m : string) : string := key +:+ m.
Definition ex_claims (s : string) : option Tokens.tokenClaims :=
  if String.eqb s "alice's" then Some {| Tokens.Sub := "alice"; Tokens.tc_WorkspaceID := "ws1"; Tokens.Exp := 60; Tokens.Nbf := 0 |}
  else None.
Definition ex_route (rt : UploadServer.route) (authorization path : string) : exchange UploadServer.upE :=
  {| ex_method := "M"; ex_path := path; ex_entry :=
       upload_routes ex_mac Some ex_claims UploadProofs.ex_sha Some UploadProofs.ex_srv "k" (UApi rt) authorization
         (UploadProofs.ex_req "" 0 "") |}.

(** Two requests take turns: one creates a session with a token of ws1's alice, the
    other asks for a session with a token nobody signed. *)
Lemma requests_are_answered_and_logged_witness :
  let works := [ex_route UploadServer.RCreate ("Bearer " +:+ Tokens.compact ex_mac "k" "HS256" "alice's") "/v1/uploads";
                ex_route UploadServer.RGet "Bearer x.y.z" "/v1/uploads/u1"] in
  let h := UploadProofs.upload_sem UploadProofs.ex_env in
  let c := lrun_sched (web_exec h) (concat (replicate 40 [0; 1]%nat))
    ((fun x => (Routes x, new_own)) <$> works, {| ww_app := UploadProofs.ex_empty; ww_states := ∅; ww_log := [] |}) in
  (fun l => (l.1, ln_status l.2, ln_identity l.2)) <$> ww_log c.2 =
    [(1%nat, 401, None); (0%nat, 201, Some {| id_WorkspaceID := "ws1"; id_UserID := "alice" |})] /\
  forall i x o, works !! i = Some x -> c.1 !! i = Some (Ret (), o) -> exists line, lines i c.2 = [line] /\ answered x o line.
Proof.
  intros works h c. split; [vm_compute; reflexivity|].
  refine (proj1 (requests_are_answered_and_logged (as_step h) works
    {| ww_app := UploadProofs.ex_empty; ww_states := ∅; ww_log := [] |} c.1 c.2 eq_refl _)).
  rewrite <-surjective_pairing. apply (lrun_sched_reachable (web_exec h) (web_do _)).
  intros. apply web_exec_spec.
Defined.
