(* ===== verification/AuthProofs.v ===== *)
(** * services/tenancy: sessions

    Refresh tokens are exchanged at most once, dead ones never; logging in takes a
    verified identity; what a logout leaves behind. *)
From S2P Require Export TenancyProofs.
#[local] Open Scope Z_scope.

(** ** The rows of refresh tokens *)

(** Rows stay, with their hash and family; used and revoked marks stay too. *)
Definition token_kept (rt rt' : RefreshToken) : Prop :=
  rt_TokenHash rt' = rt_TokenHash rt /\ rt_FamilyID rt' = rt_FamilyID rt /\
  (is_Some (rt_UsedAt rt) -> is_Some (rt_UsedAt rt')) /\
  (is_Some (rt_RevokedAt rt) -> is_Some (rt_RevokedAt rt')).

Definition tokens_kept (d d' : tdb) : Prop :=
  forall id rt, refresh_tokens d !! id = Some rt ->
    exists rt', refresh_tokens d' !! id = Some rt' /\ token_kept rt rt'.

#[export] Instance token_kept_preorder : PreOrder token_kept.
Proof.
  split; [by intros rt|]. intros a b c (H1 & H2 & H3 & H4) (G1 & G2 & G3 & G4).
  split_and!; [congruence|congruence|auto|auto].
Qed.

#[export] Instance tokens_kept_preorder : PreOrder tokens_kept.
Proof.
  split; [intros d id rt H; by exists rt|]. intros d1 d2 d3 H12 H23 id rt H.
  destruct (H12 _ _ H) as (rt2 & H2 & K12). destruct (H23 _ _ H2) as (rt3 & H3 & K23).
  exists rt3. split; [done|]. by etrans.
Qed.

Lemma tokens_insert d id rt :
  (forall old, refresh_tokens d !! id = Some old -> token_kept old rt) ->
  tokens_kept d (set_refresh_tokens d (<[id := rt]> (refresh_tokens d))).
Proof.
  intros Hk i a Ha. simpl. destruct (decide (id = i)) as [->|Hne].
  - rewrite lookup_insert_eq. exists rt. split; [done|by apply Hk].
  - rewrite lookup_insert_ne by done. by exists a.
Qed.

Lemma revoked_kept fam at_ rt : token_kept rt (revoked fam at_ rt).
Proof. unfold revoked. case_match; [|done]. split_and!; done. Qed.

Lemma statement_tokens_kept now uid {Y} (e : tstoreE Y) d : tokens_kept d (tstore_apply now uid e d).2.
Proof.
  destruct e; simpl; try done;
    unfold pg_SaveLoginState, pg_TakeLoginState, pg_UpsertUserByGoogleSub, pg_SetActiveWorkspace,
      pg_CreateWorkspace, pg_AddMember, pg_UpdateMemberRole, pg_RemoveMember, pg_CreateAPIKey, pg_RevokeAPIKey,
      pg_TouchAPIKey, pg_ApplyMetering;
    try (repeat case_match; intros id' rt' Hrow; exists rt'; (split; [exact Hrow|reflexivity])).
  - unfold pg_CreateRefreshToken. destruct (_ && _) eqn:Hg; [|done]. guards.
    apply tokens_insert. intros old Hold. congruence.
  - unfold pg_MarkRefreshTokenUsed. destruct (refresh_tokens d !! id) as [rt|] eqn:Hrt; [|done].
    destruct (rt_UsedAt rt) eqn:Hu; [done|]. apply tokens_insert. intros old Hold. simplify_eq.
    split_and!; try done.
  - intros id rt H. simpl. rewrite lookup_fmap, H. simpl. eexists. split; [done|apply revoked_kept].
Qed.

Lemma world_tokens_kept {V} (env : tenancy_env V) X (e : tenE X) w :
  tokens_kept (tw_db w.1) (tw_db (tenancy_sem env _ e w).2.1).
Proof.
  apply (tenancy_sem_rel env tokens_kept (fun _ _ => True)); [intros Y e' d now uid _; apply statement_tokens_kept|].
  by destruct e.
Qed.

#[export] Instance world_kept_preorder V : PreOrder (fun w w' : tworld * V => tokens_kept (tw_db w.1) (tw_db w'.1)).
Proof. split; [by intros w|]. intros a b c ? ?. by etrans. Qed.

(** ** Single use *)

Definition hash_row (h : string) (d : tdb) (id : string) : Prop :=
  exists rt, refresh_tokens d !! id = Some rt /\ rt_TokenHash rt = h.

Definition spent (h : string) (d : tdb) : Prop :=
  exists id rt, refresh_tokens d !! id = Some rt /\ rt_TokenHash rt = h /\ is_Some (rt_UsedAt rt).

Lemma hash_row_kept h id d d' : tokens_kept d d' -> hash_row h d id -> hash_row h d' id.
Proof. intros Hk (rt & Hrt & Hh). destruct (Hk _ _ Hrt) as (rt' & Hrt' & Hh' & _). exists rt'. by rewrite Hh'. Qed.

Lemma by_hash_unique d id rt h :
  tdb_wf d -> refresh_tokens d !! id = Some rt -> rt_TokenHash rt = h -> by_hash d h = Some rt.
Proof.
  intros Hwf Hrt Hh. destruct (by_hash d h) as [rt'|] eqn:Hb.
  - apply by_hash_Some in Hb as [[i Hi] Hh']. assert (i = id) as ->; [|congruence].
    eapply (wf_hash _ Hwf); [exact Hi|exact Hrt|congruence].
  - by destruct (by_hash_None _ _ Hb _ _ Hrt).
Qed.

Lemma spent_kept h d d' : tokens_kept d d' -> spent h d -> spent h d'.
Proof.
  intros Hk (id & rt & Hrt & Hh & Hu). destruct (Hk _ _ Hrt) as (rt' & Hrt' & Hh' & _ & Hu' & _).
  exists id, rt'. rewrite Hh'. auto.
Qed.

(** The ids a request found under the hash [h]; [None] once it marked one of them. *)
Definition advance (h : string) (seen : list string) (ev : event tenE) : option (list string) :=
  match ev with
  | Ev e x =>
      match e in tenE X return X -> option (list string) with
      | TStore e' =>
          match e' in tstoreE Y return result Y -> option (list string) with
          | GetRefreshTokenByHash h' => fun x =>
              match x with Ok rt => if String.eqb h' h then Some (rt_ID rt :: seen) else Some seen | Err _ => Some seen end
          | MarkRefreshTokenUsed id _ => fun x =>
              match x with Ok _ => if bool_decide (id ∈ seen) then None else Some seen | Err _ => Some seen end
          | _ => fun _ => Some seen
          end
      | _ => fun _ => Some seen
      end x
  end.

(** Without a mark the program ends in [Q]. *)
Fixpoint unless_marked {A} (Q : A -> Prop) (h : string) (seen : list string) (p : prog tenE A) : Prop :=
  match p with
  | Ret a => Q a
  | Vis e k => forall x, match advance h seen (Ev e x) with
                         | None => True
                         | Some seen' => unless_marked Q h seen' (k x)
                         end
  end.

Lemma unless_marked_call {A X} (Q : A -> Prop) h seen (e : tenE X) (f : X -> prog tenE A) :
  (forall x, match advance h seen (Ev e x) with None => True | Some seen' => unless_marked Q h seen' (f x) end) ->
  unless_marked Q h seen (call e ≫= f).
Proof. done. Qed.

(** One call: a mark spends the token, which nobody did before. *)
Lemma advance_call {V} (env : tenancy_env V) h seen X (e : tenE X) w :
  tdb_wf (tw_db w.1) -> Forall (hash_row h (tw_db w.1)) seen ->
  let '(x, w') := tenancy_sem env _ e w in
  match advance h seen (Ev e x) with
  | None => ~ spent h (tw_db w.1) /\ spent h (tw_db w'.1)
  | Some seen' => Forall (hash_row h (tw_db w'.1)) seen'
  end.
Proof.
  intros Hwf Hseen. pose proof (world_tokens_kept env _ e w) as Hk.
  assert (Hseen' : Forall (hash_row h (tw_db (tenancy_sem env X e w).2.1)) seen).
  { eapply Forall_impl; [exact Hseen|]. intros id. by apply hash_row_kept. }
  destruct e; try (simpl in *; by destruct (env _ _ _ _)).
  cbn [tenancy_sem] in *. destruct (tstore_exec_spec e w.1) as (now & uid & Hs).
  destruct (tstore_exec e w.1) as [r d]. cbn [fst snd] in *.
  destruct e; try exact Hseen'; cbn [advance tstore_apply] in *; destruct r as [x|er]; try exact Hseen';
    apply up_to_fault_ok in Hs.
  - destruct (String.eqb_spec tokenHash h) as [->|_]; [|exact Hseen']. injection Hs as Hq <-.
    constructor; [|done]. unfold pg_GetRefreshTokenByHash in Hq. destruct (by_hash _ _) as [rt|] eqn:Hb; simplify_eq.
    apply by_hash_Some in Hb as [[id Hid] Hh]. destruct (wf_token _ Hwf _ _ Hid) as [Hi _].
    exists x. by rewrite Hi.
  - case_bool_decide as Hin; [|exact Hseen']. rewrite Forall_forall in Hseen.
    destruct (Hseen id Hin) as (rt & Hrt & Hh).
    unfold pg_MarkRefreshTokenUsed in Hs. rewrite Hrt in Hs. destruct (rt_UsedAt rt) eqn:Hu; [done|].
    injection Hs as _ <-. split.
    + intros (id' & rt' & Hrt' & Hh' & [t Ht]).
      assert (id' = id) as -> by (eapply (wf_hash _ Hwf); [exact Hrt'|exact Hrt|congruence]). congruence.
    + exists id. eexists. simpl. rewrite lookup_insert_eq. split; [done|]. split; [done|by eexists].
Qed.

(** A goroutine that has not marked a token of the hash. *)
Definition waiting {A} (Q : A -> Prop) (h : string) (d : tdb) (p : option (prog tenE A)) : Prop :=
  exists q seen, p = Some q /\ unless_marked Q h seen q /\ Forall (hash_row h d) seen.

(** Of two, one at most has marked it. *)
Definition one_marks {A} (Q : A -> Prop) (h : string) (p1 p2 : option (prog tenE A)) (d : tdb) : Prop :=
  waiting Q h d p1 /\ waiting Q h d p2 \/
  spent h d /\ (waiting Q h d p1 \/ waiting Q h d p2).

Lemma waiting_kept {A} (Q : A -> Prop) h d d' p : tokens_kept d d' -> waiting Q h d p -> waiting Q h d' p.
Proof.
  intros Hk (q & seen & -> & Hu & Hs). exists q, seen. split_and!; [done..|].
  eapply Forall_impl; [exact Hs|]. intros id. by apply hash_row_kept.
Qed.

Lemma one_marks_sym {A} (Q : A -> Prop) h p1 p2 d : one_marks Q h p1 p2 d -> one_marks Q h p2 p1 d.
Proof. unfold one_marks. tauto. Qed.

(** One step of the first of the two. *)
Lemma one_marks_step {V A} (env : tenancy_env V) (Q : A -> Prop) h X (e : tenE X) k p2 w :
  tdb_wf (tw_db w.1) -> one_marks Q h (Some (Vis e k)) p2 (tw_db w.1) ->
  let '(x, w') := tenancy_sem env _ e w in one_marks Q h (Some (k x)) p2 (tw_db w'.1).
Proof.
  intros Hwf HI. pose proof (world_tokens_kept env _ e w) as Hk.
  assert (Hcall : waiting Q h (tw_db w.1) (Some (Vis e k)) ->
    let '(x, w') := tenancy_sem env _ e w in
    waiting Q h (tw_db w'.1) (Some (k x)) \/ ~ spent h (tw_db w.1) /\ spent h (tw_db w'.1)).
  { intros (q & seen & [= <-] & Hu & Hseen). pose proof (advance_call env h seen X e w Hwf Hseen) as Ha.
    destruct (tenancy_sem env X e w) as [x w']. specialize (Hu x).
    destruct (advance h seen (Ev e x)) as [seen'|]; [|by right]. left. by exists (k x), seen'. }
  destruct (tenancy_sem env X e w) as [x w']. simpl in Hk. unfold one_marks.
  pose proof (waiting_kept Q h _ _ p2 Hk) as H2. pose proof (spent_kept h _ _ Hk) as Hsp.
  destruct HI as [[H1 Hp2]|[Hs [H1|Hp2]]]; [destruct (Hcall H1) as [?|[? ?]]; tauto| |tauto].
  destruct (Hcall H1) as [?|[? ?]]; tauto.
Qed.

Lemma one_marks_pool {V A} (env : tenancy_env V) (Q : A -> Prop) h i j (ps ps' : list (prog tenE A)) w w' :
  i <> j -> rtc (pool_step (tenancy_sem env)) (ps, w) (ps', w') ->
  tdb_wf (tw_db w.1) -> one_marks Q h (ps !! i) (ps !! j) (tw_db w.1) ->
  one_marks Q h (ps' !! i) (ps' !! j) (tw_db w'.1).
Proof.
  intros Hij Hr. remember (ps, w) as s eqn:Hs. remember (ps', w') as s' eqn:Hs'. revert ps w Hs.
  induction Hr as [s|s1 s2 s3 H12 _ IH]; intros ps w -> Hwf HI; [by simplify_eq|].
  inversion H12 as [n X e k x ? ? w1 Hn Hh]; subst. specialize (IH eq_refl _ _ eq_refl). apply IH; clear IH.
  { pose proof (world_wf env X e w Hwf) as Hw. by rewrite Hh in Hw. }
  pose proof (world_tokens_kept env X e w) as Hk. rewrite Hh in Hk.
  destruct (decide (n = i)) as [->|Hni]; [|destruct (decide (n = j)) as [->|Hnj]].
  - rewrite list_lookup_insert_eq, list_lookup_insert_ne by (done || by eapply lookup_lt_Some).
    rewrite Hn in HI. pose proof (one_marks_step env Q h X e k _ w Hwf HI) as Hs. by rewrite Hh in Hs.
  - rewrite list_lookup_insert_eq, list_lookup_insert_ne by (done || by eapply lookup_lt_Some).
    rewrite Hn in HI. apply one_marks_sym in HI. apply one_marks_sym.
    pose proof (one_marks_step env Q h X e k _ w Hwf HI) as Hs. by rewrite Hh in Hs.
  - rewrite !list_lookup_insert_ne by done. unfold one_marks in *.
    pose proof (waiting_kept Q h _ _ (ps !! i) Hk). pose proof (waiting_kept Q h _ _ (ps !! j) Hk).
    pose proof (spent_kept h _ _ Hk). tauto.
Qed.

Definition not_ok (rep : treply) : Prop := rs_status (rp_response rep) <> 200.

Section sessions.
Context (lib : libraries) (s : Server).

Definition refresh_hash (raw : string) : string := hashOpaqueToken (l_sha256 lib) raw.

(** A refresh answers 200 only after it marked the row it found. *)
Lemma refresh_marks r raw :
  takeRefreshToken r = inr raw -> unless_marked not_ok (refresh_hash raw) [] (serve lib s RRefresh r).
Proof.
  intros Ht. unfold serve, handleRefresh. rewrite Ht.
  apply unless_marked_call. intros now. apply unless_marked_call. intros x. cbn [advance].
  destruct x as [rt|e]; [|destruct e; discriminate].
  unfold refresh_hash. rewrite String.eqb_refl.
  destruct (rt_RevokedAt rt) as [t|]; [discriminate|]. destruct (rt_UsedAt rt) as [t|].
  { apply unless_marked_call. intros y. cbn [advance]. destruct y; discriminate. }
  destruct (rt_ExpiresAt rt <? now); [discriminate|]. apply unless_marked_call. intros y. cbn [advance].
  destruct y as [[]|e]; [|discriminate]. by rewrite bool_decide_eq_true_2 by left.
Qed.

(** C8: a refresh token is exchanged at most once.  Whatever requests of any routes run,
    interleaved at every call, with store faults and lost replies and the other
    dependencies answering anything, two refreshes that present the same token never
    both answer 200. *)
Theorem refresh_token_single_use {V} (env : tenancy_env V) (reqs : list (troute * trequest)) w ps w' i j ri rj raw a b :
  tdb_wf (tw_db w.1) ->
  rtc (pool_step (tenancy_sem env)) ((fun q => serve lib s q.1 q.2) <$> reqs, w) (ps, w') ->
  i <> j -> reqs !! i = Some (RRefresh, ri) -> reqs !! j = Some (RRefresh, rj) ->
  takeRefreshToken ri = inr raw -> takeRefreshToken rj = inr raw ->
  ps !! i = Some (Ret a) -> ps !! j = Some (Ret b) ->
  ~ (rs_status (rp_response a) = 200 /\ rs_status (rp_response b) = 200).
Proof.
  intros Hwf Hr Hij Hi Hj Hti Htj Ha Hb [Hoka Hokb].
  assert (H0 : one_marks not_ok (refresh_hash raw) (((fun q => serve lib s q.1 q.2) <$> reqs) !! i)
                 (((fun q => serve lib s q.1 q.2) <$> reqs) !! j) (tw_db w.1)).
  { left. rewrite !list_lookup_fmap, Hi, Hj. split.
    - eexists _, []. split_and!; [done|by apply refresh_marks|done].
    - eexists _, []. split_and!; [done|by apply refresh_marks|done]. }
  pose proof (one_marks_pool env not_ok _ i j _ _ w w' Hij Hr Hwf H0) as HI. rewrite Ha, Hb in HI.
  destruct HI as [[(q & sn & [= <-] & Hq & _) _]|[_ [(q & sn & [= <-] & Hq & _)|(q & sn & [= <-] & Hq & _)]]]; done.
Qed.

(** ** Logout *)

Definition family_revoked (fam : string) (d : tdb) : Prop :=
  forall id rt, refresh_tokens d !! id = Some rt -> rt_FamilyID rt = fam -> is_Some (rt_RevokedAt rt).

Lemma revoke_family fam at_ d : family_revoked fam (pg_RevokeRefreshFamily fam at_ d).2.
Proof.
  intros id rt. simpl. rewrite lookup_fmap. destruct (refresh_tokens d !! id) as [rt0|]; [|done].
  intros [= <-]. unfold revoked. destruct (String.eqb_spec (rt_FamilyID rt0) fam) as [->|Hne]; simpl; [|done].
  case_bool_decide as Hr; simpl; [by eexists|]. intros _. by destruct (rt_RevokedAt rt0); [eexists|].
Qed.

(** A lookup by hash in a run: the row of the hash, or a failed statement. *)
Lemma run_lookup {V} (env : tenancy_env V) h w rt :
  by_hash (tw_db w.1) h = Some rt ->
  exists x w', (x = Ok rt \/ x = Err (EMsg "postgres")) /\
    forall A (f : result RefreshToken -> prog tenE A),
      run (tenancy_sem env) (call (TStore (GetRefreshTokenByHash h)) ≫= f) w = run (tenancy_sem env) (f x) w'.
Proof.
  intros Hb. destruct (tenancy_sem env _ (TStore (GetRefreshTokenByHash h)) w) as [x w'] eqn:He.
  exists x, w'. split; [|intros A f; rewrite run_bind, run_call; by rewrite He].
  revert He. cbn [tenancy_sem]. unfold tstore_exec.
  destruct (default _ _) as [[now uid] fl]. cbn [tstore_apply]. unfold pg_GetRefreshTokenByHash. rewrite Hb.
  destruct fl; cbn [faulty]; intros [= <- _]; auto.
Qed.

(** A dead token, and that it stays one. *)
Definition dead_token (h id : string) (d : tdb) : Prop :=
  tdb_wf d /\ exists rt, refresh_tokens d !! id = Some rt /\ rt_TokenHash rt = h /\ is_Some (rt_RevokedAt rt).

Lemma world_dead {V} (env : tenancy_env V) h id X (e : tenE X) w :
  dead_token h id (tw_db w.1) -> dead_token h id (tw_db (tenancy_sem env _ e w).2.1).
Proof.
  intros [Hwf (rt & Hrt & Hh & Hrev)]. split; [by apply world_wf|].
  destruct (world_tokens_kept env X e w _ _ Hrt) as (rt2 & H2 & Hh2 & _ & _ & Hr2).
  exists rt2. split; [done|]. split; [congruence|auto].
Qed.

(** Whatever runs beside it, a refresh that presents a dead token is refused, or its
    lookup fails. *)
Lemma refresh_dead {V} (env : tenancy_env V) r raw id :
  takeRefreshToken r = inr raw ->
  under (tenancy_sem env) (fun w => dead_token (refresh_hash raw) id (tw_db w.1))
    (fun rep => rs_status (rp_response rep) ∈ [401; 500]) (serve lib s RRefresh r).
Proof.
  intros Ht. unfold serve, handleRefresh. rewrite Ht. intros w0 _ w [Hwf (rt & Hrt & Hh & [t Hrev])].
  destruct (run_lookup env (refresh_hash raw) w rt) as (x & w' & Hx & Hf); [by eapply by_hash_unique|].
  specialize (Hf _ Ret). rewrite run_bind, run_call in Hf.
  assert (Hans : (tenancy_sem env _ (TStore (GetRefreshTokenByHash (refresh_hash raw))) w).1 = x).
  { destruct (tenancy_sem env _ (TStore (GetRefreshTokenByHash (refresh_hash raw))) w). by injection Hf. }
  change (hashOpaqueToken (l_sha256 lib) raw) with (refresh_hash raw). cbn [pbind]. rewrite Hans.
  destruct Hx as [-> | ->];
    (match goal with |- under ?h ?I ?Q (prog_bind _ _ _ ?f (Ret ?x)) => change (under h I Q (f x)) end; cbv beta iota);
    [rewrite Hrev; left|right; left].
Qed.

(** C23: a logout ends the session.  When a logout that presents a token of a family,
    run without interruption, answers 204, every token the family has at that moment is
    dead for good: in any interleaving of any programs of the service from then on,
    whatever the other dependencies answer and the store fails at, a refresh among them
    that presents one of these tokens is refused (or fails on the database).  A token
    that a refresh under way during the logout issues is not among them: that one lives
    on ([logout_misses_concurrent_refresh]). *)
Theorem logout_ends_session {V} (env : tenancy_env V) r raw rt w rep w1 id' rt' r' raw' i
    (ps ps' : list (prog tenE treply)) w2 :
  takeRefreshToken r = inr raw -> by_hash (tw_db w.1) (refresh_hash raw) = Some rt -> tdb_wf (tw_db w.1) ->
  run (tenancy_sem env) (serve lib s RLogout r) w = (rep, w1) -> rs_status (rp_response rep) = 204 ->
  refresh_tokens (tw_db w1.1) !! id' = Some rt' -> rt_FamilyID rt' = rt_FamilyID rt ->
  takeRefreshToken r' = inr raw' -> rt_TokenHash rt' = refresh_hash raw' ->
  ps !! i = Some (serve lib s RRefresh r') ->
  rtc (pool_step (tenancy_sem env)) (ps, w1) (ps', w2) ->
  forall rep', ps' !! i = Some (Ret rep') -> rs_status (rp_response rep') ∈ [401; 500].
Proof.
  intros Ht Hb Hwf Hrun Hst Hid' Hfam Ht' Hhash Hi Hr rep' Hi'.
  assert (Hdead : tdb_wf (tw_db w1.1) /\ family_revoked (rt_FamilyID rt) (tw_db w1.1)).
  { pose proof (run_invariant (tenancy_sem env) (fun w => tdb_wf (tw_db w.1))
      (fun X e w => world_wf env X e w) (serve lib s RLogout r) w Hwf) as Hwf1.
    rewrite Hrun in Hwf1. split; [exact Hwf1|]. clear Hwf1.
    unfold serve, handleLogout in Hrun. rewrite Ht in Hrun.
    destruct (run_lookup env (refresh_hash raw) w rt Hb) as (x & w' & Hx & Hf).
    unfold refresh_hash in Hf. rewrite Hf in Hrun. clear Hf. destruct Hx as [-> | ->].
    - rewrite run_bind, run_call in Hrun. cbn [tenancy_sem] in Hrun. destruct (env _ TNow _ _) as [now v].
      rewrite run_bind, run_call in Hrun. cbn [tenancy_sem] in Hrun.
      destruct (tstore_exec_spec (RevokeRefreshFamily (rt_FamilyID rt) now) w'.1) as (t & uid & Hs).
      destruct (tstore_exec _ _) as [[[]|e] d]; simpl in Hrun; simplify_eq/=.
      apply up_to_fault_ok in Hs. injection Hs as <-. apply revoke_family.
    - simpl in Hrun. simplify_eq/=. }
  destruct Hdead as [Hwf1 Hrev].
  destruct (pool_under (tenancy_sem env) (fun w => dead_token (refresh_hash raw') id' (tw_db w.1))
              (fun rep => rs_status (rp_response rep) ∈ [401; 500]) i (serve lib s RRefresh r') (ps, w1) (ps', w2))
    as (_ & p' & Hp' & Hq); [intros X e v; apply world_dead| |exact Hi|by apply refresh_dead|exact Hr|].
  - split; [done|]. exists rt'. split; [done|]. split; [done|]. by eapply Hrev.
  - simpl in Hp'. rewrite Hi' in Hp'. by injection Hp' as <-.
Qed.
End sessions.

(** ** Logging in *)

Section login.
Context (lib : libraries) (s : Server).

(** The identity an exchange yielded, as the events of the request show it: the login
    state was taken, the code was redeemed with the state's PKCE verifier, and the id
    token verified, at the time of the request, with a key of the issuer's set (cached
    for at most an hour, or fetched in this very request), for this client and issuer,
    with the state's nonce and a verified email. *)
Definition key_known (past : list (event tenE)) (kid : string) (key : rsa_key) : Prop :=
  exists cached, Ev LoadKeys cached ∈ past /\ cached.1 !! kid = Some key /\
    ((exists now, Ev TNow now ∈ past /\ now - cached.2 <= jwksMaxAge) \/
     (exists keys fetched, Ev (StoreKeys keys fetched) tt ∈ past)).

Definition redeemed (past : list (event tenE)) (code verifier tok : string) : Prop :=
  exists resp, Ev (HttpDo (exchange_request (srv_oidc s) code verifier)) (Ok resp) ∈ past /\
    hp_Status resp = 200 /\ (exists body, read_limited (2 ^ 20) (hp_Body resp) = (body, None) /\
    l_decode_id_token lib body = Ok tok).

Definition id_verified (past : list (event tenE)) (tok nonce : string) (now : time) (v : OIDCVerifiedIdentity) : Prop :=
  exists kid key claims,
    l_jwt_header lib tok = Ok ("RS256", kid) /\ key_known past kid key /\
    l_jwt_verify lib tok key (id_token_options (srv_oidc s) now) = Ok claims /\
    ic_Nonce claims = nonce /\ nonce <> "" /\ ic_EmailVerified claims = true /\
    vi_Subject v = ic_Subject claims /\ vi_Subject v <> "" /\ vi_Email v = ic_Email claims /\ vi_Email v <> "".

Definition verified_login (r : trequest) (past : list (event tenE)) (sub email name : string) (now : time) : Prop :=
  exists ls tok v, Ev (TStore (TakeLoginState (tr_state r) now)) (Ok ls) ∈ past /\
    redeemed past (tr_code r) (ls_PKCEVerifier ls) tok /\ id_verified past tok (ls_Nonce ls) now v /\
    vi_Subject v = sub /\ vi_Email v = email /\ vi_Name v = name.

(** The user the callback's upsert returned. *)
Definition logged_in (past : list (event tenE)) (userID : string) : Prop :=
  exists sub email name now u,
    Ev (TStore (UpsertUserByGoogleSub sub email name now)) (Ok u) ∈ past /\ u_ID u = userID.

Definition login_write (r : trequest) (past : list (event tenE)) (ev : event tenE) : Prop :=
  match ev with
  | Ev (TStore e) _ =>
      match e with
      | TakeLoginState state _ => state = tr_state r
      | UpsertUserByGoogleSub sub email name now => verified_login r past sub email name now
      | CreateWorkspace ws owner => logged_in past owner /\ w_CreatedBy ws = owner
      | SetActiveWorkspace user _ => logged_in past user
      | CreateRefreshToken rt => logged_in past (rt_UserID rt)
      | GetMembership _ _ => True
      | _ => False
      end
  | _ => True
  end.

Lemma key_known_mono past past' kid key : past ⊆ past' -> key_known past kid key -> key_known past' kid key.
Proof.
  intros Hin (cached & Hl & Hk & Hf). exists cached. split_and!; [by apply Hin|done|].
  destruct Hf as [(now & Hn & Hle)|(keys & fetched & Hs)]; [left; exists now|right; exists keys, fetched]; auto.
Qed.

Definition quiet (X : Type) (e : tenE X) : Prop := match e with TStore _ => False | _ => True end.

Lemma quiet_login r tr X (e : tenE X) x : quiet _ e -> login_write r tr (Ev e x).
Proof. by destruct e. Qed.
#[local] Hint Resolve quiet_login : calls.

Ltac login_steps :=
  repeat first
    [ exact I
    | steps_step
    | match goal with |- steps _ _ _ _ (mbind _ _) => apply steps_bind end ].

(** An event of the trace, found by its shape. *)
Ltac found :=
  first [ apply elem_of_app; right; apply list_elem_of_singleton; reflexivity
        | apply elem_of_app; left; found
        | eassumption ].

Lemma key_fetched tr kid keys fetched cached x e :
  Ev (StoreKeys keys fetched) x ∈ tr -> Ev LoadKeys cached ∈ tr ->
  match match cached.1 !! kid with Some key => Ok key | None => Err e end with
  | Ok key => key_known tr kid key
  | Err _ => True
  end.
Proof.
  intros Hs Hl. destruct (cached.1 !! kid) as [key|] eqn:Hk; [|done]. exists cached. destruct x.
  split_and!; [done..|]. right. by exists keys, fetched.
Qed.

Lemma steps_keyForKid r past kid :
  steps (fun _ => True) (login_write r)
    (fun tr k => past ⊆ tr /\ match k with Ok key => key_known tr kid key | Err _ => True end)
    past (keyForKid (l_decode_jwks lib) (srv_oidc s) kid).
Proof.
  unfold keyForKid, fetchJWKS. login_steps; (split; [set_solver|try exact I]).
  - eapply key_fetched; found.
  - bool_prop. exists x. split; [set_solver|]. split; [done|]. left. exists x0. split; [set_solver|lia].
  - eapply key_fetched; found.
Qed.

Lemma steps_Exchange r past code verifier :
  steps (fun _ => True) (login_write r)
    (fun tr t => past ⊆ tr /\ match t with Ok tok => redeemed tr code verifier tok | Err _ => True end)
    past (Exchange (l_decode_id_token lib) (srv_oidc s) code verifier).
Proof.
  unfold Exchange. login_steps; (split; [set_solver|]).
  destruct x as [resp|e]; [|done]. destruct (read_limited _ _) as [body [e|]] eqn:Hb; [done|].
  destruct (negb _) eqn:Hst; [done|]. destruct (l_decode_id_token lib body) as [t|e] eqn:Hd; [|done].
  destruct (String.eqb t ""); [done|]. bool_prop. exists resp. split; [set_solver|]. split; [done|]. by exists body.
Qed.

Lemma verified_identity_Ok claims nonce v :
  verified_identity claims nonce = Ok v ->
  ic_Nonce claims = nonce /\ nonce <> "" /\ ic_EmailVerified claims = true /\
  vi_Subject v = ic_Subject claims /\ vi_Subject v <> "" /\ vi_Email v = ic_Email claims /\ vi_Email v <> "".
Proof. unfold verified_identity. intros Hv. break_match Hv. bool_prop. simpl. split_and!; congruence. Qed.

Lemma steps_VerifyIDToken r past tok nonce now :
  steps (fun _ => True) (login_write r)
    (fun tr v => past ⊆ tr /\ match v with Ok v => id_verified tr tok nonce now v | Err _ => True end)
    past (VerifyIDToken (l_decode_jwks lib) (l_jwt_header lib) (l_jwt_verify lib) (srv_oidc s) tok nonce now).
Proof.
  unfold VerifyIDToken. destruct (l_jwt_header lib tok) as [[alg kid]|e] eqn:Hh; [|by apply steps_ret].
  destruct (String.eqb_spec alg "RS256") as [->|_]; cbn [negb]; [|by apply steps_ret].
  apply steps_bind. eapply steps_mono; [apply steps_keyForKid|]. intros tr [key|e] [Hin Hk]; apply steps_ret; [|done].
  split; [done|]. destruct (l_jwt_verify _ _ _ _) as [claims|e] eqn:Hv; [|done].
  destruct (verified_identity claims nonce) as [v|e] eqn:Hi; [|done]. apply verified_identity_Ok in Hi.
  by exists kid, key, claims.
Qed.

Lemma redeemed_mono past past' code verifier tok :
  past ⊆ past' -> redeemed past code verifier tok -> redeemed past' code verifier tok.
Proof. intros Hin (resp & Hr & H). exists resp. split; [by apply Hin|done]. Qed.

Ltac logged := cbn [login_write]; repeat case_match; simplify_eq/=; repeat match goal with |- _ /\ _ => split end;
  try done; do 5 eexists; (split; [found|simpl; assumption]).

Lemma steps_issueSession r past user :
  logged_in past (u_ID user) ->
  steps (fun _ => True) (login_write r) (fun _ _ => True) past
    (issueSession (l_sha256 lib) (l_SignedString lib) (srv_signer s) (srv_accessTokenTTL s) (srv_refreshTokenTTL s)
       user "").
Proof.
  intros (sub & email & name & t & u & Hu & Hid). unfold issueSession, mint, newOpaqueToken. login_steps; logged.
Qed.

Lemma steps_login_user r past user now :
  logged_in past (u_ID user) ->
  steps (fun _ => True) (login_write r) (fun _ _ => True) past
    (login_user (l_sha256 lib) (l_SignedString lib) (srv_tiers s) (srv_signer s) (srv_accessTokenTTL s)
       (srv_refreshTokenTTL s) (srv_cookieSecure s) user now).
Proof.
  intros Hlog. unfold login_user. apply steps_bind.
  apply (steps_mono _ _ (fun tr x => match x with Ok u => logged_in tr (u_ID u) | Err _ => True end)).
  - destruct Hlog as (sub & email & name & t & u & Hu & Hid). unfold bootstrapWorkspace. login_steps; logged.
  - intros tr [u|e] Hu; [|by apply steps_ret]. apply steps_bind.
    eapply steps_mono; [by apply steps_issueSession|]. intros tr' x _. unfold answer_session, failed. login_steps.
Qed.

(** C16: logging in takes a verified identity.  In every run of the OIDC callback, the
    user is created or updated only after the login state was taken from the store (a
    delete, so it works once), the code redeemed with that state's PKCE verifier, and
    the id token verified (RS256 under a known key of the issuer, this client, not
    expired at the request's time, the state's nonce, a verified email), and then with
    exactly the token's subject and email; and workspaces and refresh tokens are
    created only for the user that upsert returned. *)
Theorem login_requires_verified_identity r tr rep :
  exec (serve lib s RCallback r) tr rep ->
  forall t1 ev t2, tr = t1 ++ ev :: t2 -> login_write r t1 ev.
Proof.
  intros H t1 ev t2 Htr.
  assert (Hs : steps (fun _ => True) (login_write r) (fun _ _ => True) [] (serve lib s RCallback r)).
  { clear. unfold serve, handleCallback.
    destruct (negb _); [by apply steps_ret|]. destruct (_ || _); [by apply steps_ret|].
    apply steps_call_bind. intros now _. split; [done|]. apply steps_call_bind. intros x _. split; [done|].
    destruct x as [ls|[]]; try (by apply steps_ret).
    apply steps_bind. eapply steps_mono; [apply steps_Exchange|].
    intros tr1 [tok|e] [Hin1 Htok]; [|by apply steps_ret].
    apply steps_bind. eapply steps_mono; [apply steps_VerifyIDToken|].
    intros tr2 [v|e] [Hin2 Hv]; [|by apply steps_ret].
    apply steps_call_bind. intros u _. split.
    - exists ls, tok, v. split; [apply Hin2, Hin1; found|]. split; [by eapply redeemed_mono|]. done.
    - destruct u as [u|e]; [|by apply steps_ret]. apply steps_login_user.
      eexists _, _, _, _, u. split; [found|done]. }
  destruct (steps_exec _ _ _ _ _ _ _ Hs H (Forall_True _)) as [_ Ha]. exact (Ha _ _ _ Htr).
Qed.
End login.

(** ** Concrete sessions *)

(** Random bytes and ids from a counter. *)
Definition ex_env : tenancy_env Z := fun X e _ n =>
  match e in tenE X return X * Z with
  | TStore _ => (Err (EMsg ""), n)
  | TNow => (7, n)
  | NewString => ("id" +:+ itoa n, n + 1)
  | RandRead _ => (Ok ("entropy" +:+ itoa n), n + 1)
  | HttpDo _ => (Err (EMsg "http"), n)
  | LoadKeys => ((∅, zero_time), n)
  | StoreKeys _ _ => (tt, n)
  end.

(** A request that presents the refresh token [raw]. *)
Definition ex_presents (raw : string) : trequest :=
  {| tr_Authorization := ""; tr_XAPIKey := ""; tr_XInternalToken := ""; tr_Cookie := Some raw;
     tr_id := ""; tr_userId := ""; tr_error := ""; tr_state := ""; tr_code := ""; tr_raw := Ok "";
     tr_single := true; tr_name := Err (EMsg "json"); tr_workspaceId := Err (EMsg "json");
     tr_member := Err (EMsg "json"); tr_role := Err (EMsg "json"); tr_refreshToken := Err (EMsg "json");
     tr_apiKey := Err (EMsg "json"); tr_upload := Err (EMsg "json"); tr_job := Err (EMsg "json") |}.

(** Alice's session: one token of the family [f]. *)
Definition ex_token : RefreshToken :=
  {| rt_ID := "t0"; rt_UserID := "alice"; rt_FamilyID := "f"; rt_TokenHash := refresh_hash ex_lib "raw0";
     rt_CreatedAt := 5; rt_ExpiresAt := 100; rt_UsedAt := None; rt_RevokedAt := None |}.

Definition ex_session : tdb :=
  let d := (tstore_apply 0 "" (SetActiveWorkspace "alice" "ws") ex_owners).2 in
  (tstore_apply 0 "" (CreateRefreshToken ex_token) d).2.

Lemma ex_session_wf : tdb_wf ex_session.
Proof. unfold ex_session. do 2 apply statement_wf. exact ex_owners_wf. Qed.

Definition ex_logged_in : tworld * Z := ({| tw_db := ex_session; tw_inputs := [] |}, 0).

Definition replies (ps : list (prog tenE treply)) : list Z :=
  (fun p => match p with Ret rep => rs_status (rp_response rep) | _ => 0 end) <$> ps.

(** Two refreshes of the token at once: one of them marks it. *)
Definition ex_refreshes : pool tenE treply (tworld * Z) :=
  run_sched (tenancy_sem ex_env) ([0; 1; 0; 1; 0; 1] ++ repeat 0 10)%nat
    ((fun q => serve ex_lib ex_server q.1 q.2) <$> [(RRefresh, ex_presents "raw0"); (RRefresh, ex_presents "raw0")],
     ex_logged_in).

Example one_refresh_wins : replies ex_refreshes.1 = [200; 500].
Proof. vm_compute. reflexivity. Qed.

Definition ex_logout_race : pool tenE treply (tworld * Z) :=
  run_sched (tenancy_sem ex_env) (repeat 0 9 ++ repeat 1 5 ++ repeat 0 5)%nat
    ((fun q => serve ex_lib ex_server q.1 q.2) <$> [(RRefresh, ex_presents "raw0"); (RLogout, ex_presents "raw0")],
     ex_logged_in).

(** A refresh that is under way while the user logs out leaves a live token behind:
    both answer success, the session goes on with the token the refresh issued. *)
Example logout_misses_concurrent_refresh :
  replies ex_logout_race.1 = [200; 204] /\
  rs_status (rp_response (run (tenancy_sem ex_env)
    (serve ex_lib ex_server RRefresh (ex_presents (EncodeToString "entropy1"))) ex_logout_race.2).1) = 200.
Proof. vm_compute. split; reflexivity. Qed.

Lemma refresh_token_single_use_witness :
  exists a b, ex_refreshes.1 = [Ret a; Ret b] /\
    ~ (rs_status (rp_response a) = 200 /\ rs_status (rp_response b) = 200).
Proof.
  destruct ex_refreshes as [ps w] eqn:He.
  assert (Hps : exists a b, ps = [Ret a; Ret b]).
  { pose proof one_refresh_wins as H. rewrite He in H. simpl in H.
    destruct ps as [|[a|] [|[b|] [|]]]; try discriminate H. by exists a, b. }
  destruct Hps as (a & b & ->). exists a, b. split; [reflexivity|].
  eapply (refresh_token_single_use ex_lib ex_server ex_env
    [(RRefresh, ex_presents "raw0"); (RRefresh, ex_presents "raw0")] ex_logged_in [Ret a; Ret b] w 0 1
    (ex_presents "raw0") (ex_presents "raw0") "raw0" a b); try reflexivity; [exact ex_session_wf| |discriminate].
  unfold ex_refreshes in He. rewrite <-He. apply run_sched_reachable.
Defined.

(** A logout, then the same token presented twice at a time. *)
Definition ex_after_logout : treply * (tworld * Z) :=
  run (tenancy_sem ex_env) (serve ex_lib ex_server RLogout (ex_presents "raw0")) ex_logged_in.

Definition ex_late_refreshes : pool tenE treply (tworld * Z) :=
  run_sched (tenancy_sem ex_env) [0; 1; 0; 1]%nat
    ([serve ex_lib ex_server RRefresh (ex_presents "raw0"); serve ex_lib ex_server RRefresh (ex_presents "raw0")],
     ex_after_logout.2).

Lemma logout_ends_session_witness :
  exists rep', ex_late_refreshes.1 !! 0%nat = Some (Ret rep') /\ rs_status (rp_response rep') ∈ [401; 500].
Proof.
  assert (Hrt : exists rt', refresh_tokens (tw_db ex_after_logout.2.1) !! "t0" = Some rt' /\
    rt_FamilyID rt' = "f" /\ refresh_hash ex_lib "raw0" = rt_TokenHash rt').
  { eexists. split; [vm_compute; reflexivity|]. split; reflexivity. }
  destruct Hrt as (rt' & Hrt & Hf & Hh).
  assert (Hdone : exists rep', ex_late_refreshes.1 !! 0%nat = Some (Ret rep'))
    by (eexists; vm_compute; reflexivity).
  destruct Hdone as [rep' Hrep]. exists rep'. split; [exact Hrep|].
  assert (Hb : by_hash ex_session (refresh_hash ex_lib "raw0") = Some ex_token) by (vm_compute; reflexivity).
  eapply (logout_ends_session ex_lib ex_server ex_env (ex_presents "raw0") "raw0" ex_token ex_logged_in
    ex_after_logout.1 ex_after_logout.2 "t0" rt' (ex_presents "raw0") "raw0" 0 _ ex_late_refreshes.1 ex_late_refreshes.2);
    [reflexivity|exact Hb|exact ex_session_wf|apply surjective_pairing|vm_compute; reflexivity|exact Hrt|exact Hf|
     reflexivity|by symmetry| | |exact Hrep]; [|rewrite <-surjective_pairing; apply run_sched_reachable].
  reflexivity.
Defined.

(** A callback whose id token verifies; the upsert fails on the database. *)
Definition ex_claims_of (nonce : string) : idTokenClaims :=
  {| ic_Nonce := nonce; ic_Email := "eve@x"; ic_EmailVerified := true; ic_Name := ""; ic_Subject := "g3" |}.

Definition ex_login_lib : libraries :=
  {| l_sha256 := fun s => s; l_IDKey := toy_IDKey; l_decode_jwks := fun _ => Err (EMsg "json");
     l_decode_id_token := fun body => Ok body; l_jwt_header := fun _ => Ok ("RS256", "k");
     l_jwt_verify := fun tok _ _ => Ok (ex_claims_of tok); l_ParseWithClaims := fun _ _ _ => Err (EMsg "jwt");
     l_SignedString := fun _ _ _ => Err (EMsg "jwt") |}.

Definition ex_callback : trequest :=
  {| tr_Authorization := ""; tr_XAPIKey := ""; tr_XInternalToken := ""; tr_Cookie := None;
     tr_id := ""; tr_userId := ""; tr_error := ""; tr_state := "st"; tr_code := "c"; tr_raw := Ok "";
     tr_single := true; tr_name := Err (EMsg "json"); tr_workspaceId := Err (EMsg "json");
     tr_member := Err (EMsg "json"); tr_role := Err (EMsg "json"); tr_refreshToken := Err (EMsg "json");
     tr_apiKey := Err (EMsg "json"); tr_upload := Err (EMsg "json"); tr_job := Err (EMsg "json") |}.

Definition ex_ls : LoginState :=
  {| ls_State := "st"; ls_Nonce := "n"; ls_PKCEVerifier := "pk"; ls_CreatedAt := 1; ls_ExpiresAt := 100 |}.

(** What happens up to the upsert. *)
Definition ex_login_past : list (event tenE) :=
  [Ev TNow 7; Ev (TStore (TakeLoginState "st" 7)) (Ok ex_ls);
   Ev (HttpDo (exchange_request ex_oidc "c" "pk"))
      (Ok {| hp_Status := 200; hp_Body := {| st_bytes := "n"; st_err := None |} |});
   Ev LoadKeys ({[ "k" := {| key_N := 15; key_E := 3 |} ]}, 5); Ev TNow 8].

Lemma login_requires_verified_identity_witness :
  verified_login ex_login_lib ex_server ex_callback ex_login_past "g3" "eve@x" "eve@x" 7.
Proof.
  apply (login_requires_verified_identity ex_login_lib ex_server ex_callback
    (ex_login_past ++ [Ev (TStore (UpsertUserByGoogleSub "g3" "eve@x" "eve@x" 7)) (Err (EMsg "db"))])
    (plain internalError)) with (ev := Ev (TStore (UpsertUserByGoogleSub "g3" "eve@x" "eve@x" 7)) (Err (EMsg "db")))
    (t2 := []); [|reflexivity].
  unfold ex_login_past. repeat (do 2 eexists; split; [reflexivity|]). split; reflexivity.
Defined.
