(* ===== verification/Hub.v ===== *)
(** * services/telemetry/internal/hub: the fan-out of server-sent events

    [hub.go].  A subscriber is a [Conn] with a bounded buffer; the hub's operations
    are functions on the map of connections, and [sse_do] runs them as the
    goroutines do: a publisher holds the hub's lock over all its pushes, each push
    appends under the connection's lock and then signals, and each reader
    ([ServeConn]) waits for a signal and drains. *)
From S2P Require Export Http.
#[local] Open Scope Z_scope.

Record Event := { ev_Name : string; ev_Data : string; ev_Tag : string }.

#[export] Instance Event_eq_dec : EqDecision Event.
Proof. solve_decision. Defined.

(** ** Connections *)

(** [notify] is the channel of capacity one: whether it holds a token. *)
Record Conn := {
  c_buf : list Event; c_max : Z; c_dropped : Z; c_notify : bool; c_filter : option (Event -> bool)
}.

Definition accepts (c : Conn) (ev : Event) : bool :=
  match c_filter c with Some f => f ev | None => true end.

(** What [push] does under the lock: the oldest event makes room. *)
Definition push_buf (ev : Event) (c : Conn) : Conn :=
  let full := c_max c <=? Z.of_nat (length (c_buf c)) in
  {| c_buf := (if full then tail (c_buf c) else c_buf c) ++ [ev];
     c_max := c_max c;
     c_dropped := (if full then u64 (c_dropped c + 1) else c_dropped c);
     c_notify := c_notify c; c_filter := c_filter c |}.

Definition set_notify (c : Conn) (b : bool) : Conn :=
  {| c_buf := c_buf c; c_max := c_max c; c_dropped := c_dropped c; c_notify := b; c_filter := c_filter c |}.

(** The send that does not block. *)
Definition signal (c : Conn) : Conn := set_notify c true.

Definition push (ev : Event) (c : Conn) : Conn :=
  if accepts c ev then signal (push_buf ev c) else c.

Definition Drain (c : Conn) : list Event * Z * Conn :=
  (c_buf c, c_dropped c,
   {| c_buf := []; c_max := c_max c; c_dropped := 0; c_notify := c_notify c; c_filter := c_filter c |}).

(** ** The hub *)

(** Connections are named by their address. *)
Record Hub := { conns : gmap nat Conn; sticky : gmap string Event; bufSize : Z }.

Definition New (n : Z) : Hub :=
  {| conns := ∅; sticky := ∅; bufSize := if n <? 1 then 1 else n |}.

Definition set_conns (h : Hub) (m : gmap nat Conn) : Hub :=
  {| conns := m; sticky := sticky h; bufSize := bufSize h |}.
Definition set_sticky (h : Hub) (m : gmap string Event) : Hub :=
  {| conns := conns h; sticky := m; bufSize := bufSize h |}.

Definition Publish (ev : Event) (h : Hub) : Hub := set_conns h (push ev <$> conns h).

Definition PublishSticky (ev : Event) (h : Hub) : Hub :=
  Publish ev (set_sticky h (<[ev_Name ev := ev]> (sticky h))).

Definition new_conn (n : Z) (filter : option (Event -> bool)) : Conn :=
  {| c_buf := []; c_max := n; c_dropped := 0; c_notify := false; c_filter := filter |}.

(** The sticky events are pushed in the order the map iteration has them. *)
Definition Subscribe (id : nat) (filter : option (Event -> bool)) (order : list Event) (h : Hub) : Hub :=
  set_conns h (<[id := foldl (fun c ev => push ev c) (new_conn (bufSize h) filter) order]> (conns h)).

Definition Unsubscribe (id : nat) (h : Hub) : Hub := set_conns h (delete id (conns h)).

(** ** What a stream carries *)

Inductive frame := FConnected | FHeartbeat | FDropped (n : Z) | FEvent (ev : Event).

Definition nl : string := String (ascii_of_nat 10) "".

Definition frame_text (f : frame) : string :=
  match f with
  | FConnected => ": connected" +:+ nl +:+ nl
  | FHeartbeat => ": hb" +:+ nl +:+ nl
  | FDropped n =>
      let q := String (ascii_of_nat 34) "" in
      "event: dropped" +:+ nl +:+ "data: {" +:+ q +:+ "dropped" +:+ q +:+ ":" +:+ itoa n +:+ "}" +:+ nl +:+ nl
  | FEvent ev => "event: " +:+ ev_Name ev +:+ nl +:+ "data: " +:+ ev_Data ev +:+ nl +:+ nl
  end.

(** What one drain writes. *)
Definition batch (evs : list Event) (dropped : Z) : list frame :=
  (if 0 <? dropped then [FDropped dropped] else []) ++ (FEvent <$> evs).

(** ** The goroutines *)

(** Where a publisher is in its loop over the connections. *)
Inductive publisher :=
| PIdle
| PPush (ev : Event) (todo : list nat)
| PSignal (ev : Event) (id : nat) (todo : list nat).

(** Where a reader is: in the [select], in the drain loop, or returned. *)
Inductive rpc := RWait | RDrain | RGone.
#[export] Instance rpc_eq_dec : EqDecision rpc.
Proof. solve_decision. Defined.

Record reader := { r_pc : rpc; r_out : list frame }.

(** [s_log] records, for each connection, the events its filter accepted. *)
Record sys := {
  s_hub : Hub; s_pub : publisher; s_readers : gmap nat reader; s_log : gmap nat (list Event)
}.

Definition init (n : Z) : sys := {| s_hub := New n; s_pub := PIdle; s_readers := ∅; s_log := ∅ |}.

Inductive action :=
| ABegin (stick : bool) (ev : Event) (order : list nat)
| APush | ASignal | AEnd
| ASubscribe (id : nat) (filter : option (Event -> bool)) (order : list Event)
| ARecv (id : nat)
| ADrain (id : nat) (flushed : bool)
| AHeartbeat (id : nat) (flushed : bool)
| ALeave (id : nat)
| AUnsubscribe (id : nat).

Definition with_hub (s : sys) (h : Hub) (p : publisher) : sys :=
  {| s_hub := h; s_pub := p; s_readers := s_readers s; s_log := s_log s |}.

Definition update_conn (h : Hub) (id : nat) (c : Conn) : Hub := set_conns h (<[id := c]> (conns h)).

Definition with_reader (s : sys) (id : nat) (r : reader) (h : Hub) : sys :=
  {| s_hub := h; s_pub := s_pub s; s_readers := <[id := r]> (s_readers s); s_log := s_log s |}.

Definition publisher_do (a : action) (s : sys) : option sys :=
  let h := s_hub s in
  match a, s_pub s with
  | ABegin stick ev order, PIdle =>
      if bool_decide (order ≡ₚ (map_to_list (conns h)).*1) then
        Some (with_hub s (if stick then set_sticky h (<[ev_Name ev := ev]> (sticky h)) else h) (PPush ev order))
      else None
  | APush, PPush ev (id :: todo) =>
      c ← conns h !! id;
      if accepts c ev then
        Some {| s_hub := update_conn h id (push_buf ev c); s_pub := PSignal ev id todo;
                s_readers := s_readers s; s_log := alter (fun l => l ++ [ev]) id (s_log s) |}
      else Some (with_hub s h (PPush ev todo))
  | ASignal, PSignal ev id todo =>
      c ← conns h !! id;
      Some (with_hub s (update_conn h id (signal c)) (PPush ev todo))
  | AEnd, PPush ev [] => Some (with_hub s h PIdle)
  | ASubscribe id filter order, PIdle =>
      if bool_decide (order ≡ₚ (map_to_list (sticky h)).*2) && bool_decide (s_readers s !! id = None) then
        Some {| s_hub := Subscribe id filter order h; s_pub := PIdle;
                s_readers := <[id := {| r_pc := RWait; r_out := [FConnected] |}]> (s_readers s);
                s_log := <[id := List.filter (accepts (new_conn (bufSize h) filter)) order]> (s_log s) |}
      else None
  | AUnsubscribe id, PIdle =>
      r ← s_readers s !! id;
      if bool_decide (r_pc r = RGone) then Some (with_hub s (Unsubscribe id h) PIdle) else None
  | _, _ => None
  end.

Definition reader_do (a : action) (s : sys) : option sys :=
  let h := s_hub s in
  match a with
  | ARecv id =>
      r ← s_readers s !! id; c ← conns h !! id;
      if bool_decide (r_pc r = RWait) && c_notify c then
        Some (with_reader s id {| r_pc := RDrain; r_out := r_out r |} (update_conn h id (set_notify c false)))
      else None
  | ADrain id flushed =>
      r ← s_readers s !! id; c ← conns h !! id;
      if bool_decide (r_pc r = RDrain) then
        let '(evs, dropped, c') := Drain c in
        Some (with_reader s id
                (if (dropped =? 0) && bool_decide (evs = []) then {| r_pc := RWait; r_out := r_out r |}
                 else {| r_pc := if (flushed : bool) then RDrain else RGone; r_out := r_out r ++ batch evs dropped |})
                (update_conn h id c'))
      else None
  | AHeartbeat id flushed =>
      r ← s_readers s !! id;
      if bool_decide (r_pc r = RWait) then
        Some (with_reader s id {| r_pc := if (flushed : bool) then RWait else RGone; r_out := r_out r ++ [FHeartbeat] |} h)
      else None
  | ALeave id =>
      r ← s_readers s !! id;
      if bool_decide (r_pc r = RWait) then Some (with_reader s id {| r_pc := RGone; r_out := r_out r |} h) else None
  | _ => None
  end.

Definition sse_do (a : action) (s : sys) : option sys :=
  match a with
  | ARecv _ | ADrain _ _ | AHeartbeat _ _ | ALeave _ => reader_do a s
  | _ => publisher_do a s
  end.

Definition sse_step (s s' : sys) : Prop := exists a, sse_do a s = Some s'.

Fixpoint sse_run (l : list action) (s : sys) : option sys :=
  match l with
  | [] => Some s
  | a :: l' => s' ← sse_do a s; sse_run l' s'
  end.
