(* ===== verification/HubProofs.v ===== *)
(** * services/telemetry/internal/hub: no event is lost silently

    What a subscriber receives accounts for every event its filter accepted; buffers
    stay bounded; no event waits for a signal that never comes. *)
From S2P Require Export Hub.
#[local] Open Scope Z_scope.

(** ** What the frames of a stream say about the events *)

(** [accounts fs l]: the frames show the events [l] in order, and a marker [dropped: n]
    stands exactly where [n] of them are missing. *)
Inductive accounts : list frame -> list Event -> Prop :=
| acc_nil : accounts [] []
| acc_event ev fs l : accounts fs l -> accounts (FEvent ev :: fs) (ev :: l)
| acc_dropped lost fs l :
    lost <> [] -> accounts fs l -> accounts (FDropped (Z.of_nat (length lost)) :: fs) (lost ++ l)
| acc_heartbeat fs l : accounts fs l -> accounts (FHeartbeat :: fs) l
| acc_connected fs l : accounts fs l -> accounts (FConnected :: fs) l.
#[local] Hint Constructors accounts : core.

Lemma accounts_app f1 l1 f2 l2 : accounts f1 l1 -> accounts f2 l2 -> accounts (f1 ++ f2) (l1 ++ l2).
Proof. induction 1; simpl; rewrite <-?app_assoc; auto. Qed.

Lemma accounts_events l : accounts (FEvent <$> l) l.
Proof. induction l; simpl; auto. Qed.

(** A drained batch, when the counter did not wrap. *)
Lemma accounts_batch lost evs :
  accounts (batch evs (Z.of_nat (length lost))) (lost ++ evs).
Proof.
  unfold batch. destruct lost as [|a lost]; [apply accounts_events|].
  destruct (Z.ltb_spec 0 (Z.of_nat (length (a :: lost)))) as [_|H]; [|simpl in H; lia].
  exact (acc_dropped (a :: lost) _ _ ltac:(done) (accounts_events evs)).
Qed.

(** ** The invariant of a connection *)

(** The stream so far, the drop counter and the buffer account for the log. *)
Definition explained (out : list frame) (c : Conn) (log : list Event) : Prop :=
  exists seen lost, log = seen ++ lost ++ c_buf c /\ accounts out seen /\
    c_dropped c = Z.of_nat (length lost) /\ (lost <> [] -> c_buf c <> []).

Definition signalling (p : publisher) (id : nat) : Prop :=
  match p with PSignal _ i _ => i = id | _ => False end.

(** Fewer than 2^64 events: the drop counter does not wrap. *)
Definition countable (log : list Event) : Prop := Z.of_nat (length log) < 2 ^ 64.

Record conn_ok (n : Z) (p : publisher) (id : nat) (r : reader) (c : Conn) (log : list Event) : Prop := {
  ok_max : c_max c = n;
  ok_buf : Z.of_nat (length (c_buf c)) <= n;
  ok_log : countable log -> r_pc r <> RGone -> explained (r_out r) c log;
  ok_wake : r_pc r = RWait -> c_buf c <> [] -> c_notify c = true \/ signalling p id;
  ok_filter : Forall (fun ev => accepts c ev = true) log
}.

Record sys_ok (s : sys) : Prop := {
  ok_size : 1 <= bufSize (s_hub s);
  ok_conn : forall id c, conns (s_hub s) !! id = Some c ->
    exists r log, s_readers s !! id = Some r /\ s_log s !! id = Some log /\
      conn_ok (bufSize (s_hub s)) (s_pub s) id r c log;
  ok_live : forall id r, s_readers s !! id = Some r -> r_pc r <> RGone -> is_Some (conns (s_hub s) !! id)
}.

Lemma push_buf_bound ev c n : c_max c = n -> 1 <= n -> Z.of_nat (length (c_buf c)) <= n ->
  Z.of_nat (length (c_buf (push_buf ev c))) <= n.
Proof.
  intros <- Hn Hb. simpl. rewrite length_app. simpl. destruct (Z.leb_spec (c_max c) (Z.of_nat (length (c_buf c)))).
  - destruct (c_buf c); simpl in *; lia.
  - lia.
Qed.

Lemma countable_app l l' : countable (l ++ l') -> countable l.
Proof. unfold countable. rewrite length_app. lia. Qed.

(** A push is explained: appended, at the price of the oldest event. *)
Lemma push_explained ev c out log :
  1 <= c_max c -> countable (log ++ [ev]) -> explained out c log -> explained out (push_buf ev c) (log ++ [ev]).
Proof.
  intros Hmax Hc (seen & lost & -> & Hacc & Hd & Hne). unfold explained. simpl.
  destruct (Z.leb_spec (c_max c) (Z.of_nat (length (c_buf c)))) as [Hfull|_].
  - destruct (c_buf c) as [|e buf] eqn:Hbuf; [simpl in Hfull; lia|]. exists seen, (lost ++ [e]). split_and!.
    + simpl. by rewrite <-!app_assoc.
    + done.
    + rewrite Hd, length_app. unfold u64. unfold countable in Hc. rewrite !length_app in Hc. simpl in *.
      rewrite Z.mod_small; lia.
    + simpl. by intros _ [_ ?]%app_eq_nil.
  - exists seen, lost. split_and!; [by rewrite <-!app_assoc|done|done|]. by intros _ [_ ?]%app_eq_nil.
Qed.

Lemma drain_explained out c log :
  countable log -> explained out c log ->
  explained (out ++ batch (c_buf c) (c_dropped c)) (Drain c).2 log /\
  (c_dropped c = 0 -> c_buf c = [] -> explained out (Drain c).2 log).
Proof.
  intros Hc (seen & lost & -> & Hacc & Hd & Hne). split.
  - exists (seen ++ lost ++ c_buf c), []. simpl. rewrite app_nil_r. split_and!; [done| |done|done].
    apply accounts_app; [done|]. rewrite Hd. apply accounts_batch.
  - intros H0 Hb. exists seen, []. rewrite Hb. simpl. split_and!; [|done..].
    destruct lost; [done|]. simpl in Hd. lia.
Qed.

(** ** Subscribing *)

Definition conn_fine (n : Z) (out : list frame) (c : Conn) (log : list Event) : Prop :=
  c_max c = n /\ Z.of_nat (length (c_buf c)) <= n /\ (countable log -> explained out c log) /\
  (c_buf c <> [] -> c_notify c = true).

Lemma replay_fine n out order : 1 <= n -> forall c log, conn_fine n out c log ->
  conn_fine n out (foldl (fun c ev => push ev c) c order) (log ++ List.filter (accepts c) order).
Proof.
  intros Hn. induction order as [|ev order IH]; intros c log Hc; simpl; [by rewrite app_nil_r|].
  unfold push at 2. destruct (accepts c ev) eqn:Ha; [|by apply IH].
  replace (log ++ ev :: List.filter (accepts c) order)
    with ((log ++ [ev]) ++ List.filter (accepts (signal (push_buf ev c))) order) by (by rewrite <-app_assoc).
  apply IH. destruct Hc as (Hm & Hb & He & Hw). split_and!; [done|by apply push_buf_bound| |done].
  intros Hcnt. apply (push_explained ev c); [lia|done|]. apply He. by eapply countable_app.
Qed.

Lemma replay_accepts order : forall c ev, accepts (foldl (fun c ev => push ev c) c order) ev = accepts c ev.
Proof.
  induction order as [|e order IH]; intros c ev; [done|]. simpl. rewrite IH. unfold push. by destruct (accepts c e).
Qed.

Lemma new_conn_fine n filter : 1 <= n -> conn_fine n [FConnected] (new_conn n filter) [].
Proof.
  intros Hn. split_and!; [done|simpl; lia| |done]. intros _. exists [], []. simpl. split_and!; auto.
Qed.

(** ** Every step preserves the invariant *)

Lemma init_ok n : sys_ok (init n).
Proof.
  split; simpl; [case_match; bool_prop; lia| |]; intros *; by rewrite lookup_empty.
Qed.

Lemma conn_ok_pub n p p' id r c log :
  conn_ok n p id r c log -> (signalling p id -> signalling p' id \/ c_notify c = true) -> conn_ok n p' id r c log.
Proof. intros [Hm Hb Hl Hw Hf] Hp. split; try done. intros Hr Hne. destruct (Hw Hr Hne); [by left|]. destruct (Hp H); auto. Qed.

(** A step leaves a connection, its reader and its log as they are, and a signal that
    was due stays due. *)
Definition untouched (s s' : sys) (i : nat) : Prop :=
  conns (s_hub s') !! i = conns (s_hub s) !! i /\ s_readers s' !! i = s_readers s !! i /\
  s_log s' !! i = s_log s !! i /\ (signalling (s_pub s) i -> signalling (s_pub s') i).

(** The connection [i] satisfies its invariant. *)
Definition at_ok (s : sys) (i : nat) (c : Conn) : Prop :=
  exists r log, s_readers s !! i = Some r /\ s_log s !! i = Some log /\
    conn_ok (bufSize (s_hub s)) (s_pub s) i r c log.

(** So a step is judged by the one connection it touches. *)
Lemma step_ok s s' id :
  sys_ok s -> bufSize (s_hub s') = bufSize (s_hub s) -> (forall i, i <> id -> untouched s s' i) ->
  (forall c, conns (s_hub s') !! id = Some c -> at_ok s' id c) ->
  (forall r, s_readers s' !! id = Some r -> r_pc r <> RGone -> is_Some (conns (s_hub s') !! id)) -> sys_ok s'.
Proof.
  intros [Hsz Hconn Hlive] Hsize Hun Hat Hl. split; [by rewrite Hsize|..].
  - intros i c Hc. destruct (decide (i = id)) as [->|Hne]; [by apply Hat|].
    destruct (Hun i Hne) as (Ec & Er & El & Ep). rewrite Ec in Hc. destruct (Hconn i c Hc) as (r & log & Hr & Hlog & Hok).
    exists r, log. rewrite Er, El, Hsize. split_and!; [done..|]. eapply conn_ok_pub; [exact Hok|auto].
  - intros i r Hr Hg. destruct (decide (i = id)) as [->|Hne]; [by eapply Hl|].
    destruct (Hun i Hne) as (Ec & Er & _). rewrite Ec. rewrite Er in Hr. by eapply Hlive.
Qed.

(** The other connections, by the lookup lemmas. *)
Ltac untouched_tac :=
  intros i Hne; unfold untouched; cbn [s_hub s_pub s_readers s_log with_hub with_reader update_conn set_conns conns Subscribe Unsubscribe];
  rewrite ?lookup_insert_ne, ?lookup_delete_ne, ?lookup_alter_ne by done;
  repeat match goal with H : s_pub _ = _ |- _ => rewrite H end; split_and!; try done;
  simpl; try congruence; tauto.

(** Publisher steps that touch no connection. *)
Lemma publisher_only s h p :
  sys_ok s -> conns h = conns (s_hub s) -> bufSize h = bufSize (s_hub s) ->
  (forall id, ~ signalling (s_pub s) id) -> sys_ok (with_hub s h p).
Proof.
  intros [Hsz Hconn Hlive] Hc Hb Hp. split; cbn [s_hub s_readers s_log s_pub with_hub].
  - by rewrite Hb.
  - intros i c. rewrite Hc, Hb. intros Hi. destruct (Hconn i c Hi) as (r & log & Hr & Hl & Hok).
    exists r, log. split_and!; [done..|]. eapply conn_ok_pub; [exact Hok|]. intros Hs. by destruct (Hp i).
  - intros i r. rewrite Hc. apply Hlive.
Qed.

Lemma append_ok s ev id todo c :
  sys_ok s -> s_pub s = PPush ev (id :: todo) -> conns (s_hub s) !! id = Some c -> accepts c ev = true ->
  sys_ok {| s_hub := update_conn (s_hub s) id (push_buf ev c); s_pub := PSignal ev id todo;
            s_readers := s_readers s; s_log := alter (fun l => l ++ [ev]) id (s_log s) |}.
Proof.
  intros Hs Hp Hc Hacc. pose proof (ok_size _ Hs) as Hsz. apply (step_ok s _ id); [done|done|untouched_tac|..]; simpl.
  - rewrite lookup_insert_eq. intros ? [= <-]. destruct (ok_conn _ Hs id c Hc) as (r & log & Hr & Hl & [Hm Hb He Hw Hf]).
    exists r, (log ++ [ev]). simpl. rewrite lookup_alter_eq, Hl. split_and!; [done..|]. split; simpl.
    + done.
    + by apply push_buf_bound.
    + intros Hcnt Hg. apply push_explained; [lia|done|]. apply He; [by eapply countable_app|done].
    + by right.
    + apply Forall_app. split; [exact Hf|by constructor].
  - intros r _ _. rewrite lookup_insert_eq. by eexists.
Qed.

Lemma signal_ok s ev id todo c :
  sys_ok s -> s_pub s = PSignal ev id todo -> conns (s_hub s) !! id = Some c ->
  sys_ok (with_hub s (update_conn (s_hub s) id (signal c)) (PPush ev todo)).
Proof.
  intros Hs Hp Hc. apply (step_ok s _ id); [done|done|untouched_tac|..]; simpl.
  - rewrite lookup_insert_eq. intros ? [= <-]. destruct (ok_conn _ Hs id c Hc) as (r & log & Hr & Hl & [Hm Hb He Hw Hf]).
    exists r, log. split_and!; [done..|]. split; simpl; try done. by left.
  - intros r _ _. rewrite lookup_insert_eq. by eexists.
Qed.

Lemma subscribe_ok s id filter order :
  sys_ok s -> s_pub s = PIdle ->
  sys_ok {| s_hub := Subscribe id filter order (s_hub s); s_pub := PIdle;
            s_readers := <[id := {| r_pc := RWait; r_out := [FConnected] |}]> (s_readers s);
            s_log := <[id := List.filter (accepts (new_conn (bufSize (s_hub s)) filter)) order]> (s_log s) |}.
Proof.
  intros Hs Hp. pose proof (ok_size _ Hs) as Hsz. apply (step_ok s _ id); [done|done|untouched_tac|..]; simpl.
  - rewrite lookup_insert_eq. intros ? [= <-]. do 2 eexists. simpl. rewrite !lookup_insert_eq. split_and!; [done..|].
    destruct (replay_fine _ _ order Hsz _ _ (new_conn_fine _ filter Hsz)) as (Hm & Hb & He & Hw). split; simpl; auto.
    apply Forall_forall. intros ev Hev%list_elem_of_In. apply filter_In in Hev as [_ Hev]. by rewrite replay_accepts.
  - intros r _ _. rewrite lookup_insert_eq. by eexists.
Qed.

Lemma unsubscribe_ok s id r :
  sys_ok s -> s_pub s = PIdle -> s_readers s !! id = Some r -> r_pc r = RGone ->
  sys_ok (with_hub s (Unsubscribe id (s_hub s)) PIdle).
Proof.
  intros Hs Hp Hr Hg. apply (step_ok s _ id); [done|done|untouched_tac|..]; simpl.
  - intros c. by rewrite lookup_delete_eq.
  - intros r' Hr' Hg'. simplify_eq.
Qed.

Lemma publisher_ok a s s' : sys_ok s -> publisher_do a s = Some s' -> sys_ok s'.
Proof.
  intros Hs. destruct a as [stick ev order| | | |id filter order|id|id flushed|id flushed|id|id];
    unfold publisher_do; try done.
  - destruct (s_pub s) eqn:Hp; try done. case_bool_decide; [|done]. intros [= <-].
    apply publisher_only; [done|by destruct stick|by destruct stick|]. intros i; rewrite Hp; by intros [].
  - destruct (s_pub s) as [|ev [|id todo]|] eqn:Hp; try done. destruct (conns (s_hub s) !! id) as [c|] eqn:Hc; [|done].
    simpl. destruct (accepts c ev) eqn:Ha; intros [= <-]; [by apply append_ok|].
    apply publisher_only; [done..|]. intros i; rewrite Hp; by intros [].
  - destruct (s_pub s) as [| |ev id todo] eqn:Hp; try done. destruct (conns (s_hub s) !! id) as [c|] eqn:Hc; [|done].
    simpl. intros [= <-]. by apply (signal_ok s ev).
  - destruct (s_pub s) as [|ev [|id todo]|] eqn:Hp; try done. intros [= <-].
    apply publisher_only; [done..|]. intros i; rewrite Hp; by intros [].
  - destruct (s_pub s) eqn:Hp; try done. destruct (_ && _) eqn:Hg; [|done]. intros [= <-]. by apply subscribe_ok.
  - destruct (s_pub s) eqn:Hp; try done. destruct (s_readers s !! id) as [r0|] eqn:Hr0; [|done]. simpl.
    case_bool_decide as Hg; [|done]. intros [= <-]. by eapply unsubscribe_ok.
Qed.

(** ** Readers *)

Lemma reader_ok_step s id r r' c c' :
  sys_ok s -> s_readers s !! id = Some r -> conns (s_hub s) !! id = Some c -> c_max c' = c_max c -> c_filter c' = c_filter c ->
  Z.of_nat (length (c_buf c')) <= Z.of_nat (length (c_buf c)) ->
  (forall log, countable log -> r_pc r' <> RGone -> r_pc r <> RGone -> explained (r_out r) c log -> explained (r_out r') c' log) ->
  (r_pc r' <> RGone -> r_pc r <> RGone) ->
  (r_pc r' = RWait -> c_buf c' <> [] -> r_pc r = RWait /\ c' = c) ->
  sys_ok (with_reader s id r' (update_conn (s_hub s) id c')).
Proof.
  intros Hs Hr Hc Hm Hcf Hlen He Hg Hw. apply (step_ok s _ id); [done|done|untouched_tac|..]; simpl.
  - rewrite lookup_insert_eq. intros ? [= <-]. destruct (ok_conn _ Hs id c Hc) as (r0 & log & Hr0 & Hl & Hok).
    simplify_eq. destruct Hok as [Km Kb Kl Kw Kf]. exists r', log. simpl. rewrite lookup_insert_eq. split_and!; [done..|].
    split; simpl; [by rewrite Hm|lia|auto|intros H1 H2; destruct (Hw H1 H2) as [H3 ->]; auto|].
    unfold accepts in *. by rewrite Hcf.
  - intros r0 _ _. rewrite lookup_insert_eq. by eexists.
Qed.

Lemma heartbeat_explained out c log : explained out c log -> explained (out ++ [FHeartbeat]) c log.
Proof.
  intros (seen & lost & -> & Ha & Hd). exists seen, lost. split_and!; [done| |apply Hd..].
  rewrite <-(app_nil_r seen). apply accounts_app; [done|]. repeat constructor.
Qed.


Lemma update_same h id c : conns h !! id = Some c -> update_conn h id c = h.
Proof. intros Hc. unfold update_conn, set_conns. rewrite insert_id by done. by destruct h. Qed.

(** A waiting reader writes or leaves. *)
Lemma waiting_ok s id r r' :
  sys_ok s -> s_readers s !! id = Some r -> r_pc r = RWait ->
  (forall c log, explained (r_out r) c log -> explained (r_out r') c log) -> sys_ok (with_reader s id r' (s_hub s)).
Proof.
  intros Hs Hr Hw He. destruct (ok_live _ Hs id r Hr) as [c Hc]; [by rewrite Hw|].
  rewrite <-(update_same _ _ _ Hc). apply (reader_ok_step s id r r' c c); auto; solve [lia | by rewrite Hw].
Qed.

Lemma drain_ok s id r c flushed :
  sys_ok s -> s_readers s !! id = Some r -> conns (s_hub s) !! id = Some c -> r_pc r = RDrain ->
  sys_ok (with_reader s id
    (if (c_dropped c =? 0) && bool_decide (c_buf c = []) then {| r_pc := RWait; r_out := r_out r |}
     else {| r_pc := if (flushed : bool) then RDrain else RGone; r_out := r_out r ++ batch (c_buf c) (c_dropped c) |})
    (update_conn (s_hub s) id (Drain c).2)).
Proof.
  intros Hs Hr Hc Hd. apply (reader_ok_step s id r _ c); [done..|simpl; lia| |by rewrite Hd|by destruct (_ && _)].
  intros log Hcnt _ _ He. destruct (drain_explained _ _ _ Hcnt He) as [H1 H2].
  destruct (_ && _) eqn:Hb; [|done]. bool_prop. by apply H2.
Qed.

Lemma reader_ok a s s' : sys_ok s -> reader_do a s = Some s' -> sys_ok s'.
Proof.
  intros Hs. destruct a as [stick ev order| | | |id filter order|id|id flushed|id flushed|id|id];
    unfold reader_do; try done; destruct (s_readers s !! id) as [r|] eqn:Hr; try done; simpl;
    try (destruct (conns (s_hub s) !! id) as [c|] eqn:Hc; [simpl|done]).
  - destruct (_ && _) eqn:Hg; [|done]. bool_prop. intros [= <-].
    apply (reader_ok_step s id r _ c); simpl; auto; [lia|by rewrite H|done].
  - case_bool_decide as Hd; [|done]. intros [= <-]. by apply (drain_ok s id r c flushed).
  - case_bool_decide as Hw; [|done]. intros [= <-]. apply (waiting_ok s id r); [done..|].
    intros c log. apply heartbeat_explained.
  - case_bool_decide as Hw; [|done]. intros [= <-]. by apply (waiting_ok s id r).
Qed.

Lemma sse_ok s s' : sys_ok s -> sse_step s s' -> sys_ok s'.
Proof.
  intros Hs [a Ha]. destruct a; first [exact (publisher_ok _ _ _ Hs Ha) | exact (reader_ok _ _ _ Hs Ha)].
Qed.

Lemma reachable_ok n s : rtc sse_step (init n) s -> sys_ok s.
Proof.
  intros Hr. pose proof (init_ok n) as Hi. induction Hr as [|s1 s2 s3 H12 _ IH]; [done|]. apply IH. by eapply sse_ok.
Qed.

(** C11: no event is lost silently.  In every state that publishers, subscribers and
    readers can reach, interleaved at every append, signal, drain and write, the frames
    written to a connected subscriber, followed by a drop marker for what is missing
    and by the buffered events, account for exactly the events its filter accepted, in
    their order: each marker stands where that many events are missing; and the buffer
    never holds more events than its bound. *)
Theorem no_silent_loss n s id c :
  rtc sse_step (init n) s -> conns (s_hub s) !! id = Some c ->
  exists r log, s_readers s !! id = Some r /\ s_log s !! id = Some log /\
    Z.of_nat (length (c_buf c)) <= bufSize (s_hub s) /\ Forall (fun ev => accepts c ev = true) log /\
    (Z.of_nat (length log) < 2 ^ 64 -> r_pc r <> RGone ->
       accounts (r_out r ++ batch (c_buf c) (c_dropped c)) log).
Proof.
  intros Hr Hc. destruct (ok_conn _ (reachable_ok n s Hr) id c Hc) as (r & log & Hrd & Hl & Hok).
  exists r, log. split_and!; [done|done|apply Hok|apply Hok|]. intros Hcnt Hg.
  destruct (ok_log _ _ _ _ _ _ Hok Hcnt Hg) as (seen & lost & -> & Ha & -> & _).
  apply accounts_app; [done|apply accounts_batch].
Qed.

(** ** No lost wake-up *)

(** What finishes the delivery to [id]: the signal that is due, and the reader's loop. *)
Definition finishing (id : nat) (a : action) : Prop :=
  match a with ASignal => True | ARecv i | ADrain i true => i = id | _ => False end.

(** The reader, draining, empties the buffer and goes back to waiting. *)
Lemma drain_settles s id r c log :
  sys_ok s -> s_readers s !! id = Some r -> conns (s_hub s) !! id = Some c -> s_log s !! id = Some log ->
  countable log -> r_pc r = RDrain ->
  exists acts s' r', sse_run acts s = Some s' /\ Forall (finishing id) acts /\ (length acts <= 2)%nat /\
    s_readers s' !! id = Some r' /\ r_pc r' = RWait /\ s_log s' = s_log s /\ accounts (r_out r') log.
Proof.
  intros Hs Hr Hc Hl Hcnt Hd. destruct (ok_conn _ Hs id c Hc) as (r0 & log0 & Hr0 & Hl0 & Hok). simplify_eq.
  assert (Hg : r_pc r <> RGone) by (by rewrite Hd).
  destruct (ok_log _ _ _ _ _ _ Hok Hcnt Hg) as (seen & lost & -> & Ha & Hdr & _).
  destruct ((c_dropped c =? 0) && bool_decide (c_buf c = [])) eqn:Hb.
  - exists [ADrain id true]. cbn [sse_run sse_do reader_do]. rewrite Hr, Hc. simpl. rewrite bool_decide_eq_true_2, Hb by done.
    do 2 eexists. split; [done|]. split; [by repeat constructor|]. split; [simpl; lia|]. simpl. rewrite lookup_insert_eq.
    split; [done|]. split; [done|]. split; [done|]. simpl. bool_prop. rewrite H0.
    destruct lost; [|simpl in *; lia]. by rewrite !app_nil_r.
  - exists [ADrain id true; ADrain id true]. cbn [sse_run sse_do reader_do]. rewrite Hr, Hc. simpl.
    rewrite bool_decide_eq_true_2, Hb by done. simpl. rewrite !lookup_insert_eq. simpl.
    do 2 eexists. split; [done|]. split; [by repeat constructor|]. split; [lia|]. simpl. rewrite lookup_insert_eq.
    split; [done|]. split; [done|]. split; [done|]. simpl. rewrite Hdr. apply accounts_app; [done|apply accounts_batch].
Qed.

Lemma sse_run_app l1 l2 s : sse_run (l1 ++ l2) s = sse_run l1 s ≫= sse_run l2.
Proof.
  revert s. induction l1 as [|a l1 IH]; intros s; [done|]. simpl.
  destruct (sse_do a s) as [s'|]; [apply IH|done].
Qed.

(** With a token in the channel the reader starts draining. *)
Lemma recv_settles s id r c log :
  sys_ok s -> s_readers s !! id = Some r -> conns (s_hub s) !! id = Some c -> s_log s !! id = Some log ->
  countable log -> r_pc r = RWait -> c_notify c = true ->
  exists acts s' r', sse_run acts s = Some s' /\ Forall (finishing id) acts /\ (length acts <= 3)%nat /\
    s_readers s' !! id = Some r' /\ r_pc r' = RWait /\ s_log s' = s_log s /\ accounts (r_out r') log.
Proof.
  intros Hs Hr Hc Hl Hcnt Hw Hn.
  assert (Hdo : sse_do (ARecv id) s = Some (with_reader s id {| r_pc := RDrain; r_out := r_out r |}
                                             (update_conn (s_hub s) id (set_notify c false)))).
  { simpl. by rewrite Hr, Hc; simpl; rewrite bool_decide_eq_true_2, Hn by done. }
  set (s1 := with_reader _ _ _ _) in Hdo. assert (Hs1 : sys_ok s1) by (eapply reader_ok; [exact Hs|exact Hdo]).
  destruct (drain_settles s1 id {| r_pc := RDrain; r_out := r_out r |} (set_notify c false) log)
    as (acts & s' & r' & Hrun & Hf & Hlen & H); try done; [by apply lookup_insert_eq..|].
  exists (ARecv id :: acts), s', r'. cbn [sse_run]. rewrite Hdo.
  split; [exact Hrun|]. split; [by constructor|]. split; [simpl; lia|exact H].
Qed.

(** C27: no wake-up is lost.  In every reachable state, a subscriber that is connected
    receives everything accepted for it so far within four more steps of its own reader
    and of the publisher's pending signal, without any further event or heartbeat:
    after them the reader waits with nothing left to write, and its stream accounts for
    the whole log. *)
Theorem no_lost_wakeup n s id c log r :
  rtc sse_step (init n) s -> conns (s_hub s) !! id = Some c -> s_readers s !! id = Some r ->
  s_log s !! id = Some log -> r_pc r <> RGone -> Z.of_nat (length log) < 2 ^ 64 ->
  exists acts s' r', sse_run acts s = Some s' /\ Forall (finishing id) acts /\ (length acts <= 4)%nat /\
    s_readers s' !! id = Some r' /\ r_pc r' = RWait /\ s_log s' = s_log s /\ accounts (r_out r') log.
Proof.
  intros Hreach Hc Hr Hl Hg Hcnt. pose proof (reachable_ok n s Hreach) as Hs.
  destruct (ok_conn _ Hs id c Hc) as (r0 & log0 & Hr0 & Hl0 & Hok). simplify_eq.
  destruct (r_pc r) eqn:Hpc; [| |done].
  - destruct (c_buf c) as [|e buf] eqn:Hbuf.
    + destruct (ok_log _ _ _ _ _ _ Hok Hcnt) as (seen & lost & -> & Ha & _ & Hne); [by rewrite Hpc|].
      rewrite Hbuf in *. exists [], s, r. destruct lost; [|by destruct Hne]. rewrite !app_nil_r. split_and!; auto.
    + destruct (ok_wake _ _ _ _ _ _ Hok Hpc) as [Hn|Hsig]; [by rewrite Hbuf| |].
      * destruct (recv_settles s id r c log Hs Hr Hc Hl Hcnt Hpc Hn) as (acts & s' & r' & H1 & H2 & H3 & H4).
        exists acts, s', r'. split; [exact H1|]. split; [exact H2|]. split; [lia|exact H4].
      * destruct (s_pub s) as [| |ev i todo] eqn:Hp; [done..|]. simpl in Hsig. subst i.
        assert (Hdo : sse_do ASignal s = Some (with_hub s (update_conn (s_hub s) id (signal c)) (PPush ev todo)))
          by (simpl; by rewrite Hp, Hc).
        destruct (recv_settles _ id r (signal c) log (signal_ok _ _ _ _ _ Hs Hp Hc)) as (acts & s' & r' & H1 & H2 & H3 & H4);
          try done; [by apply lookup_insert_eq|].
        exists (ASignal :: acts), s', r'. cbn [sse_run]. rewrite Hdo.
        split; [exact H1|]. split; [by constructor|]. split; [simpl; lia|exact H4].
  - destruct (drain_settles s id r c log Hs Hr Hc Hl Hcnt Hpc) as (acts & s' & r' & H1 & H2 & H3 & H4).
    exists acts, s', r'. split; [exact H1|]. split; [exact H2|]. split; [lia|exact H4].
Qed.

(** ** The loop is the function *)

Lemma push_loop ev todo s :
  NoDup todo -> (forall i, i ∈ todo -> is_Some (conns (s_hub s) !! i)) -> s_pub s = PPush ev todo ->
  exists acts s', sse_run acts s = Some s' /\ s_pub s' = PPush ev [] /\ s_readers s' = s_readers s /\
    sticky (s_hub s') = sticky (s_hub s) /\ bufSize (s_hub s') = bufSize (s_hub s) /\
    forall i, conns (s_hub s') !! i =
      if bool_decide (i ∈ todo) then push ev <$> conns (s_hub s) !! i else conns (s_hub s) !! i.
Proof.
  revert s. induction todo as [|id todo IH]; intros s Hnd Hin Hp.
  { exists [], s. by split_and!. }
  apply NoDup_cons in Hnd as [Hid Hnd]. destruct (Hin id) as [c Hc]; [left|].
  assert (Hone : exists acts s1, sse_run acts s = Some s1 /\ s_pub s1 = PPush ev todo /\ s_readers s1 = s_readers s /\
    s_hub s1 = update_conn (s_hub s) id (push ev c)).
  { unfold push. destruct (accepts c ev) eqn:Ha.
    - exists [APush; ASignal]. simpl. rewrite Hp, Hc. simpl. rewrite Ha. simpl. rewrite lookup_insert_eq.
      eexists. split; [reflexivity|]. split_and!; [done..|]. unfold update_conn, set_conns. simpl. by rewrite insert_insert_eq.
    - exists [APush]. simpl. rewrite Hp, Hc. simpl. rewrite Ha. eexists. split; [reflexivity|]. simpl. split_and!; [done..|]. by rewrite update_same. }
  destruct Hone as (a1 & s1 & Hr1 & Hp1 & Hrd1 & Hh1).
  destruct (IH s1 Hnd) as (a2 & s2 & Hr2 & Hp2 & Hrd2 & Hst & Hb & Hl); [|done|].
  { intros i Hi. rewrite Hh1. simpl. destruct (decide (id = i)) as [->|Hne]; [set_solver|].
    rewrite lookup_insert_ne by done. apply Hin. by right. }
  exists (a1 ++ a2), s2. rewrite sse_run_app, Hr1. simpl. rewrite Hh1 in Hst, Hb, Hl.
  split_and!; [done|done|by rewrite Hrd2|done|done|]. intros i. rewrite Hl. simpl.
  destruct (decide (id = i)) as [->|Hne].
  - rewrite lookup_insert_eq, Hc, bool_decide_eq_false_2, bool_decide_eq_true_2 by set_solver. done.
  - rewrite lookup_insert_ne by done. by rewrite (bool_decide_ext (i ∈ id :: todo) (i ∈ todo)) by set_solver.
Qed.

(** publishing is the loop of its pushes.  From a state where no publisher runs, the
    steps of one publisher, not interleaved with a reader, exist for every order of the
    map iteration, and end with exactly [Publish] (or [PublishSticky]) applied to the
    hub. *)
Theorem publish_loop stick ev order s :
  s_pub s = PIdle -> order ≡ₚ (map_to_list (conns (s_hub s))).*1 ->
  exists acts s', sse_run (ABegin stick ev order :: acts) s = Some s' /\ s_pub s' = PIdle /\
    s_hub s' = (if stick then PublishSticky ev (s_hub s) else Publish ev (s_hub s)).
Proof.
  intros Hp Hord. set (s0 := with_hub s (if stick then set_sticky (s_hub s) (<[ev_Name ev := ev]> (sticky (s_hub s))) else s_hub s)
    (PPush ev order)).
  assert (Hdo : sse_do (ABegin stick ev order) s = Some s0) by (simpl; rewrite Hp; by rewrite bool_decide_eq_true_2).
  assert (Hc0 : conns (s_hub s0) = conns (s_hub s)) by (by destruct stick).
  destruct (push_loop ev order s0) as (acts & s1 & Hr & Hp1 & _ & Hst & Hb & Hl); [| |done|].
  - rewrite Hord. apply NoDup_fst_map_to_list.
  - intros i. rewrite Hc0, Hord, list_elem_of_fmap. intros ([j c] & -> & Hj%elem_of_map_to_list). by eexists.
  - exists (acts ++ [AEnd]), (with_hub s1 (s_hub s1) PIdle). cbn [sse_run]. rewrite Hdo. simpl.
    rewrite sse_run_app, Hr. simpl. rewrite Hp1. split_and!; [done..|]. simpl.
    assert (Hc1 : conns (s_hub s1) = push ev <$> conns (s_hub s)).
    { apply map_eq. intros i. rewrite Hl, Hc0, lookup_fmap. destruct (conns (s_hub s) !! i) as [c|] eqn:Hc.
      - rewrite bool_decide_eq_true_2; [done|]. rewrite Hord, list_elem_of_fmap. exists (i, c).
        split; [done|by apply elem_of_map_to_list].
      - by destruct (bool_decide _). }
    destruct (s_hub s1) as [m st b] eqn:Hh1. simpl in *. subst m st b. by destruct stick.
Qed.

(** ** A concrete stream *)

Definition ex_ev (tag : string) : Event := {| ev_Name := "log"; ev_Data := "{}"; ev_Tag := tag |}.

(** Buffers of two events; one subscriber to the tag [a]; four events, of which the
    reader drains the first before the others come. *)
Definition ex_only_a : option (Event -> bool) := Some (fun ev => String.eqb (ev_Tag ev) "a").

Definition ex_publish (tag : string) : list action :=
  if String.eqb tag "a" then [ABegin false (ex_ev tag) [1%nat]; APush; ASignal; AEnd]
  else [ABegin false (ex_ev tag) [1%nat]; APush; AEnd].

Definition ex_acts : list action :=
  [ASubscribe 1%nat ex_only_a []] ++ ex_publish "a" ++ [ARecv 1%nat; ADrain 1%nat true] ++
  ex_publish "b" ++ ex_publish "a" ++ ex_publish "a" ++ [ABegin false (ex_ev "a") [1%nat]; APush].

Definition ex_sys : option sys := sse_run ex_acts (init 2).

Lemma sse_run_reachable l s s' : sse_run l s = Some s' -> rtc sse_step s s'.
Proof.
  revert s. induction l as [|a l IH]; intros s; simpl; [by intros [= ->]|].
  destruct (sse_do a s) as [s1|] eqn:Hd; [|done]. intros Hr. eapply rtc_l; [by exists a|by apply IH].
Qed.

(** The buffer is full, one event was dropped, and the signal of the last is due. *)
Lemma ex_sys_state : exists s c r log,
  ex_sys = Some s /\ conns (s_hub s) !! 1%nat = Some c /\ s_readers s !! 1%nat = Some r /\ s_log s !! 1%nat = Some log /\
  log = [ex_ev "a"; ex_ev "a"; ex_ev "a"; ex_ev "a"] /\ r_pc r = RDrain /\ c_dropped c = 1 /\
  r_out r = [FConnected; FEvent (ex_ev "a")].
Proof. do 4 eexists. split; [vm_compute; reflexivity|]. repeat (split; [vm_compute; reflexivity|]). vm_compute. reflexivity. Qed.

Lemma no_silent_loss_witness :
  accounts [FConnected; FEvent (ex_ev "a"); FDropped 1; FEvent (ex_ev "a"); FEvent (ex_ev "a")]
    [ex_ev "a"; ex_ev "a"; ex_ev "a"; ex_ev "a"].
Proof.
  destruct ex_sys as [s|] eqn:Hs; [|vm_compute in Hs; discriminate Hs].
  destruct ex_sys_state as (s' & c & r & log & E & Hc & Hr & Hl & Hlog & Hpc & Hd & Ho).
  assert (s' = s) as -> by congruence.
  destruct (no_silent_loss 2 s 1%nat c) as (r' & log' & Hr' & Hl' & Hb & _ & H);
    [exact (sse_run_reachable _ _ _ Hs)|exact Hc|].
  assert (r' = r) as -> by congruence. assert (log' = log) as -> by congruence.
  assert (Hbuf : c_buf c = [ex_ev "a"; ex_ev "a"]).
  { vm_compute in Hs. injection Hs as <-. vm_compute in Hc. injection Hc as <-. reflexivity. }
  rewrite Ho, Hd, Hbuf, Hlog in H. apply H; [vm_compute; reflexivity|rewrite Hpc; discriminate].
Defined.

Lemma no_lost_wakeup_witness : exists acts s' r', (length acts <= 4)%nat /\
  (s ← ex_sys; sse_run acts s) = Some s' /\ s_readers s' !! 1%nat = Some r' /\ r_pc r' = RWait.
Proof.
  destruct ex_sys_state as (s & c & r & log & E & Hc & Hr & Hl & Hlog & Hpc & _).
  destruct (no_lost_wakeup 2 s 1%nat c log r) as (acts & s' & r' & Hrun & _ & Hlen & Hr' & Hw & _);
    [exact (sse_run_reachable _ _ _ E)|exact Hc|exact Hr|exact Hl|rewrite Hpc; discriminate|rewrite Hlog; vm_compute; reflexivity|].
  exists acts, s', r'. rewrite E. split; [exact Hlen|]. split; [exact Hrun|]. split; [exact Hr'|exact Hw].
Defined.

Lemma publish_loop_witness : exists acts s',
  sse_run (ABegin true (ex_ev "a") [] :: acts) (init 2) = Some s' /\ s_hub s' = PublishSticky (ex_ev "a") (New 2).
Proof.
  destruct (publish_loop true (ex_ev "a") [] (init 2)) as (acts & s' & H & _ & Hh); [reflexivity|reflexivity|].
  exists acts, s'. split; [exact H|exact Hh].
Defined.
