(* ===== verification/Aggregator.v ===== *)
(** * services/telemetry/internal/jobs: the job aggregator

    [aggregator.go].  A handler decodes and validates its message, updates the
    aggregator under its lock, and then publishes to the hub, so that its calls are
    those of [aggE].  [json.Unmarshal] and [json.Marshal] are functions of the
    section. *)
From S2P Require Export Hub.
#[local] Open Scope Z_scope.

Definition StateQueued : string := "queued".
Definition StateRunning : string := "running".
Definition StateCompleted : string := "completed".
Definition StateFailed : string := "failed".

Record stateEvent := { se_JobID : string; se_WorkspaceID : string; se_State : string; se_At : time }.

Record progressEvent := {
  pe_JobID : string; pe_WorkspaceID : string; pe_FPS : spec_float; pe_SpeedX : spec_float;
  pe_EtaSeconds : spec_float; pe_ProgressPct : spec_float; pe_At : time
}.

(** [contracts.JobStreamEvent] *)
Record JobStreamEvent := {
  js_JobID : string; js_State : string; js_FPS : spec_float; js_SpeedX : spec_float;
  js_ETASeconds : spec_float; js_ProgressPct : spec_float
}.

Record Aggregate := {
  ag_Queued : Z; ag_InFlight : Z; ag_Completed : Z; ag_Failed : Z; ag_FarmFPS : spec_float;
  ag_AggregateSpeedX : spec_float
}.

Record jobState := {
  j_state : string; j_fps : spec_float; j_speedX : spec_float; j_etaSeconds : spec_float; j_progressPct : spec_float
}.

Record Aggregator := {
  active : gmap string jobState; queued : Z; inFlight : Z; completed : Z; failed : Z
}.

Definition new_aggregator : Aggregator :=
  {| active := ∅; queued := 0; inFlight := 0; completed := 0; failed := 0 |}.

Definition new_job (state : string) : jobState :=
  {| j_state := state; j_fps := f0; j_speedX := f0; j_etaSeconds := f0; j_progressPct := f0 |}.

Definition with_state (js : jobState) (state : string) : jobState :=
  {| j_state := state; j_fps := j_fps js; j_speedX := j_speedX js; j_etaSeconds := j_etaSeconds js;
     j_progressPct := j_progressPct js |}.

Definition set_active (a : Aggregator) (m : gmap string jobState) : Aggregator :=
  {| active := m; queued := queued a; inFlight := inFlight a; completed := completed a; failed := failed a |}.

(** Add to the counters: [int64] additions. *)
Definition count (a : Aggregator) (dq di dc df : Z) : Aggregator :=
  {| active := active a; queued := i64 (queued a + dq); inFlight := i64 (inFlight a + di);
     completed := i64 (completed a + dc); failed := i64 (failed a + df) |}.

Definition jobEventLocked (a : Aggregator) (jobID state : string) : JobStreamEvent :=
  match active a !! jobID with
  | Some js => {| js_JobID := jobID; js_State := state; js_FPS := j_fps js; js_SpeedX := j_speedX js;
                  js_ETASeconds := j_etaSeconds js; js_ProgressPct := j_progressPct js |}
  | None => {| js_JobID := jobID; js_State := state; js_FPS := f0; js_SpeedX := f0; js_ETASeconds := f0;
               js_ProgressPct := if String.eqb state StateCompleted then f100 else f0 |}
  end.

(** [order]: the jobs in the order of the map iteration. *)
Definition aggregateLocked (order : list jobState) (a : Aggregator) : Aggregate :=
  let running := List.filter (fun js => String.eqb (j_state js) StateRunning) order in
  {| ag_Queued := queued a; ag_InFlight := inFlight a; ag_Completed := completed a; ag_Failed := failed a;
     ag_FarmFPS := foldl (fun s js => fadd s (j_fps js)) f0 running;
     ag_AggregateSpeedX := foldl (fun s js => fadd s (j_speedX js)) f0 running |}.

(** The change a state event makes. *)
Definition state_change (ev : stateEvent) (a : Aggregator) : Aggregator :=
  let id := se_JobID ev in
  let put st := set_active a (<[id := st]> (active a)) in
  if String.eqb (se_State ev) StateQueued then
    match active a !! id with
    | None => count (put (new_job StateQueued)) 1 0 0 0
    | Some _ => a
    end
  else if String.eqb (se_State ev) StateRunning then
    match active a !! id with
    | Some js => if String.eqb (j_state js) StateQueued then count (put (with_state js StateRunning)) (-1) 1 0 0 else a
    | None => count (put (new_job StateRunning)) 0 1 0 0
    end
  else
    let a := match active a !! id with
             | Some js =>
                 let a' := set_active a (delete id (active a)) in
                 if String.eqb (j_state js) StateQueued then count a' (-1) 0 0 0 else count a' 0 (-1) 0 0
             | None => a
             end in
    if String.eqb (se_State ev) StateCompleted then count a 0 0 1 0 else count a 0 0 0 1.

(** The change a progress event makes, and the job's state after it. *)
Definition progress_change (ev : progressEvent) (a : Aggregator) : Aggregator * string :=
  let id := pe_JobID ev in
  let measured st := {| j_state := st; j_fps := pe_FPS ev; j_speedX := pe_SpeedX ev;
                        j_etaSeconds := pe_EtaSeconds ev; j_progressPct := pe_ProgressPct ev |} in
  let put st := set_active a (<[id := measured st]> (active a)) in
  match active a !! id with
  | None => (count (put StateRunning) 0 1 0 0, StateRunning)
  | Some js =>
      if String.eqb (j_state js) StateQueued then (count (put StateRunning) (-1) 1 0 0, StateRunning)
      else (put (j_state js), j_state js)
  end.

(** ** The handlers *)

(** The critical sections, and the hub's two publications. *)
Inductive aggE : Type -> Type :=
| LockState (ev : stateEvent) : aggE (JobStreamEvent * Aggregate)
| LockProgress (ev : progressEvent) : aggE (JobStreamEvent * Aggregate)
| LockSnapshot : aggE Aggregate
| HubPublish (ev : Event) : aggE ()
| HubPublishSticky (ev : Event) : aggE ().

Definition job_json (j : JobStreamEvent) : json :=
  JObj [("jobId", JStr (js_JobID j)); ("state", JStr (js_State j)); ("fps", JFloat (js_FPS j));
        ("speedX", JFloat (js_SpeedX j)); ("etaSeconds", JFloat (js_ETASeconds j));
        ("progressPct", JFloat (js_ProgressPct j))].

Definition aggregate_json (a : Aggregate) : json :=
  JObj [("queued", JNum (ag_Queued a)); ("inFlight", JNum (ag_InFlight a)); ("completed", JNum (ag_Completed a));
        ("failed", JNum (ag_Failed a)); ("farmFps", JFloat (ag_FarmFPS a));
        ("aggregateSpeedX", JFloat (ag_AggregateSpeedX a))].

Section aggregator.
(** [Decode] of the first JSON value with known fields only, and whether more data
    follows ([More]). *)
Context (decode_state : string -> result (stateEvent * bool)) (decode_progress : string -> result (progressEvent * bool)).
Context (Marshal : json -> result string).

Definition strictUnmarshal {A} (decode : string -> result (A * bool)) (data : string) : result A :=
  match decode data with
  | Err e => Err e
  | Ok (v, more) => if (more : bool) then Err (EMsg "trailing data after JSON value") else Ok v
  end.

Definition publish (job : JobStreamEvent) (agg : Aggregate) : prog aggE () :=
  _ ← (match Marshal (job_json job) with
       | Ok jb => call (HubPublish {| ev_Name := "job"; ev_Data := jb; ev_Tag := "" |})
       | Err _ => Ret ()
       end);
  match Marshal (aggregate_json agg) with
  | Ok ab => call (HubPublishSticky {| ev_Name := "aggregate"; ev_Data := ab; ev_Tag := "" |})
  | Err _ => Ret ()
  end.

(** The payload's checks. *)
Definition valid_state (ev : stateEvent) : option string :=
  if String.eqb (se_JobID ev) "" || String.eqb (se_WorkspaceID ev) ""
  then Some "job state event: jobId and workspaceId are required"
  else if IsZero (se_At ev) then Some "job state event: at is required"
  else if bool_decide (se_State ev ∈ [StateQueued; StateRunning; StateCompleted; StateFailed]) then None
  else Some ("job state event: unknown state " +:+ se_State ev).

Definition valid_progress (ev : progressEvent) : option string :=
  if String.eqb (pe_JobID ev) "" || String.eqb (pe_WorkspaceID ev) ""
  then Some "job progress event: jobId and workspaceId are required"
  else if IsZero (pe_At ev) then Some "job progress event: at is required"
  else if flt (pe_FPS ev) f0 || flt (pe_SpeedX ev) f0 || flt (pe_EtaSeconds ev) f0
          || flt (pe_ProgressPct ev) f0 || flt f100 (pe_ProgressPct ev)
  then Some "job progress event: values out of range"
  else None.

Definition HandleState (data : string) : prog aggE (result ()) :=
  match strictUnmarshal decode_state data with
  | Err e => Ret (Err e)
  | Ok ev =>
      match valid_state ev with
      | Some msg => Ret (Err (EMsg msg))
      | None => out ← call (LockState ev); _ ← publish out.1 out.2; Ret (Ok ())
      end
  end.

Definition HandleProgress (data : string) : prog aggE (result ()) :=
  match strictUnmarshal decode_progress data with
  | Err e => Ret (Err e)
  | Ok ev =>
      match valid_progress ev with
      | Some msg => Ret (Err (EMsg msg))
      | None => out ← call (LockProgress ev); _ ← publish out.1 out.2; Ret (Ok ())
      end
  end.

Definition Snapshot : prog aggE Aggregate := call LockSnapshot.

(** A message on one of the two subjects. *)
Inductive message := MState (data : string) | MProgress (data : string).

Definition handle_message (m : message) : prog aggE (result ()) :=
  match m with MState d => HandleState d | MProgress d => HandleProgress d end.
End aggregator.

(** ** The aggregator and its hub *)

(** [w_iters]: the iteration orders of the coming critical sections; the hub's own
    publications are one step here (Hub.v has their interleavings). *)
Record agg_world := {
  w_agg : Aggregator; w_hub : Hub; w_iters : list (gmap string jobState -> list jobState)
}.

Definition values (m : gmap string jobState) : list jobState := (map_to_list m).*2.

Definition locked (w : agg_world) (a : Aggregator) (job : Aggregator -> JobStreamEvent)
    : (JobStreamEvent * Aggregate) * agg_world :=
  let iter := default values (head (w_iters w)) in
  ((job a, aggregateLocked (iter (active a)) a), {| w_agg := a; w_hub := w_hub w; w_iters := tail (w_iters w) |}).

Definition agg_sem : sem aggE agg_world := fun X e w =>
  match e in aggE X return X * agg_world with
  | LockState ev => locked w (state_change ev (w_agg w)) (fun a => jobEventLocked a (se_JobID ev) (se_State ev))
  | LockProgress ev =>
      let '(a, st) := progress_change ev (w_agg w) in locked w a (fun a => jobEventLocked a (pe_JobID ev) st)
  | LockSnapshot => let '((_, agg), w') := locked w (w_agg w) (fun a => jobEventLocked a "" "") in (agg, w')
  | HubPublish ev => (tt, {| w_agg := w_agg w; w_hub := Publish ev (w_hub w); w_iters := w_iters w |})
  | HubPublishSticky ev => (tt, {| w_agg := w_agg w; w_hub := PublishSticky ev (w_hub w); w_iters := w_iters w |})
  end.

(** ** The counts are those of the active jobs *)

Definition in_state_count (st : string) (m : gmap string jobState) : Z :=
  Z.of_nat (size (filter (fun p => j_state p.2 = st) m)).

(** A row: queued or running, with measurements in their range. *)
Definition job_ok (js : jobState) : Prop :=
  (j_state js = StateQueued \/ j_state js = StateRunning) /\
  flt (j_fps js) f0 = false /\ flt (j_speedX js) f0 = false /\ flt (j_etaSeconds js) f0 = false /\
  flt (j_progressPct js) f0 = false /\ flt f100 (j_progressPct js) = false.

Record agg_inv (a : Aggregator) : Prop := {
  inv_queued : queued a = i64 (in_state_count StateQueued (active a));
  inv_inFlight : inFlight a = i64 (in_state_count StateRunning (active a));
  inv_rows : map_Forall (fun _ => job_ok) (active a)
}.

Definition in_state (st : string) (js : jobState) : Z := if String.eqb (j_state js) st then 1 else 0.

Lemma count_insert st m id js :
  in_state_count st (<[id := js]> m) =
    in_state_count st m - (match m !! id with Some old => in_state st old | None => 0 end) + in_state st js.
Proof.
  unfold in_state_count, in_state. destruct (String.eqb_spec (j_state js) st) as [Hs|Hs].
  - rewrite map_filter_insert_True by done. destruct (m !! id) as [old|] eqn:Hm.
    + destruct (String.eqb_spec (j_state old) st) as [Ho|Ho].
      * rewrite map_size_insert_Some; [lia|]. exists old. by apply map_lookup_filter_Some.
      * rewrite map_size_insert_None; [lia|]. apply map_lookup_filter_None. right. intros x Hx. by simplify_eq.
    + rewrite map_size_insert_None; [lia|]. apply map_lookup_filter_None. by left.
  - rewrite map_filter_insert_False by done. rewrite map_filter_delete. destruct (m !! id) as [old|] eqn:Hm.
    + destruct (String.eqb_spec (j_state old) st) as [Ho|Ho].
      * assert (Hf : filter (fun p => j_state p.2 = st) m !! id = Some old) by (by apply map_lookup_filter_Some).
        assert (Hpos : (size (filter (fun p => j_state p.2 = st) m) <> 0)%nat).
        { intros H0%map_size_empty_inv. by rewrite H0, lookup_empty in Hf. }
        rewrite map_size_delete_Some by (by eexists). lia.
      * rewrite map_size_delete_None; [lia|]. apply map_lookup_filter_None. right. intros x Hx. by simplify_eq.
    + rewrite map_size_delete_None; [lia|]. apply map_lookup_filter_None. by left.
Qed.

Lemma count_delete st m id js :
  m !! id = Some js -> in_state_count st (delete id m) = in_state_count st m - in_state st js.
Proof.
  intros Hm. rewrite <-(insert_delete_id m id js Hm) at 2. rewrite count_insert, lookup_delete_eq. lia.
Qed.

(** [int64] counters follow the true counts, wrapped. *)
Lemma i64_step a b d : a = i64 b -> i64 (a + d) = i64 (b + d).
Proof.
  intros ->. destruct (i64_congr b) as [k ->]. replace (b + k * 2 ^ 64 + d) with (b + d + k * 2 ^ 64) by lia.
  apply i64_add_k.
Qed.

Lemma count_ok a m dq di dc df :
  agg_inv a -> in_state_count StateQueued m = in_state_count StateQueued (active a) + dq ->
  in_state_count StateRunning m = in_state_count StateRunning (active a) + di ->
  map_Forall (fun _ => job_ok) m -> agg_inv (count (set_active a m) dq di dc df).
Proof.
  intros [Hq Hi _] Eq Ei Hr. split; simpl; [|..|done].
  - rewrite Eq. by apply i64_step.
  - rewrite Ei. by apply i64_step.
Qed.

(** Completions and failures leave the rest alone. *)
Lemma count_done a dc df : agg_inv a -> agg_inv (count a 0 0 dc df).
Proof.
  intros H. pose proof (count_ok a (active a) 0 0 dc df H) as Hc. destruct a. apply Hc; [lia|lia|apply H].
Qed.

Lemma new_job_ok st : st = StateQueued \/ st = StateRunning -> job_ok (new_job st).
Proof. intros H. unfold job_ok, new_job. simpl. by split_and!. Qed.

Lemma ok_state a id js : agg_inv a -> active a !! id = Some js -> j_state js = StateQueued \/ j_state js = StateRunning.
Proof. intros Ha Hj. apply (inv_rows _ Ha _ _ Hj). Qed.

(** The counts of a map that gained, changed or lost one row. *)
Ltac recount Hj :=
  rewrite ?count_insert, ?(count_delete _ _ _ _ Hj), ?Hj; unfold in_state; simpl;
  repeat match goal with H : j_state _ = _ |- _ => rewrite H end; simpl; lia.

Lemma state_change_ok ev a : agg_inv a -> agg_inv (state_change ev a).
Proof.
  intros Ha. pose proof (inv_rows _ Ha) as Hrows. unfold state_change.
  destruct (String.eqb (se_State ev) StateQueued).
  { destruct (active a !! se_JobID ev) as [js|] eqn:Hj; [done|]. apply count_ok; [done|recount Hj|recount Hj|].
    apply map_Forall_insert_2; [apply new_job_ok; auto|done]. }
  destruct (String.eqb (se_State ev) StateRunning).
  { destruct (active a !! se_JobID ev) as [js|] eqn:Hj.
    - destruct (String.eqb_spec (j_state js) StateQueued) as [Hs|_]; [|done].
      apply count_ok; [done|recount Hj|recount Hj|]. apply map_Forall_insert_2; [|done].
      destruct (Hrows _ _ Hj) as [_ Hm]. split; [by right|exact Hm].
    - apply count_ok; [done|recount Hj|recount Hj|]. apply map_Forall_insert_2; [apply new_job_ok; auto|done]. }
  assert (H : agg_inv (match active a !! se_JobID ev with
    | Some js => let a' := set_active a (delete (se_JobID ev) (active a)) in
                 if String.eqb (j_state js) StateQueued then count a' (-1) 0 0 0 else count a' 0 (-1) 0 0
    | None => a end)).
  { destruct (active a !! se_JobID ev) as [js|] eqn:Hj; [|done]. cbv zeta.
    destruct (ok_state _ _ _ Ha Hj) as [Hs|Hs]; rewrite Hs; simpl;
      (apply count_ok; [done|recount Hj|recount Hj|by apply map_Forall_delete]). }
  cbv zeta in *. destruct (String.eqb (se_State ev) StateCompleted); by apply count_done.
Qed.

Lemma progress_change_ok ev a :
  valid_progress ev = None -> agg_inv a -> agg_inv (progress_change ev a).1.
Proof.
  intros Hv Ha. pose proof (inv_rows _ Ha) as Hrows. unfold valid_progress in Hv.
  destruct (_ || _); [done|]. destruct (IsZero _); [done|]. destruct (_ || _) eqn:Hr; [done|]. bool_prop.
  unfold progress_change. destruct (active a !! pe_JobID ev) as [js|] eqn:Hj.
  - destruct (ok_state _ _ _ Ha Hj) as [Hs|Hs]; rewrite Hs; simpl.
    + apply count_ok; [done|recount Hj|recount Hj|]. apply map_Forall_insert_2; [|done]. split; [by right|by split_and!].
    + split; simpl.
      * rewrite (inv_queued _ Ha). f_equal. recount Hj.
      * rewrite (inv_inFlight _ Ha). f_equal. recount Hj.
      * apply map_Forall_insert_2; [|done]. split; [by right|by split_and!].
  - apply count_ok; [done|recount Hj|recount Hj|]. apply map_Forall_insert_2; [|done]. split; [by right|by split_and!].
Qed.

Definition agg_call (X : Type) (e : aggE X) : Prop :=
  match e with LockProgress ev => valid_progress ev = None | _ => True end.

Section laws.
Context (decode_state : string -> result (stateEvent * bool)) (decode_progress : string -> result (progressEvent * bool)).
Context (Marshal : json -> result string).

Lemma publish_calls job agg : all_calls agg_call (publish Marshal job agg).
Proof. unfold publish. calls_tac. Qed.
#[local] Hint Resolve publish_calls : calls.

Lemma message_calls m : all_calls agg_call (handle_message decode_state decode_progress Marshal m).
Proof.
  destruct m as [d|d]; unfold handle_message, HandleState, HandleProgress; calls_tac.
Qed.

(** C28: the job counters are exact.  However the messages of the two subjects are
    handled concurrently, after any number of critical sections, [queued] and [inFlight]
    are the numbers of queued and of running jobs in the active table (wrapped to 64
    bits), every job in the table is in one of those two states, and its measurements
    passed the range checks. *)
Theorem aggregate_counts_active msgs ps w w' :
  agg_inv (w_agg w) ->
  rtc (pool_step agg_sem) (handle_message decode_state decode_progress Marshal <$> msgs, w) (ps, w') ->
  agg_inv (w_agg w').
Proof.
  intros Hw Hr. refine (pool_calls_invariant agg_sem agg_call (fun w => agg_inv (w_agg w)) _ ps w w' _ _ Hr Hw).
  - apply Forall_fmap. apply Forall_forall. intros m _. apply message_calls.
  - intros X e v He Hv. destruct e; simpl in *; try done; [by apply state_change_ok|].
    pose proof (progress_change_ok ev _ He Hv). by destruct (progress_change ev (w_agg v)).
Qed.

(** what a message leads to.  A message that does not decode, has trailing data or
    fails a check is answered with an error and nothing else happens: no critical
    section, no publication.  An accepted message makes one critical section with
    exactly its event, and then publishes the job event and, sticky, the aggregate that
    this critical section returned, each where it marshals. *)
Theorem message_outcome m tr res :
  exec (handle_message decode_state decode_progress Marshal m) tr res ->
  (exists e, res = Err e /\ tr = []) \/
  (exists job agg lock pubs, res = Ok () /\ tr = lock :: pubs /\
     match m with
     | MState d => exists ev, strictUnmarshal decode_state d = Ok ev /\ valid_state ev = None /\
                              lock = Ev (LockState ev) (job, agg)
     | MProgress d => exists ev, strictUnmarshal decode_progress d = Ok ev /\ valid_progress ev = None /\
                                 lock = Ev (LockProgress ev) (job, agg)
     end /\
     pubs = (match Marshal (job_json job) with
             | Ok jb => [Ev (HubPublish {| ev_Name := "job"; ev_Data := jb; ev_Tag := "" |}) tt]
             | Err _ => []
             end) ++
            (match Marshal (aggregate_json agg) with
             | Ok ab => [Ev (HubPublishSticky {| ev_Name := "aggregate"; ev_Data := ab; ev_Tag := "" |}) tt]
             | Err _ => []
             end)).
Proof.
  assert (Hpub : forall job agg tr u, exec (publish Marshal job agg) tr u -> tr =
    (match Marshal (job_json job) with
     | Ok jb => [Ev (HubPublish {| ev_Name := "job"; ev_Data := jb; ev_Tag := "" |}) tt] | Err _ => [] end) ++
    (match Marshal (aggregate_json agg) with
     | Ok ab => [Ev (HubPublishSticky {| ev_Name := "aggregate"; ev_Data := ab; ev_Tag := "" |}) tt] | Err _ => [] end)).
  { intros job agg t u H. unfold publish in H. exec_steps; repeat match goal with x : () |- _ => destruct x end;
      rewrite ?app_nil_r; done. }
  destruct m as [d|d]; unfold handle_message, HandleState, HandleProgress; intros H;
    (destruct (strictUnmarshal _ d) as [ev|e] eqn:Hd; [|destruct H as [-> ->]; left; by eexists]);
    (destruct (_ ev) as [msg|] eqn:Hv in H; [destruct H as [-> ->]; left; by eexists|]);
    destruct H as ([job agg] & t & -> & H);
    apply (exec_bind (A:=())) in H as (t1 & t2 & u & -> & Hp & [-> ->]); apply Hpub in Hp; simpl in Hp; right;
    eexists job, agg, _, t1; rewrite app_nil_r; (split; [done|]); (split; [done|]); (split; [by exists ev|exact Hp]).
Qed.
End laws.

(** ** Concrete messages *)

Definition ex_state (id st : string) : stateEvent :=
  {| se_JobID := id; se_WorkspaceID := "ws"; se_State := st; se_At := 1 |}.

Definition ex_progress (id : string) : progressEvent :=
  {| pe_JobID := id; pe_WorkspaceID := "ws"; pe_FPS := f64_of_Z 30; pe_SpeedX := f64_of_Z 1;
     pe_EtaSeconds := f64_of_Z 5; pe_ProgressPct := f64_of_Z 50; pe_At := 2 |}.

Definition ex_decode_state (d : string) : result (stateEvent * bool) :=
  if String.eqb d "a runs" then Ok (ex_state "a" StateRunning, false)
  else if String.eqb d "a done" then Ok (ex_state "a" StateCompleted, false)
  else Err (EMsg "json").
Definition ex_decode_progress (d : string) : result (progressEvent * bool) := Ok (ex_progress d, false).
(** The aggregate is written as its number of running jobs. *)
Definition ex_marshal (j : json) : result string :=
  match jfield "inFlight" j with Some (JNum n) => Ok (itoa n) | _ => Ok "job" end.

Definition ex_handle := handle_message ex_decode_state ex_decode_progress ex_marshal.

Definition ex_agg : agg_world := {| w_agg := new_aggregator; w_hub := New 16; w_iters := [] |}.

Fixpoint run_all (ms : list message) (w : agg_world) : agg_world :=
  match ms with [] => w | m :: ms' => run_all ms' (run agg_sem (ex_handle m) w).2 end.

(** The two subjects are separate subscriptions.  A progress report that is handled after
    its job's completion brings the job back as running, and nothing takes it away. *)
Example late_progress_leaks :
  let w := run_all [MState "a runs"; MState "a done"; MProgress "a"] ex_agg in
  inFlight (w_agg w) = 1 /\ completed (w_agg w) = 1 /\ (j_state <$> active (w_agg w) !! "a") = Some StateRunning.
Proof. vm_compute. repeat split. Qed.

Definition ex_first : pool aggE (result ()) agg_world :=
  run_sched agg_sem [0; 0; 0]%nat (ex_handle <$> [MState "a runs"], ex_agg).
Definition ex_two : pool aggE (result ()) agg_world :=
  run_sched agg_sem [0; 1; 1; 1; 0; 0]%nat (ex_handle <$> [MState "a done"; MProgress "b"], ex_first.2).

(** The lock is released before the publication: of two handlers the one that was first
    in the critical section may publish last, and the sticky aggregate that later
    subscribers are given is out of date (0 running jobs, where there is 1). *)
Example stale_aggregate :
  (ev_Data <$> sticky (w_hub ex_two.2) !! "aggregate") = Some "0" /\ inFlight (w_agg ex_two.2) = 1.
Proof. vm_compute. split; reflexivity. Qed.

Lemma new_aggregator_inv : agg_inv new_aggregator.
Proof. split; [reflexivity|reflexivity|]. apply map_Forall_empty. Qed.

Lemma aggregate_counts_active_witness : agg_inv (w_agg ex_two.2).
Proof.
  apply (aggregate_counts_active ex_decode_state ex_decode_progress ex_marshal [MState "a done"; MProgress "b"]
    ex_two.1 ex_first.2).
  - apply (aggregate_counts_active ex_decode_state ex_decode_progress ex_marshal [MState "a runs"] ex_first.1 ex_agg).
    + exact new_aggregator_inv.
    + rewrite <-surjective_pairing. apply run_sched_reachable.
  - rewrite <-surjective_pairing. apply run_sched_reachable.
Defined.

Lemma message_outcome_witness :
  (exists e, @Err () (EMsg "json") = Err e /\ @nil (event aggE) = []) \/ False.
Proof.
  destruct (message_outcome ex_decode_state ex_decode_progress ex_marshal (MState "junk") [] (Err (EMsg "json")))
    as [H|(job & agg & lock & pubs & H & _)]; [split; reflexivity|left; exact H|discriminate H].
Defined.
