(* ===== verification/Floats.v ===== *)
(** * float64: when the operations give no NaN

    Facts on the binary64 operations of GoLib.v: converting an integer below 2^64 is
    finite and exact enough not to vanish, the operations on such values give no NaN,
    and comparisons that are false say something. *)
From S2P Require Export GoLib.
#[local] Open Scope Z_scope.

(** ** Mantissas *)

Lemma digits2_log2 p : Zpos (digits2_pos p) = Z.log2 (Zpos p) + 1.
Proof.
  induction p as [p IH|p IH|]; cbn [digits2_pos]; [..|done]; rewrite Pos2Z.inj_succ, IH.
  - rewrite Pos2Z.inj_xI, Z.log2_succ_double by lia. lia.
  - rewrite Pos2Z.inj_xO, Z.log2_double by lia. lia.
Qed.

Lemma digits_bounds m k : 0 < k -> 2 ^ (k - 1) <= m < 2 ^ k -> Zdigits2 m = k.
Proof.
  intros Hk [Hlo Hhi]. assert (0 < 2 ^ (k - 1)) by (apply Z.pow_pos_nonneg; lia).
  destruct m as [|p|p]; [lia| |lia]. cbn [Zdigits2]. rewrite digits2_log2.
  rewrite (Z.log2_unique (Zpos p) (k - 1)); [lia|lia|]. split; [done|]. by replace (Z.succ (k - 1)) with k by lia.
Qed.

Lemma iter_xO p d : Zpos (Pos.iter xO p d) = Zpos p * 2 ^ Zpos d.
Proof.
  induction d as [|d IH] using Pos.peano_ind; [simpl; lia|].
  rewrite Pos.iter_succ, Pos2Z.inj_xO, IH, Pos2Z.inj_succ, Z.pow_succ_r by lia. lia.
Qed.

Lemma iter_pos_nat {A} (f : A -> A) n x : iter_pos f n x = Nat.iter (Pos.to_nat n) f x.
Proof.
  revert x. induction n as [n IH|n IH|]; intros x; cbn [iter_pos]; rewrite ?IH; [| |done].
  - rewrite Pos2Nat.inj_xI. replace (S (2 * Pos.to_nat n)) with (Pos.to_nat n + (Pos.to_nat n + 1))%nat by lia.
    by rewrite !Nat.iter_add.
  - rewrite Pos2Nat.inj_xO. replace (2 * Pos.to_nat n)%nat with (Pos.to_nat n + Pos.to_nat n)%nat by lia.
    by rewrite Nat.iter_add.
Qed.

Lemma shr_1_half r : 0 <= shr_m r -> shr_m (shr_1 r) = shr_m r / 2.
Proof.
  destruct r as [m r s]. simpl. destruct m as [|[p|p|]|p]; simpl; intros H; try done; try lia.
  - rewrite Pos2Z.inj_xI. apply Z.div_unique with 1; lia.
  - rewrite Pos2Z.inj_xO. apply Z.div_unique with 0; lia.
Qed.

Lemma shr_iter n r : 0 <= shr_m r -> shr_m (Nat.iter n shr_1 r) = shr_m r / 2 ^ Z.of_nat n.
Proof.
  intros Hr. induction n as [|n IH]; [simpl; by rewrite Z.div_1_r|].
  assert (0 <= shr_m r / 2 ^ Z.of_nat n) by (apply Z.div_pos; lia).
  rewrite Nat.iter_succ, shr_1_half, IH by (by rewrite IH).
  rewrite Nat2Z.inj_succ, Z.pow_succ_r by lia. rewrite Z.div_div by lia. f_equal. lia.
Qed.

Lemma shr_spec r e n : 0 <= shr_m r ->
  shr_m (shr r e n).1 = shr_m r / 2 ^ Z.max 0 n /\ (shr r e n).2 = e + Z.max 0 n.
Proof.
  intros Hr. unfold shr. destruct n as [|p|p]; cbn [fst snd].
  - split; [by rewrite Z.div_1_r|lia].
  - rewrite iter_pos_nat, shr_iter by done. rewrite positive_nat_Z. split; [by rewrite Z.max_r by lia|lia].
  - rewrite Z.max_l by lia. split; [by rewrite Z.div_1_r|lia].
Qed.

Lemma shr_m_of_loc m l : shr_m (shr_record_of_loc m l) = m.
Proof. by destruct l as [|[]]. Qed.

Lemma shr_fexp_spec m e l : 0 <= m ->
  let n := Z.max 0 (fexp 53 1024 (Zdigits2 m + e) - e) in
  shr_m (shr_fexp 53 1024 m e l).1 = m / 2 ^ n /\ (shr_fexp 53 1024 m e l).2 = e + n.
Proof. intros Hm n. unfold shr_fexp. pose proof (shr_spec (shr_record_of_loc m l) e) as H. rewrite shr_m_of_loc in H. by apply H. Qed.

Lemma round_bounds m l : m <= round_nearest_even m l <= m + 1.
Proof. unfold round_nearest_even. destruct l as [|[]]; try lia. destruct (Z.even m); lia. Qed.

(** ** No NaN *)

Lemma aux_not_nan s m e l : 0 <= m -> is_nan (binary_round_aux 53 1024 s m e l) = false.
Proof.
  intros Hm. unfold binary_round_aux. pose proof (shr_fexp_spec m e l Hm) as [H1 _].
  destruct (shr_fexp 53 1024 m e l) as [r1 e1]. cbn [fst snd] in H1.
  assert (0 <= shr_m r1) by (rewrite H1; apply Z.div_pos; [done|apply Z.pow_pos_nonneg; lia]).
  pose proof (round_bounds (shr_m r1) (loc_of_shr_record r1)) as Hb. set (m1 := round_nearest_even _ _) in *.
  pose proof (shr_fexp_spec m1 e1 loc_Exact ltac:(lia)) as [H2 _].
  destruct (shr_fexp 53 1024 m1 e1 loc_Exact) as [r2 e2]. cbn [fst snd] in H2.
  assert (0 <= shr_m r2) by (rewrite H2; apply Z.div_pos; [lia|apply Z.pow_pos_nonneg; lia]).
  destruct (shr_m r2); [done|by case_match|lia].
Qed.

Lemma normalize_not_nan m e s : is_nan (binary_normalize 53 1024 m e s) = false.
Proof.
  unfold binary_normalize, binary_round. destruct m as [|p|p]; [done|..]; destruct (shl_align _ _ _); by apply aux_not_nan.
Qed.

Lemma f64_not_nan z : is_nan (f64_of_Z z) = false.
Proof. apply normalize_not_nan. Qed.

Definition finite_pos (f : spec_float) : Prop := exists m e, f = S754_finite false m e.

Lemma fsub_not_nan f g : finite_pos f -> is_nan g = false -> is_nan (fsub f g) = false.
Proof.
  intros (m & e & ->) Hg. unfold fsub, SFsub. destruct g as [s|s| |s m' e']; try done. apply normalize_not_nan.
Qed.

Lemma fmul_not_nan f g : finite_pos f -> is_nan g = false -> is_nan (fmul f g) = false.
Proof. intros (m & e & ->) Hg. unfold fmul, SFmul. destruct g; try done. by apply aux_not_nan. Qed.

Lemma fdiv_not_nan f g : finite_pos g -> is_nan f = false -> is_nan (fdiv f g) = false.
Proof.
  intros (m & e & ->) Hf. unfold fdiv, SFdiv. destruct f as [s|s| |s m' e']; try done.
  unfold SFdiv_core_binary. set (m'' := match _ with Z0 => _ | Zpos _ => _ | Zneg _ => _ end).
  assert (Hm : 0 <= m'') by (subst m''; case_match; [lia|apply Z.shiftl_nonneg; lia|lia]).
  pose proof (Z.div_eucl_eq m'' (Zpos m) ltac:(lia)) as Hq. pose proof (Z.div_pos m'' (Zpos m) Hm ltac:(lia)) as Hp.
  unfold Z.div in Hp. destruct (Z.div_eucl m'' (Zpos m)) as [q r]. by apply aux_not_nan.
Qed.

(** ** Comparisons *)

Lemma SFcompare_antisym f g : SFcompare g f = CompOpp <$> SFcompare f g.
Proof.
  destruct f as [[]|[]| |[] m e], g as [[]|[]| |[] m' e']; simpl; try done;
    rewrite (Z.compare_antisym e e'); destruct (e ?= e')%Z; simpl; try done;
    rewrite (Pos.compare_cont_antisym m m' Eq) by done; simpl; by destruct (Pos.compare_cont Eq m m').
Qed.

Lemma SFcompare_some f g : is_nan f = false -> is_nan g = false -> is_Some (SFcompare f g).
Proof. destruct f as [[]|[]| |[] m e], g as [[]|[]| |[] m' e']; simpl; try done; intros _ _; by eexists. Qed.

(** Without NaN, what is not below is at least. *)
Lemma flt_false f g : is_nan f = false -> is_nan g = false -> flt f g = false -> fle g f = true.
Proof.
  intros Hf Hg. unfold flt, fle, SFltb, SFleb. rewrite (SFcompare_antisym f g).
  destruct (SFcompare_some f g Hf Hg) as [c ->]. by destruct c.
Qed.

(** ** Conversion of integers *)

(** The mantissa the rounding starts from: at least 53 bits, and the exponent of a
    result with 53. *)
Lemma align_spec p d :
  Zpos (digits2_pos p) = d -> d <= 64 ->
  let '(mz, ez) := shl_align p 0 (fexp 53 1024 (d + 0)) in
  exists k, 53 <= k /\ 2 ^ (k - 1) <= Zpos mz < 2 ^ k /\ k + ez = d.
Proof.
  intros Hd Hle. rewrite digits2_log2 in Hd. pose proof (Z.log2_nonneg (Zpos p)) as Hn. pose proof (Z.log2_spec (Zpos p) ltac:(lia)) as Hl.
  replace (fexp 53 1024 (d + 0)) with (d - 53) by (unfold fexp, emin; lia).
  assert (Hl' : 2 ^ (d - 1) <= Zpos p < 2 ^ d) by (subst d; by rewrite Z.add_simpl_r, <-Z.add_1_r in *).
  unfold shl_align. destruct (d - 53 - 0) as [|q|q] eqn:Hq.
  - exists d. split; [lia|]. split; [by apply Hl'|lia].
  - exists d. split; [lia|]. split; [by apply Hl'|lia].
  - exists 53. rewrite iter_xO. split; [lia|]. split; [|lia].
    replace (2 ^ (53 - 1)) with (2 ^ Z.log2 (Zpos p) * 2 ^ Zpos q) by (rewrite <-Z.pow_add_r by lia; f_equal; lia).
    replace (2 ^ 53) with (2 ^ Z.succ (Z.log2 (Zpos p)) * 2 ^ Zpos q) by (rewrite <-Z.pow_add_r by lia; f_equal; lia).
    assert (0 < 2 ^ Zpos q) by (apply Z.pow_pos_nonneg; lia). nia.
Qed.

(** A mantissa of at least 53 bits rounds to one of 53 or 54, which is not zero. *)
Lemma aux_finite m e k l :
  53 <= k -> 2 ^ (k - 1) <= m < 2 ^ k -> -1000 <= k + e -> k + e <= 64 ->
  finite_pos (binary_round_aux 53 1024 false m e l).
Proof.
  intros Hk Hm Hlo Hhi. assert (Hm0 : 0 < 2 ^ (k - 1)) by (apply Z.pow_pos_nonneg; lia).
  unfold binary_round_aux. pose proof (shr_fexp_spec m e l ltac:(lia)) as [H1 E1].
  rewrite (digits_bounds m k) in H1, E1 by lia.
  replace (Z.max 0 (fexp 53 1024 (k + e) - e)) with (k - 53) in H1, E1 by (unfold fexp, emin; lia).
  destruct (shr_fexp 53 1024 m e l) as [r1 e1]. cbn [fst snd] in H1, E1.
  assert (Hr1 : 2 ^ 52 <= shr_m r1 < 2 ^ 53).
  { rewrite H1. assert (0 < 2 ^ (k - 53)) by (apply Z.pow_pos_nonneg; lia). split.
    - apply Z.div_le_lower_bound; [done|]. rewrite <-Z.pow_add_r by lia. replace (k - 53 + 52) with (k - 1) by lia. lia.
    - apply Z.div_lt_upper_bound; [done|]. rewrite <-Z.pow_add_r by lia. replace (k - 53 + 53) with k by lia. lia. }
  pose proof (round_bounds (shr_m r1) (loc_of_shr_record r1)) as Hb. set (m1 := round_nearest_even _ _) in *.
  pose proof (shr_fexp_spec m1 e1 loc_Exact ltac:(lia)) as [H2 E2].
  assert (Hd : Zdigits2 m1 = 53 \/ Zdigits2 m1 = 54).
  { destruct (decide (m1 < 2 ^ 53)); [left|right]; apply digits_bounds; lia. }
  set (n := Z.max 0 _) in H2, E2. assert (Hn : 0 <= n <= 1) by (subst n; unfold fexp, emin; lia).
  destruct (shr_fexp 53 1024 m1 e1 loc_Exact) as [r2 e2]. cbn [fst snd] in H2, E2.
  assert (Hr2 : 0 < shr_m r2).
  { rewrite H2. apply Z.div_str_pos. split; [apply Z.pow_pos_nonneg; lia|].
    transitivity (2 ^ 1); [apply Z.pow_le_mono_r; lia|lia]. }
  destruct (shr_m r2) as [|p|p]; [lia| |lia]. destruct (Z.leb_spec e2 (1024 - 53)); [by eexists _, _|lia].
Qed.

(** A positive integer below 2^64 is a positive finite float. *)
Lemma f64_finite z : 0 < z < 2 ^ 64 -> finite_pos (f64_of_Z z).
Proof.
  intros [Hz Hhi]. destruct z as [|p|p]; [lia| |lia]. unfold f64_of_Z, binary_normalize, binary_round.
  set (d := Zpos (digits2_pos p)). assert (Hd : 1 <= d <= 64).
  { subst d. rewrite digits2_log2. pose proof (Z.log2_nonneg (Zpos p)).
    pose proof (Z.log2_lt_pow2 (Zpos p) 64 ltac:(lia)) as [Hl _]. specialize (Hl Hhi). lia. }
  pose proof (align_spec p d eq_refl ltac:(lia)) as Ha. destruct (shl_align _ _ _) as [mz ez].
  destruct Ha as (k & Hk & Hm & He). by apply (aux_finite _ _ k); [|..]; try lia.
Qed.
