(* ===== verification/Sampler.v ===== *)
(** * services/telemetry/internal/sampler: hardware samples

    [cpu.go], [sampler.go] and [nvml.go].  Reading [/proc/stat] is an input; go-nvml is
    the interface [nvmlE], whose calls return a value or the text of their error. *)
From S2P Require Export Floats.
#[local] Open Scope Z_scope.

(** ** cpu.go *)

Record CPU := { prevIdle : Z; prevTotal : Z; primed : bool }.

(** [strconv.ParseUint(s, 10, 64)] *)
Definition ParseUint64 (s : string) : option Z :=
  v ← parse_digits s; if v <? 2 ^ 64 then Some v else None.

(** The sums over the fields, from index [i]: [uint64] additions. *)
Fixpoint sum_fields (i : nat) (fields : list string) (idle total : Z) : result (Z * Z) :=
  match fields with
  | [] => Ok (idle, total)
  | f :: fs =>
      match ParseUint64 f with
      | None => Err (EMsg ("malformed cpu field " +:+ f))
      | Some v =>
          sum_fields (S i) fs (if ((i =? 3) || (i =? 4))%nat then u64 (idle + v) else idle) (u64 (total + v))
      end
  end.

Fixpoint cpu_lines (lines : list string) : result (Z * Z) :=
  match lines with
  | [] => Err (EMsg "no aggregate cpu line")
  | line :: ls =>
      if negb (HasPrefix line "cpu ") then cpu_lines ls
      else
        let fields := tail (Fields line) in
        if (length fields <? 5)%nat then Err (EMsg "malformed cpu line") else sum_fields 0 fields 0 0
  end.

Definition cpu_read (file : result string) : result (Z * Z) :=
  match file with
  | Err e => Err e
  | Ok raw => cpu_lines (Split (ascii_of_nat 10) raw)
  end.

Definition NewCPU (file : result string) : result CPU :=
  match cpu_read file with
  | Err e => Err e
  | Ok (idle, total) => Ok {| prevIdle := idle; prevTotal := total; primed := true |}
  end.

Definition f1 : spec_float := f64_of_Z 1.

(** Utilization from the deltas, clamped. *)
Definition utilization (dIdle dTotal : Z) : spec_float :=
  let util := fmul f100 (fsub f1 (fdiv (f64_of_Z dIdle) (f64_of_Z dTotal))) in
  let util := if flt util f0 then f0 else util in
  if flt f100 util then f100 else util.

Definition cpu_Sample (file : result string) (c : CPU) : result spec_float * CPU :=
  if negb (primed c) then (Err (EMsg "cpu sampler not primed"), c)
  else match cpu_read file with
  | Err e => (Err e, c)
  | Ok (idle, total) =>
      let dIdle := u64 (idle - prevIdle c) in
      let dTotal := u64 (total - prevTotal c) in
      let c := {| prevIdle := idle; prevTotal := total; primed := primed c |} in
      if dTotal =? 0 then (Err (EMsg "cpu counters did not advance"), c)
      else (Ok (utilization dIdle dTotal), c)
  end.

(** ** sampler.go *)

Definition GPUStateOK : string := "ok".
Definition GPUStateUnavailable : string := "unavailable".
Definition GPUStateError : string := "error".

Record GPUSample := {
  g_UtilPct : spec_float; g_VRAMUsedMB : spec_float; g_VRAMTotalMB : spec_float; g_JunctionC : spec_float;
  g_PowerW : spec_float; g_EncoderSessions : Z
}.

Record GPUStatus := { gs_State : string; gs_Reason : string }.

Record Sample := {
  s_CPUUtilPct : spec_float; s_CPUValid : bool; s_GPU : option GPUSample; s_GPUStatus : GPUStatus
}.

(** [gpu]: what its reader answers, when there is one. *)
Record System := { sys_cpu : CPU; sys_gpuAbsentWhy : string }.

Definition error_text (e : gerror) : string :=
  match e with EMsg m => m | _ => "" end.

Definition system_Sample (ctx_err : option gerror) (file : result string) (gpu : option (result GPUSample)) (s : System)
    : result Sample * System :=
  match ctx_err with
  | Some e => (Err e, s)
  | None =>
      let '(pct, c) := cpu_Sample file (sys_cpu s) in
      let s := {| sys_cpu := c; sys_gpuAbsentWhy := sys_gpuAbsentWhy s |} in
      let cpu_pct := match pct with Ok p => p | Err _ => f0 end in
      let sample g st := {| s_CPUUtilPct := cpu_pct; s_CPUValid := is_ok pct; s_GPU := g; s_GPUStatus := st |} in
      (Ok (match gpu with
           | None => sample None {| gs_State := GPUStateUnavailable; gs_Reason := sys_gpuAbsentWhy s |}
           | Some (Err e) => sample None {| gs_State := GPUStateError; gs_Reason := error_text e |}
           | Some (Ok g) => sample (Some g) {| gs_State := GPUStateOK; gs_Reason := "" |}
           end), s)
  end.

(** ** nvml.go *)

Inductive nvmlE : Type -> Type :=
| NvInit : nvmlE (result ())
| NvShutdown : nvmlE (result ())
| NvDeviceGetCount : nvmlE (result Z)
| NvDeviceGetHandleByIndex (i : Z) : nvmlE (result Z)
| NvUtilizationGpu (dev : Z) : nvmlE (result Z)
| NvMemoryInfo (dev : Z) : nvmlE (result (Z * Z))
| NvTemperature (dev : Z) : nvmlE (result Z)
| NvPowerUsage (dev : Z) : nvmlE (result Z)
| NvEncoderSessions (dev : Z) : nvmlE (result Z).

(** The errors of the backend: an [UnavailableError] or, for [errors.As], any other. *)
Inductive nvml_error := UnavailableError (Reason : string) | OtherError (e : gerror).

Definition NewNVML : prog nvmlE (nvml_error + Z) :=
  init ← call NvInit;
  match init with
  | Err e => Ret (inl (UnavailableError ("nvml init: " +:+ error_text e)))
  | Ok _ =>
      cnt ← call NvDeviceGetCount;
      match cnt with
      | Err e => _ ← call NvShutdown; Ret (inl (UnavailableError ("nvml device count: " +:+ error_text e)))
      | Ok cnt =>
          if cnt =? 0 then _ ← call NvShutdown; Ret (inl (UnavailableError "no NVIDIA devices present"))
          else
            dev ← call (NvDeviceGetHandleByIndex 0);
            match dev with
            | Err e => _ ← call NvShutdown; Ret (inl (UnavailableError ("nvml device handle: " +:+ error_text e)))
            | Ok dev => Ret (inr dev)
            end
      end
  end.

Definition f1024 : spec_float := f64_of_Z 1024.
Definition megabytes (bytes : Z) : spec_float := fdiv (f64_of_Z bytes) (fmul f1024 f1024).

Definition nvml_Read (dev : Z) : prog nvmlE (result GPUSample) :=
  util ← call (NvUtilizationGpu dev);
  match util with
  | Err e => Ret (Err (EMsg ("nvml utilization: " +:+ error_text e)))
  | Ok util =>
  mem ← call (NvMemoryInfo dev);
  match mem with
  | Err e => Ret (Err (EMsg ("nvml memory info: " +:+ error_text e)))
  | Ok (used, total) =>
  temp ← call (NvTemperature dev);
  match temp with
  | Err e => Ret (Err (EMsg ("nvml temperature: " +:+ error_text e)))
  | Ok temp =>
  power ← call (NvPowerUsage dev);
  match power with
  | Err e => Ret (Err (EMsg ("nvml power usage: " +:+ error_text e)))
  | Ok power =>
  sessions ← call (NvEncoderSessions dev);
  match sessions with
  | Err e => Ret (Err (EMsg ("nvml encoder stats: " +:+ error_text e)))
  | Ok sessions =>
      Ret (Ok {| g_UtilPct := f64_of_Z util; g_VRAMUsedMB := megabytes used; g_VRAMTotalMB := megabytes total;
                 g_JunctionC := f64_of_Z temp; g_PowerW := fdiv (f64_of_Z power) (f64_of_Z 1000);
                 g_EncoderSessions := sessions |})
  end end end end end.

Definition nvml_Close : prog nvmlE (result ()) :=
  r ← call NvShutdown;
  Ret (match r with Ok _ => Ok () | Err e => Err (EMsg ("nvml shutdown: " +:+ error_text e)) end).

(** Half utilization, and an idle counter that went backwards. *)
Example utilization_half : utilization 50 100 = f64_of_Z 50.
Proof. vm_compute. reflexivity. Qed.
Example utilization_wrapped : utilization (u64 (-5)) 100 = f0.
Proof. vm_compute. reflexivity. Qed.
Example cpu_read_line : cpu_read (Ok ("cpu  10 0 5 80 5 0" +:+ String (ascii_of_nat 10) "cpu0 1")) = Ok (85, 100).
Proof. vm_compute. reflexivity. Qed.

(** ** Utilization is a percentage *)

Lemma clamp_bounds u : is_nan u = false ->
  let v := if flt u f0 then f0 else u in
  let w := if flt f100 v then f100 else v in
  fle f0 w = true /\ fle w f100 = true.
Proof.
  intros Hu. cbv zeta. destruct (flt u f0) eqn:H0.
  - destruct (flt f100 f0) eqn:E; [vm_compute in E; discriminate E|]. split; reflexivity.
  - destruct (flt f100 u) eqn:H1; [split; reflexivity|]. split; apply flt_false; done.
Qed.

Lemma utilization_bounds dIdle dTotal :
  0 <= dIdle < 2 ^ 64 -> 0 < dTotal < 2 ^ 64 ->
  fle f0 (utilization dIdle dTotal) = true /\ fle (utilization dIdle dTotal) f100 = true.
Proof.
  intros Hi Ht. apply clamp_bounds. apply fmul_not_nan; [by eexists _, _|]. apply fsub_not_nan; [by eexists _, _|].
  apply fdiv_not_nan; [by apply f64_finite|apply f64_not_nan].
Qed.

(** CPU utilization is a percentage.  Whatever the two readings of [/proc/stat],
    with the counters wrapping at 64 bits or running backwards, a sample that succeeds
    is a number (not NaN) between 0 and 100; and it succeeds exactly when the sampler
    is primed, the file parses and the total advanced. *)
Theorem cpu_sample_percentage file c :
  match cpu_Sample file c with
  | (Ok u, c') => fle f0 u = true /\ fle u f100 = true /\ primed c = true /\
                  cpu_read file = Ok (prevIdle c', prevTotal c') /\ u64 (prevTotal c' - prevTotal c) <> 0
  | (Err _, c') => primed c = false \/ (exists e, cpu_read file = Err e) \/ u64 (prevTotal c' - prevTotal c) = 0
  end.
Proof.
  unfold cpu_Sample. destruct (primed c) eqn:Hp; cbn [negb]; [|by left].
  destruct (cpu_read file) as [[idle total]|e]; [|right; left; by eexists].
  destruct (Z.eqb_spec (u64 (total - prevTotal c)) 0) as [H0|Hne]; simpl; [by right; right|].
  assert (Hu : forall z, 0 <= u64 z < 2 ^ 64) by (intros z; apply Z.mod_pos_bound; lia).
  pose proof (Hu (total - prevTotal c)). destruct (utilization_bounds (u64 (idle - prevIdle c)) (u64 (total - prevTotal c)));
    [apply Hu|lia|]. done.
Qed.

(** the GPU is absent or real.  A sample carries GPU metrics exactly when its status
    is [ok], in which case they are what the reader returned; otherwise the status is
    [unavailable] or [error] and no metric is filled in. *)
Theorem gpu_present_iff_ok ctx_err file gpu s smp s' :
  system_Sample ctx_err file gpu s = (Ok smp, s') ->
  (is_Some (s_GPU smp) <-> gs_State (s_GPUStatus smp) = GPUStateOK) /\
  (forall g, s_GPU smp = Some g -> gpu = Some (Ok g)) /\
  gs_State (s_GPUStatus smp) ∈ [GPUStateOK; GPUStateUnavailable; GPUStateError].
Proof.
  unfold system_Sample. destruct ctx_err; [done|]. destruct (cpu_Sample file (sys_cpu s)) as [pct c].
  destruct gpu as [[g|e]|]; intros [= <- <-]; simpl; (split; [|split]).
  all: try (split; [intros [? [=]]|intros [=]]). all: try (intros ? [=]).
  - done.
  - by eexists.
  - by subst.
  - left.
  - right. right. left.
  - right. left.
Qed.

Lemma gpu_present_iff_ok_witness :
  gs_State (s_GPUStatus {| s_CPUUtilPct := f0; s_CPUValid := false; s_GPU := None;
    s_GPUStatus := {| gs_State := GPUStateUnavailable; gs_Reason := "no driver" |} |}) ∈ [GPUStateOK; GPUStateUnavailable; GPUStateError].
Proof.
  destruct (gpu_present_iff_ok None (Err (EMsg "io")) None
    {| sys_cpu := {| prevIdle := 0; prevTotal := 0; primed := true |}; sys_gpuAbsentWhy := "no driver" |} _ _ eq_refl)
    as (_ & _ & H). exact H.
Defined.

(** ** NVML is released when it cannot be used *)

Definition shutdowns (tr : list (event nvmlE)) : nat :=
  length (List.filter (fun ev => match ev with Ev e _ => match e with NvShutdown => true | _ => false end end) tr).

(** start-up releases what it took.  In every run of [NewNVML], NVML is shut down
    exactly once when initialization succeeded and no device could be bound, and not at
    all when initialization failed or a device was bound (the service shuts it down
    later). *)
Theorem nvml_start_balanced tr res :
  exec NewNVML tr res ->
  shutdowns tr = match res, tr with
                 | inr _, _ => 0%nat
                 | inl _, Ev e x :: _ => match e in nvmlE X return X -> nat with
                                         | NvInit => fun x => if is_ok x then 1%nat else 0%nat
                                         | _ => fun _ => 0%nat
                                         end x
                 | inl _, [] => 0%nat
                 end.
Proof. intros H. unfold NewNVML in H. exec_steps; done. Qed.

Lemma nvml_start_balanced_witness :
  shutdowns [Ev NvInit (Ok ()); Ev NvDeviceGetCount (Ok 0); Ev NvShutdown (Ok ())] = 1%nat.
Proof.
  refine (nvml_start_balanced [Ev NvInit (Ok ()); Ev NvDeviceGetCount (Ok 0); Ev NvShutdown (Ok ())]
            (inl (UnavailableError "no NVIDIA devices present")) _).
  do 2 eexists. split; [reflexivity|]. do 2 eexists. split; [reflexivity|]. do 2 eexists. split; [reflexivity|]. split; reflexivity.
Defined.
