(* ===== verification/Telemetry.v ===== *)
(** * services/telemetry: the log stream, the hardware pipeline and the HTTP surface

    [logstream.go], [pipeline/hardware.go] and [server/server.go].  Strict JSON decoding
    and [json.Marshal] are functions of the sections; golang-jwt is as in Tokens.v.  A
    query is the list of its keys with their first values, in the order of the map
    iteration. *)
From S2P Require Export Tokens Sampler HubProofs.
#[local] Open Scope Z_scope.

(** ** logstream.go *)

(** [contracts.LogStreamEvent] *)
Record LogStreamEvent := { lg_Line : string; lg_Tag : string; lg_Level : string; lg_At : time }.

(** [^[a-z][a-z0-9_-]{0,31}$] *)
Definition tag_char (c : ascii) : bool := is_lower c || is_digit c || one_of "_-" c.
Definition TagPattern (s : string) : bool :=
  match s with
  | EmptyString => false
  | String c s' => is_lower c && match_class tag_char 0 31 s'
  end.

Definition levels : list string := ["debug"; "info"; "warn"; "error"].

(** [t.Truncate(time.Millisecond)] *)
Definition truncate_ms (t : time) : time := t - (t - zero_time) mod Millisecond.

Definition log_json (ev : LogStreamEvent) : json :=
  JObj [("line", JStr (lg_Line ev)); ("tag", JStr (lg_Tag ev)); ("level", JStr (lg_Level ev)); ("at", JNum (lg_At ev))].

Section logstream.
Context (decode_log : string -> result (LogStreamEvent * bool)) (Marshal : json -> result string).

Definition valid_log (ev : LogStreamEvent) : option string :=
  if String.eqb (lg_Line ev) "" then Some "log event: line is required"
  else if 8192 <? slen (lg_Line ev) then Some "log event: line exceeds 8192 bytes"
  else if negb (TagPattern (lg_Tag ev)) then Some ("log event: invalid tag " +:+ lg_Tag ev)
  else if negb (bool_decide (lg_Level ev ∈ levels)) then Some ("log event: invalid level " +:+ lg_Level ev)
  else if IsZero (lg_At ev) then Some "log event: at is required"
  else None.

Definition truncated (ev : LogStreamEvent) : LogStreamEvent :=
  {| lg_Line := lg_Line ev; lg_Tag := lg_Tag ev; lg_Level := lg_Level ev; lg_At := truncate_ms (lg_At ev) |}.

(** [Consumer.Handle] on the logs hub. *)
Definition log_Handle (data : string) (h : Hub) : result () * Hub :=
  match decode_log data with
  | Err e => (Err e, h)
  | Ok (ev, more) =>
      if (more : bool) then (Err (EMsg "log event: trailing data after JSON value"), h)
      else match valid_log ev with
      | Some msg => (Err (EMsg msg), h)
      | None =>
          match Marshal (log_json (truncated ev)) with
          | Err e => (Err e, h)
          | Ok out => (Ok (), Publish {| ev_Name := "log"; ev_Data := out; ev_Tag := lg_Tag ev |} h)
          end
      end
  end.

(** What a message on the subject publishes. *)
Definition log_event (data : string) (ev : Event) : Prop :=
  exists le out, decode_log data = Ok (le, false) /\ valid_log le = None /\
    Marshal (log_json (truncated le)) = Ok out /\
    ev = {| ev_Name := "log"; ev_Data := out; ev_Tag := lg_Tag le |}.

(** what a log message leads to.  A message publishes exactly one event, with its line,
    tag and level as they came, the time cut to milliseconds and the tag on the side for
    the filters, when it decodes with nothing after it and passes every check; otherwise
    it is answered with an error and the hub is left alone. *)
Theorem log_message_outcome data h :
  match log_Handle data h with
  | (Ok _, h') => exists ev, log_event data ev /\ h' = Publish ev h
  | (Err _, h') => h' = h /\ forall ev, ~ log_event data ev
  end.
Proof.
  unfold log_Handle, log_event. destruct (decode_log data) as [[le [|]]|e].
  - split; [done|]. by intros ev (? & ? & [=] & _).
  - destruct (valid_log le) as [msg|] eqn:Hv.
    + split; [done|]. intros ev (le' & out & [= <-] & Hv' & _). congruence.
    + destruct (Marshal _) as [out|e] eqn:Hm; [|split; [done|]; intros ev (le' & out & [= <-] & _ & Hm' & _); congruence].
      eexists. split; [|reflexivity]. by exists le, out.
  - split; [done|]. by intros ev (? & ? & [=] & _).
Qed.
End logstream.

(** ** pipeline/hardware.go *)

Definition f10 : spec_float := f64_of_Z 10.

(** [math.Round]: half away from zero; the sign stays on a zero. *)
Definition Round (f : spec_float) : spec_float :=
  match f with
  | S754_finite s m e =>
      if 0 <=? e then f
      else
        let q := (Zpos m + 2 ^ (- e - 1)) / 2 ^ (- e) in
        binary_normalize 53 1024 (if s then - q else q) 0 s
  | _ => f
  end.

Definition round1 (f : spec_float) : spec_float := fdiv (Round (fmul f f10)) f10.

(** [contracts.HardwareSample]: [None] is a nil pointer. *)
Record HardwareSample := {
  hs_GPUUtilPct : option spec_float; hs_VRAMUsedMB : option spec_float; hs_VRAMTotalMB : option spec_float;
  hs_JunctionC : option spec_float; hs_PowerW : option spec_float; hs_EncoderSessions : option Z;
  hs_CPUUtilPct : option spec_float
}.

Definition hardware_json (p : HardwareSample) : json :=
  let f (k : string) (v : option spec_float) := match v with Some x => [(k, JFloat x)] | None => [] end in
  JObj (f "gpuUtilPct" (hs_GPUUtilPct p) ++ f "vramUsedMB" (hs_VRAMUsedMB p) ++ f "vramTotalMB" (hs_VRAMTotalMB p)
        ++ f "junctionC" (hs_JunctionC p) ++ f "powerW" (hs_PowerW p)
        ++ (match hs_EncoderSessions p with Some n => [("encoderSessions", JNum n)] | None => [] end)
        ++ f "cpuUtilPct" (hs_CPUUtilPct p)).

Definition status_json (st : GPUStatus) : json :=
  JObj ([("stream", JStr "hardware"); ("gpu", JStr (gs_State st))]
        ++ (if String.eqb (gs_Reason st) "" then [] else [("reason", JStr (gs_Reason st))])).

Definition payload_of (smp : Sample) : HardwareSample :=
  {| hs_GPUUtilPct := (fun g => round1 (g_UtilPct g)) <$> s_GPU smp;
     hs_VRAMUsedMB := (fun g => round1 (g_VRAMUsedMB g)) <$> s_GPU smp;
     hs_VRAMTotalMB := (fun g => round1 (g_VRAMTotalMB g)) <$> s_GPU smp;
     hs_JunctionC := (fun g => round1 (g_JunctionC g)) <$> s_GPU smp;
     hs_PowerW := (fun g => round1 (g_PowerW g)) <$> s_GPU smp;
     hs_EncoderSessions := g_EncoderSessions <$> s_GPU smp;
     hs_CPUUtilPct := if s_CPUValid smp then Some (round1 (s_CPUUtilPct smp)) else None |}.

Definition status_key (st : GPUStatus) : string := gs_State st +:+ "|" +:+ gs_Reason st.

Section pipeline.
Context (Marshal : json -> result string).

Definition publishStatus (st : GPUStatus) (last : string) (h : Hub) : string * Hub :=
  let key := status_key st in
  if String.eqb key last then (last, h)
  else match Marshal (status_json st) with
       | Err _ => (key, h)
       | Ok data => (key, PublishSticky {| ev_Name := "status"; ev_Data := data; ev_Tag := "" |} h)
       end.

(** One turn of the loop after the ticker fired: [Ctx.Err()] is only asked on an error. *)
Definition hardware_tick (smp : result Sample) (last : string) (h : Hub) : string * Hub :=
  match smp with
  | Err _ => (last, h)
  | Ok smp =>
      let '(last, h) := publishStatus (s_GPUStatus smp) last h in
      if negb (s_CPUValid smp) && (if s_GPU smp is None then true else false) then (last, h)
      else match Marshal (hardware_json (payload_of smp)) with
           | Err _ => (last, h)
           | Ok data => (last, Publish {| ev_Name := "sample"; ev_Data := data; ev_Tag := "" |} h)
           end
  end.

(** What the select and the error branch see: the context ended, or a tick with the
    outcome of the sampler and whether the context has ended meanwhile. *)
Inductive tick := TDone | TTick (smp : result Sample) (ctx_ended : bool).

Fixpoint RunHardware (ticks : list tick) (last : string) (h : Hub) : string * Hub :=
  match ticks with
  | [] | TDone :: _ => (last, h)
  | TTick (Err _) true :: _ => (last, h)
  | TTick smp _ :: ts => let '(last, h) := hardware_tick smp last h in RunHardware ts last h
  end.
End pipeline.

(** ** server/server.go *)

Inductive stream_hub := SHardware | SJobs | SLogs.
Inductive tele_route := THealthz | TStream (s : stream_hub).

(** A response, or the stream of a subscription ([ServeSSE]). *)
Inductive tele_answer :=
| AResponse (r : response)
| AStream (s : stream_hub) (filter : option (Event -> bool)).

Definition badRequest (msg : string) : response :=
  {| rs_status := 400; rs_headers := [("Content-Type", "application/json")];
     rs_body := Some (JObj [("error", JStr msg)]) |}.

Definition streamHandler (s : stream_hub) (filter : option (Event -> bool)) (query : list (string * string)) : tele_answer :=
  match query with
  | [] => AStream s filter
  | _ => AResponse (badRequest "unexpected query parameters")
  end.

(** [q.Get(k)] *)
Definition query_get (query : list (string * string)) (k : string) : string :=
  match list_find (fun p => p.1 = k) query with Some (_, (_, v)) => v | None => "" end.

Definition tag_filter (tag : string) (ev : Event) : bool := String.eqb (ev_Tag ev) tag.

Definition logsHandler (query : list (string * string)) : tele_answer :=
  match list_find (fun p => p.1 <> "tag") query with
  | Some (_, (k, _)) => AResponse (badRequest ("unexpected query parameter " +:+ k))
  | None =>
      let tag := query_get query "tag" in
      if String.eqb tag "" then AStream SLogs None
      else if negb (TagPattern tag) then AResponse (badRequest "invalid tag filter")
      else AStream SLogs (Some (tag_filter tag))
  end.

Section server.
Context (ParseWithClaims : string -> keyfunc -> parse_options -> result jwt_claims).
(** [Options.Health], when it is set. *)
Context (health : option (list (string * string))).

Definition healthz : response :=
  let body : gmap string string := foldl (fun m p => <[p.1 := p.2]> m) {[ "status" := "ok" ]} (default [] health) in
  {| rs_status := 200; rs_headers := [("Content-Type", "application/json")];
     rs_body := Some (JObj ((fun p => (p.1, JStr p.2)) <$> map_to_list body)) |}.

Definition protect (key header : string) (now : time) (next : tele_answer) : tele_answer :=
  match tele_Middleware ParseWithClaims key header now with
  | inl resp => AResponse resp
  | inr _ => next
  end.

Definition tele_serve (key : string) (rt : tele_route) (header : string) (query : list (string * string)) (now : time)
    : tele_answer :=
  match rt with
  | THealthz => AResponse healthz
  | TStream SLogs => protect key header now (logsHandler query)
  | TStream s => protect key header now (streamHandler s None query)
  end.

(** The handler, or the error of an invalid key. *)
Definition tele_New (key : string)
    : result (tele_route -> string -> list (string * string) -> time -> tele_answer) :=
  match tele_NewVerifier key with
  | Err e => Err e
  | Ok key => Ok (tele_serve key)
  end.

(** ** Properties *)

(** streams are for authenticated callers, and log streams deliver what was asked
    for.  A route answers with a stream only to a request whose bearer token verifies
    under the shared key.  And a subscriber to the logs with [?tag=t] gets, of
    everything the hub publishes and replays while publishers, subscribers and readers
    interleave, only events of the tag [t], which is a well-formed tag, and every frame
    of the stream accounts for them. *)
Theorem log_stream_tagged key rt header query now s filter :
  tele_serve key rt header query now = AStream s filter ->
  (exists tok id, header = bearer +:+ tok /\ tele_Verify ParseWithClaims key tok now = Ok id) /\
  rt = TStream s /\
  (s <> SLogs -> query = [] /\ filter = None) /\
  (s = SLogs -> query_get query "tag" <> "" -> TagPattern (query_get query "tag") = true /\
    forall n st id c log, rtc sse_step (init n) st -> conns (s_hub st) !! id = Some c -> c_filter c = filter ->
      s_log st !! id = Some log -> Forall (fun ev => ev_Tag ev = query_get query "tag") log).
Proof.
  intros H.
  assert (Ha : exists next, protect key header now next = AStream s filter /\ rt = TStream s /\
    next = (if rt is TStream SLogs then logsHandler query else streamHandler s None query)).
  { destruct rt as [|[]]; simpl in H; [done|..]; (eexists; split; [exact H|]); unfold protect in H;
      destruct (tele_Middleware _ _ _ _); try done; unfold streamHandler, logsHandler in H; break_match H; done. }
  destruct Ha as (next & Hp & -> & Hn). unfold protect, tele_Middleware in Hp.
  destruct (HasPrefix header bearer) eqn:Hb; cbn [negb] in Hp; [|done].
  destruct (tele_Verify _ _ _ _) as [id|e] eqn:Hv; [|done]. rewrite Hn in Hp. clear H Hn next.
  apply bool_decide_eq_true in Hb as [tok Htok]. unfold TrimPrefix in Hv. rewrite Htok in Hv. simpl in Hv.
  split; [exists tok, id; split; [by apply strip_prefix_Some|done]|]. split; [done|]. split.
  - intros Hs. destruct s; try done; destruct query; simpl in Hp; by simplify_eq.
  - intros -> Ht. unfold logsHandler in Hp. destruct (list_find _ _) as [[? []]|]; [done|].
    destruct (String.eqb_spec (query_get query "tag") ""); [done|].
    destruct (TagPattern _) eqn:Hpat; [|done]. simpl in Hp. split; [done|]. injection Hp as <-.
    intros sz st i c log Hr Hc Hf Hl.
    destruct (ok_conn _ (reachable_ok sz st Hr) i c Hc) as (r & log' & _ & Hl' & Hok). simplify_eq.
    eapply Forall_impl; [exact (ok_filter _ _ _ _ _ _ Hok)|]. intros ev. unfold accepts. rewrite Hf.
    apply String.eqb_eq.
Qed.
End server.

(** a hardware frame is honest.  The payload of a sample has a field exactly for what
    was measured: the six GPU fields all when the GPU was read and none otherwise, the
    CPU field exactly when the utilization is valid; and a frame with no field at all is
    never sent: then, and only then, the tick publishes nothing but the status. *)
Theorem hardware_frame_honest Marshal smp last h :
  let p := hardware_json (payload_of smp) in
  (forall k, k ∈ ["gpuUtilPct"; "vramUsedMB"; "vramTotalMB"; "junctionC"; "powerW"; "encoderSessions"] ->
     is_Some (jfield k p) <-> is_Some (s_GPU smp)) /\
  (is_Some (jfield "cpuUtilPct" p) <-> s_CPUValid smp = true) /\
  let '(last', h') := publishStatus Marshal (s_GPUStatus smp) last h in
  hardware_tick Marshal (Ok smp) last h =
    (last', match p with
            | JObj [] => h'
            | _ => match Marshal p with
                   | Ok data => Publish {| ev_Name := "sample"; ev_Data := data; ev_Tag := "" |} h'
                   | Err _ => h'
                   end
            end).
Proof.
  intros p. split; [|split].
  - intros k Hk. apply list_elem_of_In in Hk. destruct smp as [pct cpu [g|] st].
    + split; intros _; [by eexists|]. repeat (destruct Hk as [<-|Hk]; [by eexists|]). destruct Hk.
    + split; intros [x Hx]; [|discriminate Hx].
      destruct cpu; repeat (destruct Hk as [<-|Hk]; [discriminate Hx|]); destruct Hk.
  - destruct smp as [pct [|] [g|] st]; split; try done; try (intros _; eexists; reflexivity); intros [x Hx]; discriminate Hx.
  - unfold hardware_tick. destruct (publishStatus _ _ _ _) as [last' h'].
    destruct smp as [pct [|] [g|] st]; simpl; by try destruct (Marshal _).
Qed.

(** ** The status event follows the sampler *)

Definition known_status (st : GPUStatus) : Prop :=
  gs_State st ∈ [GPUStateOK; GPUStateUnavailable; GPUStateError].

Lemma status_key_inj st st' : known_status st -> known_status st' -> status_key st = status_key st' -> st = st'.
Proof.
  unfold known_status, status_key. destruct st as [a r], st' as [b r']. simpl. intros Ha Hb.
  apply list_elem_of_In in Ha, Hb. destruct Ha as [<-|[<-|[<-|[]]]], Hb as [<-|[<-|[<-|[]]]]; simpl; by intros [= ->].
Qed.

Section status.
Context (Marshal : json -> result string).
Hypothesis marshal_total : forall st, exists d, Marshal (status_json st) = Ok d.

Definition status_event (st : GPUStatus) : option Event :=
  match Marshal (status_json st) with
  | Ok d => Some {| ev_Name := "status"; ev_Data := d; ev_Tag := "" |}
  | Err _ => None
  end.

(** The last key is that of the sticky status. *)
Definition status_inv (last : string) (h : Hub) : Prop :=
  last = "" \/ exists st, known_status st /\ last = status_key st /\ sticky h !! "status" = status_event st.

Lemma tick_status smp last h :
  known_status (s_GPUStatus smp) -> status_inv last h ->
  let '(last', h') := hardware_tick Marshal (Ok smp) last h in
  last' = status_key (s_GPUStatus smp) /\ sticky h' !! "status" = status_event (s_GPUStatus smp).
Proof.
  intros Hk Hinv. unfold hardware_tick.
  assert (Hp : let '(last', h') := publishStatus Marshal (s_GPUStatus smp) last h in
    last' = status_key (s_GPUStatus smp) /\ sticky h' !! "status" = status_event (s_GPUStatus smp)).
  { unfold publishStatus. destruct (String.eqb_spec (status_key (s_GPUStatus smp)) last) as [<-|Hne].
    - split; [done|]. destruct Hinv as [H0|(st & Hst & He & Hs)].
      + unfold status_key in H0. by destruct (gs_State (s_GPUStatus smp)).
      + by rewrite (status_key_inj _ _ Hk Hst He).
    - destruct (marshal_total (s_GPUStatus smp)) as [d Hd]. unfold status_event. rewrite Hd. split; [done|].
      simpl. by rewrite lookup_insert_eq. }
  destruct (publishStatus _ _ _ _) as [last' h']. destruct (_ && _); [done|]. by destruct (Marshal _).
Qed.

Definition running (t : tick) : Prop :=
  match t with TDone => False | TTick (Err _) ended => ended = false | TTick (Ok smp) _ => known_status (s_GPUStatus smp) end.

(** the console sees the current GPU state.  While the pipeline runs, after every
    sample the hub's sticky [status] event, which new subscribers are given first, is
    the one of the last sample's status, whatever samples failed or were identical
    before. *)
Theorem hardware_status_current ticks smp ended h :
  Forall running ticks -> known_status (s_GPUStatus smp) ->
  sticky (RunHardware Marshal (ticks ++ [TTick (Ok smp) ended]) "" h).2 !! "status" = status_event (s_GPUStatus smp).
Proof.
  intros Ht Hk.
  enough (H : forall h last, status_inv last h ->
    sticky (RunHardware Marshal (ticks ++ [TTick (Ok smp) ended]) last h).2 !! "status" = status_event (s_GPUStatus smp))
    by (apply H; by left).
  clear h.
  induction Ht as [|t ticks Hr Ht IH]; intros h last Hinv.
  - cbn [app RunHardware]. pose proof (tick_status smp last h Hk Hinv) as H.
    destruct (hardware_tick Marshal (Ok smp) last h) as [l1 h1]. destruct H as [_ H]. exact H.
  - destruct t as [|[s1|e] en]; [done|..]; simpl in Hr.
    + change ((TTick (Ok s1) en :: ticks) ++ ?x) with (TTick (Ok s1) en :: (ticks ++ x)). cbn [RunHardware].
      pose proof (tick_status s1 last h Hr Hinv) as H. destruct (hardware_tick Marshal (Ok s1) last h) as [l1 h1].
      apply IH. right. exists (s_GPUStatus s1). by destruct H.
    + subst en. simpl. by apply IH.
Qed.
End status.

(** ** Concrete requests and ticks *)

Definition ex_parse : string -> keyfunc -> parse_options -> result jwt_claims :=
  fun _ _ _ => Ok (mint_claims "u1" "ws" 0 Second "jti").

Lemma log_stream_tagged_witness : exists s log,
  ex_sys = Some s /\ s_log s !! 1%nat = Some log /\ length log = 4%nat /\ Forall (fun ev => ev_Tag ev = "a") log.
Proof.
  destruct (log_stream_tagged ex_parse None "key" (TStream SLogs) "Bearer t" [("tag", "a")] 5 SLogs (Some (tag_filter "a")))
    as (_ & _ & _ & H); [vm_compute; reflexivity|].
  destruct (H eq_refl) as [_ Htag]; [discriminate|].
  destruct ex_sys_state as (s & c & r & log & E & Hc & Hr & Hl & Hlog & _). exists s, log.
  split; [exact E|]. split; [exact Hl|]. split; [rewrite Hlog; reflexivity|].
  apply (Htag 2 s 1%nat c log); [exact (sse_run_reachable _ _ _ E)|exact Hc| |exact Hl].
  vm_compute in E. injection E as <-. vm_compute in Hc. injection Hc as <-. reflexivity.
Defined.

Definition ex_marshal_status (j : json) : result string :=
  match jfield "gpu" j with Some (JStr s) => Ok s | _ => Ok "sample" end.

Definition ex_smp (state : string) : Sample :=
  {| s_CPUUtilPct := f0; s_CPUValid := true; s_GPU := None; s_GPUStatus := {| gs_State := state; gs_Reason := "r" |} |}.

Lemma hardware_status_current_witness :
  sticky (RunHardware ex_marshal_status [TTick (Ok (ex_smp GPUStateUnavailable)) false; TTick (Err (EMsg "io")) false;
            TTick (Ok (ex_smp GPUStateError)) false] "" (New 16)).2 !! "status"
  = Some {| ev_Name := "status"; ev_Data := GPUStateError; ev_Tag := "" |}.
Proof.
  refine (hardware_status_current ex_marshal_status _ [TTick (Ok (ex_smp GPUStateUnavailable)) false;
    TTick (Err (EMsg "io")) false] (ex_smp GPUStateError) false (New 16) _ _).
  - intros st. exists (gs_State st). reflexivity.
  - repeat constructor.
  - unfold known_status. simpl. right. right. left.
Defined.

(** Rounding to one decimal place, away from zero in the middle. *)
Example round1_examples :
  round1 (f64_of_Z 42) = f64_of_Z 42 /\
  round1 (fdiv (f64_of_Z 1) (f64_of_Z 4)) = fdiv (f64_of_Z 3) (f64_of_Z 10) /\
  round1 (fdiv (f64_of_Z (-1)) (f64_of_Z 4)) = fdiv (f64_of_Z (-3)) (f64_of_Z 10).
Proof. vm_compute. repeat split. Qed.
