(* ===== verification/Config.v ===== *)
(** * Configuration: upload/config.go, tenancy/config.go, orchestrator/internal/config, telemetry/internal/config

    Each service reads its environment once and refuses to start on a bad value.
    The environment is a map of variables ([os.Getenv] answers the empty string
    for an unset one); the standard-library parsers the loaders use
    ([strconv.ParseBool], [strconv.ParseUint], [time.ParseDuration],
    [net.SplitHostPort]) are defined here, except [url.Parse], a parameter.
    The text a wrapped parser error adds to a message is left out. *)
From S2P Require Export GoLib Base64 Tokens UploadServer Backpressure.

(** ** Standard-library parsers *)

Definition ParseBool (s : string) : option bool :=
  if bool_decide (s ∈ ["1"; "t"; "T"; "TRUE"; "true"; "True"]) then Some true
  else if bool_decide (s ∈ ["0"; "f"; "F"; "FALSE"; "false"; "False"]) then Some false
  else None.

(** [strconv.ParseUint(s, 10, 16)]. *)
Definition ParseUint16 (s : string) : option Z :=
  z ← parse_digits s; if z <=? 65535 then Some z else None.

(** *** time.ParseDuration *)

Definition digit_of (c : ascii) : Z := Z.of_nat (nat_of_ascii c) - 48.

(** [leadingInt]: [None] on overflow of 1<<63. *)
Fixpoint leadingInt (x : Z) (s : string) : option (Z * string) :=
  match s with
  | String c s' =>
      if is_digit c then
        if 2 ^ 63 / 10 <? x then None
        else let x' := x * 10 + digit_of c in
             if 2 ^ 63 <? x' then None else leadingInt x' s'
      else Some (x, s)
  | EmptyString => Some (x, "")
  end.

(** [leadingFraction]: digits past the precision are skipped, not an error. *)
Fixpoint leadingFraction (x : Z) (scale : spec_float) (overflow : bool) (s : string)
    : Z * spec_float * string :=
  match s with
  | String c s' =>
      if is_digit c then
        if overflow then leadingFraction x scale true s'
        else if (2 ^ 63 - 1) / 10 <? x then leadingFraction x scale true s'
        else let y := x * 10 + digit_of c in
             if 2 ^ 63 <? y then leadingFraction x scale true s'
             else leadingFraction y (fmul scale (f64_of_Z 10)) false s'
      else (x, scale, s)
  | EmptyString => (x, scale, "")
  end.

(** The unit: up to the next digit or point. *)
Fixpoint take_unit (s : string) : string * string :=
  match s with
  | String c s' =>
      if Ascii.eqb c "." || is_digit c then ("", s)
      else let '(u, r) := take_unit s' in (String c u, r)
  | EmptyString => ("", "")
  end.

Definition unitMap (u : string) : option Z :=
  if String.eqb u "ns" then Some 1
  else if bool_decide (u ∈ ["us"; bytes [194; 181; 115]%nat; bytes [206; 188; 115]%nat]) then Some 1000
  else if String.eqb u "ms" then Some 1000000
  else if String.eqb u "s" then Some 1000000000
  else if String.eqb u "m" then Some 60000000000
  else if String.eqb u "h" then Some 3600000000000
  else None.

(** The conversion [uint64(f)] of a finite nonnegative float. *)
Definition f64_trunc (f : spec_float) : Z :=
  match f with
  | S754_finite s m e => (if s then -1 else 1) * Z.shiftl (Zpos m) e
  | _ => 0
  end.

(** The optional fraction: its digits, their scale, the rest, and whether there
    was any digit. *)
Definition fraction (s : string) : Z * spec_float * string * bool :=
  match s with
  | String "." r =>
      let '(f, scale, r') := leadingFraction 0 (f64_of_Z 1) false r in
      (f, scale, r', negb (slen r =? slen r'))
  | _ => (0, f64_of_Z 1, s, false)
  end.

(** The nanoseconds of [v + f/scale] units. *)
Definition in_unit (v f : Z) (scale : spec_float) (unit : Z) : option Z :=
  if 2 ^ 63 / unit <? v then None
  else if 0 <? f then
    let v' := u64 (v * unit + f64_trunc (fmul (f64_of_Z f) (fdiv (f64_of_Z unit) scale))) in
    if 2 ^ 63 <? v' then None else Some v'
  else Some (v * unit).

(** One [number unit] group of a duration: its nanoseconds and the rest. *)
Definition duration_group (s : string) : option (Z * string) :=
  match s with
  | EmptyString => None
  | String c _ => if Ascii.eqb c "." || is_digit c then Some () else None
  end ≫= fun _ =>
  leadingInt 0 s ≫= fun '(v, s1) =>
  let pre := negb (slen s =? slen s1) in
  let '(f, scale, s2, post) := fraction s1 in
  if negb pre && negb post then None
  else
    let '(u, s3) := take_unit s2 in
    if String.eqb u "" then None
    else unit ← unitMap u; d ← in_unit v f scale unit; Some (d, s3).

Fixpoint duration_groups (fuel : nat) (d : Z) (s : string) : option Z :=
  match s with
  | EmptyString => Some d
  | _ =>
      match fuel with
      | O => None
      | S fuel =>
          '(v, s') ← duration_group s;
          let d := u64 (d + v) in
          if 2 ^ 63 <? d then None else duration_groups fuel d s'
      end
  end.

Definition ParseDuration (s : string) : option duration :=
  let '(neg, s) := match s with
                   | String "-" r => (true, r)
                   | String "+" r => (false, r)
                   | _ => (false, s)
                   end in
  if String.eqb s "0" then Some 0
  else if String.eqb s "" then None
  else
    d ← duration_groups (String.length s) 0 s;
    if neg then Some (i64 (- d))
    else if 2 ^ 63 - 1 <? d then None else Some d.

(** *** net.SplitHostPort *)

(** Around the last colon. *)
Fixpoint last_colon (s : string) : option (string * string) :=
  match s with
  | EmptyString => None
  | String c s' =>
      match last_colon s' with
      | Some (a, b) => Some (String c a, b)
      | None => if Ascii.eqb c ":" then Some ("", s') else None
      end
  end.

Definition no_brackets (s : string) : bool := no_char "[" s && no_char "]" s.

Definition SplitHostPort (hostport : string) : option (string * string) :=
  '(before, port) ← last_colon hostport;
  match before with
  | String "[" r =>
      match Cut r "]" with
      | Some (host, "") => if no_brackets host && no_brackets port then Some (host, port) else None
      | _ => None
      end
  | _ => if no_char ":" before && no_brackets before && no_brackets port
         then Some (before, port) else None
  end.

Lemma take_unit_length s u r : take_unit s = (u, r) -> (String.length r <= String.length s)%nat.
Proof.
  revert u r. induction s as [|c s IH]; intros u r; simpl; [by intros [= <- <-]|].
  destruct (Ascii.eqb c "." || is_digit c); [by intros [= <- <-]|].
  destruct (take_unit s) as [u' r']. intros [= <- <-]. specialize (IH _ _ eq_refl). lia.
Qed.

Lemma take_unit_shorter s u r :
  take_unit s = (u, r) -> String.eqb u "" = false -> (String.length r < String.length s)%nat.
Proof.
  destruct s as [|c s]; simpl; [by intros [= <- <-]|].
  destruct (Ascii.eqb c "." || is_digit c); [by intros [= <- <-]|].
  destruct (take_unit s) as [u' r'] eqn:He. apply take_unit_length in He. intros [= <- <-] _. lia.
Qed.

Lemma leadingInt_length x s v r : leadingInt x s = Some (v, r) -> (String.length r <= String.length s)%nat.
Proof.
  revert x. induction s as [|c s IH]; intros x; simpl; [by intros [= <- <-]|].
  destruct (is_digit c); [|by intros [= <- <-]].
  destruct (_ <? x); [done|]. destruct (_ <? _); [done|]. intros Hl. specialize (IH _ Hl). lia.
Qed.

Lemma leadingFraction_length x sc o s : (String.length (leadingFraction x sc o s).2 <= String.length s)%nat.
Proof.
  revert x sc o. induction s as [|c s IH]; intros x sc o; simpl; [done|].
  repeat case_match; try (etrans; [apply IH|]); simpl; lia.
Qed.

Lemma fraction_length s f sc r b : fraction s = (f, sc, r, b) -> (String.length r <= String.length s)%nat.
Proof.
  unfold fraction. destruct s as [|c s]; [by intros [= <- <- <- <-]|].
  pose proof (leadingFraction_length 0 (f64_of_Z 1) false s) as Hl.
  destruct (leadingFraction _ _ _ s) as [[f' sc'] r']. simpl in Hl.
  destruct c as [[][][][][][][][]]; intros [= <- <- <- <-]; simpl; lia.
Qed.

(** Every group consumes at least its unit, so the fuel of [ParseDuration], the
    length of its input, is never exhausted. *)
Lemma duration_group_shorter s v r :
  duration_group s = Some (v, r) -> (String.length r < String.length s)%nat.
Proof.
  unfold duration_group. intros (_ & _ & ([v1 s1] & Hi & Hg)%bind_Some)%bind_Some.
  apply leadingInt_length in Hi. destruct (fraction s1) as [[[f sc] s2] b] eqn:Hf.
  apply fraction_length in Hf. destruct (negb _ && negb b); [done|].
  destruct (take_unit s2) as [u s3] eqn:Hu. destruct (String.eqb u "") eqn:He; [done|].
  pose proof (take_unit_shorter _ _ _ Hu He).
  apply bind_Some in Hg as (un & _ & (d & _ & [= <- <-])%bind_Some). lia.
Qed.

Lemma duration_groups_fuel n s d :
  (String.length s <= n)%nat -> duration_groups (S n) d s = duration_groups n d s.
Proof.
  revert s d. induction n as [|n IH]; intros [|c s] d Hn; try done; [simpl in Hn; lia|].
  change (duration_groups (S (S n)) d (String c s))
    with (duration_group (String c s) ≫= fun '(v, s') =>
            if 2 ^ 63 <? u64 (d + v) then None else duration_groups (S n) (u64 (d + v)) s').
  change (duration_groups (S n) d (String c s))
    with (duration_group (String c s) ≫= fun '(v, s') =>
            if 2 ^ 63 <? u64 (d + v) then None else duration_groups n (u64 (d + v)) s').
  destruct (duration_group (String c s)) as [[v s']|] eqn:Hg; [|done]. simpl.
  destruct (_ <? _); [done|]. apply IH. apply duration_group_shorter in Hg. simpl in *. lia.
Qed.

Example durations :
  ParseDuration <$> ["15m"; "1h30m"; "100ms"; "1.5s"; "-2s"; "0"; ""; "5"; "1x"; ".5h"; "9223372036855s"]
  = [Some (900 * Second); Some (5400 * Second); Some (100 * Millisecond); Some 1500000000;
     Some (-2 * Second); Some 0; None; None; None; Some (1800 * Second); None].
Proof. vm_compute. reflexivity. Qed.

Example host_ports :
  SplitHostPort <$> ["127.0.0.1:80"; ":80"; "[::1]:80"; "::1:80"; "host"; "[::1]"; "a]b:1"; "[a]b:1"]
  = [Some ("127.0.0.1", "80"); Some ("", "80"); Some ("::1", "80"); None; None; None; None; None].
Proof. vm_compute. reflexivity. Qed.

(** ** Reading the environment *)

Definition environ : Type := gmap string string.

Section loaders.
Context (env : environ).
(** [url.Parse]: the scheme and host of a URL, or an error. *)
Context (url_Parse : string -> option (string * string)).
(** The order in which [range] visits the entries of a map: any permutation. *)
Context (range : list (string * string) -> list (string * string)).

Definition Getenv (name : string) : string := default "" (env !! name).

Definition envDefault (name def : string) : string :=
  if String.eqb (Getenv name) "" then def else Getenv name.

Definition env_parse {A} (parse : string -> option A) (name : string) (def : A) (kind : string) : result A :=
  if String.eqb (Getenv name) "" then Ok def
  else match parse (Getenv name) with
       | None => Err (EMsg ("config: " +:+ name +:+ " must be " +:+ kind))
       | Some v => Ok v
       end.

Definition envBool (name : string) (def : bool) : result bool :=
  env_parse ParseBool name def "a boolean".
Definition envInt64 (name : string) (def : Z) : result Z :=
  env_parse Atoi name def "an integer".
Definition envDuration (name : string) (def : duration) : result duration :=
  env_parse ParseDuration name def "a Go duration".

(** The shared HMAC key, as upload, tenancy and telemetry read it. *)
Definition load_key (prefix name : string) : result string :=
  if String.eqb (Getenv name) "" then Err (EMsg (prefix +:+ name +:+ " is required"))
  else match DecodeString (Getenv name) with
       | None => Err (EMsg (prefix +:+ name +:+ " must be base64url without padding"))
       | Some key => if slen key <? 32 then Err (EMsg (prefix +:+ name +:+ " must decode to at least 32 bytes"))
                     else Ok key
       end.

(** The first empty value in the order of the range. *)
Definition require_all (vals : list (string * string)) : result () :=
  match find (fun '(_, v) => String.eqb v "") (range vals) with
  | Some (name, _) => Err (EMsg ("config: " +:+ name +:+ " is required"))
  | None => Ok ()
  end.

(** *** upload/config.go *)

Record UploadConfig := {
  uc_ListenAddr : string; uc_DatabaseURL : string;
  uc_S3Endpoint : string; uc_S3Region : string; uc_S3Bucket : string;
  uc_S3AccessKey : string; uc_S3SecretKey : string; uc_S3PathStyle : bool;
  uc_NATSURL : string; uc_QuotaConfigPath : string; uc_AuthHS256Key : string;
  uc_MaxInflightBytes : Z; uc_MaxObjectBytes : Z
}.

Definition upload_LoadConfig : result UploadConfig :=
  pathStyle ← envBool "UPLOAD_S3_PATH_STYLE" true;
  maxInflight ← envInt64 "UPLOAD_MAX_INFLIGHT_BYTES" (Z.shiftl 1 30);
  maxObject ← envInt64 "UPLOAD_MAX_OBJECT_BYTES" (Z.shiftl 1 40);
  key ← load_key "config: " "UPLOAD_AUTH_HS256_KEY";
  _ ← require_all ((fun name => (name, Getenv name)) <$>
                     ["UPLOAD_DATABASE_URL"; "UPLOAD_S3_ENDPOINT"; "UPLOAD_S3_BUCKET";
                      "UPLOAD_S3_ACCESS_KEY"; "UPLOAD_S3_SECRET_KEY"; "UPLOAD_QUOTA_CONFIG_PATH"]);
  if maxInflight <? ChunkSizeBytes_default
  then Err (EMsg ("config: UPLOAD_MAX_INFLIGHT_BYTES must be at least one chunk ("
                    +:+ itoa ChunkSizeBytes_default +:+ ")"))
  else if maxObject <=? 0 then Err (EMsg "config: UPLOAD_MAX_OBJECT_BYTES must be positive")
  else Ok {| uc_ListenAddr := envDefault "UPLOAD_LISTEN_ADDR" "127.0.0.1:5301";
             uc_DatabaseURL := Getenv "UPLOAD_DATABASE_URL";
             uc_S3Endpoint := Getenv "UPLOAD_S3_ENDPOINT";
             uc_S3Region := envDefault "UPLOAD_S3_REGION" "gra";
             uc_S3Bucket := Getenv "UPLOAD_S3_BUCKET";
             uc_S3AccessKey := Getenv "UPLOAD_S3_ACCESS_KEY";
             uc_S3SecretKey := Getenv "UPLOAD_S3_SECRET_KEY";
             uc_S3PathStyle := pathStyle;
             uc_NATSURL := envDefault "UPLOAD_NATS_URL" "nats://127.0.0.1:4222";
             uc_QuotaConfigPath := Getenv "UPLOAD_QUOTA_CONFIG_PATH";
             uc_AuthHS256Key := key;
             uc_MaxInflightBytes := maxInflight; uc_MaxObjectBytes := maxObject |}.

(** *** tenancy/config.go *)

Record TenancyConfig := {
  tc_ListenAddr : string; tc_DatabaseURL : string; tc_NATSURL : string;
  tc_AuthHS256Key : string; tc_AccessTokenTTL : duration; tc_RefreshTokenTTL : duration;
  tc_OIDCIssuer : string; tc_OIDCClientID : string; tc_OIDCClientSecret : string;
  tc_OIDCRedirectURL : string; tc_TiersConfigPath : string; tc_InternalToken : string;
  tc_CookieSecure : bool
}.

Definition Minute : duration := 60 * Second.
Definition Hour : duration := 60 * Minute.

Definition http_url (raw : string) : bool :=
  match url_Parse raw with
  | None => false
  | Some (scheme, host) =>
      (String.eqb scheme "https" || String.eqb scheme "http") && negb (String.eqb host "")
  end.

Definition require_urls (vals : list (string * string)) : result () :=
  match find (fun '(_, raw) => negb (http_url raw)) (range vals) with
  | Some (name, raw) => Err (EMsg ("config: " +:+ name +:+ " is not an absolute http(s) URL"))
  | None => Ok ()
  end.

Definition tenancy_LoadConfig : result TenancyConfig :=
  let listen := envDefault "TENANCY_LISTEN_ADDR" "127.0.0.1:5401" in
  let issuer := envDefault "TENANCY_OIDC_ISSUER" "https://accounts.google.com" in
  let token := Getenv "TENANCY_INTERNAL_TOKEN" in
  access ← envDuration "TENANCY_ACCESS_TOKEN_TTL" (15 * Minute);
  refresh ← envDuration "TENANCY_REFRESH_TOKEN_TTL" (720 * Hour);
  secure ← envBool "TENANCY_COOKIE_SECURE" true;
  key ← load_key "config: " "TENANCY_AUTH_HS256_KEY";
  _ ← require_all ((fun name => (name, Getenv name)) <$>
                     ["TENANCY_DATABASE_URL"; "TENANCY_OIDC_CLIENT_ID"; "TENANCY_OIDC_CLIENT_SECRET";
                      "TENANCY_OIDC_REDIRECT_URL"; "TENANCY_TIERS_CONFIG_PATH"; "TENANCY_INTERNAL_TOKEN"]);
  if slen token <? 16
  then Err (EMsg "config: TENANCY_INTERNAL_TOKEN must be at least 16 characters")
  else match SplitHostPort listen with
  | None => Err (EMsg ("config: TENANCY_LISTEN_ADDR is not host:port"))
  | Some _ =>
  _ ← require_urls [("TENANCY_OIDC_ISSUER", issuer);
                    ("TENANCY_OIDC_REDIRECT_URL", Getenv "TENANCY_OIDC_REDIRECT_URL")];
  if (access <=? 0) || (Hour <? access)
  then Err (EMsg "config: TENANCY_ACCESS_TOKEN_TTL must be positive and at most 1h (short-lived tokens)")
  else if refresh <=? access
  then Err (EMsg "config: TENANCY_REFRESH_TOKEN_TTL must exceed the access token TTL")
  else Ok {| tc_ListenAddr := listen; tc_DatabaseURL := Getenv "TENANCY_DATABASE_URL";
             tc_NATSURL := envDefault "TENANCY_NATS_URL" "nats://127.0.0.1:4222";
             tc_AuthHS256Key := key; tc_AccessTokenTTL := access; tc_RefreshTokenTTL := refresh;
             tc_OIDCIssuer := issuer; tc_OIDCClientID := Getenv "TENANCY_OIDC_CLIENT_ID";
             tc_OIDCClientSecret := Getenv "TENANCY_OIDC_CLIENT_SECRET";
             tc_OIDCRedirectURL := Getenv "TENANCY_OIDC_REDIRECT_URL";
             tc_TiersConfigPath := Getenv "TENANCY_TIERS_CONFIG_PATH";
             tc_InternalToken := token; tc_CookieSecure := secure |}
  end.

(** *** orchestrator/internal/config *)

Record OrchConfig := {
  oc_HTTPAddr : string; oc_DatabaseURL : string; oc_NATSURL : string;
  oc_S3Endpoint : string; oc_S3Region : string; oc_S3Bucket : string;
  oc_S3AccessKey : string; oc_S3SecretKey : string; oc_S3PathStyle : bool;
  oc_ScratchDir : string; oc_FFmpegPath : string; oc_FFprobePath : string;
  oc_SchedulerSlots : Z; oc_SchedulerPollInterval : duration;
  oc_QuotaConfigPath : string; oc_JWTSecret : string; oc_AutoCreateJobs : bool
}.

Definition env_checked {A} (parse : string -> option A) (ok : A -> bool) (name : string) (def : A)
    (kind : string) : result A :=
  if String.eqb (Getenv name) "" then Ok def
  else match parse (Getenv name) with
       | Some v => if ok v then Ok v else Err (EMsg (name +:+ " must be " +:+ kind))
       | None => Err (EMsg (name +:+ " must be " +:+ kind))
       end.

Definition missing (names : list string) : list string :=
  filter (fun name => Getenv name = "") names.

Definition orch_required : list string :=
  ["ORCH_DATABASE_URL"; "ORCH_NATS_URL"; "ORCH_S3_ENDPOINT"; "ORCH_S3_REGION"; "ORCH_S3_BUCKET";
   "ORCH_S3_ACCESS_KEY"; "ORCH_S3_SECRET_KEY"; "ORCH_FFMPEG_PATH"; "ORCH_FFPROBE_PATH";
   "ORCH_QUOTA_CONFIG"; "ORCH_JWT_SECRET"].

Definition orch_FromEnv : result OrchConfig :=
  slots ← env_checked Atoi (fun n => (1 <=? n) && (n <=? 64)) "ORCH_SCHEDULER_SLOTS" 3
            "an integer 1..64";
  poll ← env_checked ParseDuration (fun d => 100 * Millisecond <=? d) "ORCH_SCHEDULER_POLL_INTERVAL"
           (2 * Second) "a duration >= 100ms";
  pathStyle ← env_checked ParseBool (fun _ => true) "ORCH_S3_PATH_STYLE" false "a boolean";
  auto ← env_checked ParseBool (fun _ => true) "ORCH_AUTOCREATE_JOBS" true "a boolean";
  match missing orch_required with
  | _ :: _ as names => Err (EMsg ("missing required environment: [" +:+ join " " names +:+ "]"))
  | [] => Ok {| oc_HTTPAddr := envDefault "ORCH_HTTP_ADDR" "127.0.0.1:5203";
                oc_DatabaseURL := Getenv "ORCH_DATABASE_URL"; oc_NATSURL := Getenv "ORCH_NATS_URL";
                oc_S3Endpoint := Getenv "ORCH_S3_ENDPOINT"; oc_S3Region := Getenv "ORCH_S3_REGION";
                oc_S3Bucket := Getenv "ORCH_S3_BUCKET"; oc_S3AccessKey := Getenv "ORCH_S3_ACCESS_KEY";
                oc_S3SecretKey := Getenv "ORCH_S3_SECRET_KEY"; oc_S3PathStyle := pathStyle;
                oc_ScratchDir := envDefault "ORCH_SCRATCH_DIR" "/var/tmp/aether-orchestrator";
                oc_FFmpegPath := Getenv "ORCH_FFMPEG_PATH"; oc_FFprobePath := Getenv "ORCH_FFPROBE_PATH";
                oc_SchedulerSlots := slots; oc_SchedulerPollInterval := poll;
                oc_QuotaConfigPath := Getenv "ORCH_QUOTA_CONFIG";
                oc_JWTSecret := Getenv "ORCH_JWT_SECRET"; oc_AutoCreateJobs := auto |}
  end.

(** *** telemetry/internal/config *)

Record TelemetryConfig := {
  ec_ListenAddr : string; ec_AuthHS256Key : string; ec_NATSURL : string;
  ec_StreamBufferSize : Z; ec_HeartbeatInterval : duration; ec_SampleInterval : duration
}.

Definition tele_Load : result TelemetryConfig :=
  let listen := envDefault "TELEMETRY_LISTEN_ADDR" "127.0.0.1:8094" in
  let nats := envDefault "TELEMETRY_NATS_URL" "nats://127.0.0.1:4222" in
  match SplitHostPort listen with
  | None => Err (EMsg "TELEMETRY_LISTEN_ADDR is not a valid host:port")
  | Some (host, port) =>
    if String.eqb host "" || String.eqb port ""
    then Err (EMsg "TELEMETRY_LISTEN_ADDR is not a valid host:port")
    else match ParseUint16 port with
    | None => Err (EMsg "TELEMETRY_LISTEN_ADDR port is not a valid port number")
    | Some _ =>
      key ← load_key "" "TELEMETRY_AUTH_HS256_KEY";
      let nats_ok := match url_Parse nats with
                     | None => false
                     | Some (scheme, host) => (String.eqb scheme "nats" || String.eqb scheme "tls")
                                              && negb (String.eqb host "")
                     end in
      if negb nats_ok then Err (EMsg "TELEMETRY_NATS_URL must be a nats:// or tls:// URL")
      else
        buffer ← env_checked Atoi (fun n => (16 <=? n) && (n <=? 4096)) "TELEMETRY_STREAM_BUFFER" 256
                   "an integer in [16,4096]";
        Ok {| ec_ListenAddr := listen; ec_AuthHS256Key := key; ec_NATSURL := nats;
              ec_StreamBufferSize := buffer; ec_HeartbeatInterval := 15 * Second;
              ec_SampleInterval := Second |}
    end
  end.
End loaders.
