(* ===== verification/Startup.v ===== *)
(** * Start-up: what a service that accepted its configuration runs with

    The parts of the [main] functions of the four services that hand the loaded
    configuration to the components, and what holds of every configuration a
    loader accepts: the four services share one signing key, no session has a
    chunk the backpressure gauge can never admit, and the slots, buffers and
    token lifetimes are within their documented bounds. *)
From S2P Require Export Config Telemetry SchedLoop UploadProofs Landed.
From S2P Require TenancyServer.
#[local] Open Scope Z_scope.

(** ** The wiring of the main functions *)

(** upload/main.go: the server with its gauge and back-off director. *)
Definition upload_main (cfg : UploadConfig) : UploadServer.Server * InflightGauge * BackoffDirector :=
  (NewServer (uc_MaxObjectBytes cfg), NewInflightGauge (uc_MaxInflightBytes cfg),
   NewBackoffDirector Second (60 * Second)).

(** tenancy/main.go: the signer is built before the server. *)
Definition tenancy_main (cfg : TenancyConfig) (tiers : MeteredQuota.TierConfig) (oidc : Oidc.OIDCClient)
    : result TenancyServer.Server :=
  signer ← newHS256Signer (tc_AuthHS256Key cfg);
  Ok {| TenancyServer.srv_tiers := tiers; TenancyServer.srv_oidc := oidc;
        TenancyServer.srv_signer := signer; TenancyServer.srv_accessTokenTTL := tc_AccessTokenTTL cfg;
        TenancyServer.srv_refreshTokenTTL := tc_RefreshTokenTTL cfg;
        TenancyServer.srv_internalToken := tc_InternalToken cfg;
        TenancyServer.srv_cookieSecure := tc_CookieSecure cfg |}.

(** orchestrator/cmd/orchestrator/main.go: the scheduler, the consumer and the
    verifier; [scratch] is the staging root under the scratch directory. *)
Definition orch_main (cfg : OrchConfig) (scratch : string)
    : result (SchedConfig * LandedConfig * string) :=
  sched ← NewScheduler {| Slots := oc_SchedulerSlots cfg; PollInterval := oc_SchedulerPollInterval cfg;
                          StagingDir := scratch; ProgressPersistEvery := 0 |};
  verifier ← orch_NewVerifier (oc_JWTSecret cfg);
  Ok (sched, {| ScratchDir := scratch; AutoCreateJobs := oc_AutoCreateJobs cfg |}, verifier).

(** telemetry/cmd/telemetry/main.go: the hubs, one per stream, and the verifier
    inside [server.New]. *)
Definition tele_main (cfg : TelemetryConfig) : result (list Hub * string) :=
  verifier ← tele_NewVerifier (ec_AuthHS256Key cfg);
  Ok (replicate 3 (Hub.New (ec_StreamBufferSize cfg)), verifier).

(** ** What the loaders check *)

Lemma bind_Ok {A B} (r : result A) (f : A -> result B) b :
  r ≫= f = Ok b <-> exists a, r = Ok a /\ f a = Ok b.
Proof. destruct r; simpl; naive_solver. Qed.

(** The value a loader took out of the next check. *)
Ltac checked H x Hx := apply bind_Ok in H as (x & Hx & H).

(** What every service makes of the shared secret. *)
Definition decodes_to (secret key : string) : Prop := DecodeString secret = Some key /\ 32 <= slen key.

Lemma decodes_to_unique secret key key' : decodes_to secret key -> decodes_to secret key' -> key = key'.
Proof. intros [H _] [H' _]. congruence. Qed.

(** A chain that refuses an empty secret, a secret that is not base64url and a
    short key. *)
Ltac decoding secret :=
  destruct (String.eqb_spec secret "") as [->|_];
  [split; [done|]; intros [[= <-] Hl]; by vm_compute in Hl|];
  unfold decodes_to; destruct (DecodeString secret) as [k|]; [|naive_solver];
  destruct (Z.ltb_spec (slen k) 32); split; [done| |naive_solver|naive_solver];
  intros [[= ->] ?]; lia.

Lemma load_key_Ok env prefix name key :
  load_key env prefix name = Ok key <-> decodes_to (Getenv env name) key.
Proof. unfold load_key. decoding (Getenv env name). Qed.

(** The orchestrator decodes its secret when the verifier is built. *)
Lemma orch_NewVerifier_Ok secret key : orch_NewVerifier secret = Ok key <-> decodes_to secret key.
Proof. unfold orch_NewVerifier. decoding secret. Qed.

Lemma Atoi_bounds s z : Atoi s = Some z -> - 2 ^ 63 <= z < 2 ^ 63.
Proof.
  unfold Atoi. intros (v & _ & Hz)%bind_Some. unfold max_i64 in Hz.
  destruct (_ && _) eqn:Hb; [|done]. bool_prop. simplify_eq. lia.
Qed.

Lemma envInt64_bounds env name def z :
  - 2 ^ 63 <= def < 2 ^ 63 -> envInt64 env name def = Ok z -> - 2 ^ 63 <= z < 2 ^ 63.
Proof.
  unfold envInt64, env_parse. intros Hd. destruct (String.eqb _ ""); [by intros [= <-]|].
  destruct (Atoi _) eqn:Ha; [|done]. intros [= <-]. by eapply Atoi_bounds.
Qed.

Lemma env_checked_Ok {A} env (parse : string -> option A) ok name def kind v :
  env_checked env parse ok name def kind = Ok v -> ok def = true -> ok v = true.
Proof.
  unfold env_checked. destruct (String.eqb _ ""); [by intros [= <-]|].
  destruct (parse _) as [x|]; [|done]. destruct (ok x) eqn:Hx; [|done]. by intros [= <-].
Qed.

Lemma upload_config_ok env range c :
  upload_LoadConfig env range = Ok c ->
  decodes_to (Getenv env "UPLOAD_AUTH_HS256_KEY") (uc_AuthHS256Key c) /\
  ChunkSizeBytes_default <= uc_MaxInflightBytes c < 2 ^ 63 /\ 0 < uc_MaxObjectBytes c < 2 ^ 63.
Proof.
  unfold upload_LoadConfig. intros H. checked H ps Hps. checked H mi Hmi. checked H mo Hmo.
  checked H key Hkey. checked H u Hu. apply load_key_Ok in Hkey.
  apply envInt64_bounds in Hmi, Hmo; [|by vm_compute..].
  destruct (Z.ltb_spec mi ChunkSizeBytes_default); [done|]. destruct (Z.leb_spec mo 0); [done|].
  simplify_eq. simpl. split; [done|]. lia.
Qed.

Lemma tenancy_config_ok env url_Parse range c :
  tenancy_LoadConfig env url_Parse range = Ok c ->
  decodes_to (Getenv env "TENANCY_AUTH_HS256_KEY") (tc_AuthHS256Key c) /\
  0 < tc_AccessTokenTTL c <= Hour /\ tc_AccessTokenTTL c < tc_RefreshTokenTTL c /\
  16 <= slen (tc_InternalToken c).
Proof.
  unfold tenancy_LoadConfig. intros H. checked H at_ Hat. checked H rt Hrt. checked H sec Hsec.
  checked H key Hkey. checked H u Hu. apply load_key_Ok in Hkey.
  destruct (Z.ltb_spec (slen (Getenv env "TENANCY_INTERNAL_TOKEN")) 16); [done|].
  destruct (SplitHostPort _); [|done]. checked H u' Hu'.
  destruct ((at_ <=? 0) || _) eqn:Hb; [done|]. destruct (Z.leb_spec rt at_); [done|].
  bool_prop. simplify_eq. simpl. split; [done|]. lia.
Qed.

Lemma orch_config_ok env c :
  orch_FromEnv env = Ok c ->
  oc_JWTSecret c = Getenv env "ORCH_JWT_SECRET" /\ 1 <= oc_SchedulerSlots c <= 64 /\
  100 * Millisecond <= oc_SchedulerPollInterval c /\
  Forall (fun name => Getenv env name <> "") orch_required.
Proof.
  unfold orch_FromEnv. intros H. checked H slots Hs. checked H poll Hp. checked H ps Hps.
  checked H ac Hac. apply env_checked_Ok in Hs, Hp; [|by vm_compute..].
  destruct (missing env orch_required) eqn:Hm; [|done]. bool_prop. simplify_eq. simpl.
  split; [done|]. split; [done|]. split; [done|]. apply Forall_forall. intros name Hn He.
  assert (Hin : name ∈ missing env orch_required) by (by apply list_elem_of_filter).
  rewrite Hm in Hin. by apply not_elem_of_nil in Hin.
Qed.

Lemma tele_config_ok env url_Parse c :
  tele_Load env url_Parse = Ok c ->
  decodes_to (Getenv env "TELEMETRY_AUTH_HS256_KEY") (ec_AuthHS256Key c) /\
  16 <= ec_StreamBufferSize c <= 4096.
Proof.
  unfold tele_Load. destruct (SplitHostPort _) as [[host port]|]; [|done].
  destruct (_ || _); [done|]. destruct (ParseUint16 port); [|done]. intros H.
  checked H key Hkey. apply load_key_Ok in Hkey. destruct (negb _); [done|].
  checked H buf Hb. apply env_checked_Ok in Hb; [|by vm_compute]. bool_prop. simplify_eq. by split.
Qed.

(** ** One key for all services *)

Section shared_key.
Context (ParseWithClaims : string -> keyfunc -> parse_options -> result jwt_claims).
Context (NewWithClaims_SignedString : string -> jwt_claims -> string -> result string).
Context (hmac_sha256 : string -> string -> string).
Context (json_alg : string -> option string) (json_claims : string -> option tokenClaims).
Context (url_Parse : string -> option (string * string)).
Context (range : list (string * string) -> list (string * string)).

(** C12: the auth contract across services, from their environments.  When the four
    services are given one and the same secret and each accepts its configuration,
    each decodes it to the same HMAC key, and a token tenancy mints with its
    configured lifetime, at most an hour, is accepted by the hand-written verifier
    of the upload service and the golang-jwt verifiers of the orchestrator,
    telemetry and tenancy, each with exactly the identity it was minted for, from
    the second it was minted to the second before it expires; outside that window
    each of them rejects it. *)
Theorem configured_services_share_tokens secret tenv uenv oenv eenv tc uc oc ec tiers oidc scratch
    tsrv ovk ehk user ws now jti t :
  jwt_laws ParseWithClaims NewWithClaims_SignedString hmac_sha256 json_alg json_claims ->
  tenancy_LoadConfig tenv url_Parse range = Ok tc -> upload_LoadConfig uenv range = Ok uc ->
  orch_FromEnv oenv = Ok oc -> tele_Load eenv url_Parse = Ok ec ->
  Getenv tenv "TENANCY_AUTH_HS256_KEY" = secret -> Getenv uenv "UPLOAD_AUTH_HS256_KEY" = secret ->
  Getenv oenv "ORCH_JWT_SECRET" = secret -> Getenv eenv "TELEMETRY_AUTH_HS256_KEY" = secret ->
  tenancy_main tc tiers oidc = Ok tsrv -> orch_main oc scratch = Ok ovk -> tele_main ec = Ok ehk ->
  user <> "" -> ws <> "" -> Second <= now ->
  let ttl := TenancyServer.srv_accessTokenTTL tsrv in
  let id := {| id_WorkspaceID := ws; id_UserID := user |} in
  let live := (unix_sec now <=? unix_sec t) && (unix_sec t <? unix_sec (now + ttl)) in
  0 < ttl <= Hour /\
  exists tok, Mint NewWithClaims_SignedString (TenancyServer.srv_signer tsrv) user ws now ttl jti = Ok tok /\
    accepted (orch_Verify ParseWithClaims ovk.2 tok t) id live /\
    accepted (tele_Verify ParseWithClaims ehk.2 tok t) id live /\
    accepted (tenancy_Verify ParseWithClaims (TenancyServer.srv_signer tsrv) tok t) id live /\
    accepted (upload_result (VerifyHS256 hmac_sha256 json_alg json_claims tok (uc_AuthHS256Key uc) t))
      id live.
Proof.
  intros Hjwt Ht Hu Ho He <- Hus Hos Hes Htm Hom Hem Huser Hws Hnow ttl id live.
  apply tenancy_config_ok in Ht as (Hkt & Httl & _). apply upload_config_ok in Hu as (Hku & _).
  apply orch_config_ok in Ho as (Hso & _). apply tele_config_ok in He as (Hke & _).
  apply bind_Ok in Htm as (sk & Hsk & [= <-]). simpl in *. fold ttl.
  apply bind_Ok in Hom as (sc & _ & Hom). apply bind_Ok in Hom as (vk & Hvk & [= <-]).
  apply bind_Ok in Hem as (ek & Hek & [= <-]). simpl.
  rewrite Hso, Hos in Hvk. apply orch_NewVerifier_Ok in Hvk. rewrite Hus in Hku. rewrite Hes in Hke.
  unfold newHS256Signer in Hsk. unfold tele_NewVerifier in Hek.
  destruct (_ <? 32); [done|]. destruct (_ <? 32); [done|]. simplify_eq.
  rewrite (decodes_to_unique _ _ _ Hku Hkt), (decodes_to_unique _ _ _ Hke Hkt),
    (decodes_to_unique _ _ _ Hvk Hkt).
  split; [done|]. apply minted_token_accepted_everywhere; [done..|lia].
Qed.
End shared_key.

(** ** Every chunk fits the configured gauge *)

(** No chunk is starved by configuration.  With any configuration the upload
    service accepts, every chunk of every session it can create (for declared
    sizes whose chunk arithmetic stays within [int64]) has at least one byte, and
    is admitted by the backpressure gauge the service starts with whenever nothing
    else is in flight. *)
Theorem configured_gauge_admits_chunks env range c req id mp sid n :
  upload_LoadConfig env range = Ok c ->
  let '(srv, g, _) := upload_main c in
  validateCreate req (maxObjectBytes srv) = "" ->
  cr_SizeBytes req + ChunkSizeBytes_default <= 2 ^ 63 ->
  let sess := new_session srv sid id req mp in
  0 <= n < ChunkCount sess ->
  0 < expected_size sess n /\
  TryAcquire (expected_size sess n) g = (true, set_current g (expected_size sess n)).
Proof.
  intros Hc. apply upload_config_ok in Hc as (_ & Hmi & _). simpl. intros Hv Hsz Hn.
  assert (Hs : 0 < cr_SizeBytes req).
  { unfold validateCreate in Hv. break_match Hv. bool_prop. lia. }
  set (srv := NewServer (uc_MaxObjectBytes c)) in *.
  destruct (session_chunks srv id req mp sid) as (Hk1 & Hk & Hex); [by vm_compute|done|done|].
  set (sess := new_session srv sid id req mp) in *. set (m := expected_size sess n).
  assert (Hm : 0 < m <= chunkSize srv).
  { unfold m. rewrite Hex. destruct (Z.eqb_spec n (ChunkCount sess - 1)); [nia|]. by vm_compute. }
  change (chunkSize srv) with ChunkSizeBytes_default in Hm.
  split; [lia|]. clearbody m. unfold TryAcquire, tryAcquire_load, tryAcquire_cas. simpl.
  rewrite (i64_id (0 + m)) by lia. destruct (Z.ltb_spec (uc_MaxInflightBytes c) (0 + m)); [lia|].
  simpl. by rewrite (i64_id (0 + m)) by lia.
Qed.

(** ** Concrete configurations *)

Definition ex_key : string := "01234567890123456789012345678901".
Definition ex_secret : string := EncodeToString ex_key.

Definition ex_url (s : string) : option (string * string) :=
  match Cut s "://" with Some (scheme, host) => Some (scheme, host) | None => None end.

Definition ex_upload_env : environ := list_to_map
  [("UPLOAD_AUTH_HS256_KEY", ex_secret); ("UPLOAD_DATABASE_URL", "postgres://db");
   ("UPLOAD_S3_ENDPOINT", "https://s3"); ("UPLOAD_S3_BUCKET", "b"); ("UPLOAD_S3_ACCESS_KEY", "a");
   ("UPLOAD_S3_SECRET_KEY", "s"); ("UPLOAD_QUOTA_CONFIG_PATH", "/etc/quota")].

Definition ex_tenancy_env : environ := list_to_map
  [("TENANCY_AUTH_HS256_KEY", ex_secret); ("TENANCY_DATABASE_URL", "postgres://db");
   ("TENANCY_OIDC_CLIENT_ID", "cid"); ("TENANCY_OIDC_CLIENT_SECRET", "cs");
   ("TENANCY_OIDC_REDIRECT_URL", "https://app/cb"); ("TENANCY_TIERS_CONFIG_PATH", "/etc/tiers");
   ("TENANCY_INTERNAL_TOKEN", "0123456789abcdef"); ("TENANCY_ACCESS_TOKEN_TTL", "10m")].

Definition ex_orch_env : environ :=
  <["ORCH_JWT_SECRET" := ex_secret]> (list_to_map ((fun name => (name, "x")) <$> orch_required)).

Definition ex_tele_env : environ := {["TELEMETRY_AUTH_HS256_KEY" := ex_secret]}.

(** The value of a computation that succeeds. *)
Definition from_ok {A} (r : result A) : match r with Ok _ => A | Err _ => () end :=
  match r with Ok a => a | Err _ => () end.

Definition ex_upload_config : UploadConfig :=
  Eval vm_compute in from_ok (upload_LoadConfig ex_upload_env id).
Definition ex_tenancy_config : TenancyConfig :=
  Eval vm_compute in from_ok (tenancy_LoadConfig ex_tenancy_env ex_url id).
Definition ex_orch_config : OrchConfig := Eval vm_compute in from_ok (orch_FromEnv ex_orch_env).
Definition ex_tele_config : TelemetryConfig :=
  Eval vm_compute in from_ok (tele_Load ex_tele_env ex_url).

Lemma ex_upload_loads : upload_LoadConfig ex_upload_env id = Ok ex_upload_config.
Proof. vm_compute. reflexivity. Qed.

(** The defaults admit a session that has more chunks than an S3 multipart upload
    has parts (10000), so it can never be assembled. *)
Example default_object_limit_exceeds_parts :
  let '(srv, _, _) := upload_main ex_upload_config in
  let req := {| cr_Filename := "f"; cr_SizeBytes := 2 ^ 40; cr_Mime := "video/mp4" |} in
  validateCreate req (maxObjectBytes srv) = "" /\ chunk_count srv (cr_SizeBytes req) = 16384.
Proof. vm_compute. split; reflexivity. Qed.

Lemma configured_gauge_admits_chunks_witness :
  let '(srv, g, _) := upload_main ex_upload_config in
  let req := {| cr_Filename := "f"; cr_SizeBytes := 100; cr_Mime := "video/mp4" |} in
  TryAcquire 100 g = (true, set_current g 100).
Proof.
  pose (req := {| cr_Filename := "f"; cr_SizeBytes := 100; cr_Mime := "video/mp4" |}).
  exact (proj2 (configured_gauge_admits_chunks ex_upload_env id ex_upload_config req
    {| id_WorkspaceID := "ws"; id_UserID := "u" |} "mp" "s" 0 ex_upload_loads
    ltac:(vm_compute; reflexivity) ltac:(vm_compute; discriminate)
    ltac:(split; vm_compute; [discriminate|reflexivity]))).
Defined.

Lemma configured_services_share_tokens_witness :
  tenancy_LoadConfig ex_tenancy_env ex_url id = Ok ex_tenancy_config /\
  exists tok, Mint ToyJwt.sign ex_key "alice" "ws1" (1000 * Second) (600 * Second) "j" = Ok tok /\
    VerifyHS256 ToyJwt.mac Some ToyJwt.claims tok (uc_AuthHS256Key ex_upload_config) (1030 * Second)
    = inr {| id_WorkspaceID := "ws1"; id_UserID := "alice" |}.
Proof.
  pose (oidc := {| Oidc.issuer := ""; Oidc.clientID := ""; Oidc.clientSecret := ""; Oidc.redirectURL := "";
                   Oidc.authorizationEndpoint := ""; Oidc.tokenEndpoint := ""; Oidc.jwksURI := "" |}).
  assert (Ht : tenancy_LoadConfig ex_tenancy_env ex_url id = Ok ex_tenancy_config) by (vm_compute; reflexivity).
  split; [exact Ht|].
  pose (tsrv := from_ok (tenancy_main ex_tenancy_config MeteredQuota.ex_tiers oidc)).
  pose (ovk := from_ok (orch_main ex_orch_config "/scratch")).
  pose (ehk := from_ok (tele_main ex_tele_config)).
  destruct (configured_services_share_tokens ToyJwt.parse ToyJwt.sign ToyJwt.mac Some ToyJwt.claims
    ex_url id ex_secret ex_tenancy_env ex_upload_env ex_orch_env ex_tele_env
    ex_tenancy_config ex_upload_config ex_orch_config ex_tele_config
    MeteredQuota.ex_tiers oidc "/scratch" tsrv ovk ehk
    "alice" "ws1" (1000 * Second) "j" (1030 * Second) ToyJwt.laws Ht ex_upload_loads)
    as (_ & tok & Hm & _ & _ & _ & Hv);
    [vm_compute; reflexivity..|done|done|vm_compute; discriminate|].
  exists tok. split; [exact Hm|]. unfold accepted in Hv.
  change ((unix_sec (1000 * Second) <=? unix_sec (1030 * Second)) &&
    (unix_sec (1030 * Second) <? unix_sec (1000 * Second + 600 * Second))) with true in Hv.
  destruct (VerifyHS256 _ _ _ tok _ (1030 * Second)); simpl in Hv; congruence.
Defined.
