(* ===== verification/ObjStore.v ===== *)
(** * orchestrator/internal/objstore: the S3 object store of the transcode farm

    [s3.go].  Object keys are validated before any call; [Download] writes a local
    scratch file and [PutDir] stores a directory tree.  The S3 client and the
    [os] functions are the interface [objE]; the order in which
    [filepath.WalkDir] visits a tree is the function [walk].  An object store and
    a file system that answer these calls are the relation [obj_world]. *)
From S2P Require Export Http Events Scheduler.
#[local] Open Scope Z_scope.

(** ** Keys *)

(** [^[A-Za-z0-9._$%-]{1,128}$] *)
Definition segment_char (c : ascii) : bool := is_alnum c || one_of "._$%-" c.
Definition keySegment (s : string) : bool := match_class segment_char 1 128 s.

Definition segment_ok (seg : string) : bool :=
  negb (String.eqb seg "." || String.eqb seg ".." || negb (keySegment seg)).

Definition validateKey (key : string) : result () :=
  if String.eqb key "" || (512 <? slen key)
  then Err (EMsg "object key must be 1..512 characters")
  else if HasPrefix key "/" || HasSuffix key "/"
  then Err (EMsg "object key must not start or end with /")
  else match find (fun seg => negb (segment_ok seg)) (Split "/" key) with
       | Some seg => Err (EMsg ("object key segment " +:+ seg +:+ " is not allowed"))
       | None => Ok ()
       end.

(** ** The calls *)

(** A visit of [filepath.WalkDir]: the path relative to the root, whether it is a
    directory, and the error the callback is given. *)
Record visit := { v_rel : list string; v_dir : bool; v_err : option gerror }.

Inductive objE : Type -> Type :=
| HeadObject (key : string) : objE (result bool)          (* false: types.NotFound *)
| GetObject (key : string) : objE (result stream)
| MkdirAllDir (path : string) : objE (result ())          (* MkdirAll(filepath.Dir(path)) *)
| OpenTrunc (path : string) : objE (result ())            (* O_CREATE|O_WRONLY|O_TRUNC *)
| CopyTo (path : string) (body : stream) : objE (result ())
| CloseFile (path : string) : objE (result ())
| Remove (path : string) : objE (result ())
| OpenFile (path : string) : objE (result ())
| Stat (path : string) : objE (result Z)
| PutObject (key path : string) (contentLength : Z) (contentType : option string) : objE (result ())
| WalkDir (root : string) : objE (list visit).

Definition with_key {B} (key : string) (p : prog objE (result B)) : prog objE (result B) :=
  match validateKey key with Err e => Ret (Err e) | Ok _ => p end.

Definition obj_Exists (key : string) : prog objE (result bool) :=
  with_key key (try_as ("head object " +:+ key) (HeadObject key) (fun found => Ret (Ok found))).

Definition obj_Download (key dstPath : string) : prog objE (result ()) :=
  with_key key (
    try_as ("get object " +:+ key) (GetObject key) (fun body =>
    try (MkdirAllDir dstPath) (fun _ =>
    try (OpenTrunc dstPath) (fun _ =>
      copied ← call (CopyTo dstPath body);
      match copied with
      | Err _ =>
          _ ← call (CloseFile dstPath);
          _ ← call (Remove dstPath);
          Ret (Err (EMsg ("download object " +:+ key)))
      | Ok _ =>
          closed ← call (CloseFile dstPath);
          match closed with
          | Err e => _ ← call (Remove dstPath); Ret (Err e)
          | Ok _ => Ret (Ok ())
          end
      end)))).

Definition obj_PutFile (key srcPath mime : string) : prog objE (result ()) :=
  with_key key (
    try (OpenFile srcPath) (fun _ =>
    try (Stat srcPath) (fun size =>
    try_as ("put object " +:+ key)
      (PutObject key srcPath size (if String.eqb mime "" then None else Some mime))
      (fun _ => Ret (Ok ()))))).

(** [filepath.Rel] of a visited path, and the path itself. *)
Definition rel_string (rel : list string) : string :=
  match rel with [] => "." | _ => GoLib.join "/" rel end.
Definition visit_path (srcDir : string) (v : visit) : string :=
  match v_rel v with [] => srcDir | rel => srcDir +:+ "/" +:+ GoLib.join "/" rel end.
Definition visit_key (keyPrefix : string) (v : visit) : string :=
  keyPrefix +:+ "/" +:+ rel_string (v_rel v).

(** The callback of [PutDir] over the visits. *)
Fixpoint put_visits (keyPrefix srcDir : string) (keys : list string) (vs : list visit)
    : prog objE (result (list string)) :=
  match vs with
  | [] => Ret (Ok keys)
  | v :: vs' =>
      match v_err v with
      | Some e => Ret (Err e)
      | None =>
          if v_dir v then put_visits keyPrefix srcDir keys vs'
          else
            let key := visit_key keyPrefix v in
            stored ← obj_PutFile key (visit_path srcDir v) "";
            match stored with
            | Err e => Ret (Err e)
            | Ok _ => put_visits keyPrefix srcDir (keys ++ [key]) vs'
            end
      end
  end.

Definition obj_PutDir (keyPrefix srcDir : string) : prog objE (result (list string)) :=
  with_key keyPrefix (vs ← call (WalkDir srcDir); put_visits keyPrefix srcDir [] vs).

(** ** filepath.WalkDir

    A directory whose listing fails is visited a second time with the error. *)
Inductive node := File (data : string) | Dir (entries : result (list (string * node))).

Fixpoint walk (rel : list string) (n : node) : list visit :=
  match n with
  | File _ => [{| v_rel := rel; v_dir := false; v_err := None |}]
  | Dir (Err e) => [{| v_rel := rel; v_dir := true; v_err := None |};
                    {| v_rel := rel; v_dir := true; v_err := Some e |}]
  | Dir (Ok entries) =>
      {| v_rel := rel; v_dir := true; v_err := None |}
        :: concat (map (fun '(name, n) => walk (rel ++ [name]) n) entries)
  end.

(** ** Which keys are accepted *)

Lemma Split_join c l :
  l <> [] -> Forall (fun x => no_char c x = true) l -> Split c (GoLib.join c l) = l.
Proof.
  intros Hl H. induction H as [|x l Hx Hr IH]; [done|]. destruct l as [|y l]; simpl.
  - by apply Split_no_char.
  - rewrite Split_app by done. f_equal. by apply IH.
Qed.

Lemma segment_ok_spec seg :
  segment_ok seg = true <->
  seg <> "." /\ seg <> ".." /\ 1 <= slen seg <= 128 /\ all_chars segment_char seg = true.
Proof.
  unfold segment_ok, keySegment. rewrite negb_true_iff, !orb_false_iff, negb_false_iff, match_class_spec,
    !String.eqb_neq. naive_solver.
Qed.

Lemma segment_no_slash seg : segment_ok seg = true -> no_char "/" seg = true.
Proof.
  intros (_ & _ & _ & H)%segment_ok_spec. revert H. apply all_chars_impl.
  intros c. destruct c as [[][][][][][][][]]; vm_compute; congruence.
Qed.

Lemma find_bad_segment l :
  find (fun seg => negb (segment_ok seg)) l = None <-> Forall (fun s => segment_ok s = true) l.
Proof.
  induction l as [|s l IH]; simpl; [by split; [constructor|]|].
  rewrite Forall_cons. destruct (segment_ok s); simpl; naive_solver.
Qed.

Lemma HasSuffix_split s t : HasSuffix s t = true -> exists a, s = a +:+ t.
Proof.
  unfold HasSuffix, HasPrefix. intros [r Hr%strip_prefix_Some]%bool_decide_eq_true.
  exists (srev r). assert (Hrev : forall x, srev (srev x) = x).
  { intros x. induction x as [|c x IH]; [done|].
    change (String c x) with (String c "" +:+ x) at 1. rewrite !srev_app, IH. done. }
  by rewrite <-(Hrev s), Hr, srev_app, Hrev.
Qed.

(** The test for a leading or trailing slash never decides: a key with one has an
    empty segment. *)
Lemma no_slash_ends key :
  Forall (fun s => segment_ok s = true) (Split "/" key) -> HasPrefix key "/" || HasSuffix key "/" = false.
Proof.
  intros H. apply orb_false_iff. split; apply not_true_iff_false; intros Hb.
  - unfold HasPrefix in Hb. apply bool_decide_eq_true in Hb as [r ->%strip_prefix_Some].
    apply Forall_cons in H as [Hx _]. by vm_compute in Hx.
  - apply HasSuffix_split in Hb as [a ->]. change "/" with (String "/" "") in H.
    rewrite Split_app_sep in H. apply Forall_app in H as [_ H].
    apply Forall_cons in H as [Hx _]. by vm_compute in Hx.
Qed.

Lemma validateKey_Ok key :
  validateKey key = Ok () <-> slen key <= 512 /\ Forall (fun s => segment_ok s = true) (Split "/" key).
Proof.
  unfold validateKey. split.
  - destruct (String.eqb key "" || _) eqn:Hl; [done|]. destruct (HasPrefix key "/" || _); [done|].
    destruct (find _ _) eqn:Hf; [done|]. intros _. bool_prop. split; [lia|]. by apply find_bad_segment.
  - intros [Hl Hs]. rewrite (proj2 (Z.ltb_ge _ _)) by done. rewrite (no_slash_ends key Hs).
    rewrite (proj2 (find_bad_segment _) Hs). destruct key; [|done].
    apply Forall_cons in Hs as [Hx _]. by vm_compute in Hx.
Qed.

(** Keys built from segments. *)
Lemma validateKey_join l :
  l <> [] -> Forall (fun s => segment_ok s = true) l -> slen (GoLib.join "/" l) <= 512 ->
  validateKey (GoLib.join "/" l) = Ok ().
Proof.
  intros Hn Hl Hlen. apply validateKey_Ok. split; [done|]. rewrite Split_join; [done..|].
  eapply Forall_impl; [exact Hl|]. apply segment_no_slash.
Qed.

(** [path.Clean] on the segments of a relative path: empty segments and dots are
    dropped, a double dot removes the segment before it, or stays when there is
    none. *)
Fixpoint clean_segments (done_ : list string) (l : list string) : list string :=
  match l with
  | [] => rev done_
  | s :: l' =>
      if String.eqb s "" || String.eqb s "." then clean_segments done_ l'
      else if String.eqb s ".." then
        match done_ with
        | [] => clean_segments [".."] l'
        | d :: ds => if String.eqb d ".." then clean_segments (".." :: done_) l' else clean_segments ds l'
        end
      else clean_segments (s :: done_) l'
  end.

Lemma clean_ok l acc : Forall (fun s => segment_ok s = true) l -> clean_segments acc l = rev acc ++ l.
Proof.
  revert acc. induction l as [|s l IH]; intros acc; [by rewrite app_nil_r|].
  intros [Hs Hl]%Forall_cons. pose proof Hs as (H1 & H2 & H3 & _)%segment_ok_spec. simpl.
  rewrite (proj2 (String.eqb_neq _ _) H1), (proj2 (String.eqb_neq _ _) H2).
  destruct (String.eqb_spec s "") as [->|_]; [destruct H3 as [H3 _]; by destruct H3|]. simpl.
  rewrite IH by done. simpl. by rewrite <-app_assoc.
Qed.

(** ** What the operations may touch *)

Inductive object_op :=
| OpExists (key : string)
| OpDownload (key dstPath : string)
| OpPutFile (key srcPath mime : string)
| OpPutDir (keyPrefix srcDir : string).

Definition op_prog (op : object_op) : prog objE (result (list string)) :=
  match op with
  | OpExists key => r ← obj_Exists key; Ret (match r with Ok _ => Ok [] | Err e => Err e end)
  | OpDownload key dst => r ← obj_Download key dst; Ret (match r with Ok _ => Ok [] | Err e => Err e end)
  | OpPutFile key src mime =>
      r ← obj_PutFile key src mime; Ret (match r with Ok _ => Ok [key] | Err e => Err e end)
  | OpPutDir prefix dir => obj_PutDir prefix dir
  end.

(** A key that stays where its segments say: [path.Clean] leaves it alone. *)
Definition safe_key (key : string) : Prop :=
  slen key <= 512 /\ clean_segments [] (Split "/" key) = Split "/" key /\
  Forall (fun s => s <> "" /\ s <> "." /\ s <> "..") (Split "/" key).

Definition own_key (op : object_op) (key : string) : Prop :=
  match op with
  | OpExists k | OpDownload k _ | OpPutFile k _ _ => key = k
  | OpPutDir prefix _ => exists rest, rest <> [] /\ Split "/" key = Split "/" prefix ++ rest
  end.

Definition source_path (op : object_op) (path : string) : Prop :=
  match op with
  | OpPutFile _ src _ => path = src
  | OpPutDir _ dir => path = dir \/ exists rel, path = dir +:+ "/" +:+ rel
  | _ => False
  end.

Definition target_path (op : object_op) (path : string) : Prop :=
  match op with OpDownload _ dst => path = dst | _ => False end.

Definition confined (op : object_op) {X} (e : objE X) : Prop :=
  match e with
  | HeadObject key | GetObject key => own_key op key /\ safe_key key
  | PutObject key path _ _ => own_key op key /\ safe_key key /\ source_path op path
  | OpenFile path | Stat path | WalkDir path => source_path op path
  | MkdirAllDir path | OpenTrunc path | CopyTo path _ | CloseFile path | Remove path =>
      target_path op path
  end.

Lemma valid_safe key : validateKey key = Ok () -> safe_key key.
Proof.
  intros [Hl Hs]%validateKey_Ok. split_and!; [done|by apply (clean_ok _ [])|].
  eapply Forall_impl; [exact Hs|]. intros s (H1 & H2 & H3 & _)%segment_ok_spec.
  split_and!; [|done..]. intros ->. destruct H3 as [H3 _]. by destruct H3.
Qed.

Lemma with_key_calls {B} (P : forall X, objE X -> Prop) key (p : prog objE (result B)) :
  (validateKey key = Ok () -> all_calls P p) -> all_calls P (with_key key p).
Proof. intros H. unfold with_key. destruct (validateKey key) as [[]|] eqn:Hv; [auto|done]. Qed.

Lemma put_file_calls op key path mime :
  own_key op key -> source_path op path -> all_calls (@confined op) (obj_PutFile key path mime).
Proof.
  intros Hk Hp. apply with_key_calls. intros Hv%valid_safe. unfold try, try_as. calls_tac.
Qed.

Lemma visit_key_own prefix dir v : own_key (OpPutDir prefix dir) (visit_key prefix v).
Proof.
  exists (Split "/" (rel_string (v_rel v))). split; [apply Split_nonempty|].
  unfold visit_key. change ("/" +:+ ?r) with (String "/" r). apply Split_app_sep.
Qed.

Lemma visit_path_source prefix dir v : source_path (OpPutDir prefix dir) (visit_path dir v).
Proof. unfold visit_path. destruct (v_rel v); [by left|]. right. by eexists. Qed.

Lemma put_visits_calls prefix dir keys vs :
  all_calls (@confined (OpPutDir prefix dir)) (put_visits prefix dir keys vs).
Proof.
  revert keys. induction vs as [|v vs IH]; intros keys; [done|]. simpl.
  destruct (v_err v); [done|]. destruct (v_dir v); [apply IH|].
  apply all_calls_bind; [apply put_file_calls; [apply visit_key_own|apply visit_path_source]|].
  intros [[]|e]; [apply IH|done].
Qed.

(** C30: the object store never leaves its keys or its paths.  Every S3 call an
    operation makes is for the very key it was given, or for [PutDir] one strictly
    below its prefix, and that key is at most 512 bytes, has no empty, [.] or [..]
    segment and is its own [path.Clean]; the only local files it reads are the
    source it was given, and the only ones it creates, writes or removes are the
    download's destination. *)
Theorem object_keys_confined op : all_calls (@confined op) (op_prog op).
Proof.
  destruct op as [key|key dst|key src mime|prefix dir]; simpl.
  - apply all_calls_bind; [|done]. apply with_key_calls. intros Hv%valid_safe. unfold try_as. calls_tac.
  - apply all_calls_bind; [|done]. apply with_key_calls. intros Hv%valid_safe. unfold try, try_as. calls_tac.
  - apply all_calls_bind; [|done]. by apply put_file_calls.
  - apply with_key_calls. intros Hv. apply all_calls_bind; [apply all_calls_call; by left|].
    intros vs. apply put_visits_calls.
Qed.

(** ** An object store and a file system behind the calls

    Any call may fail; a write to a file may fail half-way, and the reply to a
    [PutObject] may be lost after the object was stored. *)
Record obj_world := {
  w_objects : gmap string string;
  w_files : gmap string string;
  w_trees : gmap string node;
  w_undeleted : gset string            (* files whose removal failed *)
}.
Definition set_objects (w : obj_world) (m : gmap string string) : obj_world :=
  {| w_objects := m; w_files := w_files w; w_trees := w_trees w; w_undeleted := w_undeleted w |}.
Definition set_files (w : obj_world) (m : gmap string string) : obj_world :=
  {| w_objects := w_objects w; w_files := m; w_trees := w_trees w; w_undeleted := w_undeleted w |}.

Definition fails {Y} (x : result Y) (w w' : obj_world) : Prop := is_ok x = false /\ w' = w.

Definition obj_nsem X (e : objE X) (w : obj_world) : X -> obj_world -> Prop :=
  match e in objE X return X -> obj_world -> Prop with
  | HeadObject key => fun x w' =>
      fails x w w' \/ (x = Ok (bool_decide (is_Some (w_objects w !! key))) /\ w' = w)
  | GetObject key => fun x w' =>
      fails x w w' \/
      exists st data, x = Ok st /\ w' = w /\ w_objects w !! key = Some data /\
        (st_err st = None -> st_bytes st = data)
  | MkdirAllDir _ => fun x w' => w' = w
  | OpenTrunc path => fun x w' =>
      fails x w w' \/ (x = Ok () /\ w' = set_files w (<[path := ""]> (w_files w)))
  | CopyTo path st => fun x w' =>
      exists content, w' = set_files w (<[path := content]> (w_files w)) /\
        (x = Ok () -> st_err st = None /\ content = st_bytes st)
  | CloseFile path => fun x w' =>
      (x = Ok () /\ w' = w) \/
      (is_ok x = false /\ exists content, w' = set_files w (<[path := content]> (w_files w)))
  | Remove path => fun x w' =>
      (x = Ok () /\ w' = set_files w (delete path (w_files w))) \/
      (is_ok x = false /\ w' = {| w_objects := w_objects w; w_files := w_files w; w_trees := w_trees w;
                                  w_undeleted := {[path]} ∪ w_undeleted w |})
  | OpenFile path => fun x w' => w' = w
  | Stat path => fun x w' =>
      fails x w w' \/ exists data, x = Ok (slen data) /\ w' = w /\ w_files w !! path = Some data
  | PutObject key path _ _ => fun x w' =>
      fails x w w' \/ exists data, w_files w !! path = Some data /\
        w' = set_objects w (<[key := data]> (w_objects w))
  | WalkDir root => fun x w' =>
      w' = w /\ match w_trees w !! root with
                | Some n => x = walk [] n
                | None => exists e, x = [{| v_rel := []; v_dir := false; v_err := Some e |}]
                end
  end.

(** [Download] either has nothing at [dst], or has left it alone, or has the whole
    object there. *)
Definition downloaded (key dst : string) (r : result ()) (w w' : obj_world) : Prop :=
  w_objects w' = w_objects w /\ (forall p, p <> dst -> w_files w' !! p = w_files w !! p) /\
  match r with
  | Ok _ => is_Some (w_objects w !! key) /\ w_files w' !! dst = w_objects w !! key
  | Err _ => w_files w' !! dst = w_files w !! dst \/ w_files w' !! dst = None \/
             dst ∈ w_undeleted w'
  end.

(** Giving up after the file was opened. *)
Lemma removed_wp key dst w w0 e :
  w_objects w = w_objects w0 -> (forall p, p <> dst -> w_files w !! p = w_files w0 !! p) ->
  wp obj_nsem (_ ← call (Remove dst); Ret (Err e)) (fun r w' => downloaded key dst r w0 w') w.
Proof.
  intros Ho Hf. apply wp_call_bind. intros x w' [[-> ->]|[_ ->]]; apply wp_ret;
    (split; [done|]); split; simpl.
  - intros p Hp. rewrite lookup_delete_ne by done. auto.
  - right. left. apply lookup_delete_eq.
  - done.
  - right. right. set_solver.
Qed.

Lemma download_wp key dst w : wp obj_nsem (obj_Download key dst) (fun r w' => downloaded key dst r w w') w.
Proof.
  unfold obj_Download, with_key. destruct (validateKey key); [|by apply wp_ret; repeat split; auto].
  apply try_as_wp. intros x w1 [[Hx ->]|(st & data & -> & -> & Hobj & Hst)].
  { destruct x; [done|]. by repeat split; auto. }
  apply try_wp. intros x w1 ->. destruct x as [[]|]; [|by repeat split; auto].
  apply try_wp. intros x w1 [[Hx ->]|[-> ->]].
  { destruct x; [done|]. by repeat split; auto. }
  assert (Hother : forall c p, p <> dst -> <[dst := c]> (w_files w) !! p = w_files w !! p).
  { intros c p Hp. by rewrite lookup_insert_ne. }
  apply wp_call_bind. intros x w1 (c & -> & Hc). destruct x as [[]|].
  - destruct Hc as [He ->]; [done|]. apply wp_call_bind. intros x w1 [[-> ->]|[Hx (c & ->)]].
    + apply wp_ret. split; [done|]. simpl. rewrite insert_insert_eq. split; [auto|].
      rewrite lookup_insert_eq, Hobj, (Hst He). eauto.
    + destruct x; [done|]. apply removed_wp; [done|]. simpl. rewrite !insert_insert_eq. auto.
  - apply wp_call_bind. intros y w1 [[_ ->]|[_ (c' & ->)]];
      (apply removed_wp; [done|]); simpl; rewrite !insert_insert_eq; auto.
Qed.

(** C38: a download is all or nothing.  Whatever calls fail and however the copy
    breaks off, the other local files and the objects stay as they are; when it
    reports success the destination holds exactly the stored object, and when it
    reports an error the destination is as it was or absent, never a partial
    object, unless the removal of the partial file itself failed. *)
Theorem download_all_or_nothing key dst w r w' :
  nrun obj_nsem (obj_Download key dst) w r w' ->
  w_objects w' = w_objects w /\ (forall p, p <> dst -> w_files w' !! p = w_files w !! p) /\
  match r with
  | Ok _ => is_Some (w_objects w !! key) /\ w_files w' !! dst = w_objects w !! key
  | Err _ => w_files w' !! dst = w_files w !! dst \/ w_files w' !! dst = None \/
             dst ∈ w_undeleted w'
  end.
Proof. apply (proj1 (wp_nrun _ _ _ _) (download_wp key dst w)). Qed.

(** ** PutDir *)

(** The regular files of a tree, each with its relative path. *)
Fixpoint tree_files (rel : list string) (n : node) : list (list string * string) :=
  match n with
  | File data => [(rel, data)]
  | Dir (Err _) => []
  | Dir (Ok entries) => concat (map (fun '(name, n) => tree_files (rel ++ [name]) n) entries)
  end.

Fixpoint readable (n : node) : bool :=
  match n with
  | File _ => true
  | Dir (Err _) => false
  | Dir (Ok entries) => forallb (fun '(_, n) => readable n) entries
  end.

Definition file_visit (rel : list string) : visit := {| v_rel := rel; v_dir := false; v_err := None |}.
Definition file_visits (vs : list visit) : list visit := filter (fun v => v_dir v = false) vs.

Lemma file_visits_walk n rel :
  file_visits (walk rel n) = (fun f => file_visit f.1) <$> tree_files rel n.
Proof.
  revert n rel. fix IH 1. intros [data|[entries|e]] rel; [done| |done].
  cbn [walk tree_files]. unfold file_visits at 1. rewrite filter_cons_False by done. fold (file_visits).
  induction entries as [|[name n] entries IHe]; [done|]. cbn [map concat].
  unfold file_visits in *. by rewrite filter_app, fmap_app, (IH n), IHe.
Qed.

Lemma walk_no_error n rel : Forall (fun v => v_err v = None) (walk rel n) <-> readable n = true.
Proof.
  revert n rel. fix IH 1. intros [data|[entries|e]] rel; cbn [walk readable].
  - by rewrite Forall_singleton.
  - rewrite Forall_cons. simpl.
    assert (Forall (fun v => v_err v = None)
              (concat (map (fun '(name, n) => walk (rel ++ [name]) n) entries)) <->
            forallb (fun '(_, n) => readable n) entries = true); [|clear IH; naive_solver].
    induction entries as [|[name n] entries IHe]; [done|]. simpl.
    by rewrite Forall_app, andb_true_iff, (IH n), IHe.
  - clear IH. rewrite !Forall_cons. simpl. naive_solver.
Qed.

Lemma put_file_wp key path mime w :
  wp obj_nsem (obj_PutFile key path mime) (fun r w' =>
    w' = w /\ is_ok r = false \/
    exists data, w_files w !! path = Some data /\ w' = set_objects w (<[key := data]> (w_objects w))) w.
Proof.
  unfold obj_PutFile, with_key. destruct (validateKey key); [|by apply wp_ret; left].
  apply try_wp. intros x w1 ->. destruct x as [[]|]; [|by left].
  apply try_wp. intros x w1 [[Hx ->]|(data & -> & -> & Hd)]; [destruct x; [done|by left]|].
  apply try_as_wp. intros x w1 [[Hx ->]|(d & Hd' & ->)]; [destruct x; [done|by left]|].
  destruct x as [[]|]; [apply wp_ret|]; right; eauto.
Qed.

(** What storing the files of the visits leaves behind. *)
Definition put_done (prefix dir : string) (keys : list string) (vs : list visit) (w : obj_world)
    (r : result (list string)) (w' : obj_world) : Prop :=
  w_files w' = w_files w /\
  (forall k, k ∉ visit_key prefix <$> file_visits vs -> w_objects w' !! k = w_objects w !! k) /\
  match r with
  | Err _ => True
  | Ok ks =>
      Forall (fun v => v_err v = None) vs /\
      ks = keys ++ (visit_key prefix <$> file_visits vs) /\
      (NoDup (visit_key prefix <$> file_visits vs) ->
       forall v, v ∈ file_visits vs -> is_Some (w_files w !! visit_path dir v) /\
                 w_objects w' !! visit_key prefix v = w_files w !! visit_path dir v)
  end.

Lemma put_visits_wp prefix dir keys vs w :
  wp obj_nsem (put_visits prefix dir keys vs) (put_done prefix dir keys vs w) w.
Proof.
  revert keys w. induction vs as [|v vs IH]; intros keys w; simpl.
  { apply wp_ret. unfold put_done, file_visits. simpl. rewrite app_nil_r. split_and!; try done.
    intros _ v Hv. by apply not_elem_of_nil in Hv. }
  destruct (v_err v) as [e|] eqn:Hv; [by apply wp_ret|].
  unfold put_done, file_visits. destruct (v_dir v) eqn:Hd.
  { rewrite filter_cons_False by congruence. eapply wp_mono; [apply IH|].
    intros [ks|] w' (Hf & Ho & Hr); [|done]. split; [done|]. split; [done|].
    destruct Hr as (Hne & Hks & Hst). split; [by constructor|]. by split. }
  rewrite filter_cons_True by done. fold (file_visits vs). rewrite fmap_cons.
  apply wp_bind. eapply wp_mono; [apply put_file_wp|]. intros r w1 [[-> Hr]|(data & Hdata & ->)].
  { destruct r; [done|]. by apply wp_ret. }
  destruct r as [[]|].
  2:{ apply wp_ret. split; [done|]. split; [|done]. simpl. intros k Hk. rewrite lookup_insert_ne; set_solver. }
  eapply wp_mono; [apply IH|]. intros r w' (Hf & Ho & Hr). split; [done|]. simpl in Ho. split.
  { intros k [Hk Hks]%not_elem_of_cons. rewrite Ho by done. by rewrite lookup_insert_ne. }
  destruct r as [ks|]; [|done]. destruct Hr as (Hne & Hks & Hst). split; [by constructor|].
  split; [by rewrite Hks, <-app_assoc|]. intros [Hnin Hnd]%NoDup_cons u [->|Hu]%elem_of_cons.
  - rewrite Ho by done. rewrite lookup_insert_eq, Hdata. eauto.
  - by apply Hst.
Qed.

Definition plain_name (name : string) : Prop := no_char "/" name = true /\ name <> ".".

Lemma rel_string_inj r1 r2 :
  Forall plain_name r1 -> Forall plain_name r2 -> rel_string r1 = rel_string r2 -> r1 = r2.
Proof.
  assert (Hs : forall r, r <> [] -> Forall plain_name r -> Split "/" (rel_string r) = r).
  { intros r Hr Hp. unfold rel_string. destruct r; [done|]. apply Split_join; [done|].
    eapply Forall_impl; [exact Hp|]. by intros x []. }
  assert (Hdot : forall r, Forall plain_name r -> rel_string r = "." -> r = []).
  { intros [|x r] Hp Hr; [done|]. specialize (Hs (x :: r) ltac:(done) Hp).
    rewrite Hr in Hs. simpl in Hs. simplify_eq. by apply Forall_cons in Hp as [[_ []] _]. }
  intros H1 H2 Heq. destruct r1 as [|x1 r1]; [symmetry; by apply Hdot|].
  destruct r2 as [|x2 r2]; [by apply Hdot|]. rewrite <-(Hs (x1 :: r1)), <-(Hs (x2 :: r2)) by done.
  by f_equal.
Qed.

Lemma visit_keys_NoDup prefix rels :
  NoDup rels -> Forall (Forall plain_name) rels ->
  NoDup ((fun rel => visit_key prefix (file_visit rel)) <$> rels).
Proof.
  induction 1 as [|r rs Hr _ IH]; [constructor|]. intros [Hp Hps]%Forall_cons. rewrite fmap_cons.
  constructor; [|auto]. intros (r' & Heq & Hr')%list_elem_of_fmap. apply Hr.
  rewrite Forall_forall in Hps. unfold visit_key in Heq. simpl in Heq.
  apply (inj (String.append prefix)) in Heq. injection Heq as Heq.
  apply rel_string_inj in Heq as ->; auto.
Qed.

(** The local path of a file of the tree at [dir], and the key it is stored under. *)
Definition file_path (dir : string) (rel : list string) : string := visit_path dir (file_visit rel).
Definition file_key (prefix : string) (rel : list string) : string := visit_key prefix (file_visit rel).

(** The tree that [WalkDir] sees at [dir] is the one the file system has. *)
Record mirrors (w : obj_world) (dir : string) (n : node) : Prop := {
  mr_tree : w_trees w !! dir = Some n;
  mr_data : Forall (fun f => w_files w !! file_path dir f.1 = Some f.2) (tree_files [] n);
  mr_distinct : NoDup (tree_files [] n).*1;
  mr_names : Forall (fun f => Forall plain_name f.1) (tree_files [] n)
}.

(** [PutDir] stores the tree.  When it reports success, every directory was
    readable, the keys it returns are those of the regular files of the tree below
    the prefix, in the order of the walk and each once, and every file is stored
    under its key with its content; whatever happens, no other object changes and
    no local file does. *)
Theorem put_dir_stores_tree prefix dir n w r w' :
  mirrors w dir n -> nrun obj_nsem (obj_PutDir prefix dir) w r w' ->
  w_files w' = w_files w /\
  (forall k, k ∉ file_key prefix <$> (tree_files [] n).*1 -> w_objects w' !! k = w_objects w !! k) /\
  forall keys, r = Ok keys ->
    readable n = true /\ keys = file_key prefix <$> (tree_files [] n).*1 /\ NoDup keys /\
    Forall (fun f => w_objects w' !! file_key prefix f.1 = Some f.2) (tree_files [] n).
Proof.
  intros [Ht Hd Hnd Hn]. revert r w'. apply wp_nrun. unfold obj_PutDir, with_key.
  destruct (validateKey prefix); [|by apply wp_ret].
  apply wp_call_bind. intros vs w1 [-> Hvs]. rewrite Ht in Hvs. subst vs.
  eapply wp_mono; [apply put_visits_wp|]. intros x w2 (Hf & Ho & Hr).
  rewrite file_visits_walk in Ho, Hr. rewrite <-list_fmap_compose in Ho.
  rewrite <-list_fmap_compose. split; [done|]. split; [done|]. intros keys ->.
  destruct Hr as (Hne & -> & Hst). rewrite <-list_fmap_compose. simpl.
  assert (Hkeys : NoDup ((visit_key prefix ∘ (fun f : list string * string => file_visit f.1)) <$> tree_files [] n)).
  { pose proof (visit_keys_NoDup prefix _ Hnd) as Hk. rewrite <-list_fmap_compose in Hk. apply Hk.
    apply Forall_fmap. exact Hn. }
  rewrite <-list_fmap_compose in Hst. specialize (Hst Hkeys).
  split; [by eapply walk_no_error|]. split; [done|]. split; [done|].
  apply Forall_forall. intros f Hin. destruct (Hst (file_visit f.1)) as [_ Hobj].
  { apply list_elem_of_fmap. by exists f. }
  rewrite Forall_forall in Hd. unfold file_key. rewrite Hobj. by apply Hd.
Qed.

(** ** The keys the orchestrator builds *)

Lemma class_segment f lo hi s :
  match_class f lo hi s = true -> (forall c, f c = true -> segment_char c = true) ->
  1 <= lo -> hi <= 128 -> f "."%char = false -> segment_ok s = true.
Proof.
  intros [Hl Hc]%match_class_spec Hf Hlo Hhi Hdot. apply segment_ok_spec.
  assert (Hd : forall t, all_chars f ("." +:+ t) = true -> False) by (intros t; simpl; by rewrite Hdot).
  split_and!; [intros ->; by apply (Hd "")|intros ->; by apply (Hd ".")|lia|lia|].
  by eapply all_chars_impl.
Qed.

Lemma rung_segment s : rungNamePattern s = true -> segment_ok s = true.
Proof.
  unfold rungNamePattern. destruct s as [|c s]; [done|]. intros [Hc Hs]%andb_true_iff.
  apply match_class_spec in Hs as [Hl Hs]. apply segment_ok_spec.
  assert (Hdot : c <> "."%char) by (by intros ->).
  assert (Hlen : slen (String c s) = 1 + slen s) by (unfold slen; simpl; lia).
  split_and!; try congruence; [lia|lia|]. simpl. apply andb_true_iff. split.
  - unfold segment_char. by rewrite Hc.
  - eapply all_chars_impl; [|exact Hs]. intros d. unfold rung_char, segment_char.
    destruct (is_alnum d); [done|]. destruct d as [[][][][][][][][]]; vm_compute; congruence.
Qed.

Lemma ws_segment s : match_class ws_char 1 64 s = true -> segment_ok s = true.
Proof.
  intros H. eapply class_segment; [exact H| |lia|lia|done]. intros c. unfold ws_char, segment_char.
  destruct (is_alnum c); [done|]. destruct c as [[][][][][][][][]]; vm_compute; congruence.
Qed.

Lemma hex_segment s : hex64 s = true -> segment_ok s = true.
Proof.
  intros H. eapply class_segment; [exact H| |lia|lia|done].
  intros c. destruct c as [[][][][][][][][]]; vm_compute; congruence.
Qed.

(** the object store never refuses a key the orchestrator builds: the source
    key of every landed event it accepts, and the output prefix of every rung of a
    job whose workspace and id are well formed. *)
Theorem orchestrator_keys_accepted :
  (forall uuid_Parse data more ev, ParseUploadLanded uuid_Parse data more = Ok ev -> validateKey (ul_ObjectKey ev) = Ok ()) /\
  (forall j rung, match_class ws_char 1 64 (j_WorkspaceID j) = true ->
     match_class ws_char 1 64 (j_ID j) = true -> rungNamePattern (r_Name rung) = true ->
     validateKey (out_prefix j rung) = Ok ()).
Proof.
  split.
  - intros uuid_Parse data more ev (_ & _ & Hwf)%ParseUploadLanded_sound.
    pose proof (lw_ws _ _ Hwf) as Hws. pose proof (lw_sha _ _ Hwf) as Hsha. rewrite (lw_key _ _ Hwf).
    apply (validateKey_join ["assets"; ul_WorkspaceID ev; "sha256"; ul_SHA256 ev]); [done| |].
    + repeat constructor; [by apply ws_segment|by apply hex_segment].
    + apply match_class_spec in Hws as [Hw _]. apply match_class_spec in Hsha as [Hs _].
      change (slen ("assets/" +:+ ul_WorkspaceID ev +:+ "/sha256/" +:+ ul_SHA256 ev) <= 512).
      rewrite !slen_app. change (slen "assets/") with 7. change (slen "/sha256/") with 8. lia.
  - intros j rung Hws Hid Hr.
    apply (validateKey_join ["outputs"; j_WorkspaceID j; j_ID j; r_Name rung]); [done| |].
    + repeat constructor; [by apply ws_segment..|by apply rung_segment].
    + pose proof (rung_segment _ Hr) as (_ & _ & Hl & _)%segment_ok_spec.
      apply match_class_spec in Hws as [Hw _]. apply match_class_spec in Hid as [Hi _].
      change (slen ("outputs/" +:+ j_WorkspaceID j +:+ "/" +:+ j_ID j +:+ "/" +:+ r_Name rung) <= 512).
      rewrite !slen_app. change (slen "outputs/") with 8. change (slen "/") with 1. lia.
Qed.

(** ** An executable store *)

(** A store and file system in which only what must fail fails. *)
Definition obj_sem : sem objE obj_world := fun X e w =>
  match e in objE X return X * obj_world with
  | HeadObject key => (Ok (bool_decide (is_Some (w_objects w !! key))), w)
  | GetObject key =>
      (match w_objects w !! key with
       | Some data => Ok {| st_bytes := data; st_err := None |}
       | None => Err ENotFound
       end, w)
  | MkdirAllDir _ | OpenFile _ => (Ok (), w)
  | OpenTrunc path => (Ok (), set_files w (<[path := ""]> (w_files w)))
  | CopyTo path st =>
      (match st_err st with Some e => Err e | None => Ok () end,
       set_files w (<[path := st_bytes st]> (w_files w)))
  | CloseFile path => (Ok (), w)
  | Remove path => (Ok (), set_files w (delete path (w_files w)))
  | Stat path =>
      (match w_files w !! path with Some d => Ok (slen d) | None => Err ENotFound end, w)
  | PutObject key path _ _ =>
      match w_files w !! path with
      | Some d => (Ok (), set_objects w (<[key := d]> (w_objects w)))
      | None => (Err ENotFound, w)
      end
  | WalkDir root =>
      (match w_trees w !! root with
       | Some n => walk [] n
       | None => [{| v_rel := []; v_dir := false; v_err := Some ENotFound |}]
       end, w)
  end.

Lemma obj_sem_spec X (e : objE X) w : obj_nsem X e w (obj_sem X e w).1 (obj_sem X e w).2.
Proof.
  destruct e; simpl; try done.
  - by right.
  - destruct (w_objects w !! key) as [d|] eqn:Hd; [|by left]. right. by eexists _, d.
  - by right.
  - eexists. split; [done|]. by destruct (st_err body).
  - by left.
  - by left.
  - destruct (w_files w !! path) as [d|]; [|by left]. right. by exists d.
  - destruct (w_files w !! path) as [d|]; [|by left]. right. by exists d.
  - split; [done|]. destruct (w_trees w !! root); [done|]. by eexists.
Qed.

Lemma obj_run_spec {A} (p : prog objE A) w : nrun obj_nsem p w (run obj_sem p w).1 (run obj_sem p w).2.
Proof. apply run_refines. intros. apply obj_sem_spec. Qed.

Definition ex_tree : node :=
  Dir (Ok [("index.m3u8", File "#EXTM3U"); ("seg", Dir (Ok [("0.ts", File "abc")]))]).

Definition ex_objects : obj_world :=
  {| w_objects := {["assets/ws/sha256/aa" := "movie"]};
     w_files := {["/t/index.m3u8" := "#EXTM3U"; "/t/seg/0.ts" := "abc"]};
     w_trees := {["/t" := ex_tree]}; w_undeleted := ∅ |}.

Lemma ex_mirrors : mirrors ex_objects "/t" ex_tree.
Proof.
  split; [done|repeat constructor| |].
  - apply (bool_decide_unpack _). vm_compute. done.
  - repeat constructor; done.
Qed.

Lemma download_all_or_nothing_witness :
  let r := run obj_sem (obj_Download "assets/ws/sha256/aa" "/tmp/in") ex_objects in
  r.1 = Ok () /\ w_files r.2 !! "/tmp/in" = Some "movie".
Proof.
  pose (p := obj_Download "assets/ws/sha256/aa" "/tmp/in").
  destruct (download_all_or_nothing _ _ _ _ _ (obj_run_spec p ex_objects)) as (_ & _ & H).
  assert (Hok : (run obj_sem p ex_objects).1 = Ok ()) by (vm_compute; reflexivity).
  fold p. split; [exact Hok|]. rewrite Hok in H. exact (proj2 H).
Defined.

Lemma put_dir_stores_tree_witness :
  let r := run obj_sem (obj_PutDir "outputs/ws/j/hd" "/t") ex_objects in
  r.1 = Ok ["outputs/ws/j/hd/index.m3u8"; "outputs/ws/j/hd/seg/0.ts"] /\
  w_objects r.2 !! "outputs/ws/j/hd/seg/0.ts" = Some "abc".
Proof.
  pose (p := obj_PutDir "outputs/ws/j/hd" "/t").
  destruct (put_dir_stores_tree _ _ _ _ _ _ ex_mirrors (obj_run_spec p ex_objects)) as (_ & _ & H).
  assert (Hok : (run obj_sem p ex_objects).1
                = Ok ["outputs/ws/j/hd/index.m3u8"; "outputs/ws/j/hd/seg/0.ts"]) by (vm_compute; reflexivity).
  fold p. split; [exact Hok|]. destruct (H _ Hok) as (_ & _ & _ & Hst).
  rewrite Forall_forall in Hst.
  exact (Hst (["seg"; "0.ts"], "abc") ltac:(right; left)).
Defined.
