(* ===== verification/Migrate.v ===== *)
(** * Schema migration: tenancy/migrate.go and orchestrator/internal/store/migrate.go

    The two runners are the same program up to the texts of their errors and the
    name of their bookkeeping table; the orchestrator's also dials and closes its
    connection.  The connection is the interface [migE]; a Postgres server, with
    its advisory lock, transactions, statement errors and lost connections, is the
    relation [pg_do] on the shared database and the session of one connection.
    Any number of starters run concurrently ([lpool_step]). *)
From S2P Require Export GoLib.
From stdpp Require Import sorting.
#[local] Open Scope Z_scope.

(** ** The migration files *)

Record migrationFile := { mf_Version : Z; mf_Name : string; mf_SQL : string }.

#[export] Instance migrationFile_eq_dec : EqDecision migrationFile.
Proof. solve_decision. Defined.

Definition by_version (a b : migrationFile) : Prop := mf_Version a <= mf_Version b.
#[export] Instance by_version_dec a b : Decision (by_version a b).
Proof. unfold by_version. apply _. Defined.

(** The directory: each entry with the outcome of reading it. *)
Fixpoint load_entries (seen : gmap Z string) (out : list migrationFile)
    (entries : list (string * result string)) : result (list migrationFile) :=
  match entries with
  | [] => Ok out
  | (name, data) :: entries' =>
      if negb (HasSuffix name ".up.sql") then load_entries seen out entries'
      else match Cut name "_" with
      | None => Err (EMsg ("migration " +:+ name +:+ ": name must be <version>_<label>.up.sql"))
      | Some (prefix, _) =>
          match Atoi prefix with
          | None => Err (EMsg ("migration " +:+ name +:+ ": version prefix is not numeric"))
          | Some v =>
              match seen !! v with
              | Some prev => Err (EMsg ("migration " +:+ name +:+ ": duplicate version with " +:+ prev))
              | None =>
                  match data with
                  | Err _ => Err (EMsg ("read migration " +:+ name))
                  | Ok raw => load_entries (<[v := name]> seen)
                                (out ++ [{| mf_Version := v; mf_Name := name; mf_SQL := raw |}]) entries'
                  end
              end
          end
      end
  end.

(** [sort.Slice] by version; versions are distinct, so every sort gives the same. *)
Definition loadMigrations (entries : result (list (string * result string)))
    : result (list migrationFile) :=
  match entries with
  | Err _ => Err (EMsg "read migrations dir")
  | Ok entries =>
      out ← load_entries ∅ [] entries;
      match out with
      | [] => Err (EMsg "no migrations embedded")
      | _ => Ok (merge_sort by_version out)
      end
  end.

(** ** The runner *)

Inductive connE : Type -> Type :=
| Connect : connE ()
| AdvisoryLock : connE ()
| AdvisoryUnlock : connE ()
| CreateTable : connE ()                        (* CREATE TABLE IF NOT EXISTS *)
| ReadVersions : connE (list Z)                 (* Query, Scan and rows.Err *)
| Begin : connE ()
| ExecSQL (m : migrationFile) : connE ()        (* tx.Exec(m.SQL) *)
| InsertVersion (m : migrationFile) : connE ()  (* tx.Exec(INSERT version, name) *)
| Commit : connE ()
| Rollback : connE ()
| CloseConn : connE ().

Abbreviation migE := (res connE).

Definition rolled_back (msg : string) : prog migE (result ()) :=
  _ ← call (R Rollback); Ret (Err (EMsg msg)).

Definition apply_one (m : migrationFile) : prog migE (result ()) :=
  try_as ("begin migration " +:+ mf_Name m) (R Begin) (fun _ =>
    done ← call (R (ExecSQL m));
    match done with
    | Err _ => rolled_back ("apply migration " +:+ mf_Name m)
    | Ok _ =>
        recorded ← call (R (InsertVersion m));
        match recorded with
        | Err _ => rolled_back ("record migration " +:+ mf_Name m)
        | Ok _ => try_as ("commit migration " +:+ mf_Name m) (R Commit) (fun _ => Ret (Ok ()))
        end
    end).

Fixpoint apply_pending (applied : list Z) (migs : list migrationFile) : prog migE (result ()) :=
  match migs with
  | [] => Ret (Ok ())
  | m :: migs' =>
      if bool_decide (mf_Version m ∈ applied) then apply_pending applied migs'
      else
        r ← apply_one m;
        match r with
        | Err e => Ret (Err e)
        | Ok _ => apply_pending applied migs'
        end
  end.

(** What runs under the lock, which is released at the end whatever happened. *)
Definition locked (migs : list migrationFile) : prog migE (result ()) :=
  try_as "advisory lock" (R AdvisoryLock) (fun _ =>
    r ← try_as "migrations table" (R CreateTable) (fun _ =>
          try_as "read applied migrations" (R ReadVersions) (fun applied => apply_pending applied migs));
    _ ← call (R AdvisoryUnlock);
    Ret r).

Definition runMigrations (entries : result (list (string * result string))) : prog migE (result ()) :=
  match loadMigrations entries with
  | Err e => Ret (Err e)
  | Ok migs => locked migs
  end.

Definition orch_Migrate (entries : result (list (string * result string))) : prog migE (result ()) :=
  match loadMigrations entries with
  | Err e => Ret (Err e)
  | Ok migs =>
      try_as "migrate connect" (R Connect) (fun _ =>
        r ← locked migs;
        _ ← call (R CloseConn);
        Ret r)
  end.

(** ** The server *)

(** The shared database: who holds the advisory lock, whether the bookkeeping table
    exists, the migrations committed so far in commit order, and the committed
    bookkeeping rows. *)
Record mdb := {
  db_lock : option nat; db_table : bool; db_log : list migrationFile; db_rows : list Z
}.
Definition set_lock (s : mdb) (o : option nat) : mdb :=
  {| db_lock := o; db_table := db_table s; db_log := db_log s; db_rows := db_rows s |}.
Definition set_table (s : mdb) : mdb :=
  {| db_lock := db_lock s; db_table := true; db_log := db_log s; db_rows := db_rows s |}.
Definition committed (s : mdb) (ms : list migrationFile) (vs : list Z) : mdb :=
  {| db_lock := db_lock s; db_table := db_table s; db_log := db_log s ++ ms; db_rows := db_rows s ++ vs |}.

(** A session: not connected, closed or lost, idle, in a transaction with what it
    has done so far, or in a transaction that a failed statement aborted. *)
Inductive session :=
| SNone | SDead | SIdle
| STx (done : list migrationFile) (inserted : list Z)
| SAborted.

Definition in_tx (l : session) : bool := match l with STx _ _ | SAborted => true | _ => false end.

(** A session that ends releases its lock. *)
Definition release (i : nat) (s : mdb) : mdb :=
  if decide (db_lock s = Some i) then set_lock s None else s.

(** A statement on a live session: it succeeds as stated, or fails and aborts the
    transaction it is in.  The lock is granted only when no other session holds
    it: until then the call does not return. *)
Definition aborted (l : session) : session := if in_tx l then SAborted else l.

Definition live_do (i : nat) {Y} (c : connE Y) (s : mdb) (l : session)
    : result Y -> mdb -> session -> Prop :=
  let fails (x : result Y) s' l' := is_ok x = false /\ s' = s /\ l' = aborted l in
  match c in connE Y return (result Y -> mdb -> session -> Prop) -> result Y -> mdb -> session -> Prop with
  | Connect => fun fails x s' l' => fails x s' l'
  | AdvisoryLock => fun fails x s' l' =>
      fails x s' l' \/
      (x = Ok () /\ l <> SAborted /\ (db_lock s = None \/ db_lock s = Some i) /\
       s' = set_lock s (Some i) /\ l' = l)
  | AdvisoryUnlock => fun fails x s' l' =>
      fails x s' l' \/ (x = Ok () /\ l <> SAborted /\ s' = release i s /\ l' = l)
  | CreateTable => fun fails x s' l' =>
      fails x s' l' \/ (x = Ok () /\ l = SIdle /\ s' = set_table s /\ l' = l)
  | ReadVersions => fun fails x s' l' =>
      fails x s' l' \/
      (exists vs, x = Ok vs /\ l <> SAborted /\ db_table s = true /\ vs ≡ₚ db_rows s /\ s' = s /\ l' = l)
  | Begin => fun fails x s' l' =>
      fails x s' l' \/ (x = Ok () /\ l = SIdle /\ s' = s /\ l' = STx [] [])
  | ExecSQL m => fun fails x s' l' =>
      fails x s' l' \/
      (exists ms vs, x = Ok () /\ l = STx ms vs /\ s' = s /\ l' = STx (ms ++ [m]) vs)
  | InsertVersion m => fun fails x s' l' =>
      fails x s' l' \/
      (exists ms vs, x = Ok () /\ l = STx ms vs /\ s' = s /\ l' = STx ms (vs ++ [mf_Version m]) /\
         mf_Version m ∉ db_rows s ++ vs)
  | Commit => fun _ x s' l' =>
      l' = SIdle /\
      ((is_ok x = false /\ s' = s) \/ exists ms vs, x = Ok () /\ l = STx ms vs /\ s' = committed s ms vs)
  | Rollback => fun fails x s' l' =>
      fails x s' l' \/ (x = Ok () /\ s' = s /\ l' = SIdle)
  | CloseConn => fun _ _ s' l' => s' = release i s /\ l' = SDead
  end fails.

(** The connection breaks: the transaction is rolled back and the lock released,
    unless it was the reply to a commit that got lost. *)
Definition lost (i : nat) {Y} (c : connE Y) (s : mdb) (l : session) (s' : mdb) : Prop :=
  s' = release i s \/
  match c, l with Commit, STx ms vs => s' = release i (committed s ms vs) | _, _ => False end.

Definition pg_do (i : nat) X (e : migE X) (w : mdb * session) : X -> mdb * session -> Prop :=
  match e in res _ X return X -> mdb * session -> Prop with
  | R c => fun x w' =>
      match w.2 with
      | SNone =>
          w'.1 = w.1 /\
          ((is_ok x = false /\ w'.2 = SNone) \/
           (is_ok x = true /\ w'.2 = SIdle /\ match c with Connect => True | _ => False end))
      | SDead => is_ok x = false /\ w' = w
      | l => (is_ok x = false /\ lost i c w.1 l w'.1 /\ w'.2 = SDead) \/
             live_do i c w.1 l x w'.1 w'.2
      end
  end.

(** The outcomes of a call. *)
Ltac pg_cases Hd :=
  simpl in Hd; unfold lost in Hd; simpl in Hd; repeat match goal with
  | H : _ /\ _ |- _ => destruct H
  | H : _ \/ _ |- _ => destruct H
  | H : exists _, _ |- _ => destruct H
  | H : False |- _ => destruct H
  end; simplify_eq/=.

(** ** The invariant of the shared database *)

Section migrations.
Context (migs : list migrationFile).

(** The database is at one of the versions: exactly the first [k] migrations were
    committed, in order, each with its bookkeeping row. *)
Definition at_version (k : nat) (s : mdb) : Prop :=
  db_log s = take k migs /\ db_rows s = mf_Version <$> take k migs.
Definition migrated (s : mdb) : Prop := exists k, at_version k s.

(** What starter [i] relies on: the others keep the database at some version, never
    go back, touch nothing while [i] holds the lock, and never give it the lock. *)
Record mig_rely (i : nat) (s s' : mdb) : Prop := {
  mr_inv : migrated s -> migrated s';
  mr_held : db_lock s = Some i -> s' = s;
  mr_not : db_lock s <> Some i -> db_lock s' <> Some i;
  mr_log : db_log s `prefix_of` db_log s'
}.

#[export] Instance mig_rely_preorder i : PreOrder (mig_rely i).
Proof.
  split.
  - intros s. by split.
  - intros s1 s2 s3 [H1 H2 H3 H4] [K1 K2 K3 K4]. split; [auto| |auto|by etrans].
    intros Hl. pose proof (H2 Hl) as ->. auto.
Qed.

(** The steps a starter may take: nothing, giving the lock up, taking a free lock,
    and changes while it holds the lock that keep the invariant. *)
Definition own_step (i : nat) (s s' : mdb) : Prop :=
  s' = s \/ s' = release i s \/ (db_lock s = None /\ s' = set_lock s (Some i)) \/
  (db_lock s = Some i /\ migrated s' /\ db_log s `prefix_of` db_log s' /\
   (db_lock s' = Some i \/ db_lock s' = None)).

Lemma own_guarantee i s s' : own_step i s s' -> forall j, j <> i -> mig_rely j s s'.
Proof.
  intros Hs j Hj. destruct Hs as [->|[->|[[Hl ->]|(Hl & Hm & Hp & Hl')]]].
  - reflexivity.
  - unfold release. destruct (decide _) as [He|_]; [|reflexivity].
    split; [done|congruence|done|done].
  - split; [done|congruence|simpl; congruence|done].
  - split; [done|congruence|intuition congruence|done].
Qed.

Lemma migrated_release i s : migrated s -> migrated (release i s).
Proof. unfold release. by destruct (decide _). Qed.

(** Calls that change nothing shared but the lock. *)
Definition quiet {Y} (c : connE Y) : bool :=
  match c with Commit | CreateTable => false | _ => true end.

Lemma release_other i s : db_lock s <> Some i -> release i s = s.
Proof. unfold release. by destruct (decide _). Qed.

Lemma relock i s : db_lock s = Some i -> set_lock s (Some i) = s.
Proof. destruct s. simpl. by intros ->. Qed.

Lemma quiet_step i Y (c : connE Y) s l x s' l' :
  pg_do i _ (R c) (s, l) x (s', l') -> quiet c = true -> own_step i s s' /\ db_log s' = db_log s.
Proof.
  intros Hd Hq. unfold own_step.
  assert (Hlog : db_log (release i s) = db_log s) by (unfold release; by destruct (decide _)).
  destruct l, c; try discriminate Hq; pg_cases Hd;
    (split; [rewrite ?relock by done; by eauto|by rewrite ?Hlog]).
Qed.

(** ** The runner under the lock *)

#[local] Abbreviation mig_rg := (rg pg_do mig_rely).

Lemma rg_quiet {Y B} i (Q : B -> mdb -> session -> Prop) (c : connE Y) (f : result Y -> prog migE B) s l :
  quiet c = true ->
  (forall s2 x s' l', mig_rely i s s2 -> pg_do i _ (R c) (s2, l) x (s', l') -> mig_rg i Q (f x) s' l') ->
  mig_rg i Q (call (R c) ≫= f) s l.
Proof.
  intros Hq Hf. apply rg_call_bind. intros s2 x s' l' Hr Hd. split; [|by eapply Hf].
  destruct (quiet_step _ _ _ _ _ _ _ _ Hd Hq) as [Ho _]. by apply own_guarantee.
Qed.

(** The same while the lock is held: nobody else moves. *)
Lemma rg_quiet_locked {Y B} i (Q : B -> mdb -> session -> Prop) (c : connE Y) (f : result Y -> prog migE B) s l :
  quiet c = true -> db_lock s = Some i ->
  (forall x s' l', pg_do i _ (R c) (s, l) x (s', l') -> mig_rg i Q (f x) s' l') ->
  mig_rg i Q (call (R c) ≫= f) s l.
Proof.
  intros Hq Hl Hf. apply rg_quiet; [done|]. intros s2 x s' l' Hr. rewrite (mr_held _ _ _ Hr Hl). apply Hf.
Qed.

Lemma rg_fail i e s l (Q : result () -> mdb -> session -> Prop) :
  migrated s -> (forall s' l', migrated s' -> Q (Err e) s' l') -> mig_rg i Q (Ret (Err e)) s l.
Proof. intros Hm HQ s2 Hr. apply HQ. by apply (mr_inv _ _ _ Hr). Qed.

Lemma quiet_migrated i Y (c : connE Y) s l x s' l' :
  pg_do i _ (R c) (s, l) x (s', l') -> quiet c = true -> migrated s -> migrated s'.
Proof.
  intros Hd Hq Hm. destruct (quiet_step _ _ _ _ _ _ _ _ Hd Hq) as [Ho _].
  destruct Ho as [->|[->|[[_ ->]|(_ & Hm' & _)]]]; [done|by apply migrated_release|done|done].
Qed.

Lemma rg_rolled_back i msg s l (Q : result () -> mdb -> session -> Prop) :
  migrated s -> (forall e s' l', migrated s' -> Q (Err e) s' l') -> mig_rg i Q (rolled_back msg) s l.
Proof.
  intros Hm HQ. apply rg_quiet; [done|]. intros s2 x s' l' Hr Hd. apply rg_fail; [|auto].
  eapply quiet_migrated; [exact Hd|done|]. by apply (mr_inv _ _ _ Hr).
Qed.

Lemma at_version_migrated k s : at_version k s -> migrated s.
Proof. by exists k. Qed.

(** Committing the next migration. *)
Lemma commit_step k m s :
  at_version k s -> migs !! k = Some m -> at_version (S k) (committed s [m] [mf_Version m]).
Proof.
  intros [Hl Hr] Hm. unfold at_version. simpl. rewrite Hl, Hr, (take_S_r _ _ _ Hm).
  by rewrite fmap_app.
Qed.

Definition applied_to (i k : nat) (r : result ()) (s : mdb) (l : session) : Prop :=
  migrated s /\ (is_ok r = true -> at_version k s /\ db_lock s = Some i /\ l = SIdle).

Lemma commit_own i k m s :
  at_version k s -> migs !! k = Some m -> db_lock s = Some i ->
  let s' := committed s [m] [mf_Version m] in own_step i s s' /\ own_step i s (release i s').
Proof.
  intros Hv Hm Hl s'. pose proof (at_version_migrated _ _ (commit_step _ _ _ Hv Hm)) as Hm'.
  assert (Hp : db_log s `prefix_of` db_log s') by (by exists [m]).
  assert (Hr : release i s' = set_lock s' None) by (unfold release; by rewrite decide_True by exact Hl).
  split; do 3 right; rewrite ?Hr; (split; [exact Hl|split; [exact Hm'|split; [exact Hp|by auto]]]).
Qed.

Lemma commit_rg i k m s msg :
  at_version k s -> migs !! k = Some m -> db_lock s = Some i ->
  mig_rg i (applied_to i (S k)) (try_as msg (R Commit) (fun _ => Ret (Ok ()))) s (STx [m] [mf_Version m]).
Proof.
  intros Hv Hm Hl. pose proof (at_version_migrated _ _ Hv) as Hmig.
  pose proof (commit_step _ _ _ Hv Hm) as Hv'. pose proof (at_version_migrated _ _ Hv') as Hmig'.
  destruct (commit_own i k m s Hv Hm Hl) as [Ho Hor].
  apply rg_call_bind. intros s2 x s' l' Hr Hd. rewrite (mr_held _ _ _ Hr Hl) in Hd. rewrite (mr_held _ _ _ Hr Hl).
  assert (Hfail : forall s1 l1, own_step i s s1 -> migrated s1 ->
            (forall j, j <> i -> mig_rely j s s1) /\
            mig_rg i (applied_to i (S k)) (Ret (Err (EMsg msg))) s1 l1).
  { intros s1 l1 Ho1 Hm1. split; [by apply own_guarantee|]. by apply rg_fail. }
  pg_cases Hd; try (destruct x as [[]|]; [done|]).
  - apply Hfail; [by right; left|by apply migrated_release].
  - apply Hfail; [done|by apply migrated_release].
  - apply Hfail; [by left|done].
  - split; [by apply own_guarantee|]. intros s3 Hr3. rewrite (mr_held _ _ _ Hr3 Hl). by split.
Qed.

Lemma apply_one_rg i k m s :
  at_version k s -> migs !! k = Some m -> db_lock s = Some i ->
  mig_rg i (applied_to i (S k)) (apply_one m) s SIdle.
Proof.
  intros Hv Hm Hl. pose proof (at_version_migrated _ _ Hv) as Hmig. unfold apply_one.
  apply rg_quiet_locked; [done..|]. intros x s1 l1 Hd.
  pose proof (quiet_migrated _ _ _ _ _ _ _ _ Hd eq_refl Hmig). destruct x as [[]|]; [|by apply rg_fail].
  pg_cases Hd. apply rg_quiet_locked; [done..|]. intros x s1 l1 Hd.
  pose proof (quiet_migrated _ _ _ _ _ _ _ _ Hd eq_refl Hmig). destruct x as [[]|]; [|by apply rg_rolled_back].
  pg_cases Hd. apply rg_quiet_locked; [done..|]. intros x s1 l1 Hd.
  pose proof (quiet_migrated _ _ _ _ _ _ _ _ Hd eq_refl Hmig). destruct x as [[]|]; [|by apply rg_rolled_back].
  pg_cases Hd. by apply commit_rg.
Qed.

Context (Hversions : NoDup (mf_Version <$> migs)).

Lemma version_applied j k m :
  migs !! j = Some m -> mf_Version m ∈ mf_Version <$> take k migs <-> (j < k)%nat.
Proof.
  intros Hj. assert (Hv : (mf_Version <$> migs) !! j = Some (mf_Version m)) by (by rewrite list_lookup_fmap, Hj).
  rewrite list_elem_of_lookup. split.
  - intros [j' Hj']. rewrite list_lookup_fmap in Hj'.
    destruct (decide (j' < k)%nat) as [Hlt|Hge]; [|by rewrite lookup_take_ge in Hj' by lia].
    rewrite lookup_take_lt in Hj' by done. rewrite <-list_lookup_fmap in Hj'.
    by rewrite (NoDup_lookup _ _ _ _ Hversions Hv Hj').
  - intros Hlt. exists j. rewrite list_lookup_fmap, lookup_take_lt by done. by rewrite Hj.
Qed.

(** The loop at its [j]th migration, when [k] were applied at the start. *)
Lemma apply_pending_rg i k applied todo j s :
  applied ≡ₚ mf_Version <$> take k migs -> todo = drop j migs ->
  at_version (j `max` k) s -> db_lock s = Some i ->
  mig_rg i (applied_to i (length migs `max` k)) (apply_pending applied todo) s SIdle.
Proof.
  intros Ha. revert j s. induction todo as [|m todo IH]; intros j s Ht Hv Hl.
  - assert (Hj : (length migs <= j)%nat).
    { apply (f_equal length) in Ht. rewrite length_drop in Ht. simpl in Ht. lia. }
    intros s2 Hr. rewrite (mr_held _ _ _ Hr Hl). split; [by eapply at_version_migrated|]. intros _.
    split; [|done]. destruct Hv as [H1 H2]. rewrite take_ge in H1, H2 by lia.
    unfold at_version. by rewrite take_ge by lia.
  - assert (Hj : migs !! j = Some m).
    { rewrite <-(Nat.add_0_r j), <-lookup_drop, <-Ht. done. }
    assert (Ht' : todo = drop (S j) migs).
    { rewrite <-Nat.add_1_r, <-drop_drop, <-Ht. done. }
    cbn [apply_pending]. rewrite bool_decide_decide. destruct (decide _) as [Hin|Hnin].
    + rewrite Ha, (version_applied j k m Hj) in Hin. apply (IH (S j)); [done| |done].
      by replace (S j `max` k)%nat with (j `max` k)%nat by lia.
    + rewrite Ha, (version_applied j k m Hj) in Hnin.
      replace (j `max` k)%nat with j in Hv by lia. apply rg_bind; [apply _|].
      eapply rg_mono; [by apply apply_one_rg|]. intros [[]|e] s1 l1 [Hm Hok]; [|by apply rg_fail].
      destruct (Hok eq_refl) as (Hv1 & Hl1 & ->). apply (IH (S j)); [done| |done].
      by replace (S j `max` k)%nat with (S j) by lia.
Qed.

(** A starter that reports success leaves every migration applied. *)
Definition up_to_date (r : result ()) (s : mdb) (l : session) : Prop :=
  migrated s /\ (is_ok r = true -> db_log s = migs).

Lemma at_end s s' : db_log s = migs -> db_log s `prefix_of` db_log s' -> migrated s' -> db_log s' = migs.
Proof.
  intros Hs Hp (k & Hl & _). rewrite <-Hs. symmetry. apply prefix_length_eq; [done|].
  rewrite Hl, Hs, length_take. lia.
Qed.

Lemma rg_finish i r s l : up_to_date r s l -> mig_rg i up_to_date (Ret r) s l.
Proof.
  intros [Hm Hok] s2 Hr. pose proof (mr_inv _ _ _ Hr Hm). split; [done|].
  intros Hr'. eapply at_end; [by apply Hok|apply Hr|done].
Qed.

(** Giving up the lock, or the connection, at the end. *)
Lemma rg_last i (c : connE ()) r s l :
  quiet c = true -> up_to_date r s l -> mig_rg i up_to_date (_ ← call (R c); Ret r) s l.
Proof.
  intros Hq [Hm Hok]. apply rg_quiet; [done|]. intros s2 x s' l' Hr Hd.
  pose proof (mr_inv _ _ _ Hr Hm) as Hm2. apply rg_finish. split; [by eapply quiet_migrated|].
  intros Hr'. destruct (quiet_step _ _ _ _ _ _ _ _ Hd Hq) as [_ ->].
  eapply at_end; [by apply Hok|apply Hr|done].
Qed.

Lemma create_table_step i s l x s' l' :
  migrated s -> db_lock s = Some i -> pg_do i _ (R CreateTable) (s, l) x (s', l') ->
  own_step i s s' /\ migrated s' /\ db_log s' = db_log s /\
  (is_ok x = true -> db_lock s' = Some i /\ l' = SIdle /\ db_rows s' = db_rows s).
Proof.
  intros Hm Hl Hd. unfold own_step. pose proof (migrated_release i s Hm) as Hmr.
  assert (Hlog : db_log (release i s) = db_log s) by (unfold release; by destruct (decide _)).
  destruct l; pg_cases Hd; try (destruct x as [[]|]; [done|]); split_and!; auto 10; try done.
Qed.

Lemma applied_up_to_date i k r s l : applied_to i (length migs `max` k) r s l -> up_to_date r s l.
Proof.
  intros [Hm Hok]. split; [done|]. intros Hr. destruct (Hok Hr) as [[Hl _] _].
  by rewrite Hl, take_ge by lia.
Qed.

(** The work under the lock. *)
Lemma body_rg i s :
  migrated s -> db_lock s = Some i ->
  mig_rg i up_to_date
    (try_as "migrations table" (R CreateTable) (fun _ =>
       try_as "read applied migrations" (R ReadVersions) (fun applied => apply_pending applied migs))) s SIdle.
Proof.
  intros Hm Hl. apply rg_call_bind. intros s2 x s1 l1 Hr Hd. rewrite (mr_held _ _ _ Hr Hl) in Hd |- *.
  destruct (create_table_step _ _ _ _ _ _ Hm Hl Hd) as (Ho & Hm1 & _ & Hok).
  split; [by apply own_guarantee|]. destruct x as [[]|]; [|by apply rg_finish].
  destruct (Hok eq_refl) as (Hl1 & -> & _). destruct Hm1 as [k Hv]. clear Hm Hl Hr Hd Ho Hok.
  apply rg_quiet_locked; [done..|]. intros x s3 l3 Hd.
  pose proof (quiet_migrated _ _ _ _ _ _ _ _ Hd eq_refl (at_version_migrated _ _ Hv)).
  destruct x as [vs|]; [|by apply rg_finish]. pg_cases Hd.
  eapply rg_mono; [|intros ? ? ?; apply (applied_up_to_date i k)].
  eapply (apply_pending_rg i k _ migs 0); [|done|done|done].
  destruct Hv as [_ <-]. done.
Qed.

Lemma locked_rg i s : migrated s -> db_lock s <> Some i -> mig_rg i up_to_date (locked migs) s SIdle.
Proof.
  intros Hm Hl. apply rg_quiet; [done|]. intros s2 x s1 l1 Hr Hd.
  pose proof (mr_inv _ _ _ Hr Hm) as Hm2. pose proof (mr_not _ _ _ Hr Hl) as Hl2.
  pose proof (quiet_migrated _ _ _ _ _ _ _ _ Hd eq_refl Hm2). destruct x as [[]|]; [|by apply rg_finish].
  pg_cases Hd; apply rg_bind; try apply _;
    (eapply rg_mono; [by apply body_rg|]); intros r s' l'; by apply rg_last.
Qed.
End migrations.

(** ** Loading the files *)

(** An up file: a versioned name and readable text. *)
Definition up_file (entry : string * result string) (m : migrationFile) : Prop :=
  entry = (mf_Name m, Ok (mf_SQL m)) /\ HasSuffix (mf_Name m) ".up.sql" = true /\
  exists prefix label, Cut (mf_Name m) "_" = Some (prefix, label) /\ Atoi prefix = Some (mf_Version m).

Lemma load_entries_ok seen out entries migs :
  load_entries seen out entries = Ok migs ->
  NoDup (mf_Version <$> out) -> (forall v, is_Some (seen !! v) <-> v ∈ mf_Version <$> out) ->
  NoDup (mf_Version <$> migs) /\
  forall m, m ∈ migs <-> m ∈ out \/ exists entry, entry ∈ entries /\ up_file entry m.
Proof.
  revert seen out. induction entries as [|[name data] entries IH]; intros seen out.
  { simpl. intros [= ->] Hnd _. split; [done|]. intros m. split; [auto|].
    intros [Hm|(e & He & _)]; [done|by apply not_elem_of_nil in He]. }
  simpl. destruct (HasSuffix name ".up.sql") eqn:Hs; simpl.
  - destruct (Cut name "_") as [[prefix label]|] eqn:Hc; [|done].
    destruct (Atoi prefix) as [v|] eqn:Hv; [|done]. destruct (seen !! v) eqn:Hseen; [done|].
    destruct data as [raw|]; [|done]. set (m0 := {| mf_Version := v; mf_Name := name; mf_SQL := raw |}).
    intros Hload Hnd Hdom. destruct (IH _ _ Hload) as [Hnd' Hin].
    + rewrite fmap_app. apply NoDup_app. split; [done|]. split; [|apply NoDup_singleton].
      intros v' Hv' ->%list_elem_of_singleton. apply Hdom in Hv'. simpl in Hv'. rewrite Hseen in Hv'. by destruct Hv'.
    + intros v'. rewrite fmap_app, elem_of_app, <-Hdom, lookup_insert_is_Some. simpl.
      rewrite list_elem_of_singleton. destruct (decide (v = v')); naive_solver.
    + split; [done|]. intros m. rewrite Hin, elem_of_app, list_elem_of_singleton. split.
      * intros [[Hm| ->]|(e & He & Hu)]; [by left|right|right].
        -- exists (name, Ok raw). split; [by left|]. split; [done|]. split; [done|]. by exists prefix, label.
        -- exists e. split; [by right|done].
      * intros [Hm|(e & [->|He]%elem_of_cons & Hu)]; [by left; left|left; right|right; by exists e].
        destruct Hu as (Heq & _ & (p' & l' & Hc' & Hv')). injection Heq as -> ->. rewrite Hc in Hc'. simplify_eq.
        unfold m0. by destruct m.
  - intros Hload Hnd Hdom. destruct (IH _ _ Hload Hnd Hdom) as [Hnd' Hin]. split; [done|].
    intros m. rewrite Hin. split; (intros [Hm|(e & He & Hu)]; [by left|right; exists e]).
    + split; [by right|done].
    + split; [|done]. apply elem_of_cons in He as [->|He]; [|done].
      destruct Hu as (Heq & Hu & _). injection Heq as -> _. congruence.
Qed.

#[export] Instance by_version_trans : Transitive by_version.
Proof. intros a b c. unfold by_version. lia. Qed.
#[export] Instance by_version_total : Total by_version.
Proof. intros a b. unfold by_version. lia. Qed.

Lemma strictly_ordered migs :
  StronglySorted by_version migs -> NoDup (mf_Version <$> migs) ->
  StronglySorted Z.lt (mf_Version <$> migs).
Proof.
  induction 1 as [|m migs Hs IH Hm]; [constructor|]. rewrite fmap_cons. intros [Hn Hnd]%NoDup_cons.
  constructor; [auto|]. apply Forall_fmap. apply Forall_forall. intros m' Hin.
  rewrite Forall_forall in Hm. specialize (Hm m' Hin). unfold by_version in Hm. simpl.
  assert (mf_Version m <> mf_Version m'); [|lia]. intros He. apply Hn. rewrite He.
  by apply list_elem_of_fmap_2.
Qed.

(** The files that are loaded, and their order. *)
Lemma loadMigrations_ok entries migs :
  loadMigrations entries = Ok migs ->
  exists es, entries = Ok es /\ StronglySorted Z.lt (mf_Version <$> migs) /\
    NoDup (mf_Version <$> migs) /\ forall m, m ∈ migs <-> exists e, e ∈ es /\ up_file e m.
Proof.
  unfold loadMigrations. destruct entries as [es|]; [|done]. exists es. split; [done|].
  destruct (load_entries ∅ [] es) as [out|] eqn:Hl; [|done]. simpl in *.
  assert (Hout : migs = merge_sort by_version out) by (destruct out; congruence).
  apply load_entries_ok in Hl as [Hnd Hin]; [|constructor|].
  2:{ intros v. rewrite lookup_empty. split; [by intros [? [=]]|by intros ?%not_elem_of_nil]. }
  pose proof (merge_sort_Permutation by_version out) as Hp. rewrite <-Hout in Hp.
  assert (Hnd' : NoDup (mf_Version <$> migs)) by (by rewrite Hp).
  split; [apply strictly_ordered; [rewrite Hout; apply StronglySorted_merge_sort; apply _|done]|].
  split; [done|]. intros m. rewrite Hp, Hin. split; [|by right].
  intros [Hm|He]; [by apply not_elem_of_nil in Hm|done].
Qed.

(** ** Concurrent starters *)

(** A starter of either service, with the session it starts from: tenancy is given a
    connection, the orchestrator dials its own. *)
Definition starter (entries : result (list (string * result string))) (dials : bool)
    : prog migE (result ()) * session :=
  if dials then (orch_Migrate entries, SNone) else (runMigrations entries, SIdle).

Lemma connect_step i s x s' l' :
  pg_do i _ (R Connect) (s, SNone) x (s', l') -> s' = s /\ (is_ok x = true -> l' = SIdle).
Proof. intros Hd. pg_cases Hd; auto. split; [done|]. congruence. Qed.

Lemma starter_rg migs entries dials i s :
  loadMigrations entries = Ok migs -> NoDup (mf_Version <$> migs) ->
  migrated migs s -> db_lock s <> Some i ->
  rg pg_do (mig_rely migs) i (up_to_date migs) (starter entries dials).1 s (starter entries dials).2.
Proof.
  intros Hload Hnd Hm Hl. unfold starter, orch_Migrate, runMigrations. rewrite Hload.
  destruct dials; simpl; [|by apply locked_rg].
  apply rg_call_bind. intros s2 x s1 l1 Hr Hd. apply connect_step in Hd as [-> Hd].
  pose proof (mr_inv _ _ _ _ Hr Hm). pose proof (mr_not _ _ _ _ Hr Hl).
  split; [intros; reflexivity|]. destruct x as [[]|]; [|by apply rg_finish].
  rewrite Hd by done. apply rg_bind; [apply _|].
  eapply rg_mono; [by apply locked_rg|]. intros r s' l'. by apply rg_last.
Qed.

(** C13: migrations are applied once and in order, however many instances start at
    the same time.  From a database at any version, in any interleaving of any
    number of starters whose statements fail and whose connections break, a lost
    commit reply included: the committed migrations are always exactly the first
    [k] of the embedded ones in strictly ascending order of version, each with its
    bookkeeping row, nothing that was applied is ever undone or applied again, and
    a starter that reports success leaves all of them applied. *)
Theorem migrations_apply_once entries migs starters s0 ts s :
  loadMigrations entries = Ok migs -> migrated migs s0 -> db_lock s0 = None ->
  rtc (lpool_step pg_do) (starter entries <$> starters, s0) (ts, s) ->
  StronglySorted Z.lt (mf_Version <$> migs) /\
  (exists k, db_log s = take k migs /\ db_rows s = mf_Version <$> take k migs) /\
  db_log s0 `prefix_of` db_log s /\
  forall i l, ts !! i = Some (Ret (Ok ()), l) -> db_log s = migs.
Proof.
  intros Hload Hm Hl Hr. destruct (loadMigrations_ok _ _ Hload) as (es & _ & Hsort & Hnd & _).
  assert (Hrg : forall i p l, (starter entries <$> starters) !! i = Some (p, l) ->
            rg pg_do (mig_rely migs) i (up_to_date migs) p s0 l).
  { intros i p l Hi. rewrite list_lookup_fmap in Hi. destruct (starters !! i) as [d|]; simplify_eq/=.
    destruct (starter entries d) as [p' l'] eqn:He. simplify_eq.
    replace p with (starter entries d).1 by (by rewrite He).
    replace l with (starter entries d).2 by (by rewrite He). apply starter_rg; [done..|]. by rewrite Hl. }
  destruct (rg_observed pg_do (mig_rely migs) (fun _ => up_to_date migs) _ _ _ _ (length (starter entries <$> starters)) Hrg Hr
              (le_n _)) as [Hinv _ _ Hp].
  split; [done|]. split; [by apply Hinv|]. split; [done|]. intros i l Hi.
  destruct (rg_result pg_do (mig_rely migs) i _ _ _ _
              (rg_sound pg_do (mig_rely migs) (fun _ => up_to_date migs) _ _ _ _ Hrg Hr i _ _ Hi)) as [_ Hok]. by apply Hok.
Qed.

(** ** A server without faults *)

Definition refused : gerror := EMsg "refused".

Definition pg_serve (i : nat) : sem migE (mdb * session) := fun X e '(s, l) =>
  match e in res _ X return X * (mdb * session) with
  | R c =>
    match c in connE Y, l return result Y * (mdb * session) with
    | Connect, SNone => (Ok (), (s, SIdle))
    | AdvisoryLock, SIdle =>
        match db_lock s with
        | None => (Ok (), (set_lock s (Some i), SIdle))
        | Some _ => (Err refused, (s, l))
        end
    | AdvisoryUnlock, SIdle => (Ok (), (release i s, SIdle))
    | CreateTable, SIdle => (Ok (), (set_table s, SIdle))
    | ReadVersions, SIdle => if db_table s then (Ok (db_rows s), (s, l)) else (Err refused, (s, l))
    | Begin, SIdle => (Ok (), (s, STx [] []))
    | ExecSQL m, STx ms vs => (Ok (), (s, STx (ms ++ [m]) vs))
    | InsertVersion m, STx ms vs =>
        if bool_decide (mf_Version m ∈ db_rows s ++ vs) then (Err refused, (s, SAborted))
        else (Ok (), (s, STx ms (vs ++ [mf_Version m])))
    | Commit, STx ms vs => (Ok (), (committed s ms vs, SIdle))
    | Commit, SIdle | Commit, SAborted => (Err refused, (s, SIdle))
    | Rollback, STx _ _ | Rollback, SAborted => (Ok (), (s, SIdle))
    | CloseConn, SIdle | CloseConn, STx _ _ | CloseConn, SAborted => (Ok (), (release i s, SDead))
    | _, _ => (Err refused, (s, aborted l))
    end
  end.

Ltac outcome :=
  first [ done
        | by (split; [done|left])
        | by (split; [done|right; split_and!])
        | by (right; left; split_and!)
        | by (right; right; split_and!; auto)
        | by (right; split; [done|left])
        | by (right; right; eexists; split_and!)
        | by (right; right; eexists _, _; split_and!)
        | by (right; split; [done|right; eexists _, _; split_and!])
        | by (right; split_and!) ].

Lemma pg_serve_spec i X (e : migE X) w : pg_do i X e w (pg_serve i X e w).1 (pg_serve i X e w).2.
Proof.
  destruct w as [s l], e as [Y c]. destruct l, c; simpl; try outcome.
  - destruct (db_lock s) eqn:Hl; simpl; outcome.
  - destruct (db_table s) eqn:Ht; simpl; outcome.
  - rewrite bool_decide_decide. destruct (decide _); simpl; outcome.
Qed.

Lemma pg_run_spec {A} i (p : prog migE A) w : nrun (pg_do i) p w (run (pg_serve i) p w).1 (run (pg_serve i) p w).2.
Proof. apply run_refines. intros. apply pg_serve_spec. Qed.

Section completion.
Context (migs : list migrationFile) (Hversions : NoDup (mf_Version <$> migs)) (i : nat).

Lemma run_apply_one k m s :
  at_version migs k s -> migs !! k = Some m ->
  run (pg_serve i) (apply_one m) (s, SIdle) = (Ok (), (committed s [m] [mf_Version m], SIdle)).
Proof.
  intros [_ Hr] Hm. unfold apply_one. simpl. rewrite app_nil_r, bool_decide_eq_false_2; [done|].
  rewrite Hr, (version_applied migs Hversions k k m Hm). lia.
Qed.

Lemma run_pending applied k j s :
  applied = mf_Version <$> take k migs -> at_version migs (j `max` k) s ->
  exists s', run (pg_serve i) (apply_pending applied (drop j migs)) (s, SIdle) = (Ok (), (s', SIdle)) /\
    db_log s' = migs /\ db_lock s' = db_lock s.
Proof.
  intros Ha. remember (drop j migs) as todo eqn:Ht. revert j s Ht.
  induction todo as [|m todo IH]; intros j s Ht Hv.
  - exists s. split; [done|]. split; [|done]. destruct Hv as [-> _]. apply take_ge.
    apply (f_equal length) in Ht. rewrite length_drop in Ht. simpl in Ht. lia.
  - assert (Hj : migs !! j = Some m) by (rewrite <-(Nat.add_0_r j), <-lookup_drop, <-Ht; done).
    assert (Ht' : todo = drop (S j) migs) by (rewrite <-Nat.add_1_r, <-drop_drop, <-Ht; done).
    cbn [apply_pending]. rewrite bool_decide_decide.
    destruct (decide _) as [Hin|Hnin]; rewrite Ha, (version_applied migs Hversions j k m Hj) in *.
    + apply (IH (S j)); [done|]. by replace (S j `max` k)%nat with (j `max` k)%nat by lia.
    + replace (j `max` k)%nat with j in Hv by lia. rewrite run_bind, (run_apply_one j m s Hv Hj).
      destruct (IH (S j) (committed s [m] [mf_Version m]) Ht') as (s' & Hrun & Hlog & Hl).
      * replace (S j `max` k)%nat with (S j) by lia. by apply commit_step.
      * exists s'. by rewrite Hrun.
Qed.

Lemma run_locked s :
  migrated migs s -> db_lock s = None ->
  exists s', run (pg_serve i) (locked migs) (s, SIdle) = (Ok (), (s', SIdle)) /\
    db_log s' = migs /\ db_lock s' = None.
Proof.
  intros [k Hv] Hl. unfold locked. rewrite run_try_as. cbn [pg_serve]. rewrite Hl, run_bind.
  rewrite run_try_as. cbn [pg_serve]. rewrite run_try_as. cbn [pg_serve db_table set_table].
  destruct (run_pending (db_rows s) k 0 (set_table (set_lock s (Some i)))) as (s' & Hrun & Hlog & Hl').
  { by destruct Hv as [_ ->]. }
  { done. }
  rewrite drop_0 in Hrun. cbn [db_rows set_table set_lock]. rewrite Hrun, run_bind, run_call. simpl. exists (release i s'). split; [done|].
  unfold release. rewrite decide_True by done. done.
Qed.
End completion.

(** A starter terminates with success.  On a server that loses nothing, from a
    database at any version whose lock is free, either service's runner returns
    success with all migrations applied and the lock released. *)
Theorem migrate_completes i entries migs dials s :
  loadMigrations entries = Ok migs -> migrated migs s -> db_lock s = None ->
  exists s' l', run (pg_serve i) (starter entries dials).1 (s, (starter entries dials).2)
                = (Ok (), (s', l')) /\ db_log s' = migs /\ db_lock s' = None.
Proof.
  intros Hload Hm Hl. destruct (loadMigrations_ok _ _ Hload) as (es & _ & _ & Hnd & _).
  destruct (run_locked migs Hnd i s Hm Hl) as (s' & Hrun & Hlog & Hl').
  unfold starter, orch_Migrate, runMigrations. rewrite Hload. destruct dials; cbn [fst snd]; [|by exists s', SIdle].
  rewrite run_try_as. cbn [pg_serve]. rewrite run_bind, Hrun, run_bind, run_call. simpl.
  exists (release i s'), SDead. split; [done|]. unfold release. by destruct (decide _).
Qed.

(** ** A concrete deployment *)

Definition ex_entries : result (list (string * result string)) :=
  Ok [("000002_tiers.up.sql", Ok "CREATE TABLE tiers"); ("000001_init.down.sql", Ok "DROP TABLE users");
      ("000001_init.up.sql", Ok "CREATE TABLE users")].
Definition ex_migs : list migrationFile :=
  [{| mf_Version := 1; mf_Name := "000001_init.up.sql"; mf_SQL := "CREATE TABLE users" |};
   {| mf_Version := 2; mf_Name := "000002_tiers.up.sql"; mf_SQL := "CREATE TABLE tiers" |}].
Definition ex_fresh : mdb := {| db_lock := None; db_table := false; db_log := []; db_rows := [] |}.

Lemma ex_loads : loadMigrations ex_entries = Ok ex_migs.
Proof. vm_compute. reflexivity. Qed.

Lemma ex_fresh_migrated : migrated ex_migs ex_fresh.
Proof. by exists 0%nat. Qed.

(** Duplicate and malformed names are refused. *)
Example bad_migrations :
  loadMigrations (Ok [("1_a.up.sql", Ok ""); ("01_b.up.sql", Ok "")])
  = Err (EMsg "migration 01_b.up.sql: duplicate version with 1_a.up.sql") /\
  loadMigrations (Ok [("init.up.sql", Ok "")])
  = Err (EMsg "migration init.up.sql: name must be <version>_<label>.up.sql") /\
  loadMigrations (Ok [("a.sql", Ok "")]) = Err (EMsg "no migrations embedded").
Proof. vm_compute. done. Qed.

(** Two starters: the second connects first, then waits for the first. *)
Definition ex_schedule : list nat := ([1; 0; 0; 0] ++ replicate 9 0 ++ replicate 6 1)%nat.

Lemma migrations_apply_once_witness :
  let c := lrun_sched pg_serve ex_schedule (starter ex_entries <$> [false; true], ex_fresh) in
  c.1 !! 0%nat = Some (Ret (Ok ()), SIdle) /\ db_log c.2 = ex_migs.
Proof.
  set (c := lrun_sched pg_serve ex_schedule (starter ex_entries <$> [false; true], ex_fresh)).
  assert (Hr : rtc (lpool_step pg_do) (starter ex_entries <$> [false; true], ex_fresh) (c.1, c.2)).
  { rewrite <-surjective_pairing. apply (lrun_sched_reachable pg_serve pg_do). intros. apply pg_serve_spec. }
  assert (H0 : c.1 !! 0%nat = Some (Ret (Ok ()), SIdle)) by (vm_compute; reflexivity).
  split; [exact H0|].
  destruct (migrations_apply_once ex_entries ex_migs [false; true] ex_fresh c.1 c.2 ex_loads
              ex_fresh_migrated eq_refl Hr) as (_ & _ & _ & H).
  exact (H 0%nat SIdle H0).
Defined.

Lemma migrate_completes_witness :
  exists s' l', run (pg_serve 7) (orch_Migrate ex_entries) (ex_fresh, SNone) = (Ok (), (s', l')) /\
    db_log s' = ex_migs.
Proof.
  destruct (migrate_completes 7 ex_entries ex_migs true ex_fresh ex_loads ex_fresh_migrated eq_refl)
    as (s' & l' & H1 & H2 & _).
  exists s', l'. exact (conj H1 H2).
Defined.
