(* ===== verification/Streams.v ===== *)
(** * JetStream set-up: who owns the event streams

    orchestrator/internal/natsio, the consumer of orchestrator/internal/consumer,
    upload/publisher.go and tenancy/metering.go ensure their streams at start-up, by
    different rules.  The JetStream API is the interface [jsE]; a server is the
    relation [js_do]: a stream owns its subjects alone, creating a stream again with
    the same configuration is a no-op, and any call may fail, before or after it
    took effect. *)
From S2P Require Export Events.
#[local] Open Scope Z_scope.

Inductive storage := FileStorage | MemoryStorage.
#[export] Instance storage_eq_dec : EqDecision storage.
Proof. solve_decision. Defined.

(** [Retention] is left at its zero value, [LimitsPolicy], by every caller. *)
Record StreamConfig := { sc_Name : string; sc_Subjects : list string; sc_Storage : storage }.
#[export] Instance StreamConfig_eq_dec : EqDecision StreamConfig.
Proof. solve_decision. Defined.

Record ConsumerConfig := {
  cc_Durable : string; cc_FilterSubject : string; cc_MaxDeliver : Z; cc_AckWait : duration
}.

(** [jetstream.ErrStreamNotFound] and [jetstream.ErrStreamNameAlreadyInUse]. *)
Definition ErrStreamNotFound : gerror := ENotFound.
Definition ErrStreamNameAlreadyInUse : gerror := EDuplicate.

Inductive jscallE : Type -> Type :=
| StreamNameBySubject (subject : string) : jscallE string
| CreateStream (cfg : StreamConfig) : jscallE ()
| CreateOrUpdateStream (cfg : StreamConfig) : jscallE ()
| Stream (name : string) : jscallE ()
| CreateOrUpdateConsumer (stream : string) (cfg : ConsumerConfig) : jscallE ()
| JSPublish (subject data : string) : jscallE ()
| CorePublish (subject data : string) : jscallE ().

Abbreviation jsE := (res jscallE).

(** ** natsio.go *)

Definition EnsureStreamForSubject (fallbackName subject : string) : prog jsE (result string) :=
  name ← call (R (StreamNameBySubject subject));
  match name with
  | Ok name => Ret (Ok name)
  | Err e =>
      if negb (bool_decide (e = ErrStreamNotFound))
      then Ret (Err (EMsg ("stream lookup for " +:+ subject)))
      else
        created ← call (R (CreateStream {| sc_Name := fallbackName; sc_Subjects := [subject];
                                           sc_Storage := FileStorage |}));
        match created with
        | Ok _ => Ret (Ok fallbackName)
        | Err e =>
            if bool_decide (e = ErrStreamNameAlreadyInUse) then Ret (Ok fallbackName)
            else Ret (Err (EMsg ("create stream " +:+ fallbackName)))
        end
  end.

(** [data] is the outcome of [json.Marshal]. *)
Definition natsio_PublishJSON (subject : string) (data : result string) : prog jsE (result ()) :=
  match data with
  | Err e => Ret (Err e)
  | Ok data => call (R (JSPublish subject data))
  end.

Definition progress_Publish (data : result string) : prog jsE (result ()) :=
  match data with
  | Err e => Ret (Err e)
  | Ok data => call (R (CorePublish SubjectJobProgress data))
  end.

(** ** consumer/landed.go and the start-up of the orchestrator *)

Definition landed_consumer : ConsumerConfig :=
  {| cc_Durable := "orchestrator-landed"; cc_FilterSubject := SubjectUploadLanded;
     cc_MaxDeliver := 10; cc_AckWait := 120 * Second |}.

Definition landed_Start (streamName : string) : prog jsE (result ()) :=
  try_as "create landed consumer" (R (CreateOrUpdateConsumer streamName landed_consumer))
    (fun _ => Ret (Ok ())).

Definition orch_streams : prog jsE (result ()) :=
  landedStream ← EnsureStreamForSubject "AETHER_FT_UPLOAD" SubjectUploadLanded;
  match landedStream with
  | Err e => Ret (Err e)
  | Ok landedStream =>
      metering ← EnsureStreamForSubject "AETHER_FT_METERING" SubjectMetering;
      match metering with
      | Err e => Ret (Err e)
      | Ok _ => landed_Start landedStream
      end
  end.

(** ** upload/publisher.go *)

Definition ftStreamName : string := "AETHER_FT".

Definition ftStreamConfig : StreamConfig :=
  {| sc_Name := ftStreamName; sc_Subjects := [SubjectUploadLanded; SubjectMetering];
     sc_Storage := FileStorage |}.

Definition upload_streams : prog jsE (result ()) :=
  try_as ("ensure stream " +:+ ftStreamName) (R (CreateOrUpdateStream ftStreamConfig))
    (fun _ => Ret (Ok ())).

Definition js_Publish (subject data : string) : prog jsE (result ()) :=
  try_as ("publish " +:+ subject) (R (JSPublish subject data)) (fun _ => Ret (Ok ())).

(** ** tenancy/metering.go *)

Definition metering_consumer : ConsumerConfig :=
  {| cc_Durable := "tenancy-metering"; cc_FilterSubject := SubjectMetering;
     cc_MaxDeliver := 0; cc_AckWait := 0 |}.

Definition tenancy_streams : prog jsE (result ()) :=
  stream ← call (R (Stream ftStreamName));
  stream ← match stream with
           | Err e => if bool_decide (e = ErrStreamNotFound) then call (R (CreateStream ftStreamConfig))
                      else Ret (Err e)
           | Ok _ => Ret (Ok ())
           end;
  match stream with
  | Err _ => Ret (Err (EMsg ("ensure stream " +:+ ftStreamName)))
  | Ok _ => try_as "consumer" (R (CreateOrUpdateConsumer ftStreamName metering_consumer))
              (fun _ => Ret (Ok ()))
  end.

(** ** The server *)

Record js_server := {
  js_streams : gmap string StreamConfig;
  js_consumers : gmap (string * string) ConsumerConfig
}.

Definition carries (cfg : StreamConfig) (subject : string) : bool := bool_decide (subject ∈ sc_Subjects cfg).

(** The stream that owns a subject. *)
Definition owner (w : js_server) (subject : string) : option string :=
  fst <$> find (fun '(_, cfg) => carries cfg subject) (map_to_list (js_streams w)).

(** Some other stream already owns one of the subjects. *)
Definition overlaps (w : js_server) (cfg : StreamConfig) : bool :=
  existsb (fun '(name, other) => negb (String.eqb name (sc_Name cfg)) &&
                                 existsb (carries other) (sc_Subjects cfg))
    (map_to_list (js_streams w)).

Definition put_stream (w : js_server) (cfg : StreamConfig) : js_server :=
  {| js_streams := <[sc_Name cfg := cfg]> (js_streams w); js_consumers := js_consumers w |}.

Definition subjects_overlap : gerror := EMsg "subjects overlap with an existing stream".

Definition js_nominal {Y} (c : jscallE Y) (w : js_server) : result Y * js_server :=
  match c in jscallE Y return result Y * js_server with
  | StreamNameBySubject subject =>
      (match owner w subject with Some name => Ok name | None => Err ErrStreamNotFound end, w)
  | CreateStream cfg =>
      match js_streams w !! sc_Name cfg with
      | Some other => if bool_decide (other = cfg) then (Ok (), w) else (Err ErrStreamNameAlreadyInUse, w)
      | None => if overlaps w cfg then (Err subjects_overlap, w) else (Ok (), put_stream w cfg)
      end
  | CreateOrUpdateStream cfg =>
      if overlaps w cfg then (Err subjects_overlap, w) else (Ok (), put_stream w cfg)
  | Stream name =>
      (if bool_decide (is_Some (js_streams w !! name)) then Ok () else Err ErrStreamNotFound, w)
  | CreateOrUpdateConsumer stream cfg =>
      match js_streams w !! stream with
      | None => (Err ErrStreamNotFound, w)
      | Some s =>
          if carries s (cc_FilterSubject cfg)
          then (Ok (), {| js_streams := js_streams w;
                          js_consumers := <[(stream, cc_Durable cfg) := cfg]> (js_consumers w) |})
          else (Err (EMsg "consumer filter subject is not a subset of the stream's subjects"), w)
      end
  | JSPublish subject _ =>
      (match owner w subject with Some _ => Ok () | None => Err (EMsg "no response from stream") end, w)
  | CorePublish _ _ => (Ok (), w)
  end.

(** The error of a fault is a transport error, none of the two the code tests for. *)
Definition transport (e : gerror) : Prop := exists msg, e = EMsg msg.

Definition js_do X (e : jsE X) (w : js_server) : X -> js_server -> Prop :=
  match e in res _ X return X -> js_server -> Prop with
  | R c => fun x w' =>
      (x, w') = js_nominal c w \/
      (exists err, x = Err err /\ transport err /\ (w' = w \/ w' = (js_nominal c w).2))
  end.

(** ** What a well-formed server guarantees *)

Record js_wf (w : js_server) : Prop := {
  js_names : forall name cfg, js_streams w !! name = Some cfg -> sc_Name cfg = name;
  js_owned : forall n1 n2 c1 c2 s, js_streams w !! n1 = Some c1 -> js_streams w !! n2 = Some c2 ->
    carries c1 s = true -> carries c2 s = true -> n1 = n2
}.

Lemma owner_Some w s name :
  owner w s = Some name -> exists cfg, js_streams w !! name = Some cfg /\ carries cfg s = true.
Proof.
  unfold owner. destruct (find _ _) as [[n cfg]|] eqn:Hf; [|done]. intros [= <-].
  apply find_some in Hf as [Hin Hc]. exists cfg. split; [|done].
  apply elem_of_map_to_list. by apply list_elem_of_In.
Qed.

Lemma owner_None w s name cfg : owner w s = None -> js_streams w !! name = Some cfg -> carries cfg s = false.
Proof.
  unfold owner. destruct (find _ _) as [[n c]|] eqn:Hf; [done|]. intros _ Hn.
  eapply (find_none _ _ Hf (name, cfg)). by apply list_elem_of_In, elem_of_map_to_list.
Qed.

Lemma overlaps_false w cfg name other s :
  overlaps w cfg = false -> js_streams w !! name = Some other -> name <> sc_Name cfg ->
  carries cfg s = true -> carries other s = false.
Proof.
  unfold overlaps. intros Ho Hn Hne Hs. apply not_true_iff_false. intros Hs'.
  apply not_true_iff_false in Ho. apply Ho. apply existsb_exists. exists (name, other).
  split; [by apply list_elem_of_In, elem_of_map_to_list|].
  rewrite (proj2 (String.eqb_neq _ _) Hne). simpl. apply existsb_exists. exists s. split; [|done].
  unfold carries in Hs. bool_prop. by apply list_elem_of_In.
Qed.

Lemma overlaps_true w cfg name other s :
  js_streams w !! name = Some other -> name <> sc_Name cfg -> carries cfg s = true -> carries other s = true ->
  overlaps w cfg = true.
Proof.
  intros Hn Hne Hs Hs'. apply not_false_iff_true. intros Ho.
  by rewrite (overlaps_false w cfg name other s Ho Hn Hne Hs) in Hs'.
Qed.

Lemma put_stream_wf w cfg : js_wf w -> overlaps w cfg = false -> js_wf (put_stream w cfg).
Proof.
  intros [Hn Ho] Hov. split; simpl.
  - intros name c. rewrite lookup_insert_Some. intros [[<- <-]|[_ Hc]]; auto.
  - intros n1 n2 c1 c2 s. rewrite !lookup_insert_Some.
    intros [[<- <-]|[Hne1 H1]] [[<- <-]|[Hne2 H2]] Hs1 Hs2; [done| | |by eapply Ho].
    + by rewrite (overlaps_false w cfg n2 c2 s) in Hs2.
    + by rewrite (overlaps_false w cfg n1 c1 s) in Hs1.
Qed.

Lemma nominal_wf {Y} (c : jscallE Y) w : js_wf w -> js_wf (js_nominal c w).2.
Proof.
  intros Hw. destruct c; simpl; repeat case_match; simpl; try done; try (by apply put_stream_wf).
  destruct Hw. by split.
Qed.

(** Calls that may only add streams. *)
Definition additive {Y} (c : jscallE Y) : bool :=
  match c with CreateOrUpdateStream _ => false | _ => true end.

Lemma nominal_kept {Y} (c : jscallE Y) w name cfg :
  additive c = true -> js_streams w !! name = Some cfg -> js_streams (js_nominal c w).2 !! name = Some cfg.
Proof.
  intros Hc Hn. destruct c; try discriminate Hc; simpl; repeat case_match; simpl; try done.
  rewrite lookup_insert_ne; [done|]. intros <-. congruence.
Qed.

Definition streams_kept (w w' : js_server) : Prop :=
  forall name cfg, js_streams w !! name = Some cfg -> js_streams w' !! name = Some cfg.

#[export] Instance streams_kept_preorder : PreOrder streams_kept.
Proof. split; [by intros w n c|]. intros w1 w2 w3 H1 H2 n c Hn. by apply H2, H1. Qed.

Lemma js_step_wf {Y} (c : jscallE Y) w x w' : js_do _ (R c) w x w' -> js_wf w -> js_wf w'.
Proof.
  intros Hd Hw. pose proof (nominal_wf c w Hw) as Hn.
  destruct Hd as [Heq|(err & _ & _ & [->| ->])]; [|done|done].
  apply (f_equal snd) in Heq. simpl in Heq. by rewrite Heq.
Qed.

Lemma js_step_kept {Y} (c : jscallE Y) w x w' :
  js_do _ (R c) w x w' -> additive c = true -> streams_kept w w'.
Proof.
  intros Hd Hc n cfg Hn. pose proof (nominal_kept c w n cfg Hc Hn) as Hk.
  destruct Hd as [Heq|(err & _ & _ & [->| ->])]; [|done|done].
  apply (f_equal snd) in Heq. simpl in Heq. by rewrite Heq.
Qed.

(** What [EnsureStreamForSubject] promises. *)
Definition ensured (fallback subject : string) (w : js_server) (r : result string) (w' : js_server) : Prop :=
  js_wf w' /\ streams_kept w w' /\
  forall name, r = Ok name -> exists cfg, js_streams w' !! name = Some cfg /\
    (carries cfg subject = true \/
     (name = fallback /\ js_streams w !! fallback = Some cfg /\ carries cfg subject = false)).

Lemma ensure_stream_wp fallback subject w :
  js_wf w -> wp js_do (EnsureStreamForSubject fallback subject) (ensured fallback subject w) w.
Proof.
  intros Hw. unfold EnsureStreamForSubject.
  apply wp_call_bind. intros x w1 Hx.
  assert (w1 = w) as ->.
  { destruct Hx as [Heq|(err & _ & _ & [->| ->])]; [|done|done]. simpl in Heq. by simplify_eq. }
  destruct x as [name|e].
  { apply wp_ret. split; [done|]. split; [done|]. intros n [= <-].
    destruct Hx as [Heq|(err & [=] & _)]. simpl in Heq. destruct (owner w subject) as [n|] eqn:Ho; [|done].
    simplify_eq. destruct (owner_Some _ _ _ Ho) as (cfg & Hc & Hs). exists cfg. auto. }
  destruct (bool_decide_reflect (e = ErrStreamNotFound)) as [->|_]; [|by apply wp_ret].
  assert (Ho : owner w subject = None).
  { destruct Hx as [Heq|(err & Herr & [msg ->] & _)]; [|done]. simpl in Heq. by destruct (owner w subject). }
  simpl. clear Hx. apply wp_call_bind. intros x w1 Hx.
  pose proof (js_step_wf _ _ _ _ Hx Hw) as Hw1. pose proof (js_step_kept _ _ _ _ Hx eq_refl) as Hk1.
  set (cfg := {| sc_Name := fallback; sc_Subjects := [subject]; sc_Storage := FileStorage |}) in *.
  assert (Hs : carries cfg subject = true) by (unfold carries; simpl; apply bool_decide_eq_true; by left).
  destruct x as [[]|e].
  - apply wp_ret. split; [done|]. split; [done|]. intros n [= <-]. exists cfg. split; [|by left].
    destruct Hx as [Heq|(err & [=] & _)]. simpl in Heq.
    destruct (js_streams w !! fallback) as [other|] eqn:Hf.
    + case_bool_decide; simplify_eq. done.
    + destruct (overlaps w cfg); [done|]. simplify_eq. simpl. apply lookup_insert_eq.
  - destruct (bool_decide_reflect (e = ErrStreamNameAlreadyInUse)) as [->|_]; [|by apply wp_ret].
    apply wp_ret. split; [done|]. split; [done|]. intros n [= <-].
    destruct Hx as [Heq|(err & Herr & [msg ->] & _)]; [|done]. simpl in Heq.
    destruct (js_streams w !! fallback) as [other|] eqn:Hf.
    + exists other. split; [by apply Hk1|]. right. split; [done|]. split; [done|].
      by eapply owner_None.
    + by destruct (overlaps w cfg).
Qed.

(** [EnsureStreamForSubject] keeps its contract.  It never changes a stream that
    exists, and no two streams ever own one subject; when it returns a stream that
    stream exists, and carries the subject, except for one case: a stream of the
    fallback name was there already without the subject, and is returned all the
    same. *)
Theorem ensure_stream_contract fallback subject w r w' :
  js_wf w -> nrun js_do (EnsureStreamForSubject fallback subject) w r w' ->
  js_wf w' /\ streams_kept w w' /\
  forall name, r = Ok name -> exists cfg, js_streams w' !! name = Some cfg /\
    (carries cfg subject = true \/
     (name = fallback /\ js_streams w !! fallback = Some cfg /\ carries cfg subject = false)).
Proof.
  intros Hw Hr. exact (proj1 (wp_nrun _ _ _ _) (ensure_stream_wp fallback subject w Hw) _ _ Hr).
Qed.

(** ** Starting the services in some order *)

Inductive service := SUpload | STenancy | SOrchestrator.

Definition start (k : service) : prog jsE (result ()) :=
  match k with SUpload => upload_streams | STenancy => tenancy_streams | SOrchestrator => orch_streams end.

(** Services starting concurrently; each remembers which it is. *)
Definition js_starts (i : nat) : nsem jsE (js_server * service) := fun X e w x w' =>
  js_do X e w.1 x w'.1 /\ w'.2 = w.2.

(** The shared stream does not exist and another one owns one of its subjects. *)
Definition locked_out (w : js_server) : Prop :=
  js_streams w !! ftStreamName = None /\
  exists name cfg s, js_streams w !! name = Some cfg /\ carries cfg s = true /\ carries ftStreamConfig s = true.

Lemma locked_out_overlaps w : locked_out w -> overlaps w ftStreamConfig = true.
Proof.
  intros (Hn & name & cfg & s & Hc & Hs & Hft). eapply (overlaps_true _ _ name cfg s); try done.
  simpl. intros ->. congruence.
Qed.

(** The calls a service makes at start-up. *)
Definition start_call {X} (e : jsE X) : Prop :=
  match e with
  | R (CreateStream cfg) => cfg = ftStreamConfig \/ sc_Name cfg <> ftStreamName
  | R (CreateOrUpdateStream cfg) => cfg = ftStreamConfig
  | _ => True
  end.

Lemma nominal_locked {Y} (c : jscallE Y) w : start_call (R c) -> locked_out w -> locked_out (js_nominal c w).2.
Proof.
  intros Hc Hw. pose proof (locked_out_overlaps w Hw) as Ho. destruct c; simpl in *; try done.
  - pose proof Hw as (Hn & name & other & s & Hk & Hs). destruct (js_streams w !! sc_Name cfg) eqn:He.
    { by case_bool_decide. }
    destruct Hc as [->|Hne]; [by rewrite Ho|].
    destruct (overlaps w cfg); [done|]. split; simpl; [by rewrite lookup_insert_ne|].
    exists name, other, s. rewrite lookup_insert_ne; [done|congruence].
  - rewrite Hc, Ho. done.
  - repeat case_match; done.
Qed.

Lemma step_locked X (e : jsE X) w x w' : js_do X e w x w' -> start_call e -> locked_out w -> locked_out w'.
Proof.
  destruct e as [Y c]. intros Hd Hc Hw. pose proof (nominal_locked c w Hc Hw) as Hn.
  destruct Hd as [Heq|(err & _ & _ & [->| ->])]; [|done|done].
  apply (f_equal snd) in Heq. simpl in Heq. by rewrite Heq.
Qed.

(** Ensuring the shared stream is refused. *)
Lemma locked_refused w cfg x w' (c : jscallE ()) :
  locked_out w -> cfg = ftStreamConfig -> c = CreateStream cfg \/ c = CreateOrUpdateStream cfg \/ c = Stream ftStreamName ->
  js_do _ (R c) w x w' -> is_ok x = false.
Proof.
  intros Hw -> Hc [Heq|(err & -> & _)]; [|done]. pose proof (locked_out_overlaps w Hw) as Ho.
  destruct Hw as [Hn _]. destruct Hc as [->|[->| ->]]; simpl in Heq; rewrite ?Hn, ?Ho in Heq; by simplify_eq.
Qed.

Definition locked_rely (i : nat) (w w' : js_server) : Prop := locked_out w -> locked_out w'.
#[export] Instance locked_rely_preorder i : PreOrder (locked_rely i).
Proof. split; [by intros w|]. intros w1 w2 w3. unfold locked_rely. auto. Qed.

Definition refused_start (r : result ()) (w : js_server) (k : service) : Prop :=
  k <> SOrchestrator -> is_ok r = false.

#[local] Abbreviation js_rg := (rg js_starts locked_rely).

Lemma js_rg_call {Y B} i (Q : B -> js_server -> service -> Prop) (c : jscallE Y) (f : result Y -> prog jsE B) w k :
  start_call (R c) -> locked_out w ->
  (forall w2 x w', locked_out w2 -> locked_out w' -> js_do _ (R c) w2 x w' -> js_rg i Q (f x) w' k) ->
  js_rg i Q (call (R c) ≫= f) w k.
Proof.
  intros Hc Hw Hf. apply rg_call_bind. intros w2 x w' k' Hr [Hd Hk]. cbn [fst snd] in Hd, Hk. subst k'.
  assert (Hw2 : locked_out w2) by (by apply Hr). pose proof (step_locked _ (R c) _ _ _ Hd Hc Hw2) as Hw'.
  split; [intros j _ _; exact Hw'|]. exact (Hf w2 x w' Hw2 Hw' Hd).
Qed.

Lemma js_rg_err i e w k : js_rg i refused_start (Ret (Err e)) w k.
Proof. intros w2 _ _. done. Qed.

Lemma js_rg_orch {A} i (p : prog jsE A) w (Q : A -> js_server -> service -> Prop) :
  all_calls (fun X e => start_call e) p -> (forall a w, Q a w SOrchestrator) -> locked_out w ->
  js_rg i Q p w SOrchestrator.
Proof.
  intros Hp HQ. revert w. induction p as [a|X e k IH]; intros w Hw; [by intros w2 _; apply HQ|].
  destruct Hp as [He Hk]. intros w2 x w' l Hr [Hd Hl]. cbn [fst snd] in Hd, Hl. subst l.
  assert (Hw2 : locked_out w2) by (by apply Hr). pose proof (step_locked _ _ _ _ _ Hd He Hw2) as Hw'.
  split; [intros j _ _; exact Hw'|]. apply IH; auto.
Qed.

Lemma start_rg i k w : locked_out w -> js_rg i refused_start (start k) w k.
Proof.
  intros Hw. destruct k; simpl.
  - apply js_rg_call; [done..|]. intros w2 x w' Hw2 _ Hd.
    assert (Hx : is_ok x = false) by (eapply (locked_refused w2 ftStreamConfig); [exact Hw2|done| |exact Hd]; auto). destruct x; [done|]. apply js_rg_err.
  - apply js_rg_call; [done..|]. intros w2 x w' Hw2 Hw' Hd.
    assert (Hx : is_ok x = false) by (eapply (locked_refused w2 ftStreamConfig); [exact Hw2|done| |exact Hd]; auto). destruct x as [|e]; [done|].
    case_bool_decide; [|apply js_rg_err]. apply js_rg_call; [by left|done|].
    intros w3 x w4 Hw3 _ Hd3.
    assert (Hx3 : is_ok x = false) by (eapply (locked_refused w3 ftStreamConfig); [exact Hw3|done| |exact Hd3]; auto). destruct x; [done|]. apply js_rg_err.
  - apply js_rg_orch; [|by intros ? ? []|done]. unfold orch_streams, EnsureStreamForSubject, landed_Start, try_as.
    calls_tac; by right.
Qed.

Definition js_empty : js_server := {| js_streams := ∅; js_consumers := ∅ |}.

Lemma js_empty_wf : js_wf js_empty.
Proof. by split. Qed.

Definition not_shared (w w' : js_server) : Prop :=
  js_streams w !! ftStreamName = None -> js_streams w' !! ftStreamName = None.
#[export] Instance not_shared_preorder : PreOrder not_shared.
Proof. split; [by intros w|]. intros w1 w2 w3. unfold not_shared. auto. Qed.

(** The orchestrator never creates the shared stream. *)
Definition other_stream {X} (e : jsE X) : Prop :=
  match e with
  | R (CreateStream cfg) | R (CreateOrUpdateStream cfg) => sc_Name cfg <> ftStreamName
  | _ => True
  end.

Lemma step_not_shared X (e : jsE X) w x w' : other_stream e -> js_do X e w x w' -> not_shared w w'.
Proof.
  destruct e as [Y c]. intros Hc Hd Hw.
  assert (Hn : js_streams (js_nominal c w).2 !! ftStreamName = None).
  { destruct c; simpl in *; repeat case_match; simpl; try done; by rewrite lookup_insert_ne. }
  destruct Hd as [Heq|(err & _ & _ & [->| ->])]; [|done|done].
  apply (f_equal snd) in Heq. simpl in Heq. by rewrite Heq.
Qed.

Lemma orch_locks_out w : nrun js_do orch_streams js_empty (Ok ()) w -> locked_out w.
Proof.
  intros Hr. split.
  { refine (nrun_all_calls js_do (fun X e => other_stream e) not_shared orch_streams _ _ _ _ _ Hr eq_refl).
    - unfold orch_streams, EnsureStreamForSubject, landed_Start, try_as. calls_tac.
    - intros X e w0 x w1. apply step_not_shared. }
  unfold orch_streams in Hr. apply nrun_bind in Hr as (r & w1 & H1 & H2).
  destruct (proj1 (wp_nrun _ _ _ _)
    (ensure_stream_wp "AETHER_FT_UPLOAD" SubjectUploadLanded js_empty js_empty_wf) _ _ H1) as (_ & _ & Hok).
  destruct r as [name|e]; [|by destruct H2].
  destruct (Hok name eq_refl) as (cfg & Hcfg & [Hs|(_ & Hno & _)]); [|by vm_compute in Hno].
  exists name, cfg, SubjectUploadLanded. split; [|split; [done|by vm_compute]].
  refine (nrun_all_calls js_do (fun X e => match e with R c => additive c = true end) streams_kept _ _ _ _ _ _ H2 _ _ Hcfg).
  - unfold EnsureStreamForSubject, landed_Start, try_as. calls_tac.
  - intros X [Y c] w0 x w2 Hc Hd. by eapply js_step_kept.
Qed.

(** C29: the order in which the services are started matters.  Once the orchestrator
    has started on a JetStream server without streams, it owns the two subjects with
    streams of its own, and from then on every start of the upload service and of
    tenancy fails, however often they are tried and however they interleave. *)
Theorem orchestrator_first_locks_out w0 services ts w i r k :
  nrun js_do orch_streams js_empty (Ok ()) w0 ->
  rtc (lpool_step js_starts) ((fun k => (start k, k)) <$> services, w0) (ts, w) ->
  ts !! i = Some (Ret r, k) -> k <> SOrchestrator -> is_ok r = false.
Proof.
  intros H0 Hr Hi Hk. pose proof (orch_locks_out w0 H0) as Hl.
  assert (Hrg : forall j p l, ((fun k => (start k, k)) <$> services) !! j = Some (p, l) ->
            rg js_starts locked_rely j refused_start p w0 l).
  { intros j p l Hj. rewrite list_lookup_fmap in Hj. destruct (services !! j); simplify_eq/=.
    by apply start_rg. }
  exact (rg_result js_starts locked_rely i refused_start r w k
           (rg_sound js_starts locked_rely (fun _ => refused_start) _ _ _ _ Hrg Hr i _ _ Hi) Hk).
Qed.

(** ** An executable server *)

Definition js_serve : sem jsE js_server := fun X e w =>
  match e in res _ X return X * js_server with R c => js_nominal c w end.

Lemma js_serve_spec X (e : jsE X) w : js_do X e w (js_serve X e w).1 (js_serve X e w).2.
Proof. destruct e as [Y c]. left. by rewrite <-surjective_pairing. Qed.

(** The documented order works: the first of upload and tenancy creates the shared
    stream and the others attach to it. *)
Example shared_stream_first :
  let w1 := run js_serve upload_streams js_empty in
  let w2 := run js_serve tenancy_streams w1.2 in
  let w3 := run js_serve orch_streams w2.2 in
  w1.1 = Ok () /\ w2.1 = Ok () /\ w3.1 = Ok () /\
  map_to_list (js_streams w3.2) = [(ftStreamName, ftStreamConfig)].
Proof. vm_compute. split_and!; reflexivity. Qed.

(** A stream of the fallback name that does not carry the subject is returned. *)
Example fallback_without_subject :
  let w := put_stream js_empty {| sc_Name := "AETHER_FT_UPLOAD"; sc_Subjects := ["other"];
                                  sc_Storage := FileStorage |} in
  (run js_serve (EnsureStreamForSubject "AETHER_FT_UPLOAD" SubjectUploadLanded) w).1 = Ok "AETHER_FT_UPLOAD" /\
  (run js_serve orch_streams w).1 = Err (EMsg "create landed consumer").
Proof. vm_compute. split; reflexivity. Qed.

Lemma ensure_stream_contract_witness :
  exists w', nrun js_do (EnsureStreamForSubject "S" "a.b") js_empty (Ok "S") w' /\
    exists cfg, js_streams w' !! "S" = Some cfg.
Proof.
  exists (put_stream js_empty {| sc_Name := "S"; sc_Subjects := ["a.b"]; sc_Storage := FileStorage |}).
  assert (Hr : nrun js_do (EnsureStreamForSubject "S" "a.b") js_empty (Ok "S")
    (put_stream js_empty {| sc_Name := "S"; sc_Subjects := ["a.b"]; sc_Storage := FileStorage |})).
  { exists (Err ErrStreamNotFound), js_empty. split; [by left|]. cbn -[js_do].
    eexists (Ok ()), _. split; [by left|]. by split. }
  split; [exact Hr|]. destruct (ensure_stream_contract _ _ _ _ _ js_empty_wf Hr) as (_ & _ & H).
  destruct (H "S" eq_refl) as (cfg & Hc & _). exists cfg. exact Hc.
Defined.

Lemma js_run_spec {A} (p : prog jsE A) w : nrun js_do p w (run js_serve p w).1 (run js_serve p w).2.
Proof. apply run_refines. intros. apply js_serve_spec. Qed.

(** The same server for services that each carry their name. *)
Definition js_start_serve (i : nat) : sem jsE (js_server * service) := fun X e w =>
  let '(x, s) := js_serve X e w.1 in (x, (s, w.2)).

Lemma js_start_serve_spec i X (e : jsE X) w :
  js_starts i X e w (js_start_serve i X e w).1 (js_start_serve i X e w).2.
Proof.
  unfold js_start_serve. pose proof (js_serve_spec X e w.1) as Hs.
  destruct (js_serve X e w.1) as [x s]. by split.
Qed.

Lemma orchestrator_first_locks_out_witness :
  let w0 := (run js_serve orch_streams js_empty).2 in
  let c := lrun_sched js_start_serve [0; 1; 1; 0; 0]%nat ((fun k => (start k, k)) <$> [SUpload; STenancy], w0) in
  exists e, c.1 !! 1%nat = Some (Ret (Err e), STenancy).
Proof.
  intros w0 c.
  assert (H0 : nrun js_do orch_streams js_empty (Ok ()) w0).
  { pose proof (js_run_spec orch_streams js_empty) as Hr.
    replace (Ok ()) with (run js_serve orch_streams js_empty).1 by (vm_compute; reflexivity). exact Hr. }
  assert (Hr : rtc (lpool_step js_starts) ((fun k => (start k, k)) <$> [SUpload; STenancy], w0) (c.1, c.2)).
  { rewrite <-surjective_pairing. apply (lrun_sched_reachable js_start_serve js_starts).
    intros. apply js_start_serve_spec. }
  assert (Hc : exists r, c.1 !! 1%nat = Some (Ret r, STenancy)) by (eexists; vm_compute; reflexivity).
  destruct Hc as [r Hc].
  pose proof (orchestrator_first_locks_out w0 [SUpload; STenancy] c.1 c.2 1%nat r STenancy H0 Hr Hc
                ltac:(discriminate)) as Hf.
  destruct r as [u|e]; [discriminate Hf|exists e; exact Hc].
Defined.
