(* ===== verification/Process.v ===== *)
(** * A Go process: main, its goroutines, its contexts and its HTTP server

    The concurrency of the four [main] functions.  A goroutine is a program that
    starts when it is handed its captured variables; the process has cancellable
    contexts, closable channels, an error channel and an [http.Server], and it keeps
    resources (connections, pools, a driver) that must be open when they are used.
    [proc_do] is one step of one goroutine.  [disc] and [udisc] are two sequential
    disciplines, for [main] and for the goroutines that use what [main] opens, and
    [disciplined] is what they guarantee together under every interleaving: nothing is
    used or closed that is not open, and nothing is left open at a clean exit, where
    what was drained is given up and may still be closing ([draining_within]). *)
From S2P Require Export GoLib.
#[local] Open Scope Z_scope.

(** ** Resources *)

Inductive resource := RConn | RPool | RNats | RConsumer | RNVML.

#[export] Instance resource_eq_dec : EqDecision resource.
Proof. solve_decision. Defined.
Definition resource_code (r : resource) : nat :=
  match r with RConn => 0 | RPool => 1 | RNats => 2 | RConsumer => 3 | RNVML => 4 end.
#[export] Instance resource_countable : Countable resource.
Proof.
  apply (inj_countable resource_code (fun n => [RConn; RPool; RNats; RConsumer; RNVML] !! n)). by intros [].
Defined.

(** What a call that returned [x] does to the resources.  [Drains] gives a resource up
    and leaves its closing to the background ([ok]) or closes it at once. *)
Inductive access (X : Type) :=
| Free
| Uses (r : resource)
| Opens (r : resource) (ok : X -> bool)
| Closes (r : resource)
| Drains (r : resource) (ok : X -> bool).
Arguments Free {_}.
Arguments Uses {_} _.
Arguments Opens {_} _ _.
Arguments Closes {_} _.
Arguments Drains {_} _ _.

(** The interface of the calls a service makes, and what each does. *)
Class Accesses (E : Type -> Type) := access_of : forall X, E X -> access X.
Arguments access_of {_ _ _} _.

Definition touched {X} (a : access X) (x : X) (o : gset resource) : gset resource :=
  match a with
  | Opens r ok => if ok x then {[ r ]} ∪ o else o
  | Closes r | Drains r _ => o ∖ {[ r ]}
  | _ => o
  end.

(** What goes on closing in the background. *)
Definition drained {X} (a : access X) (x : X) (d : gset resource) : gset resource :=
  match a with
  | Drains r ok => if ok x then {[ r ]} ∪ d else d
  | _ => d
  end.

(** Using or closing what is not open. *)
Definition wrong {X} (a : access X) (o : gset resource) : gset resource :=
  match a with
  | Uses r | Closes r | Drains r _ => if decide (r ∈ o) then ∅ else {[ r ]}
  | _ => ∅
  end.

(** ** The calls

    [V] is what a goroutine captures.  [ListenAndServe] and [Shutdown] are two calls
    each, for what they do at once and what they wait for. *)
Definition ErrServerClosed : gerror := EMsg "http: Server closed".

Inductive procE (V : Type) (E : Type -> Type) : Type -> Type :=
| Svc {X} (e : E X) : procE V E X
| Go (g : nat) (v : V) : procE V E ()
| Started (g : nat) : procE V E V                 (* the goroutine's first step *)
| CancelCtx (c : nat) : procE V E ()
| AwaitDone (c : nat) : procE V E ()              (* <-ctx.Done() *)
| CtxDone (c : nat) : procE V E bool              (* ctx.Err() != nil *)
| SelectTick (c : nat) : procE V E bool           (* ctx.Done() (false) or the ticker *)
| CloseChan (ch : nat) : procE V E ()
| RecvClosed (ch : nat) : procE V E ()            (* <-ch, which is only ever closed *)
| SendErr (e : gerror) : procE V E ()             (* errCh <- e *)
| SelectStop : procE V E (option gerror)          (* ctx.Done() (None) or <-errCh *)
| Listen (v : V) : procE V E (result ())          (* with the handler that captured v *)
| Serve : procE V E gerror                        (* until the server stops accepting *)
| ShutdownBegin : procE V E ()
| ShutdownWait : procE V E (result ())            (* all requests done, or the timeout *)
| Accept : procE V E V                            (* a connection is accepted *)
| Dispatch : procE V E bool                       (* its request reaches the handler, or it closes *)
| Finish : procE V E ()
| Drained (r : resource) : procE V E ()           (* a draining connection has closed *)
| Exit (code : Z) : procE V E ().
Arguments Svc {_ _ _} _.
Arguments Go {_ _} _%_nat _.
Arguments Started {_ _} _%_nat.
Arguments CancelCtx {_ _} _%_nat.
Arguments AwaitDone {_ _} _%_nat.
Arguments CtxDone {_ _} _%_nat.
Arguments SelectTick {_ _} _%_nat.
Arguments CloseChan {_ _} _%_nat.
Arguments RecvClosed {_ _} _%_nat.
Arguments SendErr {_ _} _.
Arguments SelectStop {_ _}.
Arguments Listen {_ _} _.
Arguments Serve {_ _}.
Arguments ShutdownBegin {_ _}.
Arguments ShutdownWait {_ _}.
Arguments Accept {_ _}.
Arguments Dispatch {_ _}.
Arguments Drained {_ _} _.
Arguments Finish {_ _}.
Arguments Exit {_ _} _.

(** *** Returning, exiting and deferred calls *)

(** How a part of [main] ended: it goes on with a value, or [os.Exit] was called. *)
Inductive flow (A : Type) := Returned (a : A) | Exited.
Arguments Returned {_} _.
Arguments Exited {_}.

Definition os_Exit {V E A} (code : Z) : prog (procE V E) (flow A) :=
  _ ← call (Exit code); Ret Exited.

(** [defer cleanup] before the rest: it runs when the function returns, not when the
    process exits. *)
Definition deferring {V E A} (cleanup : prog (procE V E) ()) (body : prog (procE V E) (flow A))
    : prog (procE V E) (flow A) :=
  r ← body;
  match r with
  | Exited => Ret Exited
  | Returned a => _ ← cleanup; Ret (Returned a)
  end.

(** A component's own program. *)
Definition svc {V E A} (p : prog E A) : prog (procE V E) A := embed (fun X e => Svc e) p.

(** [go func() { ... }]: goroutine [g] with what it captured. *)
Definition goroutine {V E} (g : nat) (body : V -> prog (procE V E) ()) : prog (procE V E) () :=
  v ← call (Started g); body v.
#[global] Arguments goroutine {_ _} _%_nat _.

Definition ListenAndServe {V E} (v : V) : prog (procE V E) gerror :=
  l ← call (Listen v);
  match l with Err e => Ret e | Ok _ => call Serve end.

Definition Shutdown {V E} : prog (procE V E) (result ()) :=
  _ ← call ShutdownBegin; call ShutdownWait.

(** A request of the handler [body].  The server counts the connection from its
    acceptance, but the handler may start later, after [Shutdown] began; another request
    on the connection is another [Accept]. *)
Definition handling {V E} (body : V -> prog E ()) : prog (procE V E) () :=
  v ← call Accept;
  dispatched ← call Dispatch;
  _ ← (if dispatched : bool then svc (body v) else Ret ());
  call Finish.

(** ** The process *)

Inductive server_state (V : Type) := SrvNew | SrvServing (v : V) | SrvFailed | SrvDown.
Arguments SrvNew {_}.
Arguments SrvServing {_} _.
Arguments SrvFailed {_}.
Arguments SrvDown {_}.

(** [pw_draining]: what was given up and closes in the background; [pw_started]: the
    goroutines, with what they captured and the thread that runs each once it has begun;
    [pw_inflight]: the threads that serve a connection, accepted and not idle;
    [pw_misuse]: what was used or closed without being open. *)
Record process (V : Type) := {
  pw_open : gset resource;
  pw_draining : gset resource;
  pw_started : gmap nat (V * option nat);
  pw_cancelled : gset nat;
  pw_closedch : gset nat;
  pw_errs : list gerror;
  pw_srv : server_state V;
  pw_inflight : gmap nat V;
  pw_exit : option Z;
  pw_misuse : gset resource
}.
Arguments pw_open {_} _.
Arguments pw_draining {_} _.
Arguments pw_started {_} _.
Arguments pw_cancelled {_} _.
Arguments pw_closedch {_} _.
Arguments pw_errs {_} _.
Arguments pw_srv {_} _.
Arguments pw_inflight {_} _.
Arguments pw_exit {_} _.
Arguments pw_misuse {_} _.

Section world.
Context {V : Type} {E : Type -> Type} `{!Accesses E}.

Definition process_start : process V :=
  {| pw_open := ∅; pw_draining := ∅; pw_started := ∅; pw_cancelled := ∅; pw_closedch := ∅; pw_errs := [];
     pw_srv := SrvNew; pw_inflight := ∅; pw_exit := None; pw_misuse := ∅ |}.

Definition set_res (w : process V) o d m := {| pw_open := o; pw_draining := d; pw_started := pw_started w;
  pw_cancelled := pw_cancelled w; pw_closedch := pw_closedch w; pw_errs := pw_errs w; pw_srv := pw_srv w;
  pw_inflight := pw_inflight w; pw_exit := pw_exit w; pw_misuse := m |}.
Definition set_draining (w : process V) d := set_res w (pw_open w) d (pw_misuse w).
Definition set_started (w : process V) m := {| pw_open := pw_open w; pw_draining := pw_draining w; pw_started := m;
  pw_cancelled := pw_cancelled w; pw_closedch := pw_closedch w; pw_errs := pw_errs w; pw_srv := pw_srv w;
  pw_inflight := pw_inflight w; pw_exit := pw_exit w; pw_misuse := pw_misuse w |}.
Definition set_cancelled (w : process V) c := {| pw_open := pw_open w; pw_draining := pw_draining w; pw_started := pw_started w;
  pw_cancelled := c; pw_closedch := pw_closedch w; pw_errs := pw_errs w; pw_srv := pw_srv w;
  pw_inflight := pw_inflight w; pw_exit := pw_exit w; pw_misuse := pw_misuse w |}.
Definition set_closedch (w : process V) c := {| pw_open := pw_open w; pw_draining := pw_draining w; pw_started := pw_started w;
  pw_cancelled := pw_cancelled w; pw_closedch := c; pw_errs := pw_errs w; pw_srv := pw_srv w;
  pw_inflight := pw_inflight w; pw_exit := pw_exit w; pw_misuse := pw_misuse w |}.
Definition set_errs (w : process V) l := {| pw_open := pw_open w; pw_draining := pw_draining w; pw_started := pw_started w;
  pw_cancelled := pw_cancelled w; pw_closedch := pw_closedch w; pw_errs := l; pw_srv := pw_srv w;
  pw_inflight := pw_inflight w; pw_exit := pw_exit w; pw_misuse := pw_misuse w |}.
Definition set_srv (w : process V) s := {| pw_open := pw_open w; pw_draining := pw_draining w; pw_started := pw_started w;
  pw_cancelled := pw_cancelled w; pw_closedch := pw_closedch w; pw_errs := pw_errs w; pw_srv := s;
  pw_inflight := pw_inflight w; pw_exit := pw_exit w; pw_misuse := pw_misuse w |}.
Definition set_inflight (w : process V) m := {| pw_open := pw_open w; pw_draining := pw_draining w; pw_started := pw_started w;
  pw_cancelled := pw_cancelled w; pw_closedch := pw_closedch w; pw_errs := pw_errs w; pw_srv := pw_srv w;
  pw_inflight := m; pw_exit := pw_exit w; pw_misuse := pw_misuse w |}.
Definition set_exit (w : process V) c := {| pw_open := pw_open w; pw_draining := pw_draining w; pw_started := pw_started w;
  pw_cancelled := pw_cancelled w; pw_closedch := pw_closedch w; pw_errs := pw_errs w; pw_srv := pw_srv w;
  pw_inflight := pw_inflight w; pw_exit := Some c; pw_misuse := pw_misuse w |}.

(** Context 0 is the one the signals cancel; the others derive from it. *)
Definition ctx_done (w : process V) (c : nat) : Prop := c ∈ pw_cancelled w \/ 0%nat ∈ pw_cancelled w.
#[global] Instance ctx_done_dec w c : Decision (ctx_done w c).
Proof. unfold ctx_done. apply _. Defined.

Definition touch {X} (e : E X) (x : X) (w : process V) : process V :=
  set_res w (touched (access_of e) x (pw_open w)) (drained (access_of e) x (pw_draining w))
    (wrong (access_of e) (pw_open w) ∪ pw_misuse w).

(** One call of thread [i]; one that has no outcome in [w] blocks.  A service's own
    call may return anything.  A select with several ready cases takes any. *)
Definition proc_step (i : nat) {X} (e : procE V E X) (w : process V) : X -> process V -> Prop :=
  match e in procE _ _ X return X -> process V -> Prop with
  | Svc e => fun x w' => w' = touch e x w
  | Go g v => fun _ w' => w' = set_started w (<[g := (v, None)]> (pw_started w))
  | Started g => fun v w' => pw_started w !! g = Some (v, None) /\
                             w' = set_started w (<[g := (v, Some i)]> (pw_started w))
  | CancelCtx c => fun _ w' => w' = set_cancelled w ({[ c ]} ∪ pw_cancelled w)
  | AwaitDone c => fun _ w' => ctx_done w c /\ w' = w
  | CtxDone c => fun b w' => b = bool_decide (ctx_done w c) /\ w' = w
  | SelectTick c => fun b w' => (b = true \/ ctx_done w c) /\ w' = w
  | CloseChan ch => fun _ w' => w' = set_closedch w ({[ ch ]} ∪ pw_closedch w)
  | RecvClosed ch => fun _ w' => ch ∈ pw_closedch w /\ w' = w
  | SendErr e => fun _ w' => w' = set_errs w (pw_errs w ++ [e])
  | SelectStop => fun r w' => (r = None /\ ctx_done w 0 /\ w' = w) \/
                              (exists e l, pw_errs w = e :: l /\ r = Some e /\ w' = set_errs w l)
  | Listen v => fun r w' =>
      match pw_srv w with
      | SrvNew => (r = Ok () /\ w' = set_srv w (SrvServing v)) \/
                  (exists e, r = Err e /\ e <> ErrServerClosed /\ w' = w)
      | SrvDown => r = Err ErrServerClosed /\ w' = w
      | _ => exists e, r = Err e /\ e <> ErrServerClosed /\ w' = w
      end
  | Serve => fun e w' =>
      match pw_srv w with
      | SrvServing _ => e <> ErrServerClosed /\ w' = set_srv w SrvFailed
      | SrvDown => e = ErrServerClosed /\ w' = w
      | _ => e <> ErrServerClosed /\ w' = w
      end
  | ShutdownBegin => fun _ w' => w' = set_srv w SrvDown
  | ShutdownWait => fun r w' => w' = w /\ (r = Ok () -> pw_srv w = SrvDown /\ pw_inflight w = ∅)
  | Accept => fun v w' => pw_srv w = SrvServing v /\ w' = set_inflight w (<[i := v]> (pw_inflight w))
  | Dispatch => fun _ w' => w' = w
  | Finish => fun _ w' => w' = set_inflight w (delete i (pw_inflight w))
  | Drained r => fun _ w' => r ∈ pw_draining w /\ w' = set_draining w (pw_draining w ∖ {[ r ]})
  | Exit c => fun _ w' => w' = set_exit w c
  end.

(** The threads share everything but their programs; after the exit none moves. *)
Definition proc_do (i : nat) : nsem (procE V E) (process V * ()) :=
  fun X e w x w' => pw_exit w.1 = None /\ proc_step i e w.1 x w'.1.

Definition threads (ps : list (prog (procE V E) ())) : list (prog (procE V E) () * ()) :=
  (fun p => (p, ())) <$> ps.
End world.

(** ** Two disciplines

    Who may be using what [main] opened, besides [main]: the requests that are being
    handled by goroutine 0's server, or goroutine 0 itself until it closes channel 0,
    or nobody the discipline speaks of. *)
Inductive users := Handlers | Worker | Nobody.

#[export] Instance users_eq_dec : EqDecision users.
Proof. solve_decision. Defined.

(** Where [main] is: before it started goroutine 0, while what [v] needs may be in
    use, the same after it told the server to shut down, or after it waited for the
    last user. *)
Inductive phase (V : Type) := PBefore | PLive (v : V) | PStopping (v : V) | PDead.
Arguments PBefore {_}.
Arguments PLive {_} _.
Arguments PStopping {_} _.
Arguments PDead {_}.

(** What another goroutine holds: nothing, the variables it captured, the right to
    use what they need, or the knowledge that the server was shut down. *)
Inductive holding (V : Type) := HNothing | HVars (v : V) | HUse (v : V) | HDown.
Arguments HNothing {_}.
Arguments HDown {_}.
Arguments HVars {_} _.
Arguments HUse {_} _.

Section discipline.
Context {V : Type} {E : Type -> Type} `{!Accesses E}.
Context (k : users) (G : gset resource) (needs : V -> gset resource) (clean : Z -> bool).

(** The call that tells [main] that the last user is gone. *)
Definition drains {X} (e : procE V E X) : X -> bool :=
  match e in procE _ _ X return X -> bool with
  | ShutdownWait => fun r => bool_decide (k = Handlers) && is_ok r
  | RecvClosed ch => fun _ => bool_decide (k = Worker /\ ch = 0%nat)
  | _ => fun _ => false
  end.

(** [main] uses and closes only what is open, starts goroutine 0 when what it needs is
    open, closes none of it while it may be in use, and exits with nothing open. *)
Definition main_ok {X} (e : procE V E X) (o : gset resource) (ph : phase V) : Prop :=
  match e with
  | Svc e => match access_of e with
             | Uses r => r ∈ o
             | Closes r | Drains r _ => r ∈ o /\ match ph with PLive v | PStopping v => r ∉ needs v | _ => True end
             | _ => True
             end
  | Go g v => g = 0%nat -> ph = PBefore /\ needs v ⊆ o
  | Exit c => clean c = true -> o = ∅
  | Started _ | Accept | Dispatch | Finish | Drained _ => False
  | Listen _ | SendErr _ => k <> Handlers
  | ShutdownBegin => k = Handlers -> ph <> PBefore
  | CloseChan _ => k <> Worker
  | _ => True
  end.

(** Before [main] shuts the server down, it does not hear that it did. *)
Definition possible {X} (e : procE V E X) (ph : phase V) : X -> Prop :=
  match e in procE _ _ X return X -> Prop with
  | SelectStop => fun r => match ph with PLive _ => k = Handlers -> r <> Some ErrServerClosed | _ => True end
  | _ => fun _ => True
  end.

Definition main_next {X} (e : procE V E X) (x : X) (o : gset resource) (ph : phase V)
    : gset resource * phase V :=
  (match e in procE _ _ X return X -> gset resource with
   | Svc e => fun x => touched (access_of e) x o
   | _ => fun _ => o
   end x,
   match e with
   | Go 0 v => PLive v
   | ShutdownBegin => match ph with PLive v => PStopping v | _ => ph end
   | _ => match ph with PLive _ | PStopping _ => if drains e x then PDead else ph | _ => ph end
   end).

Fixpoint disc {A} (p : prog (procE V E) A) (Q : A -> gset resource -> phase V -> Prop)
    (o : gset resource) (ph : phase V) : Prop :=
  match p with
  | Ret a => Q a o ph
  | Vis e kont => main_ok e o ph /\
      forall x, possible e ph x -> disc (kont x) Q (main_next e x o ph).1 (main_next e x o ph).2
  end.

(** The other goroutines open and close nothing, and use what is guarded only while
    they hold the right to. *)
Definition user_ok {X} (e : procE V E X) (u : holding V) : Prop :=
  match e with
  | Svc e => match access_of e with
             | Free => True
             | Uses r => r ∈ G -> exists v, u = HUse v /\ r ∈ needs v
             | _ => False
             end
  | Go _ _ | Exit _ => False
  | Started _ | Accept => u = HNothing
  | Listen v => k = Handlers -> u = HVars v
  | CloseChan ch => k = Worker -> ch = 0%nat -> exists v, u = HUse v
  | SendErr e => k = Handlers -> e = ErrServerClosed -> u = HDown
  | ShutdownBegin => k <> Handlers
  | _ => True
  end.

Definition user_next {X} (e : procE V E X) (u : holding V) : X -> holding V :=
  match e in procE _ _ X return X -> holding V with
  | Started 0 => fun v => if decide (k = Worker) then HUse v else HVars v
  | Accept => fun v => if decide (k = Handlers) then HUse v else u
  | Finish => fun _ => if decide (k = Handlers) then HNothing else u
  | CloseChan 0 => fun _ => if decide (k = Worker) then HNothing else u
  | Listen _ => fun r => if decide (r = Err ErrServerClosed) then HDown else u
  | Serve => fun e => if decide (e = ErrServerClosed) then HDown else u
  | _ => fun _ => u
  end.

Fixpoint udisc {A} (p : prog (procE V E) A) (Q : A -> holding V -> Prop) (u : holding V) : Prop :=
  match p with
  | Ret a => Q a u
  | Vis e kont => user_ok e u /\ forall x, udisc (kont x) Q (user_next e u x)
  end.

(** ** What the disciplines maintain *)

(** What [v] needs may be in use. *)
Definition live (w : process V) (v : V) : Prop :=
  match k with
  | Handlers => (pw_srv w = SrvNew /\ exists o, pw_started w !! 0%nat = Some (v, o)) \/
                pw_srv w = SrvServing v \/ (exists i, pw_inflight w !! i = Some v)
  | Worker => (exists o, pw_started w !! 0%nat = Some (v, o)) /\ 0%nat ∉ pw_closedch w
  | Nobody => False
  end.

Record proc_inv (w : process V) : Prop := {
  pi_started : forall v, live w v -> exists o, pw_started w !! 0%nat = Some (v, o);
  pi_open : forall v, live w v -> needs v ⊆ pw_open w;
  pi_misuse : G ## pw_misuse w;
  pi_chan : k = Worker -> 0%nat ∈ pw_closedch w -> exists v i, pw_started w !! 0%nat = Some (v, Some i);
  pi_errs : k = Handlers -> ErrServerClosed ∈ pw_errs w -> pw_srv w = SrvDown;
  pi_exit : forall c, pw_exit w = Some c -> clean c = true -> pw_open w = ∅
}.

Definition holds (i : nat) (w : process V) (u : holding V) : Prop :=
  match u with
  | HNothing => True
  | HVars v => exists o, pw_started w !! 0%nat = Some (v, o)
  | HUse v => match k with
              | Handlers => pw_inflight w !! i = Some v
              | Worker => pw_started w !! 0%nat = Some (v, Some i) /\ 0%nat ∉ pw_closedch w
              | Nobody => False
              end
  | HDown => pw_srv w = SrvDown
  end.

Definition dead (w : process V) : Prop := is_Some (pw_started w !! 0%nat) /\ forall v, ~ live w v.

Definition main_at (w : process V) (o : gset resource) (ph : phase V) : Prop :=
  pw_open w = o /\
  match ph with
  | PBefore => pw_started w !! 0%nat = None /\ (k = Handlers -> pw_srv w <> SrvDown)
  | PLive v => (exists i, pw_started w !! 0%nat = Some (v, i)) /\ (k = Handlers -> pw_srv w <> SrvDown)
  | PStopping v => exists i, pw_started w !! 0%nat = Some (v, i)
  | PDead => dead w
  end.

(** What thread [i] relies on. *)
Record proc_rely (i : nat) (w w' : process V) : Prop := {
  pr_inv : proc_inv w -> proc_inv w';
  pr_started : forall v, (exists o, pw_started w !! 0%nat = Some (v, o)) -> exists o, pw_started w' !! 0%nat = Some (v, o);
  pr_inflight : pw_inflight w' !! i = pw_inflight w !! i;
  pr_down : pw_srv w = SrvDown -> pw_srv w' = SrvDown;
  pr_owner : k = Worker -> forall v, pw_started w !! 0%nat = Some (v, Some i) -> 0%nat ∉ pw_closedch w ->
             pw_started w' !! 0%nat = Some (v, Some i) /\ 0%nat ∉ pw_closedch w';
  pr_main : i = 0%nat -> pw_open w' = pw_open w /\ (pw_started w !! 0%nat = None -> pw_started w' !! 0%nat = None) /\
            (dead w -> dead w') /\ (k = Handlers -> pw_srv w <> SrvDown -> pw_srv w' <> SrvDown)
}.

#[local] Instance proc_rely_pre i : PreOrder (proc_rely i).
Proof.
  split.
  - intros w. split; auto.
  - intros w1 w2 w3 [A1 A2 A3 A6 A4 A5] [B1 B2 B3 B6 B4 B5]. split; [auto|auto|congruence|auto| |].
    + intros Hk v Hs Hc. destruct (A4 Hk v Hs Hc). by apply B4.
    + intros Hi. destruct (A5 Hi) as (? & ? & ? & ?), (B5 Hi) as (? & ? & ? & ?). split; [congruence|auto].
Qed.

Lemma holds_rely i w w' u : proc_rely i w w' -> holds i w u -> holds i w' u.
Proof.
  intros [_ Hs Hf Hd Ho _]. unfold holds. destruct u as [|v|v|]; [done|apply Hs| |apply Hd].
  destruct k; [by rewrite Hf|by intros [? ?]; apply Ho|done].
Qed.

Lemma main_at_rely w w' o ph : proc_rely 0 w w' -> main_at w o ph -> main_at w' o ph.
Proof.
  intros [_ Hs _ _ _ Hm] [Ho Hp]. destruct (Hm eq_refl) as (Ho' & Hn & Hd & Hsrv). split; [congruence|].
  destruct ph; [destruct Hp; auto..|auto|auto].
Qed.

(** ** A step of another goroutine *)

Lemma live_inflight w v i : k = Handlers -> pw_inflight w !! i = Some v -> live w v.
Proof. intros Hk Hi. unfold live. rewrite Hk. eauto. Qed.

Lemma claimed (m : gmap nat (V * option nat)) g x i v :
  m !! g = Some (x, None) ->
  (exists o, <[g := (x, Some i)]> m !! 0%nat = Some (v, o)) <-> (exists o, m !! 0%nat = Some (v, o)).
Proof.
  intros Hg. destruct (decide (g = 0%nat)) as [->|Hne].
  - rewrite lookup_insert_eq, Hg. naive_solver.
  - by rewrite lookup_insert_ne.
Qed.

(** It makes nothing live that was not. *)
Lemma user_live i X (e : procE V E X) x w w' u :
  proc_step i e w x w' -> user_ok e u -> holds i w u -> forall v, live w' v -> live w v.
Proof.
  intros Hs Hu Hh v. unfold live. destruct e; simpl in Hs, Hu; try contradiction;
    repeat match type of Hs with _ /\ _ => destruct Hs as [? Hs] end; subst; try tauto.
  - cbn. pose proof (claimed (pw_started w) g x i v ltac:(done)). destruct k; tauto.
  - cbn. destruct k; try tauto. intros [? Hn]. split; [done|]. by apply not_elem_of_union in Hn as [_ Hn].
  - destruct Hs as [(_ & _ & ->)|(e & l & _ & _ & ->)]; tauto.
  - assert (Hw' : w' = w \/ pw_srv w = SrvNew /\ w' = set_srv w (SrvServing v0)) by (destruct (pw_srv w); naive_solver).
    destruct Hw' as [->|[Hw ->]]; [tauto|]. rewrite Hw. cbn. destruct k; [|tauto..].
    intros [[[=] _]|[[= ->]|Hi]]; [|by auto]. left. split; [done|]. by rewrite (Hu eq_refl) in Hh.
  - assert (Hw' : w' = w \/ w' = set_srv w SrvFailed) by (destruct (pw_srv w); naive_solver).
    destruct Hw' as [->| ->]; [tauto|]. cbn. destruct k; [|tauto..]. intros [[[=] _]|[[=]|Hi]]. auto.
  - cbn. destruct k; [|tauto..]. intros [[[=] _]|[[=]|Hi]]. auto.
  - cbn. destruct k; [|tauto..]. intros [?|[?|(j & Hj)]]; [tauto..|].
    apply lookup_insert_Some in Hj as [[_ ->]|[_ Hj]]; eauto.
  - cbn. destruct k; [|tauto..]. intros [?|[?|(j & Hj)]]; [tauto..|].
    apply lookup_delete_Some in Hj as [_ Hj]; eauto.
Qed.

(** It leaves the resources open, and is guilty of no misuse of the guarded ones. *)
Lemma user_res i X (e : procE V E X) x w w' u :
  proc_step i e w x w' -> user_ok e u -> holds i w u -> proc_inv w ->
  pw_open w' = pw_open w /\ G ## pw_misuse w' /\ pw_exit w' = pw_exit w.
Proof.
  intros Hs Hu Hh Hw. assert (Hm := pi_misuse _ Hw).
  destruct e; simpl in Hs, Hu; try contradiction;
    repeat match type of Hs with _ /\ _ => destruct Hs as [? Hs] end; subst; try tauto.
  - unfold touch. simpl. destruct (access_of e) as [|r| | |]; simpl in *; try contradiction.
    { split; [done|]. set_solver. }
    split; [done|]. split; [|done]. case_decide as Hr; [set_solver|].
    enough (r ∉ G) by set_solver. intros HG. destruct (Hu HG) as (v & -> & Hn).
    apply Hr. eapply (pi_open _ Hw v); [|done]. simpl in Hh. unfold live. destruct k; [by eauto|naive_solver|done].
  - destruct Hs as [(_ & _ & ->)|(e & l & _ & _ & ->)]; tauto.
  - destruct (pw_srv w); naive_solver.
  - destruct (pw_srv w); naive_solver.
Qed.

(** What it leaves alone of the goroutines, the other requests and the channel. *)
Lemma user_frame i X (e : procE V E X) x w w' u :
  proc_step i e w x w' -> user_ok e u -> holds i w u ->
  (forall v, (exists o, pw_started w' !! 0%nat = Some (v, o)) <-> exists o, pw_started w !! 0%nat = Some (v, o)) /\
  (forall j, j <> i -> pw_inflight w' !! j = pw_inflight w !! j) /\
  (forall v j, pw_started w !! 0%nat = Some (v, Some j) -> pw_started w' !! 0%nat = Some (v, Some j)) /\
  (k = Worker -> 0%nat ∈ pw_closedch w' ->
     0%nat ∈ pw_closedch w \/ exists v, pw_started w !! 0%nat = Some (v, Some i)).
Proof.
  intros Hs Hu Hh. destruct e; simpl in Hs, Hu; try contradiction;
    repeat match type of Hs with _ /\ _ => destruct Hs as [? Hs] end; subst; try tauto.
  - split; [intros v; by apply claimed|]. split; [done|]. split; [|by left]. intros v j Hv. cbn.
    destruct (decide (g = 0%nat)) as [->|Hg]; [naive_solver|by rewrite lookup_insert_ne].
  - split; [done|]. split; [done|]. split; [done|]. cbn. intros Hk Hc. apply elem_of_union in Hc as [Hc|?]; [|by left].
    apply elem_of_singleton in Hc as <-. right. destruct (Hu Hk eq_refl) as (v & ->). simpl in Hh.
    rewrite Hk in Hh. destruct Hh as [Hh _]. eauto.
  - destruct Hs as [(_ & _ & ->)|(e & l & _ & _ & ->)]; tauto.
  - destruct (pw_srv w); naive_solver.
  - destruct (pw_srv w); naive_solver.
  - split; [done|]. split; [|by auto]. intros j Hj. cbn. by rewrite lookup_insert_ne.
  - split; [done|]. split; [|by auto]. intros j Hj. cbn. by rewrite lookup_delete_ne.
Qed.

Lemma user_holds i X (e : procE V E X) x w w' u :
  proc_step i e w x w' -> user_ok e u -> holds i w u -> proc_inv w -> holds i w' (user_next e u x).
Proof.
  intros Hs Hu Hh Hw. destruct e; simpl in Hs, Hu; try contradiction;
    repeat match type of Hs with _ /\ _ => destruct Hs as [? Hs] end; subst;
    try (destruct u; exact Hh); simpl.
  - destruct g as [|g]; [|done]. case_decide as Hk; simpl.
    + rewrite Hk. rewrite lookup_insert_eq. split; [done|]. intros Hc.
      destruct (pi_chan _ Hw Hk Hc) as (v & j & Hv). simplify_eq.
    + rewrite lookup_insert_eq. eauto.
  - destruct ch as [|ch].
    + case_decide as Hk; [done|]. destruct u as [|v|v|]; [done..| |done]. simpl in *. by destruct k.
    + destruct u as [|v|v|]; [done..| |done]. simpl in *. destruct k; set_solver.
  - destruct Hs as [(_ & _ & ->)|(e & l & _ & _ & ->)]; by destruct u.
  - case_decide as Hx; [simpl; destruct (pw_srv w) eqn:Hsrv; naive_solver|].
    destruct u; simpl in *; destruct (pw_srv w) eqn:Hsrv; naive_solver.
  - case_decide as Hx; [simpl; destruct (pw_srv w) eqn:Hsrv; naive_solver|].
    destruct u; simpl in *; destruct (pw_srv w) eqn:Hsrv; naive_solver.
  - by destruct u.
  - case_decide as Hk; [|done]. simpl. rewrite Hk. by rewrite lookup_insert_eq.
  - case_decide as Hk; [done|]. destruct u as [|v|v|]; [done..| |done]. simpl in *. by destruct k.
Qed.

(** The server stays down, and only [main] takes it down. *)
Lemma user_srv i X (e : procE V E X) x w w' u :
  proc_step i e w x w' -> user_ok e u -> holds i w u -> proc_inv w ->
  (pw_srv w = SrvDown -> pw_srv w' = SrvDown) /\
  (k = Handlers -> pw_srv w <> SrvDown -> pw_srv w' <> SrvDown) /\
  (k = Handlers -> ErrServerClosed ∈ pw_errs w' -> pw_srv w' = SrvDown).
Proof.
  intros Hs Hu Hh Hw. pose proof (pi_errs _ Hw) as He.
  destruct e; simpl in Hs, Hu; try contradiction;
    repeat match type of Hs with _ /\ _ => destruct Hs as [? Hs] end; subst; try by (split; [|split]).
  - split; [done|]. split; [done|]. cbn. intros Hk Hin. apply elem_of_app in Hin as [Hin|Hin]; [by apply He|].
    apply list_elem_of_singleton in Hin as <-. by rewrite (Hu Hk eq_refl) in Hh.
  - destruct Hs as [(_ & _ & ->)|(e & l & Hl & _ & ->)]; [done|]. split; [done|]. split; [done|]. cbn.
    intros Hk Hin. apply He; [done|]. rewrite Hl. by right.
  - destruct (pw_srv w) eqn:Hsrv;
      [destruct Hs as [[_ ->]|(err & _ & _ & ->)]|destruct Hs as (err & _ & _ & ->)
      |destruct Hs as (err & _ & _ & ->)|destruct Hs as [_ ->]]; rewrite ?Hsrv; naive_solver.
  - destruct (pw_srv w) eqn:Hsrv; destruct Hs as [_ ->]; rewrite ?Hsrv; naive_solver.
Qed.

Lemma user_inv i X (e : procE V E X) x w w' u :
  proc_step i e w x w' -> user_ok e u -> holds i w u -> proc_inv w -> pw_exit w = None -> proc_inv w'.
Proof.
  intros Hs Hu Hh Hw Hx. pose proof (user_live _ _ _ _ _ _ _ Hs Hu Hh) as Hl.
  destruct (user_res _ _ _ _ _ _ _ Hs Hu Hh Hw) as (Ho & Hm & He).
  destruct (user_frame _ _ _ _ _ _ _ Hs Hu Hh) as (Hst & _ & Hown & Hc). split.
  - intros v Hv. by apply Hst, (pi_started _ Hw), Hl.
  - intros v Hv. rewrite Ho. by apply (pi_open _ Hw), Hl.
  - done.
  - intros Hk Hin. destruct (Hc Hk Hin) as [Hin'|(v & Hv)]; [|by eauto].
    destruct (pi_chan _ Hw Hk Hin') as (v & j & Hv). eauto.
  - apply (user_srv _ _ _ _ _ _ _ Hs Hu Hh Hw).
  - intros c. rewrite He, Hx. done.
Qed.

Lemma user_rely i X (e : procE V E X) x w w' u j :
  proc_step i e w x w' -> user_ok e u -> holds i w u -> proc_inv w -> pw_exit w = None -> j <> i ->
  proc_rely j w w'.
Proof.
  intros Hs Hu Hh Hw Hx Hj. pose proof (user_live _ _ _ _ _ _ _ Hs Hu Hh) as Hl.
  destruct (user_res _ _ _ _ _ _ _ Hs Hu Hh Hw) as (Ho & _ & _).
  destruct (user_frame _ _ _ _ _ _ _ Hs Hu Hh) as (Hst & Hf & Hown & Hc). split.
  - intros _. by eapply user_inv.
  - intros v. apply Hst.
  - by apply Hf.
  - apply (user_srv _ _ _ _ _ _ _ Hs Hu Hh Hw).
  - intros Hk v Hv Hn. split; [by apply Hown|]. intros Hin. destruct (Hc Hk Hin) as [?|(v' & ?)]; [done|congruence].
  - intros _. split; [done|]. split; [|split; [|apply (user_srv _ _ _ _ _ _ _ Hs Hu Hh Hw)]].
    + intros Hn. destruct (pw_started w' !! 0%nat) as [[v o]|] eqn:Hv; [|done].
      destruct (proj1 (Hst v)) as [o' Ho']; [by eauto|congruence].
    + intros [[[v o] Hv] Hd]. split; [|intros v' Hl'; by apply (Hd v'), Hl].
      destruct (proj2 (Hst v)) as [o' Ho']; [by eauto|]. by eexists.
Qed.

(** ** A step of main *)

Lemma not_live w o ph v : proc_inv w -> main_at w o ph -> live w v -> ph = PLive v \/ ph = PStopping v.
Proof.
  intros Hw [_ Hp] Hl. destruct (pi_started _ Hw v Hl) as [j Hj].
  destruct ph as [ |v1|v1| ].
  - destruct Hp. congruence.
  - left. destruct Hp as [[j' Hp] _]. congruence.
  - right. destruct Hp as [j' Hp]. congruence.
  - by destruct (proj2 Hp v Hl).
Qed.

(** What is not about the resources or a new goroutine changes nothing the others
    rely on. *)
Lemma main_quiet X (e : procE V E X) x w w' o ph :
  proc_step 0 e w x w' -> main_ok e o ph -> match e with Svc _ | Go _ _ => False | _ => True end ->
  pw_open w' = pw_open w /\ pw_misuse w' = pw_misuse w /\ pw_started w' = pw_started w /\
  pw_inflight w' = pw_inflight w /\ (k = Worker -> pw_closedch w' = pw_closedch w) /\
  (forall v, live w' v -> live w v) /\
  (forall c, pw_exit w' = Some c -> clean c = true -> pw_exit w = Some c \/ o = ∅).
Proof.
  intros Hs Hm Hq. unfold live. destruct e; simpl in Hs, Hm; try contradiction;
    repeat match type of Hs with _ /\ _ => destruct Hs as [? Hs] end; subst; try by (repeat split; auto).
  - repeat split; auto; [by intros Hk|]. cbn. by destruct k.
  - destruct Hs as [(_ & _ & ->)|(e & l & _ & _ & ->)]; by (repeat split; auto).
  - assert (Hw' : w' = w \/ exists s, w' = set_srv w s) by (destruct (pw_srv w); naive_solver).
    destruct Hw' as [->|[s ->]]; repeat split; auto. by destruct k.
  - assert (Hw' : w' = w \/ w' = set_srv w SrvFailed) by (destruct (pw_srv w); naive_solver).
    destruct Hw' as [->| ->]; repeat split; auto. cbn. destruct k; [|done..]. intros v [[[=] _]|[[=]|?]]. auto.
  - repeat split; auto. cbn. destruct k; [|done..]. intros v [[[=] _]|[[=]|?]]. auto.
  - repeat split; auto. cbn. intros c [= ->]. auto.
Qed.

Definition stops {X} (e : procE V E X) : bool := match e with ShutdownBegin => true | _ => false end.

Lemma main_srv X (e : procE V E X) x w w' o ph :
  proc_step 0 e w x w' -> main_ok e o ph -> proc_inv w ->
  (pw_srv w = SrvDown -> pw_srv w' = SrvDown) /\
  (k = Handlers -> stops e = false -> pw_srv w <> SrvDown -> pw_srv w' <> SrvDown) /\
  (k = Handlers -> ErrServerClosed ∈ pw_errs w' -> pw_srv w' = SrvDown).
Proof.
  intros Hs Hm Hw. pose proof (pi_errs _ Hw) as He. destruct e; simpl in Hs, Hm; try contradiction;
    repeat match type of Hs with _ /\ _ => destruct Hs as [? Hs] end; subst; try by (split; [|split]).
  - destruct Hs as [(_ & _ & ->)|(e & l & Hl & _ & ->)]; [done|]. split; [done|]. split; [done|]. cbn.
    intros Hk Hin. apply He; [done|]. rewrite Hl. by right.
  - destruct (pw_srv w) eqn:Hsrv;
      [destruct Hs as [[_ ->]|(err & _ & _ & ->)]|destruct Hs as (err & _ & _ & ->)
      |destruct Hs as (err & _ & _ & ->)|destruct Hs as [_ ->]]; rewrite ?Hsrv; naive_solver.
  - destruct (pw_srv w) eqn:Hsrv; destruct Hs as [_ ->]; rewrite ?Hsrv; naive_solver.
Qed.

(** What [main] hears is possible where it is. *)
Lemma main_possible X (e : procE V E X) x w w' o ph :
  proc_step 0 e w x w' -> main_at w o ph -> proc_inv w -> possible e ph x.
Proof.
  intros Hs [_ Hp] Hw. destruct e; try done. simpl in *. destruct ph as [|v|v|]; try done.
  intros Hk ->. destruct Hs as [(? & _)|(e & l & Hl & [= <-] & _)]; [done|]. destruct Hp as [_ Hp].
  apply (Hp Hk), (pi_errs _ Hw Hk). rewrite Hl. by left.
Qed.

(** The last user is gone. *)
Lemma main_drains X (e : procE V E X) x w w' v :
  proc_step 0 e w x w' -> drains e x = true -> (exists i, pw_started w !! 0%nat = Some (v, i)) -> dead w'.
Proof.
  intros Hs Hd [i Hv]. destruct e; simpl in Hs, Hd; try done.
  - destruct Hs as [Hin ->]. apply bool_decide_eq_true in Hd as [Hk ->]. split; [by eexists|].
    intros v'. unfold live. rewrite Hk. naive_solver.
  - destruct Hs as [-> Hs]. apply andb_true_iff in Hd as [Hk%bool_decide_eq_true Hok].
    destruct x as [[]|]; [|done]. destruct (Hs eq_refl) as [Hsrv Hin]. split; [by eexists|].
    intros v'. unfold live. rewrite Hk, Hsrv, Hin. setoid_rewrite lookup_empty. naive_solver.
Qed.

Lemma main_next_quiet X (e : procE V E X) x o ph :
  match e with Svc _ | Go _ _ => False | _ => True end ->
  main_next e x o ph =
  (o, if stops e then match ph with PLive v => PStopping v | _ => ph end
      else match ph with PLive _ | PStopping _ => if drains e x then PDead else ph | _ => ph end).
Proof. by destruct e. Qed.

Lemma main_quiet_step X (e : procE V E X) x w w' o ph :
  proc_step 0 e w x w' -> main_ok e o ph -> match e with Svc _ | Go _ _ => False | _ => True end ->
  main_at w o ph -> proc_inv w -> pw_exit w = None ->
  proc_inv w' /\ main_at w' (main_next e x o ph).1 (main_next e x o ph).2 /\
  forall j, j <> 0%nat -> proc_rely j w w'.
Proof.
  intros Hs Hm Hq Hat Hw Hx. rewrite (main_next_quiet _ _ _ _ _ Hq). simpl.
  destruct (main_quiet _ _ _ _ _ _ _ Hs Hm Hq) as (Ho & Hmis & Hst & Hf & Hc & Hl & He).
  destruct (main_srv _ _ _ _ _ _ _ Hs Hm Hw) as (Hdn & Hup & Herr).
  assert (Hw' : proc_inv w').
  { destruct Hat as [Ho' _]. split.
    - intros v Hv. rewrite Hst. by apply (pi_started _ Hw), Hl.
    - intros v Hv. rewrite Ho. by apply (pi_open _ Hw), Hl.
    - rewrite Hmis. by apply (pi_misuse _ Hw).
    - intros Hk. rewrite (Hc Hk), Hst. by apply (pi_chan _ Hw).
    - done.
    - intros c H1 H2. rewrite Ho. destruct (He c H1 H2) as [H3|H3]; congruence. }
  split; [done|]. destruct Hat as [Ho' Hp]. split.
  - split; [congruence|]. destruct (stops e) eqn:Hstop.
    + destruct e; try done. simpl in Hm. destruct ph as [|v|v|]; [by (split; [rewrite Hst; apply Hp|intros Hk; by destruct (Hm Hk)])|rewrite Hst..|].
      * apply Hp.
      * apply Hp.
      * destruct Hp as [Hp1 Hp2]. split; [by rewrite Hst|]. intros v Hv. by apply (Hp2 v), Hl.
    + destruct ph as [|v|v|].
      * destruct Hp. rewrite Hst. auto.
      * destruct (drains e x) eqn:Hd; [eapply main_drains; naive_solver|]. destruct Hp. rewrite Hst. auto.
      * destruct (drains e x) eqn:Hd; [by eapply main_drains|by rewrite Hst].
      * destruct Hp as [Hp1 Hp2]. split; [by rewrite Hst|]. intros v Hv. by apply (Hp2 v), Hl.
  - intros j Hj. split; [done|by rewrite Hst|by rewrite Hf|done| |done].
    intros Hk v. by rewrite Hst, (Hc Hk).
Qed.

Definition gives_up {X} (a : access X) : option resource :=
  match a with Closes r | Drains r _ => Some r | _ => None end.

Lemma touched_keeps {X} (a : access X) x o (v : V) :
  needs v ⊆ o -> (forall r, gives_up a = Some r -> r ∉ needs v) -> needs v ⊆ touched a x o.
Proof.
  intros Hn Hc. destruct a as [|r|r ok|r|r ok]; simpl; [done|done|case_match; set_solver|..];
    specialize (Hc r eq_refl); set_solver.
Qed.

Lemma main_svc_step X (e : E X) x w w' o ph :
  proc_step 0 (Svc e) w x w' -> main_ok (Svc e) o ph -> main_at w o ph -> proc_inv w -> pw_exit w = None ->
  proc_inv w' /\ main_at w' (main_next (Svc e) x o ph).1 (main_next (Svc e) x o ph).2 /\
  forall j, j <> 0%nat -> proc_rely j w w'.
Proof.
  intros Hs Hm Hat Hw Hx. simpl in Hs. subst w'.
  assert (Hl : forall v, live (touch e x w) v -> live w v) by done.
  assert (Hw' : proc_inv (touch e x w)).
  { split.
    - intros v Hv. by apply (pi_started _ Hw).
    - intros v Hv. simpl. apply touched_keeps; [by apply (pi_open _ Hw)|]. intros r Hr.
      simpl in Hm. destruct (access_of e); simpl in Hr; try discriminate Hr; injection Hr as ->;
        destruct (not_live _ _ _ _ Hw Hat (Hl v Hv)) as [->| ->]; tauto.
    - simpl. assert (Hwr : wrong (access_of e) (pw_open w) = ∅).
      { destruct Hat as [-> _]. unfold wrong. simpl in Hm. destruct (access_of e); [done| |done|..]; by rewrite decide_True by tauto. }
      rewrite Hwr, union_empty_l_L. by apply (pi_misuse _ Hw).
    - apply (pi_chan _ Hw).
    - apply (pi_errs _ Hw).
    - simpl. intros c. by rewrite Hx. }
  split; [done|]. split.
  - destruct Hat as [<- Hp]. split; [done|]. destruct ph; done.
  - intros j Hj. split; [by intros _|intros v; done|done|done|intros Hk v; done|done].
Qed.

Lemma main_go_step g v w w' o ph :
  proc_step 0 (Go (E:=E) g v) w () w' -> main_ok (Go (E:=E) g v) o ph -> main_at w o ph -> proc_inv w ->
  pw_exit w = None ->
  proc_inv w' /\ main_at w' (main_next (Go (E:=E) g v) () o ph).1 (main_next (Go (E:=E) g v) () o ph).2 /\
  forall j, j <> 0%nat -> proc_rely j w w'.
Proof.
  intros Hst Hm Hat Hw Hx. simpl in Hst, Hm. subst w'. destruct g as [|g].
  - destruct (Hm eq_refl) as [-> Hn]. destruct Hat as [Ho [Hs Hsrv]].
    assert (Hnl : forall v, ~ live w v).
    { intros v' Hv. by destruct (not_live w o PBefore v' Hw (conj Ho (conj Hs Hsrv)) Hv). }
    assert (Hl : forall v', live (set_started w (<[0%nat := (v, None)]> (pw_started w))) v' -> v' = v).
    { intros v'. specialize (Hnl v'). revert Hnl. unfold live. cbn. intros Hnl.
      destruct k; [intros [[_ [o' Hv]]|Hv]|intros [[o' Hv] _]|done];
        [|by destruct Hnl; right|]; rewrite lookup_insert_eq in Hv; congruence. }
    assert (Hw' : proc_inv (set_started w (<[0%nat := (v, None)]> (pw_started w)))).
    { split; cbn.
      * intros v' ->%Hl. rewrite lookup_insert_eq. eauto.
      * intros v' ->%Hl. by rewrite Ho.
      * by apply (pi_misuse _ Hw).
      * intros Hk Hc. destruct (pi_chan _ Hw Hk Hc) as (v' & i & Hv). congruence.
      * apply (pi_errs _ Hw).
      * intros c. by rewrite Hx. }
    split; [done|split].
    + split; [done|]. cbn. rewrite lookup_insert_eq. split; [by eexists|done].
    + intros j Hj. split; cbn; [by intros _|naive_solver|done|done|naive_solver|done].
  - assert (Hs : forall m : gmap nat (V * option nat), <[S g := (v, None)]> m !! 0%nat = m !! 0%nat).
    { intros m. by apply lookup_insert_ne. }
    assert (Hl : forall v', live (set_started w (<[S g := (v, None)]> (pw_started w))) v' <-> live w v').
    { intros v'. unfold live. cbn. rewrite Hs. by destruct k. }
    assert (Hw' : proc_inv (set_started w (<[S g := (v, None)]> (pw_started w)))).
    { split; cbn.
      - intros v' Hv. rewrite Hs. by apply (pi_started _ Hw), Hl.
      - intros v' Hv. by apply (pi_open _ Hw), Hl.
      - by apply (pi_misuse _ Hw).
      - intros Hk Hc. rewrite Hs. by apply (pi_chan _ Hw).
      - apply (pi_errs _ Hw).
      - intros c. by rewrite Hx. }
    split; [done|split].
    + destruct Hat as [Ho Hp]. split; [done|]. cbn. destruct ph; simpl in *; [by rewrite Hs..|].
      destruct Hp as [Hp1 Hp2]. split; [cbn; by rewrite Hs|]. intros v' Hv. by apply (Hp2 v'), Hl.
    + intros j Hj. split; cbn; [by intros _|intros v'; by rewrite Hs|done|done|intros Hk v'; by rewrite Hs|done].
Qed.

Lemma main_step X (e : procE V E X) x w w' o ph :
  proc_step 0 e w x w' -> main_ok e o ph -> main_at w o ph -> proc_inv w -> pw_exit w = None ->
  proc_inv w' /\ main_at w' (main_next e x o ph).1 (main_next e x o ph).2 /\
  forall j, j <> 0%nat -> proc_rely j w w'.
Proof.
  intros Hs Hm Hat Hw Hx. destruct e as [X e|g v| | | | | | | | | | | | | | | | | |];
    [by apply main_svc_step|destruct x; by apply main_go_step|by eapply main_quiet_step..].
Qed.

(** ** Soundness *)

Abbreviation prg := (rg proc_do (fun i (w w' : process V) => proc_rely i w w')).

Lemma disc_rg {A} (p : prog (procE V E) A) Q w o ph :
  disc p Q o ph -> main_at w o ph -> proc_inv w -> prg 0%nat (fun _ _ _ => True) p w ().
Proof.
  revert w o ph. induction p as [a|X e kont IH]; intros w o ph; [done|].
  intros [Hm Hk] Hat Hw. intros w2 x w' [] Hr [Hx Hs]. simpl in Hx, Hs.
  pose proof (main_at_rely _ _ _ _ Hr Hat) as Hat2. pose proof (pr_inv _ _ _ Hr Hw) as Hw2.
  destruct (main_step _ _ _ _ _ _ _ Hs Hm Hat2 Hw2 Hx) as (Hw3 & Hat3 & Hg). split; [done|].
  eapply IH; [|done|done]. apply Hk. by eapply main_possible.
Qed.

Lemma udisc_rg {A} i (p : prog (procE V E) A) Q w u :
  i <> 0%nat -> udisc p Q u -> holds i w u -> proc_inv w -> prg i (fun _ _ _ => True) p w ().
Proof.
  intros Hi. revert w u. induction p as [a|X e kont IH]; intros w u; [done|].
  intros [Hu Hk] Hh Hw. intros w2 x w' [] Hr [Hx Hs]. simpl in Hx, Hs.
  pose proof (holds_rely _ _ _ _ Hr Hh) as Hh2. pose proof (pr_inv _ _ _ Hr Hw) as Hw2. split.
  - intros j Hj. by eapply user_rely.
  - eapply IH; [apply Hk|by eapply user_holds|by eapply user_inv].
Qed.

Lemma start_inv : proc_inv process_start.
Proof.
  split; simpl; [| |set_solver|set_solver|set_solver|done]; intros v; unfold live; simpl;
    destruct k; set_solver.
Qed.

(** A process whose main program and goroutines keep the disciplines uses and closes
    nothing guarded that is not open, under every interleaving; what may be in use is
    open, and a clean exit leaves nothing open (what drains is no longer open). *)
Lemma disciplined main others ts' w' :
  disc main (fun _ _ _ => True) ∅ PBefore -> Forall (fun p => udisc p (fun _ _ => True) HNothing) others ->
  rtc (lpool_step proc_do) (threads (main :: others), process_start) (ts', w') ->
  G ## pw_misuse w' /\ (forall v, live w' v -> needs v ⊆ pw_open w') /\
  forall c, pw_exit w' = Some c -> clean c = true -> pw_open w' = ∅.
Proof.
  intros Hm Ho Hr. assert (Hw' : proc_inv w'); [|split; [|split]; apply Hw'].
  eapply (pr_inv (length (threads (main :: others)))); [|apply start_inv].
  eapply (rg_observed proc_do (fun i w w' => proc_rely i w w') (fun _ _ _ _ => True)); [|exact Hr|done].
  intros i p [] Hi. unfold threads in Hi. rewrite list_lookup_fmap in Hi.
  apply fmap_Some in Hi as (q & Hq & [= ->]). destruct i as [|i]; simpl in Hq.
  - simplify_eq. by eapply disc_rg; [exact Hm|done|apply start_inv].
  - apply (udisc_rg (S i) _ (fun _ _ => True) _ HNothing); [done| |done|apply start_inv]. by eapply (Forall_lookup_1 _ _ _ _ Ho).
Qed.

(** Only what a call drains is ever draining. *)
Lemma draining_within (D : gset resource) (ts ts' : list (prog (procE V E) () * ())) w w' :
  (forall X (e : E X) r ok, access_of e = Drains r ok -> r ∈ D) ->
  rtc (lpool_step proc_do) (ts, w) (ts', w') -> pw_draining w ⊆ D -> pw_draining w' ⊆ D.
Proof.
  clear k G needs clean. intros HD Hr. remember (ts, w) as c eqn:Hc. remember (ts', w') as c' eqn:Hc'.
  revert ts w Hc. induction Hr as [c|c1 c2 c3 H12 _ IH]; intros ts w ->; [by simplify_eq|].
  inversion H12 as [i X e kont l x ? ? w1 l1 _ [_ Hs]]; subst. intros Hd. eapply IH; [done|done|].
  simpl in Hs. destruct e; simpl in Hs;
    repeat match type of Hs with _ /\ _ => destruct Hs as [? Hs] end; subst; try exact Hd.
  - simpl. pose proof (HD _ e) as He. destruct (access_of e) as [| | | |r ok]; simpl; try exact Hd.
    case_match; [|exact Hd]. specialize (He r ok eq_refl). set_solver.
  - destruct Hs as [(_ & _ & ->)|(err & rest & _ & _ & ->)]; exact Hd.
  - destruct (pw_srv w); naive_solver.
  - destruct (pw_srv w); naive_solver.
  - simpl. set_solver.
Qed.

(** ** The disciplines of composed programs *)

Lemma disc_mono {A} (p : prog (procE V E) A) (Q Q' : A -> gset resource -> phase V -> Prop) o ph :
  disc p Q o ph -> (forall a o ph, Q a o ph -> Q' a o ph) -> disc p Q' o ph.
Proof.
  intros Hp HQ. revert o ph Hp. induction p as [a|X e kont IH]; intros o ph; [apply HQ|].
  intros [Hm Hk]. split; [done|]. intros x Hx. by apply IH, Hk.
Qed.

Lemma disc_bind {A B} (p : prog (procE V E) A) (f : A -> prog (procE V E) B) Q o ph :
  disc p (fun a => disc (f a) Q) o ph -> disc (p ≫= f) Q o ph.
Proof.
  revert o ph. induction p as [a|X e kont IH]; intros o ph; [done|].
  intros [Hm Hk]. split; [done|]. intros x Hx. by apply IH, Hk.
Qed.

Lemma disc_call_bind {X B} (e : procE V E X) (f : X -> prog (procE V E) B) Q o ph :
  main_ok e o ph -> (forall x, possible e ph x -> disc (f x) Q (main_next e x o ph).1 (main_next e x o ph).2) ->
  disc (call e ≫= f) Q o ph.
Proof. done. Qed.

(** Calls of the service that keep the resources as they are. *)
Definition keeps (o : gset resource) X (e : E X) : Prop :=
  match access_of e with Free => True | Uses r => r ∈ o | _ => False end.

Lemma disc_svc {A} (p : prog E A) Q o ph :
  all_calls (keeps o) p -> (forall a, Q a o ph) -> disc (svc p) Q o ph.
Proof.
  intros Hp HQ. induction p as [a|X e kont IH]; [apply HQ|]. destruct Hp as [He Hk]. unfold keeps in He.
  assert (Hn : forall x, main_next (Svc (V:=V) e) x o ph = (o, ph)).
  { intros x. unfold main_next. simpl. destruct (access_of e); [|by destruct ph..|done|done|done]. by destruct ph. }
  split.
  - simpl. by destruct (access_of e).
  - intros x _. rewrite Hn. by apply IH.
Qed.

Lemma disc_exit {A} code (Q : flow A -> gset resource -> phase V -> Prop) o ph :
  (clean code = true -> o = ∅) -> Q Exited o ph -> disc (os_Exit code) Q o ph.
Proof. intros Hc HQ. split; [done|]. intros x _. by destruct ph. Qed.

Lemma disc_deferring {A} cleanup (body : prog (procE V E) (flow A)) Q o ph :
  disc body (fun r o ph => match r with
                           | Exited => Q Exited o ph
                           | Returned a => disc cleanup (fun _ o ph => Q (Returned a) o ph) o ph
                           end) o ph ->
  disc (deferring cleanup body) Q o ph.
Proof.
  intros Hb. apply disc_bind. eapply disc_mono; [exact Hb|]. intros [a|] o' ph'; [|done].
  intros Hc. apply disc_bind. eapply disc_mono; [exact Hc|]. done.
Qed.

Lemma udisc_mono {A} (p : prog (procE V E) A) (Q Q' : A -> holding V -> Prop) u :
  udisc p Q u -> (forall a u, Q a u -> Q' a u) -> udisc p Q' u.
Proof.
  intros Hp HQ. revert u Hp. induction p as [a|X e kont IH]; intros u; [apply HQ|].
  intros [Hm Hk]. split; [done|]. intros x. by apply IH.
Qed.

Lemma udisc_bind {A B} (p : prog (procE V E) A) (f : A -> prog (procE V E) B) Q u :
  udisc p (fun a => udisc (f a) Q) u -> udisc (p ≫= f) Q u.
Proof.
  revert u. induction p as [a|X e kont IH]; intros u; [done|].
  intros [Hm Hk]. split; [done|]. intros x. by apply IH.
Qed.

(** Calls of the service by a goroutine that holds [u]. *)
Definition may (u : holding V) X (e : E X) : Prop := user_ok (Svc (V:=V) e) u.

Lemma udisc_svc {A} (p : prog E A) Q u :
  all_calls (may u) p -> (forall a, Q a u) -> udisc (svc p) Q u.
Proof.
  intros Hp HQ. induction p as [a|X e kont IH]; [apply HQ|]. destruct Hp as [He Hk]. split; [done|].
  intros x. by apply IH.
Qed.
End discipline.
#[global] Arguments disc : simpl never.
#[global] Arguments udisc : simpl never.

(** ** Running a process

    By an explicit schedule: which thread moves, and which way a call goes that could
    go two ways. *)
Section run.
Context {V : Type} {E : Type -> Type} `{!Accesses E} (ans : forall X, E X -> X).

Definition proc_exec (i : nat) (pick : bool) {X} (e : procE V E X) (w : process V) : option (X * process V) :=
  match e in procE _ _ X return option (X * process V) with
  | Svc e => Some (ans _ e, touch e (ans _ e) w)
  | Go g v => Some (tt, set_started w (<[g := (v, None)]> (pw_started w)))
  | Started g =>
      match pw_started w !! g with
      | Some (v, None) => Some (v, set_started w (<[g := (v, Some i)]> (pw_started w)))
      | _ => None
      end
  | CancelCtx c => Some (tt, set_cancelled w ({[ c ]} ∪ pw_cancelled w))
  | AwaitDone c => if decide (ctx_done w c) then Some (tt, w) else None
  | CtxDone c => Some (bool_decide (ctx_done w c), w)
  | SelectTick c => if pick then Some (true, w) else if decide (ctx_done w c) then Some (false, w) else None
  | CloseChan ch => Some (tt, set_closedch w ({[ ch ]} ∪ pw_closedch w))
  | RecvClosed ch => if decide (ch ∈ pw_closedch w) then Some (tt, w) else None
  | SendErr e => Some (tt, set_errs w (pw_errs w ++ [e]))
  | SelectStop =>
      if pick then if decide (ctx_done w 0) then Some (None, w) else None
      else match pw_errs w with e :: l => Some (Some e, set_errs w l) | [] => None end
  | Listen v =>
      match pw_srv w with
      | SrvNew => if pick then Some (Ok (), set_srv w (SrvServing v)) else Some (Err (EMsg "bind"), w)
      | SrvDown => Some (Err ErrServerClosed, w)
      | _ => Some (Err (EMsg "bind"), w)
      end
  | Serve =>
      match pw_srv w with
      | SrvServing _ => if pick then None else Some (EMsg "accept", set_srv w SrvFailed)
      | SrvDown => Some (ErrServerClosed, w)
      | _ => Some (EMsg "accept", w)
      end
  | ShutdownBegin => Some (tt, set_srv w SrvDown)
  | ShutdownWait =>
      if pick then match pw_srv w with
                   | SrvDown => if decide (pw_inflight w = ∅) then Some (Ok (), w) else None
                   | _ => None
                   end
      else Some (Err (EMsg "context deadline exceeded"), w)
  | Accept => match pw_srv w with
              | SrvServing v => Some (v, set_inflight w (<[i := v]> (pw_inflight w)))
              | _ => None
              end
  | Dispatch => Some (pick, w)
  | Finish => Some (tt, set_inflight w (delete i (pw_inflight w)))
  | Drained r => if decide (r ∈ pw_draining w) then Some (tt, set_draining w (pw_draining w ∖ {[ r ]})) else None
  | Exit c => Some (tt, set_exit w c)
  end.

Lemma proc_exec_step i pick X (e : procE V E X) w x w' :
  proc_exec i pick e w = Some (x, w') -> proc_step i e w x w'.
Proof.
  destruct e; simpl; intros H; repeat case_match; simplify_eq; try done; simpl; eauto.
  right. by eexists _, _.
Qed.

Fixpoint proc_sched (sch : list (nat * bool)) (c : list (prog (procE V E) ()) * process V)
    : option (list (prog (procE V E) ()) * process V) :=
  match sch with
  | [] => Some c
  | (i, pick) :: sch' =>
      match c.1 !! i, pw_exit c.2 with
      | Some (Vis e kont), None =>
          match proc_exec i pick e c.2 with
          | Some (x, w') => proc_sched sch' (<[i := kont x]> c.1, w')
          | None => None
          end
      | _, _ => None
      end
  end.

Lemma proc_sched_reachable sch ps w c :
  proc_sched sch (ps, w) = Some c -> rtc (lpool_step proc_do) (threads ps, w) (threads c.1, c.2).
Proof.
  revert ps w. induction sch as [|[i pick] sch IH]; intros ps w; simpl; [by intros [= <-]|].
  destruct (ps !! i) as [[a|X e kont]|] eqn:Hi; [done| |done].
  destruct (pw_exit w) eqn:Hx; [done|]. destruct (proc_exec i pick e w) as [[x w']|] eqn:He; [|done].
  intros Hr. eapply rtc_l; [|by apply IH]. unfold threads. rewrite list_fmap_insert.
  eapply lpool_step_at; [|split; [exact Hx|by eapply proc_exec_step]].
  unfold threads. rewrite list_lookup_fmap. exact (f_equal (fmap (fun p => (p, ()))) Hi).
Qed.
End run.
