(* ===== verification/Mains.v ===== *)
(** * The four main functions

    upload/main.go, tenancy/main.go, cmd/orchestrator/main.go and
    cmd/telemetry/main.go, with the connecting constructors they call, as programs of
    the process of Process.v: what is opened in which order, what each error does,
    which goroutines start, and what is deferred until the return.  The calls of the
    constructors and of the components are the union [svcE].  Loggers and the cancel
    functions of timeouts are left out. *)
From S2P Require Export Process Startup Streams Migrate.
From S2P Require Import Oidc.
#[local] Open Scope Z_scope.

(** ** The calls *)

Inductive svcE : Type -> Type :=
| ReadFile (path : string) : svcE (result string)
| MkdirAll (path : string) : svcE (result ())
| PoolNew (url : string) : svcE (result ())          (* pgxpool.New *)
| PoolPing : svcE (result ())
| PoolClose : svcE ()
| NatsConnect (url : string) : svcE (result ())
| JetstreamNew : svcE (result ())
| NatsClose : svcE ()
| NatsDrain : svcE (result ())
| NatsSubscribe (subject : string) : svcE (result ())
| Consume : svcE (result ())                         (* cons.Consume(handler) *)
| ConsumeStop : svcE ()
| Mig {X} (e : migE X) : svcE X
| Js {X} (e : jsE X) : svcE X
| Gate {X} (e : runnerE X) : svcE X
| Nv {X} (e : nvmlE X) : svcE X
| Up {X} (e : upE X) : svcE X
| Ten {X} (e : Tenancy.tenE X) : svcE X
| Orch {X} (e : orchE X) : svcE X.

(** Which connection, pool, consumer or driver a call opens, uses or closes. *)
Definition mig_access {X} (e : migE X) : access X :=
  match e in res _ X return access X with
  | R c => match c with
           | Connect => Opens RConn is_ok
           | CloseConn => Closes RConn
           | _ => Uses RConn
           end
  end.
Definition nvml_access {X} (e : nvmlE X) : access X :=
  match e in nvmlE X return access X with
  | NvInit => Opens RNVML is_ok
  | NvShutdown => Closes RNVML
  | _ => Uses RNVML
  end.
Definition upload_access {X} (e : upE X) : access X :=
  match e with Store _ => Uses RPool | Publish _ _ => Uses RNats | _ => Free end.
Definition tenancy_access {X} (e : Tenancy.tenE X) : access X :=
  match e with Tenancy.TStore _ => Uses RPool | _ => Free end.
Definition orch_access {X} (e : orchE X) : access X :=
  match e with
  | OStore _ | Admission _ => Uses RPool
  | PublishMetering _ | PublishProgress _ | Ack | Term | NakWithDelay _ => Uses RNats
  | _ => Free
  end.

#[export] Instance svc_access : Accesses svcE := fun X e =>
  match e in svcE X return access X with
  | PoolNew _ => Opens RPool is_ok
  | PoolPing => Uses RPool
  | PoolClose => Closes RPool
  | NatsConnect _ => Opens RNats is_ok
  | JetstreamNew | NatsSubscribe _ => Uses RNats
  | NatsClose => Closes RNats
  | NatsDrain => Drains RNats is_ok
  | Consume => Opens RConsumer is_ok
  | ConsumeStop => Closes RConsumer
  | Mig e => mig_access e
  | Js _ => Uses RNats
  | Nv e => nvml_access e
  | Up e => upload_access e
  | Ten e => tenancy_access e
  | Orch e => orch_access e
  | ReadFile _ | MkdirAll _ | Gate _ => Free
  end.

(** ** The constructors *)

(** [pool.Ping], after which a pool that does not answer is closed. *)
Definition pinged : prog svcE (result ()) :=
  p ← call PoolPing;
  match p with
  | Err _ => _ ← call PoolClose; Ret (Err (EMsg "postgres ping"))
  | Ok _ => Ret (Ok ())
  end.

(** upload/postgres.go and orchestrator/internal/store/store.go *)
Definition upload_NewPostgresStore (url : string) : prog svcE (result ()) :=
  try_as "postgres" (PoolNew url) (fun _ => pinged).
Definition store_New (url : string) : prog svcE (result ()) :=
  try_as "pgx pool" (PoolNew url) (fun _ => pinged).

(** tenancy/postgres.go: the migrations run on a connection of their own. *)
Definition tenancy_NewPostgresStore (files : result (list (string * result string))) (url : string)
    : prog svcE (result ()) :=
  try_as "postgres connect" (Mig (R Connect)) (fun _ =>
    m ← embed (fun X e => Mig e) (runMigrations files);
    match m with
    | Err _ => _ ← call (Mig (R CloseConn)); Ret (Err (EMsg "migrate"))
    | Ok _ => try_as "close migration conn" (Mig (R CloseConn)) (fun _ =>
                try_as "postgres pool" (PoolNew url) (fun _ => pinged))
    end).

(** A NATS connection with its JetStream context. *)
Definition jetstream_connect (msg url : string) (k : prog svcE (result ())) : prog svcE (result ()) :=
  try_as "nats connect" (NatsConnect url) (fun _ =>
    js ← call JetstreamNew;
    match js with
    | Err _ => _ ← call NatsClose; Ret (Err (EMsg msg))
    | Ok _ => k
    end).

(** A step of a constructor that closes the connection when it fails. *)
Definition or_close (p : prog svcE (result ())) (k : prog svcE (result ())) : prog svcE (result ()) :=
  r ← p;
  match r with
  | Err e => _ ← call NatsClose; Ret (Err e)
  | Ok _ => k
  end.

Definition js (p : prog jsE (result ())) : prog svcE (result ()) := embed (fun X e => Js e) p.

(** upload/publisher.go *)
Definition NewJetStreamPublisher (url : string) : prog svcE (result ()) :=
  jetstream_connect "jetstream" url (or_close (js upload_streams) (Ret (Ok ()))).
Definition publisher_Close : prog svcE () := _ ← call NatsDrain; Ret ().

(** tenancy/metering.go *)
Definition NewMeteringConsumer (url : string) : prog svcE (result ()) :=
  jetstream_connect "jetstream" url (or_close (js tenancy_streams) (or_close (call Consume) (Ret (Ok ())))).
Definition metering_Close : prog svcE () :=
  _ ← call ConsumeStop; _ ← call NatsDrain; Ret ().

(** orchestrator/internal/natsio and consumer *)
Definition natsio_Connect (url : string) : prog svcE (result ()) :=
  jetstream_connect "jetstream init" url (Ret (Ok ())).
Definition natsio_Close : prog svcE () := _ ← call NatsDrain; Ret ().
Definition consumer_Start (streamName : string) : prog svcE (result ()) :=
  created ← js (landed_Start streamName);
  match created with
  | Err e => Ret (Err e)
  | Ok _ => try_as "consume landed" Consume (fun _ => Ret (Ok ()))
  end.

(** scheduler.go *)
Definition StagingRoot (dir : string) : prog svcE (result string) :=
  let p := Clean dir in
  try (MkdirAll p) (fun _ => Ret (Ok p)).

(** blobstore.go and objstore/s3.go: only the arguments are checked. *)
Definition NewS3BlobStore (url_Parse : string -> option (string * string)) (endpoint : string) : result () :=
  match url_Parse endpoint with None => Err (EMsg "s3 endpoint") | Some _ => Ok () end.
Definition NewS3 (url_Parse : string -> option (string * string)) (endpoint bucket : string) : result () :=
  if String.eqb bucket "" then Err (EMsg "object store bucket is required")
  else match url_Parse endpoint with None => Err (EMsg "s3 endpoint") | Some _ => Ok () end.

(** ** How a main ends *)

Definition returning {V E} (body : prog (procE V E) (flow ())) : prog (procE V E) () :=
  r ← body;
  match r with Exited => Ret () | Returned _ => call (Exit 0) end.

(** [if err := run(log); err != nil { os.Exit(1) }] *)
Definition running {V E} (run : prog (procE V E) (flow (result ()))) : prog (procE V E) () :=
  r ← run;
  match r with
  | Exited => Ret ()
  | Returned (Err _) => call (Exit 1)
  | Returned (Ok _) => call (Exit 0)
  end.

(** The steps of a main whose error ends it, by [os.Exit(1)] or by a return. *)
Definition or_exit {V A B} (p : prog svcE (result A)) (k : A -> prog (procE V svcE) (flow B))
    : prog (procE V svcE) (flow B) :=
  r ← svc p;
  match r with Err _ => os_Exit 1 | Ok a => k a end.
Definition or_return {V A B} (p : prog svcE (result A)) (k : A -> prog (procE V svcE) (flow (result B)))
    : prog (procE V svcE) (flow (result B)) :=
  r ← svc p;
  match r with Err e => Ret (Returned (Err e)) | Ok a => k a end.

(** ** upload/main.go *)

Section upload.
Context (env : environ) (range : list (string * string) -> list (string * string)).
Context (yamlDecode jsonDecode : string -> result QuotaConfigFile).
Context (url_Parse : string -> option (string * string)).

Abbreviation upP := (prog (procE UploadServer.Server svcE)).

Definition upload_run : upP (flow ()) :=
  match upload_LoadConfig env range with
  | Err _ => os_Exit 1
  | Ok cfg =>
  deferring (call (CancelCtx 0)) (
  or_exit (raw ← call (ReadFile (uc_QuotaConfigPath cfg));
           Ret (LoadConfigQuota (fun _ => raw) yamlDecode jsonDecode (uc_QuotaConfigPath cfg))) (fun _ =>
  or_exit (upload_NewPostgresStore (uc_DatabaseURL cfg)) (fun _ =>
  deferring (call (Svc PoolClose)) (
  or_exit (Ret (NewS3BlobStore url_Parse (uc_S3Endpoint cfg))) (fun _ =>
  or_exit (NewJetStreamPublisher (uc_NATSURL cfg)) (fun _ =>
  deferring (svc publisher_Close) (
    let '(srv, _, _) := upload_main cfg in
    _ ← call (Go 0 srv);
    stop ← call SelectStop;
    match stop with
    | None =>
        shut ← Shutdown;
        match shut with Err _ => os_Exit 1 | Ok _ => Ret (Returned ()) end
    | Some e => if bool_decide (e = ErrServerClosed) then Ret (Returned ()) else os_Exit 1
    end)))))))
  end.

Definition upload_process : upP () := returning upload_run.

(** [go func() { errCh <- httpSrv.ListenAndServe() }()] *)
Definition upload_serving : upP () :=
  goroutine 0 (fun srv => e ← ListenAndServe srv; call (SendErr e)).
End upload.

(** A request, whatever its handler does with the store, the bucket, the publisher and
    the gauge. *)
Definition upload_handling (handler : UploadServer.Server -> prog upE ()) : prog (procE UploadServer.Server svcE) () :=
  handling (fun srv => embed (fun X e => Up e) (handler srv)).

(** The goroutine of nats.go that [Drain] starts: the connection closes when its
    messages are flushed, if the process lives as long. *)
Definition nats_draining {V} : prog (procE V svcE) () := call (Drained RNats).

(** SIGINT or SIGTERM. *)
Definition signalled {V} : prog (procE V svcE) () := call (CancelCtx 0).

(** ** tenancy/main.go *)

Section tenancy.
Context (env : environ) (url_Parse : string -> option (string * string)).
Context (range : list (string * string) -> list (string * string)).
Context (decode_tiers : string -> result MeteredQuota.TierConfig).
Context (decode_discovery : string * option gerror -> result discoveryDoc).
Context (migrations : result (list (string * result string))).

Abbreviation tenP := (prog (procE TenancyServer.Server svcE)).

Definition tenancy_run : tenP (flow ()) :=
  match tenancy_LoadConfig env url_Parse range with
  | Err _ => os_Exit 1
  | Ok cfg =>
  deferring (call (CancelCtx 0)) (
  or_exit (raw ← call (ReadFile (tc_TiersConfigPath cfg)); Ret (MeteredQuota.LoadTierConfig raw decode_tiers)) (fun tiers =>
  or_exit (Ret (newHS256Signer (tc_AuthHS256Key cfg))) (fun _ =>
  or_exit (tenancy_NewPostgresStore migrations (tc_DatabaseURL cfg)) (fun _ =>
  deferring (call (Svc PoolClose)) (
  or_exit (embed (fun X e => Ten e)
             (NewOIDCClient decode_discovery (tc_OIDCIssuer cfg) (tc_OIDCClientID cfg)
                (tc_OIDCClientSecret cfg) (tc_OIDCRedirectURL cfg))) (fun oidc =>
  or_exit (NewMeteringConsumer (tc_NATSURL cfg)) (fun _ =>
  deferring (svc metering_Close) (
  or_exit (Ret (tenancy_main cfg tiers oidc)) (fun srv =>
    _ ← call (Go 0 srv);
    e ← ListenAndServe srv;
    if bool_decide (e = ErrServerClosed) then Ret (Returned ()) else os_Exit 1)))))))))
  end.

Definition tenancy_process : tenP () := returning tenancy_run.

(** [go func() { <-ctx.Done(); httpSrv.Shutdown(shutdownCtx) }()] *)
Definition tenancy_stopping : tenP () :=
  goroutine 0 (fun _ => _ ← call (AwaitDone 0); _ ← Shutdown; Ret ()).
End tenancy.

Definition tenancy_handling (handler : TenancyServer.Server -> prog Tenancy.tenE ())
    : prog (procE TenancyServer.Server svcE) () :=
  handling (fun srv => embed (fun X e => Ten e) (handler srv)).

(** ** cmd/orchestrator/main.go *)

(** [errors.Is(err, ffmpegadapter.ErrForbiddenBuild)] *)
Definition is_forbidden (e : gerror) : bool :=
  match e with
  | EMsg m => HasPrefix m "ffmpeg build advertises gpl or nonfree configuration; refusing to start"
  | _ => false
  end.

Section orchestrator.
Context (env : environ) (url_Parse : string -> option (string * string)).
Context (migrations : result (list (string * result string))).
Context (decode_limits : string -> result fileConfig).

Abbreviation orchP := (prog (procE (SchedConfig * LandedConfig) svcE)).

Definition orch_run : orchP (flow (result ())) :=
  match orch_FromEnv env with
  | Err e => Ret (Returned (Err e))
  | Ok cfg =>
  deferring (call (CancelCtx 0)) (
  gate ← svc (embed (F:=svcE) (fun X e => Gate e)
                (FFmpeg.New {| FFmpegPath := oc_FFmpegPath cfg; FFprobePath := oc_FFprobePath cfg |}));
  match gate with
  | Err e => if is_forbidden e then os_Exit 1 else Ret (Returned (Err e))
  | Ok _ =>
  or_return (embed (fun X e => Mig e) (orch_Migrate migrations)) (fun _ =>
  or_return (store_New (oc_DatabaseURL cfg)) (fun _ =>
  deferring (call (Svc PoolClose)) (
  or_return (Ret (NewS3 url_Parse (oc_S3Endpoint cfg) (oc_S3Bucket cfg))) (fun _ =>
  or_return (StagingRoot (oc_ScratchDir cfg)) (fun scratch =>
  or_return (natsio_Connect (oc_NATSURL cfg)) (fun _ =>
  deferring (svc natsio_Close) (
  or_return (embed (fun X e => Js e) (EnsureStreamForSubject "AETHER_FT_UPLOAD" SubjectUploadLanded)) (fun landedStream =>
  or_return (embed (fun X e => Js e) (EnsureStreamForSubject "AETHER_FT_METERING" SubjectMetering)) (fun _ =>
  or_return (raw ← call (ReadFile (oc_QuotaConfigPath cfg));
             Ret (NewFromFile ((fun _ => ()) <$> raw) (raw ≫= decode_limits) true)) (fun _ =>
  or_return (Ret (NewScheduler {| Slots := oc_SchedulerSlots cfg; PollInterval := oc_SchedulerPollInterval cfg;
                                  StagingDir := scratch; ProgressPersistEvery := 0 |})) (fun sched =>
  or_return (consumer_Start landedStream) (fun _ =>
  deferring (call (Svc ConsumeStop)) (
  or_return (Ret (orch_NewVerifier (oc_JWTSecret cfg))) (fun _ =>
    let worker := (sched, {| ScratchDir := scratch; AutoCreateJobs := oc_AutoCreateJobs cfg |}) in
    _ ← call (Go 0 worker);
    _ ← call (Go 1 worker);
    stop ← call SelectStop;
    match stop with
    | None => _ ← Shutdown; Ret (Returned (Ok ()))
    | Some e => _ ← call (CancelCtx 0); _ ← Shutdown; Ret (Returned (Err e))
    end))))))))))))))
  end)
  end.

Definition orch_process : orchP () := running orch_run.

(** The two goroutines; [sched_Run] is what [sched.Run(ctx)] does. *)
Definition orch_serving : orchP () :=
  goroutine 0 (fun w =>
    e ← ListenAndServe w;
    if bool_decide (e = ErrServerClosed) then Ret () else call (SendErr e)).
Definition orch_scheduling (sched_Run : orchP (option gerror)) : orchP () :=
  goroutine 1 (fun _ =>
    err ← sched_Run;
    match err with
    | Some e => if bool_decide (e = ECanceled) then Ret () else call (SendErr e)
    | None => Ret ()
    end).
End orchestrator.

(** ** cmd/telemetry/main.go *)

Section telemetry.
Context (env : environ) (url_Parse : string -> option (string * string)).
Context (Marshal : json -> result string).
Context (ParseWithClaims : string -> keyfunc -> parse_options -> result jwt_claims).

(** The sampler with its GPU device, if there is one. *)
Abbreviation teleP := (prog (procE (System * option Z) svcE)).

Definition nv {A} (p : prog nvmlE A) : prog svcE A := embed (fun X e => Nv e) p.

(** [jobs.SubjectJobState], [jobs.SubjectJobProgress] and [logstream.SubjectLog]. *)
Definition SubjectJobState : string := "aether.ft.job.state.v1".
Definition tele_SubjectJobProgress : string := "aether.ft.job.progress.v1".
Definition SubjectLog : string := "aether.ft.log.v1".

(** [sys.Close()] *)
Definition sys_Close (gpu : option Z) : prog svcE () :=
  match gpu with
  | None => Ret ()
  | Some _ => _ ← nv nvml_Close; Ret ()
  end.

Definition subscribe_all : prog svcE (result ()) :=
  try (NatsSubscribe SubjectJobState) (fun _ =>
  try (NatsSubscribe tele_SubjectJobProgress) (fun _ =>
  try (NatsSubscribe SubjectLog) (fun _ => Ret (Ok ())))).

(** The GPU reader, or the reason it is absent; any error that is not an
    [UnavailableError] ends [run]. *)
Definition gpu_reader (dev : nvml_error + Z) : result (option Z * string) :=
  match dev with
  | inr dev => Ok (Some dev, "")
  | inl (UnavailableError reason) => Ok (None, reason)
  | inl (OtherError e) => Err e
  end.

Definition tele_run : teleP (flow (result ())) :=
  match tele_Load env url_Parse with
  | Err e => Ret (Returned (Err e))
  | Ok cfg =>
  deferring (call (CancelCtx 0)) (
  or_return (stat ← call (ReadFile "/proc/stat"); Ret (NewCPU stat)) (fun cpu =>
  dev ← svc (nv NewNVML);
  match gpu_reader dev with
  | Err e => Ret (Returned (Err e))
  | Ok (gpu, gpuAbsent) =>
  let sys := {| sys_cpu := cpu; sys_gpuAbsentWhy := gpuAbsent |} in
  deferring (svc (sys_Close gpu)) (
  _ ← call (Go 0 (sys, gpu));
  deferring (call (RecvClosed 0)) (
  deferring (call (CancelCtx 1)) (
  or_return (call (NatsConnect (ec_NATSURL cfg))) (fun _ =>
  deferring (_ ← call (Svc NatsDrain); Ret ()) (
  or_return subscribe_all (fun _ =>
  or_return (Ret (tele_New ParseWithClaims None (ec_AuthHS256Key cfg))) (fun _ =>
    _ ← call (Go 1 (sys, gpu));
    stop ← call SelectStop;
    match stop with
    | None => shut ← Shutdown; Ret (Returned shut)
    | Some e => Ret (Returned (Err e))
    end)))))))
  end))
  end.

Definition tele_process : teleP () := running tele_run.

(** [pipeline.RunHardware] up to [fuel] rounds: whether it returned.  [s.Sample] asks
    its context first. *)
Fixpoint hardware_loop (fuel : nat) (gpu : option Z) (s : System) (last : string) (h : Hub) : teleP bool :=
  match fuel with
  | O => Ret false
  | S fuel =>
      ticked ← call (SelectTick 1);
      if negb ticked then Ret true
      else
        ended ← call (CtxDone 1);
        sampled ← (if ended : bool then Ret (system_Sample (Some ECanceled) (Err ECanceled) None s)
                   else
                     file ← call (Svc (ReadFile "/proc/stat"));
                     reading ← match gpu with
                               | None => Ret None
                               | Some dev => r ← svc (nv (nvml_Read dev)); Ret (Some r)
                               end;
                     Ret (system_Sample None file reading s));
        match sampled with
        | (Err _, s) =>
            ended ← call (CtxDone 1);
            if ended : bool then Ret true else hardware_loop fuel gpu s last h
        | (Ok smp, s) =>
            let '(last, h) := hardware_tick Marshal (Ok smp) last h in
            hardware_loop fuel gpu s last h
        end
  end.

(** The pipeline goroutine, which closes [pipelineDone] when it returns. *)
Definition tele_pipeline (fuel : nat) (h : Hub) : teleP () :=
  goroutine 0 (fun '(sys, gpu) =>
    returned ← hardware_loop fuel gpu sys "" h;
    if returned : bool then call (CloseChan 0) else Ret ()).

Definition tele_serving : teleP () :=
  goroutine 1 (fun v => e ← ListenAndServe v; call (SendErr e)).

(** The health details of [GET /healthz]. *)
Definition tele_health (gpu : option Z) (connected : bool) : list (string * string) :=
  [("gpu", match gpu with None => GPUStateUnavailable | Some _ => GPUStateOK end);
   ("nats", if connected then "connected" else "disconnected")].
End telemetry.
