(* ===== verification/MainProofs.v ===== *)
(** * What the four main functions guarantee

    The disciplines of Process.v hold of the mains and of their goroutines: the
    connections, pools and drivers are opened before they are used, closed once, in the
    reverse order and only after the goroutines that use them are done.  [main] of
    tenancy does not wait for its requests; an [Example] runs the failing case. *)
From S2P Require Export Mains.
From S2P Require Import Oidc.
#[local] Open Scope Z_scope.

(** ** Programs of the service inside main *)

Lemma all_calls_embed {E F A} (i : forall X, E X -> F X) (P : forall X, F X -> Prop) (p : prog E A) :
  all_calls P (embed i p) <-> all_calls (fun X e => P X (i X e)) p.
Proof. induction p as [a|X e k IH]; simpl; [done|]. firstorder. Qed.

Lemma open_close (r : resource) (o : gset resource) : r ∉ o -> ({[ r ]} ∪ o) ∖ {[ r ]} = o.
Proof. intros Hr. apply leibniz_equiv. set_solver. Qed.

Section constructors.
Context {V : Type} (k : Process.users) (needs : V -> gset resource) (clean : Z -> bool).
Abbreviation discp := (disc (E:=svcE) k needs clean).

(** [r] may be closed here. *)
Definition closable (ph : phase V) (r : resource) : Prop :=
  match ph with PLive v | PStopping v => r ∉ needs v | _ => True end.

Lemma next_svc X (e : svcE X) x o (ph : phase V) :
  main_next k (Svc e) x o ph = (touched (access_of e) x o, ph).
Proof. unfold main_next. by destruct ph. Qed.

Lemma disc_svc_call {A X} (e : svcE X) (f : X -> prog svcE A) Q o ph :
  main_ok k needs clean (Svc e) o ph ->
  (forall x, discp (svc (f x)) Q (touched (access_of e) x o) ph) -> discp (svc (call e ≫= f)) Q o ph.
Proof. intros He Hf. split; [done|]. intros x _. rewrite next_svc. apply Hf. Qed.

Lemma disc_svc_ret {A} (a : A) (Q : A -> gset resource -> phase V -> Prop) o ph :
  Q a o ph -> discp (svc (Ret a)) Q o ph.
Proof. done. Qed.

Lemma disc_svc_bind {A B} (p : prog svcE A) (f : A -> prog svcE B) Q o ph :
  discp (svc p) (fun a => discp (svc (f a)) Q) o ph -> discp (svc (p ≫= f)) Q o ph.
Proof.
  revert o ph. induction p as [a|X e kont IH]; intros o ph; [done|].
  intros [Hm Hk]. split; [done|]. intros x Hx. by apply IH, Hk.
Qed.

Lemma disc_svc_try {Y B} (e : svcE (result Y)) (f : Y -> prog svcE (result B)) Q o ph :
  main_ok k needs clean (Svc e) o ph ->
  (forall err, Q (Err err) (touched (access_of e) (Err err) o) ph) ->
  (forall y, discp (svc (f y)) Q (touched (access_of e) (Ok y) o) ph) -> discp (svc (try e f)) Q o ph.
Proof. intros He Herr Hf. apply disc_svc_call; [done|]. intros [y|err]; [apply Hf|by apply disc_svc_ret]. Qed.

Lemma disc_svc_try_as {Y B} msg (e : svcE (result Y)) (f : Y -> prog svcE (result B)) Q o ph :
  main_ok k needs clean (Svc e) o ph ->
  (forall err, Q (Err (EMsg msg)) (touched (access_of e) (Err err) o) ph) ->
  (forall y, discp (svc (f y)) Q (touched (access_of e) (Ok y) o) ph) -> discp (svc (try_as msg e f)) Q o ph.
Proof. intros He Herr Hf. apply disc_svc_call; [done|]. intros [y|err]; [apply Hf|by apply disc_svc_ret]. Qed.

Lemma disc_embed_bind {F A B} (i : forall X, F X -> svcE X) (p : prog F A) (f : A -> prog F B) Q o ph :
  discp (svc (embed i p)) (fun a => discp (svc (embed i (f a))) Q) o ph -> discp (svc (embed i (p ≫= f))) Q o ph.
Proof.
  revert o ph. induction p as [a|X e kont IH]; intros o ph; [done|].
  intros [Hm Hk]. split; [done|]. intros x Hx. by apply IH, Hk.
Qed.

Lemma disc_embed_call {F A X} (i : forall X, F X -> svcE X) (e : F X) (f : X -> prog F A) Q o ph :
  main_ok k needs clean (Svc (i X e)) o ph ->
  (forall x, discp (svc (embed i (f x))) Q (touched (access_of (i X e)) x o) ph) ->
  discp (svc (embed i (call e ≫= f))) Q o ph.
Proof. intros He Hf. split; [done|]. intros x _. rewrite next_svc. apply Hf. Qed.

(** A constructor opens all of [rs], or nothing. *)
Definition opening {A} (p : prog svcE (result A)) (rs : gset resource) : Prop :=
  forall Q o ph, RConn ∉ o -> rs ## o -> (forall r, r ∈ rs \/ r = RConn -> closable ph r) ->
    (forall a, Q (Ok a) (rs ∪ o) ph) -> (forall e, Q (Err e) o ph) -> discp (svc p) Q o ph.

Lemma pinged_opening msg url : opening (try_as msg (PoolNew url) (fun _ => pinged)) {[ RPool ]}.
Proof.
  intros Q o ph _ Hr Hc Hok Herr. apply disc_svc_try_as; [done|done|]. intros []. simpl.
  apply disc_svc_call; [simpl; set_solver|]. intros [[]|e]; simpl; [by apply disc_svc_ret|].
  apply disc_svc_call; [simpl; split; [set_solver|by apply Hc; set_solver]|]. intros []. simpl.
  rewrite open_close by set_solver. by apply disc_svc_ret.
Qed.

(** A step that uses only what is open. *)
Lemma disc_svc_keeps {A B} (p : prog svcE A) (f : A -> prog svcE B) Q o ph :
  all_calls (keeps o) p -> (forall a, discp (svc (f a)) Q o ph) -> discp (svc (p ≫= f)) Q o ph.
Proof. intros Hp Hf. apply disc_svc_bind. by apply disc_svc. Qed.

Lemma or_close_disc p f Q o ph :
  all_calls (keeps o) p -> RNats ∈ o -> closable ph RNats ->
  (forall e, Q (Err e) (o ∖ {[ RNats ]}) ph) -> discp (svc f) Q o ph -> discp (svc (or_close p f)) Q o ph.
Proof.
  intros Hp Hn Hc Herr Hf. apply disc_svc_keeps; [done|]. intros [[]|e]; [done|].
  apply disc_svc_call; [by split|]. intros []. by apply disc_svc_ret.
Qed.

Lemma jetstream_disc msg url f Q o ph :
  RNats ∉ o -> closable ph RNats -> (forall e, Q (Err e) o ph) -> discp (svc f) Q ({[ RNats ]} ∪ o) ph ->
  discp (svc (jetstream_connect msg url f)) Q o ph.
Proof.
  intros Hn Hc Herr Hf. apply disc_svc_try_as; [done|done|]. intros []. simpl.
  apply disc_svc_call; [simpl; set_solver|]. intros [[]|e]; simpl; [done|].
  apply disc_svc_call; [simpl; split; [set_solver|done]|]. intros []. simpl.
  rewrite open_close by done. by apply disc_svc_ret.
Qed.

Lemma js_keeps {A} (p : prog jsE A) (o : gset resource) :
  RNats ∈ o -> all_calls (keeps o) (embed (fun X e => Js e) p).
Proof. intros Hn. apply all_calls_embed. by induction p as [a|X e kont IH]; simpl. Qed.

Lemma publisher_opening url : opening (NewJetStreamPublisher url) {[ RNats ]}.
Proof.
  intros Q o ph _ Hr Hc Hok Herr. apply jetstream_disc; [set_solver|apply Hc; set_solver|done|].
  apply or_close_disc; [apply js_keeps; set_solver|set_solver|apply Hc; set_solver| |].
  - intros e. by rewrite open_close by set_solver.
  - by apply disc_svc_ret.
Qed.

Lemma natsio_opening url : opening (natsio_Connect url) {[ RNats ]}.
Proof.
  intros Q o ph _ Hr Hc Hok Herr. apply jetstream_disc; [set_solver|apply Hc; set_solver|done|].
  by apply disc_svc_ret.
Qed.

Lemma metering_opening url : opening (NewMeteringConsumer url) {[ RConsumer; RNats ]}.
Proof.
  intros Q o ph _ Hr Hc Hok Herr. apply jetstream_disc; [set_solver|apply Hc; set_solver|done|].
  apply or_close_disc; [apply js_keeps; set_solver|set_solver|apply Hc; set_solver| |].
  { intros e. by rewrite open_close by set_solver. }
  apply disc_svc_bind. split; [done|]. intros [[]|e] _; rewrite next_svc; simpl.
  - apply disc_svc_ret. rewrite (assoc_L (∪)). apply Hok.
  - apply disc_svc_call; [simpl; split; [set_solver|apply Hc; set_solver]|]. intros []. simpl.
    rewrite open_close by set_solver. by apply disc_svc_ret.
Qed.

(** The migrations use their connection, and close it. *)
Definition uses_conn X (e : migE X) : Prop := match mig_access e with Uses RConn => True | _ => False end.

Lemma mig_keeps {A} (p : prog migE A) (o : gset resource) :
  all_calls uses_conn p -> RConn ∈ o -> all_calls (keeps o) (embed (fun X e => Mig e) p).
Proof.
  intros Hp Hn. apply all_calls_embed. eapply all_calls_impl; [|exact Hp]. intros X e. unfold keeps, uses_conn.
  change (access_of (Mig e)) with (mig_access e). destruct (mig_access e) as [|[]| | |]; naive_solver.
Qed.

Lemma apply_one_access m : all_calls uses_conn (apply_one m).
Proof. unfold apply_one, try_as, rolled_back. calls_tac. Qed.

Lemma apply_pending_access applied migs : all_calls uses_conn (apply_pending applied migs).
Proof.
  induction migs as [|m migs IH]; simpl; [done|]. case_bool_decide; [done|].
  apply all_calls_bind; [apply apply_one_access|]. by intros [].
Qed.
#[local] Hint Resolve apply_pending_access : calls.

Lemma locked_access migs : all_calls uses_conn (locked migs).
Proof. unfold locked, try_as. calls_tac. Qed.
#[local] Hint Resolve locked_access : calls.

Lemma runMigrations_access files : all_calls uses_conn (runMigrations files).
Proof. unfold runMigrations. calls_tac. Qed.

Lemma tenancy_store_opening files url : opening (tenancy_NewPostgresStore files url) {[ RPool ]}.
Proof.
  intros Q o ph Hn Hr Hc Hok Herr. apply disc_svc_try_as; [done|done|]. intros []. simpl.
  apply disc_svc_keeps; [apply mig_keeps; [apply runMigrations_access|set_solver]|]. intros [[]|e].
  - apply disc_svc_try_as; simpl; [split; [set_solver|by apply Hc; right]| |]; rewrite open_close by done; [done|].
    intros []. by apply pinged_opening.
  - apply disc_svc_call; [simpl; split; [set_solver|by apply Hc; right]|]. intros x. simpl.
    rewrite open_close by done. by apply disc_svc_ret.
Qed.

Lemma orch_migrate_disc files Q o ph :
  RConn ∉ o -> closable ph RConn -> (forall r, Q r o ph) ->
  discp (svc (embed (fun X e => Mig e) (orch_Migrate files))) Q o ph.
Proof.
  intros Hn Hc HQ. unfold orch_Migrate. destruct (loadMigrations files) as [migs|e]; [|by apply disc_svc_ret].
  split; [done|]. intros [[]|e] _; rewrite next_svc; [|apply HQ].
  apply disc_embed_bind. apply disc_svc; [apply mig_keeps; [apply locked_access|simpl; set_solver]|].
  intros r. split; [simpl; split; [set_solver|done]|]. intros x _. rewrite next_svc. simpl.
  rewrite open_close by done. apply HQ.
Qed.

(** NVML is open exactly when a device was found. *)
Lemma nvml_disc Q o ph :
  RNVML ∉ o -> closable ph RNVML ->
  (forall dev, Q dev (match dev with inl _ => o | inr _ => {[ RNVML ]} ∪ o end) ph) ->
  discp (svc (nv NewNVML)) Q o ph.
Proof.
  intros Hn Hc HQ. pose proof (fun reason => HQ (inl reason)) as Hl. pose proof (fun dev => HQ (inr dev)) as Hr. apply disc_embed_call; [done|]. intros [[]|e]; [|apply Hl].
  assert (Hdown : forall reason, discp (svc (nv (_ ← call NvShutdown; Ret (inl reason)))) Q ({[ RNVML ]} ∪ o) ph).
  { intros reason. apply disc_embed_call; [simpl; split; [set_solver|done]|]. intros x. simpl.
    rewrite open_close by done. apply Hl. }
  apply disc_embed_call; [by apply elem_of_union_l, elem_of_singleton|]. intros [cnt|e]; [|apply Hdown].
  destruct (cnt =? 0); [apply Hdown|]. apply disc_embed_call; [by apply elem_of_union_l, elem_of_singleton|].
  intros [dev|e]; [apply Hr|apply Hdown].
Qed.

Lemma consumer_opening stream Q o ph :
  RConsumer ∉ o -> RNats ∈ o -> (forall r, Q (Ok r) ({[ RConsumer ]} ∪ o) ph) -> (forall e, Q (Err e) o ph) ->
  discp (svc (consumer_Start stream)) Q o ph.
Proof.
  intros Hn Hin Hok Herr. apply disc_svc_keeps; [by apply js_keeps|]. intros [[]|e]; [|by apply disc_svc_ret].
  apply disc_svc_try_as; [done|done|]. intros []. by apply disc_svc_ret.
Qed.

Lemma sys_Close_disc gpu Q o ph :
  RNVML ∉ o -> closable ph RNVML -> Q () o ph ->
  discp (svc (sys_Close gpu)) Q (match gpu with Some _ => {[ RNVML ]} ∪ o | None => o end) ph.
Proof.
  intros Hn Hc HQ. destruct gpu; [|done]. apply disc_svc_bind, disc_embed_call.
  - simpl. split; [set_solver|done].
  - intros x. simpl. by rewrite open_close.
Qed.

Lemma disc_or_exit {A B} (p : prog svcE (result A)) (f : A -> prog (procE V svcE) (flow B)) Q o ph :
  (clean 1 = false) -> (forall o ph, Q Exited o ph) ->
  discp (svc p) (fun r o ph => match r with Ok a => discp (f a) Q o ph | Err _ => True end) o ph ->
  discp (or_exit p f) Q o ph.
Proof.
  intros Hc HQ Hp. apply disc_bind. eapply disc_mono; [exact Hp|]. intros [a|e] o' ph'; [done|].
  intros _. apply disc_exit; [by rewrite Hc|apply HQ].
Qed.

Lemma disc_or_return {A B} (p : prog svcE (result A)) (f : A -> prog (procE V svcE) (flow (result B))) Q o ph :
  discp (svc p) (fun r o ph => match r with Ok a => discp (f a) Q o ph | Err e => Q (Returned (Err e)) o ph end) o ph ->
  discp (or_return p f) Q o ph.
Proof. intros Hp. apply disc_bind. eapply disc_mono; [exact Hp|]. by intros [a|e] o' ph'. Qed.
End constructors.

(** A program after another, in a postcondition. *)
Definition next {V} k needs clean (p : prog (procE V svcE) ()) Q (_ : ()) o ph := disc k needs clean p Q o ph.

(** [os.Exit(1)] after an error, or the return. *)
Definition exit_of {V} (a : result ()) : prog (procE V svcE) () :=
  match a with Ok _ => call (Exit 0) | Err _ => call (Exit 1) end.

(** ** upload

    Guarded are the pool and the NATS connection, while a request is handled. *)

Definition every_resource : gset resource := {[ RConn; RPool; RNats; RConsumer; RNVML ]}.

Lemma no_misuse (m : gset resource) : every_resource ## m -> m = ∅.
Proof.
  intros Hm. apply leibniz_equiv, equiv_empty. intros r Hr. destruct (Hm r); [|done].
  unfold every_resource. destruct r; set_solver.
Qed.

Definition upload_needs (_ : UploadServer.Server) : gset resource := {[ RPool; RNats ]}.
Definition exits_0 (code : Z) : bool := code =? 0.

Section upload.
Context (env : environ) (range : list (string * string) -> list (string * string)).
Context (yamlDecode jsonDecode : string -> result QuotaConfigFile).
Context (url_Parse : string -> option (string * string)).

Lemma upload_disc :
  disc Handlers upload_needs exits_0 (upload_process env range yamlDecode jsonDecode url_Parse)
    (fun _ _ _ => True) ∅ PBefore.
Proof.
  apply disc_bind. unfold upload_run.
  destruct (upload_LoadConfig env range) as [cfg|e]; [|by apply disc_exit].
  apply disc_deferring, disc_or_exit; [done|done|]. apply disc_svc_call; [done|]. intros raw.
  apply disc_svc_ret. destruct (LoadConfigQuota _ _ _ _) as [quota|]; [|done].
  apply disc_or_exit; [done|done|].
  apply pinged_opening; [set_solver|set_solver|done| |done]. intros _.
  apply disc_deferring, disc_or_exit; [done|done|]. apply disc_svc_ret.
  destruct (NewS3BlobStore _ _) as [[]|]; [|done].
  apply disc_or_exit; [done|done|].
  apply publisher_opening; [set_solver|set_solver|done| |done]. intros _. apply disc_deferring.
  destruct (upload_main cfg) as [[srv gauge] backoff]. apply disc_call_bind; [intros _; split; [done|set_solver]|].
  intros [] _. apply disc_call_bind; [done|]. intros [e|] Hstop.
  - rewrite bool_decide_eq_false_2 by (intros ->; by apply Hstop). by apply disc_exit.
  - apply disc_bind, disc_call_bind; [done|]. intros [] _. split; [done|]. intros [[]|e] _; [|by apply disc_exit].
    apply disc_svc_call; [split; [set_solver|done]|]. intros x. split; [split; [set_solver|done]|]. intros [] _.
    split; [done|]. intros [] _. split; [|done]. intros _. apply leibniz_equiv. simpl. set_solver.
Qed.

Lemma upload_serving_udisc :
  udisc Handlers every_resource upload_needs upload_serving (fun _ _ => True) HNothing.
Proof.
  apply udisc_bind. split; [done|]. intros srv. apply udisc_bind. split; [done|]. intros [[]|e].
  - split; [done|]. intros e. split; [|done]. intros _ ->. done.
  - split; [|done]. intros _ ->. done.
Qed.

Lemma upload_handling_udisc handler :
  udisc Handlers every_resource upload_needs (upload_handling handler) (fun _ _ => True) HNothing.
Proof.
  split; [done|]. intros srv. split; [done|]. intros [|]; [|by split]. apply udisc_bind, udisc_svc.
  - apply all_calls_embed. induction (handler srv) as [a|X e kont IH]; [done|]. split; [|done].
    unfold Process.may. simpl. unfold upload_access. destruct e; simpl; try done; intros _; exists srv; (split; [done|set_solver]).
  - intros []. done.
Qed.

(** Nothing but a NATS connection is closed in the background. *)
Lemma only_nats_drains X (e : svcE X) r ok : access_of e = Drains r ok -> r ∈ ({[ RNats ]} : gset resource).
Proof.
  destruct e; unfold access_of, svc_access, mig_access, nvml_access, upload_access, tenancy_access, orch_access;
    intros H; repeat case_match; try discriminate H. injection H as <- _. set_solver.
Qed.

(** C34: a stopping upload service serves every request it accepted, and then releases
    what it holds.  Whatever the configuration and the answers of everything outside, for
    any number of concurrent requests whose handlers do anything with the store and the
    publisher, start before or after the shutdown began, and wherever the signal arrives:
    no handler ever uses the connection pool or the NATS connection when [main] has
    given it up, neither is given up twice or unopened, and when the process exits with
    code 0 no accepted request is left, the pool is closed and the NATS connection is
    closed or being drained: [Drain] goes on in the background, and the exit does not
    wait for it ([upload_exits_while_nats_drains]). *)
Theorem upload_shutdown_is_graceful handlers ts w :
  rtc (lpool_step proc_do)
    (threads (upload_process env range yamlDecode jsonDecode url_Parse :: upload_serving :: signalled ::
              nats_draining :: (upload_handling <$> handlers)), process_start) (ts, w) ->
  pw_misuse w = ∅ /\
  (pw_exit w = Some 0 -> pw_inflight w = ∅ /\ pw_open w = ∅ /\ pw_draining w ⊆ {[ RNats ]}).
Proof.
  intros Hr. assert (Hd : pw_draining w ⊆ {[ RNats ]}).
  { apply (draining_within {[ RNats ]} _ _ _ _ only_nats_drains Hr). set_solver. }
  eapply (disciplined Handlers every_resource upload_needs exits_0) in Hr; [|apply upload_disc|].
  - destruct Hr as (Hm & Hl & Hx). split; [by apply no_misuse|]. intros H0.
    assert (Ho : pw_open w = ∅) by (by apply (Hx 0)). split; [|done].
    apply map_empty. intros i. destruct (pw_inflight w !! i) as [v|] eqn:Hi; [|done]. exfalso.
    specialize (Hl v (or_intror (or_intror (ex_intro _ i Hi)))). rewrite Ho in Hl. unfold upload_needs in Hl. set_solver.
  - constructor; [apply upload_serving_udisc|]. constructor; [by split|]. constructor; [by split|].
    apply Forall_fmap, Forall_forall. intros h _. apply upload_handling_udisc.
Qed.
End upload.

(** ** telemetry

    Guarded is the NVML library, while the pipeline runs. *)

Definition tele_needs (v : System * option Z) : gset resource :=
  match v.2 with Some _ => {[ RNVML ]} | None => ∅ end.

Section telemetry.
Context (env : environ) (url_Parse : string -> option (string * string)).
Context (Marshal : json -> result string).
Context (ParseWithClaims : string -> keyfunc -> parse_options -> result jwt_claims).

Abbreviation discp := (disc (E:=svcE) Worker tele_needs (fun _ => true)).

Lemma subscribe_disc (Q : result () -> gset resource -> phase (System * option Z) -> Prop) o ph :
  RNats ∈ o -> (forall r, Q r o ph) -> discp (svc subscribe_all) Q o ph.
Proof. intros Hn HQ. apply disc_svc; [|done]. unfold subscribe_all, try. calls_tac; unfold keeps; simpl; done. Qed.

(** What is deferred in [run], and the exit. *)
Abbreviation then_ := (next Worker tele_needs (fun _ => true)).
Definition tele_exit (a : result ()) := then_ (exit_of a) (fun _ _ _ => True).
Definition tele_deferred (gpu : option Z) (a : result ()) :=
  then_ (call (CancelCtx 1)) (then_ (call (RecvClosed 0)) (then_ (svc (sys_Close gpu))
    (then_ (call (CancelCtx 0)) (tele_exit a)))).
Definition tele_drained (gpu : option Z) (a : result ()) :=
  then_ (_ ← call (Svc NatsDrain); Ret ()) (tele_deferred gpu a).

Definition nvml_open (gpu : option Z) : gset resource := match gpu with Some _ => {[ RNVML ]} ∪ ∅ | None => ∅ end.

Lemma tele_deferred_ok sys gpu a ph :
  ph = PLive (sys, gpu) \/ ph = PStopping (sys, gpu) -> tele_deferred gpu a () (nvml_open gpu) ph.
Proof.
  intros Hph. split; [done|]. intros [] _. split; [done|]. intros [] _.
  replace (main_next _ (RecvClosed 0) _ _ _).2 with (PDead (V:=System * option Z)) by (destruct Hph as [->| ->]; done).
  apply sys_Close_disc; [set_solver|done|]. split; [done|]. intros [] _. by destruct a.
Qed.

Lemma tele_drained_ok sys gpu a ph :
  ph = PLive (sys, gpu) \/ ph = PStopping (sys, gpu) -> tele_drained gpu a () ({[ RNats ]} ∪ nvml_open gpu) ph.
Proof.
  intros Hph. unfold tele_drained, next. apply disc_call_bind.
  - simpl. split; [set_solver|]. destruct Hph as [->| ->]; unfold tele_needs; destruct gpu; set_solver.
  - intros x _. rewrite next_svc. simpl. rewrite open_close by (unfold nvml_open; destruct gpu; set_solver).
    by eapply tele_deferred_ok.
Qed.

Lemma tele_disc :
  disc Worker tele_needs (fun _ => true) (tele_process env url_Parse ParseWithClaims)
    (fun _ _ _ => True) ∅ PBefore.
Proof.
  apply disc_bind. unfold tele_run. destruct (tele_Load env url_Parse) as [cfg|e]; [|by split].
  apply disc_deferring, disc_or_return, disc_svc_call; [done|]. intros stat.
  apply disc_svc_ret. change (touched _ stat ∅) with (∅ : gset resource).
  destruct (NewCPU stat) as [cpu|e]; [|by repeat split].
  apply disc_bind, nvml_disc; [set_solver|done|]. intros dev.
  set (o := match dev with inl _ => ∅ | inr _ => {[ RNVML ]} ∪ ∅ end : gset resource).
  assert (Hgpu : match gpu_reader dev with Err _ => o = ∅ | Ok (gpu, _) => o = nvml_open gpu end)
    by (subst o; destruct dev as [[reason|e]|d]; reflexivity).
  clearbody o. revert Hgpu.
  destruct (gpu_reader dev) as [[gpu gpuAbsent]|e]; intros ->; [|by repeat split]. cbv zeta. set (sys := Build_System _ _).
  clearbody sys. apply disc_deferring, disc_call_bind.
  { intros _. split; [done|]. unfold tele_needs. simpl. by destruct gpu; set_solver. }
  intros [] _. do 2 apply disc_deferring. apply disc_or_return.
  split; [done|]. intros [[]|e] _; [|by apply (tele_deferred_ok sys gpu (Err e)); left].
  apply disc_deferring, disc_or_return, subscribe_disc; [simpl; set_solver|].
  intros [[]|e]; [|by apply (tele_drained_ok sys gpu (Err e)); left].
  apply disc_or_return, disc_svc_ret.
  destruct (tele_New _ _ _) as [handler|e]; [|by apply (tele_drained_ok sys gpu (Err e)); left].
  apply disc_call_bind; [done|]. intros [] _. apply disc_call_bind; [done|]. intros [e|] _.
  - by apply (tele_drained_ok sys gpu (Err e)); left.
  - apply disc_bind, disc_call_bind; [done|]. intros [] _. split; [done|]. intros a _.
    by apply (tele_drained_ok sys gpu a); right.
Qed.

Abbreviation udiscp := (udisc (E:=svcE) Worker every_resource tele_needs).

Lemma nvml_Read_may sys dev :
  all_calls (Process.may Worker every_resource tele_needs (HUse (sys, Some dev))) (nv (nvml_Read dev)).
Proof.
  apply all_calls_embed. unfold nvml_Read.
  assert (Hv : exists v, HUse (sys, Some dev) = HUse v /\ RNVML ∈ tele_needs v).
  { eexists. split; [done|]. unfold tele_needs; set_solver. }
  calls_tac; exact (fun _ => Hv).
Qed.

Lemma hardware_loop_udisc fuel sys gpu s last h (Q : bool -> holding (System * option Z) -> Prop) :
  (forall b, Q b (HUse (sys, gpu))) -> udiscp (hardware_loop Marshal fuel gpu s last h) Q (HUse (sys, gpu)).
Proof.
  intros HQ. revert s last h. induction fuel as [|fuel IH]; intros s last h; [apply HQ|].
  cbn [hardware_loop].
  split; [done|]. intros [|] ; [|apply HQ]. split; [done|]. intros ended.
  apply udisc_bind. set (P := fun (_ : result Sample * System) u => u = HUse (sys, gpu)).
  apply (udisc_mono Worker every_resource tele_needs _ P).
  - destruct ended; [done|]. split; [done|]. intros file. apply udisc_bind. destruct gpu as [dev|]; [|done].
    apply udisc_bind. apply (udisc_svc Worker every_resource tele_needs (nv (nvml_Read dev))); [|done].
    apply nvml_Read_may.
  - intros [[smp|e] s'] u ->.
    + destruct (hardware_tick Marshal (Ok smp) last h) as [last' h']. apply IH.
    + split; [done|]. intros [|]; [apply HQ|apply IH].
Qed.

Lemma tele_pipeline_udisc fuel h : udiscp (tele_pipeline Marshal fuel h) (fun _ _ => True) HNothing.
Proof.
  split; [done|]. intros [sys gpu]. apply udisc_bind, hardware_loop_udisc. intros [|]; [|done].
  split; [|done]. intros _ _. by eexists.
Qed.

Lemma tele_serving_udisc : udiscp tele_serving (fun _ _ => True) HNothing.
Proof. apply udisc_bind. split; [done|]. intros v. apply udisc_bind. split; [done|]. by intros [[]|e]. Qed.

(** C35: the hardware sampler never races the NVML shutdown.  Whatever the
    configuration and the answers of everything outside, however long the pipeline runs
    and wherever the signal or an error arrives: the pipeline never calls NVML when it is
    not initialised, NVML and the NATS connection are never given up twice, and when
    the process exits, with success or with an error, NVML is shut down if it was
    initialised and nothing is open but a NATS connection that is still draining
    ([telemetry_exits_while_nats_drains]). *)
Theorem sampler_never_races_shutdown fuel h requests ts w :
  rtc (lpool_step proc_do)
    (threads (tele_process env url_Parse ParseWithClaims :: tele_pipeline Marshal fuel h :: tele_serving ::
              signalled :: nats_draining :: replicate requests (handling (fun _ => Ret ()))), process_start) (ts, w) ->
  pw_misuse w = ∅ /\ (is_Some (pw_exit w) -> pw_open w = ∅ /\ pw_draining w ⊆ {[ RNats ]}).
Proof.
  intros Hr. assert (Hd : pw_draining w ⊆ {[ RNats ]}).
  { apply (draining_within {[ RNats ]} _ _ _ _ only_nats_drains Hr). set_solver. }
  eapply (disciplined Worker every_resource tele_needs (fun _ => true)) in Hr; [|apply tele_disc|].
  - destruct Hr as (Hm & _ & Hx). split; [by apply no_misuse|]. intros [c Hc]. split; [by apply (Hx c)|done].
  - constructor; [apply tele_pipeline_udisc|]. constructor; [apply tele_serving_udisc|]. do 2 (constructor; [by split|]).
    apply Forall_forall. intros p [-> _]%elem_of_replicate. split; [done|]. intros v. split; [done|]. by intros [].
Qed.
End telemetry.

(** ** Running the mains

    Everything outside answers, and with success where it can; the store finds
    nothing. *)
Definition mig_ans {X} (e : migE X) : X :=
  match e in res _ X return X with
  | R c => match c with ReadVersions => Ok [] | Connect | AdvisoryLock | AdvisoryUnlock | CreateTable | Begin
                      | ExecSQL _ | InsertVersion _ | Commit | Rollback | CloseConn => Ok () end
  end.
Definition js_ans {X} (e : jsE X) : X :=
  match e in res _ X return X with
  | R c => match c with StreamNameBySubject _ => Ok ftStreamName
                      | _ => Ok () end
  end.
Definition gate_ans {X} (e : runnerE X) : X :=
  match e in runnerE X return X with
  | Output _ _ => ("configuration: --enable-shared", "", None)
  | Start _ _ => Err ENotFound
  | Wait => ("", None)
  | FFmpeg.CtxErr => None
  | OnProgress _ => ()
  end.
Definition nvml_ans {X} (e : nvmlE X) : X :=
  match e in nvmlE X return X with
  | NvInit | NvShutdown => Ok ()
  | NvDeviceGetCount => Ok 1
  | NvMemoryInfo _ => Ok (1, 2)
  | NvDeviceGetHandleByIndex _ | NvUtilizationGpu _ | NvTemperature _ | NvPowerUsage _ | NvEncoderSessions _ => Ok 0
  end.
Definition upload_ans {X} (e : upE X) : X :=
  match e in upE X return X with
  | Store _ | Blob _ | Quota _ _ => Err ENotFound
  | Publish _ _ => Ok ()
  | Gauge_TryAcquire _ => true
  | Gauge_Release _ | Backoff_Reset _ => ()
  | Backoff_Deny _ => 0
  | UploadServer.NewV7 => Ok ""
  | UploadServer.Now => 0
  | WaitDone _ => None
  end.
Definition tenancy_ans {X} (e : Tenancy.tenE X) : X :=
  match e in Tenancy.tenE X return X with
  | Tenancy.TStore _ => Err ENotFound
  | Tenancy.TNow => 0
  | Tenancy.NewString => ""
  | Tenancy.RandRead _ => Err ENotFound
  | Tenancy.HttpDo _ => Ok {| Tenancy.hp_Status := 200; Tenancy.hp_Body := {| st_bytes := ""; st_err := None |} |}
  | Tenancy.LoadKeys => (∅, 0)
  | Tenancy.StoreKeys _ _ => ()
  end.
Definition orch_ans {X} (e : orchE X) : X :=
  match e in orchE X return X with
  | OStore _ | Admission _ | Events.NewV7 | Events.Exists _ | PutDir _ _ | MkdirTemp _ _ => Err ENotFound
  | Events.Now => 0
  | PublishMetering _ | PublishProgress _ | Download _ _ => Ok ()
  | CancelRun _ => false
  | EngProbe _ => inl (EngineCtx ECanceled)
  | EngTranscode _ _ => ([], None)
  | Events.CtxErr | ParentErr => None
  | Events.Wake | RemoveAll _ | Register _ | Deregister _ | Ack | Term | NakWithDelay _ => ()
  end.
Definition svc_ans X (e : svcE X) : X :=
  match e in svcE X return X with
  | ReadFile _ => Ok ("cpu  10 0 5 80 5 0" +:+ String (ascii_of_nat 10) "")
  | MkdirAll _ | PoolNew _ | PoolPing | NatsConnect _ | JetstreamNew | NatsDrain | NatsSubscribe _ | Consume => Ok ()
  | PoolClose | NatsClose | ConsumeStop => ()
  | Mig e => mig_ans e
  | Js e => js_ans e
  | Gate e => gate_ans e
  | Nv e => nvml_ans e
  | Up e => upload_ans e
  | Ten e => tenancy_ans e
  | Orch e => orch_ans e
  end.

Definition ex_quota_file : QuotaConfigFile :=
  {| DenyUnknownWorkspaces := false;
     Contracts.Defaults := {| Contracts.MaxUploadBytes := None; AllowUploads := None; AllowJobs := None |};
     Contracts.Workspaces := ∅ |}.

Definition ex_upload_run_env : environ := <["UPLOAD_QUOTA_CONFIG_PATH" := "/etc/quota.json"]> ex_upload_env.

(** A request that asks the store. *)
Definition ex_request (_ : UploadServer.Server) : prog upE () := _ ← call (Store (GetSession "s")); Ret ().

Definition ex_upload_threads :=
  upload_process ex_upload_run_env id (fun _ => Ok ex_quota_file) (fun _ => Ok ex_quota_file) ex_url ::
  upload_serving :: signalled :: nats_draining :: (upload_handling <$> [ex_request]).

(** The signal arrives when a connection was accepted, and the request on it is read
    and handled after [Shutdown] was called: [main] waits for it. *)
Definition ex_upload_schedule : list (nat * bool) :=
  ((fun i => (i, true)) <$> [0;0;0;0;0;0;0; 1;1; 4; 2; 0;0; 4;4;4; 0;0;0;0;0]%nat).

Definition outcome_of {V} (c : option (list (prog (procE V svcE) ()) * process V)) :
    option (option Z * list resource * list resource) :=
  (fun c => (pw_exit c.2, elements (pw_open c.2), elements (pw_misuse c.2))) <$> c.

Example upload_stops : outcome_of (proc_sched svc_ans ex_upload_schedule (ex_upload_threads, process_start)) = Some (Some 0, [], []).
Proof. vm_compute. reflexivity. Qed.

(** The final state of a run. *)
Definition ends {V} (c : option (list (prog (procE V svcE) ()) * process V)) (P : process V -> Prop) : Prop :=
  match c with Some c => P c.2 | None => False end.

Lemma upload_shutdown_is_graceful_witness :
  ends (proc_sched svc_ans ex_upload_schedule (ex_upload_threads, process_start))
    (fun w => pw_exit w = Some 0 /\ pw_misuse w = ∅ /\
              (pw_inflight w = ∅ /\ pw_open w = ∅ /\ pw_draining w ⊆ {[ RNats ]})).
Proof.
  pose proof upload_stops as Ho. destruct (proc_sched _ _ _) as [c|] eqn:Hc; [|discriminate Ho].
  injection Ho as Hx _ _. simpl. split; [exact Hx|].
  destruct (upload_shutdown_is_graceful ex_upload_run_env id (fun _ => Ok ex_quota_file) (fun _ => Ok ex_quota_file)
              ex_url [ex_request] _ c.2 (proc_sched_reachable svc_ans _ _ _ c Hc)) as [Hm Hopen].
  split; [exact Hm|exact (Hopen Hx)].
Defined.

(** [Drain] only starts: the process exits while the connection drains, unless that
    happens to be over before. *)
Example upload_exits_while_nats_drains :
  ends (proc_sched svc_ans ex_upload_schedule (ex_upload_threads, process_start))
    (fun w => pw_exit w = Some 0 /\ pw_open w = ∅ /\ pw_draining w = {[ RNats ]}) /\
  let late := take 18 ex_upload_schedule ++ [(3%nat, true)] ++ drop 18 ex_upload_schedule in
  ends (proc_sched svc_ans late (ex_upload_threads, process_start))
    (fun w => pw_exit w = Some 0 /\ pw_open w = ∅ /\ pw_draining w = ∅).
Proof. vm_compute. by repeat split. Qed.

(** *** tenancy does not wait

    [ListenAndServe] returns as soon as [Shutdown] is called, not when it is done, and
    [main] returns with it: the deferred [store.Close] runs under a request that was
    accepted, and the process exits without its answer. *)
Definition ex_discovery : discoveryDoc :=
  {| dd_Issuer := tc_OIDCIssuer ex_tenancy_config; dd_AuthorizationEndpoint := "https://a";
     dd_TokenEndpoint := "https://t"; dd_JWKSURI := "https://k" |}.

Definition ex_tenancy_threads :=
  tenancy_process ex_tenancy_env ex_url id (fun _ => Ok MeteredQuota.ex_tiers) (fun _ => Ok ex_discovery)
    (Ok [("1_init.up.sql", Ok "CREATE")]) ::
  tenancy_stopping :: signalled ::
  (tenancy_handling <$> [fun _ => _ ← call (Tenancy.TStore (TenancyStore.GetUser "u")); Ret ()]).

Example tenancy_exits_under_requests :
  let start := (fun i => (i, true)) <$> (replicate 21 0 ++ [3; 3; 2; 1; 1; 1; 0; 0; 0; 0; 3; 0])%nat in
  outcome_of (proc_sched svc_ans start (ex_tenancy_threads, process_start)) = Some (None, [], [RPool]) /\
  let exit := (fun i => (i, true)) <$> (replicate 21 0 ++ [3; 3; 2; 1; 1; 1; 0; 0; 0; 0; 0; 0])%nat in
  ends (proc_sched svc_ans exit (ex_tenancy_threads, process_start))
    (fun w => pw_exit w = Some 0 /\ pw_inflight w !! 3%nat <> None).
Proof. vm_compute. split; [reflexivity|]. split; [reflexivity|discriminate]. Qed.

(** *** telemetry *)

Definition ex_tele_threads :=
  tele_process ex_tele_env ex_url (fun _ _ _ => Err ENotFound) ::
  tele_pipeline (fun _ => Ok "{}") 2 (Hub.New 16) :: tele_serving :: signalled :: nats_draining ::
  replicate 1 (handling (fun _ => Ret ())).

(** A sample is taken while [main] stops; [main] waits for the pipeline. *)
Definition ex_tele_schedule : list (nat * bool) :=
  ((fun i => (i, true)) <$> [0;0;0;0;0; 1;1;1;1;1; 3; 0;0;0;0;0; 0;0;0;0;0; 1;1;1;1]%nat) ++
  [(1%nat, false)] ++ ((fun i => (i, true)) <$> [1;0;0;0;0]%nat).

Example telemetry_stops :
  outcome_of (proc_sched svc_ans ex_tele_schedule (ex_tele_threads, process_start)) = Some (Some 0, [], []).
Proof. vm_compute. reflexivity. Qed.

Example telemetry_exits_while_nats_drains :
  ends (proc_sched svc_ans ex_tele_schedule (ex_tele_threads, process_start))
    (fun w => pw_exit w = Some 0 /\ pw_open w = ∅ /\ pw_draining w = {[ RNats ]}).
Proof. vm_compute. by repeat split. Qed.

Lemma sampler_never_races_shutdown_witness :
  ends (proc_sched svc_ans ex_tele_schedule (ex_tele_threads, process_start))
    (fun w => pw_exit w = Some 0 /\ pw_misuse w = ∅ /\ (pw_open w = ∅ /\ pw_draining w ⊆ {[ RNats ]})).
Proof.
  pose proof telemetry_stops as Ho. destruct (proc_sched _ _ _) as [c|] eqn:Hc; [|discriminate Ho].
  injection Ho as Hx _ _. simpl. split; [exact Hx|].
  destruct (sampler_never_races_shutdown ex_tele_env ex_url (fun _ => Ok "{}") (fun _ _ _ => Err ENotFound)
              2 (Hub.New 16) 1 _ c.2 (proc_sched_reachable svc_ans _ _ _ c Hc)) as [Hm Hopen].
  split; [exact Hm|]. apply Hopen. by eexists.
Defined.

(** ** orchestrator *)

Section orchestrator.
Context (env : environ) (url_Parse : string -> option (string * string)).
Context (migrations : result (list (string * result string))).
Context (decode_limits : string -> result fileConfig).

Abbreviation discp := (disc (E:=svcE) Nobody (fun _ : SchedConfig * LandedConfig => ∅) (fun _ => true)).

Lemma gate_keeps {A} (p : prog runnerE A) (o : gset resource) :
  all_calls (keeps o) (embed (fun X e => Gate e) p).
Proof. apply all_calls_embed. by induction p as [a|X e kont IH]; simpl. Qed.

Abbreviation then_ := (next Nobody (fun _ : SchedConfig * LandedConfig => ∅) (fun _ => true)).
Definition orch_closed (a : result ()) :=
  then_ (call (Svc PoolClose)) (then_ (call (CancelCtx 0)) (then_ (exit_of a) (fun _ _ _ => True))).
Definition orch_drained (a : result ()) := then_ (svc natsio_Close) (orch_closed a).
Definition orch_stopped (a : result ()) := then_ (call (Svc ConsumeStop)) (orch_drained a).

Lemma orch_closed_ok a ph : orch_closed a () ({[ RPool ]} ∪ ∅) ph.
Proof.
  split; [split; [set_solver|by destruct ph]|]. intros [] _. rewrite next_svc. simpl. rewrite open_close by set_solver.
  split; [done|]. intros [] _. by destruct a.
Qed.

Lemma orch_drained_ok a ph : orch_drained a () ({[ RNats ]} ∪ ({[ RPool ]} ∪ ∅)) ph.
Proof.
  apply disc_svc_call; [split; [set_solver|by destruct ph]|]. intros x. simpl.
  rewrite open_close by set_solver. by eapply orch_closed_ok.
Qed.

Lemma orch_stopped_ok a ph : orch_stopped a () ({[ RConsumer ]} ∪ ({[ RNats ]} ∪ ({[ RPool ]} ∪ ∅))) ph.
Proof.
  split; [split; [set_solver|by destruct ph]|]. intros x _. rewrite next_svc. simpl.
  rewrite open_close by set_solver. by eapply orch_drained_ok.
Qed.

Lemma orch_disc :
  disc Nobody (fun _ => ∅) (fun _ => true) (orch_process env url_Parse migrations decode_limits)
    (fun _ _ _ => True) ∅ PBefore.
Proof.
  apply disc_bind. unfold orch_run. destruct (orch_FromEnv env) as [cfg|e]; [|by split].
  apply disc_deferring, disc_bind, disc_svc; [apply gate_keeps|]. intros [[]|e].
  2:{ destruct (is_forbidden e); [by apply disc_exit|by repeat split]. }
  apply disc_or_return, orch_migrate_disc; [done|done|]. intros [[]|e]; [|by repeat split].
  apply disc_or_return, pinged_opening; [set_solver|set_solver|done| |by repeat split]. intros [].
  apply disc_deferring, disc_or_return, disc_svc_ret.
  destruct (NewS3 _ _ _) as [[]|e]; [|by apply (orch_closed_ok (Err e))].
  apply disc_or_return. apply disc_svc_try; [done|intros e; by apply (orch_closed_ok (Err e))|]. intros [].
  apply disc_svc_ret, disc_or_return, natsio_opening;
    [set_solver|set_solver|done| |intros e; by apply (orch_closed_ok (Err e))]. intros [].
  apply disc_deferring.
  do 2 (apply disc_or_return, disc_svc; [apply js_keeps; set_solver|];
    intros [?|e]; [|by apply (orch_drained_ok (Err e))]).
  apply disc_or_return, disc_svc_call; [done|]. intros raw. apply disc_svc_ret.
  destruct (NewFromFile _ _ _) as [limits|e]; [|by apply (orch_drained_ok (Err e))].
  apply disc_or_return, disc_svc_ret. destruct (NewScheduler _) as [sched|e]; [|by apply (orch_drained_ok (Err e))].
  apply disc_or_return, consumer_opening;
    [simpl; set_solver|simpl; set_solver|intros []|intros e; by apply (orch_drained_ok (Err e))].
  apply disc_deferring, disc_or_return, disc_svc_ret.
  destruct (orch_NewVerifier _) as [verifier|e]; [|by apply (orch_stopped_ok (Err e))].
  apply disc_call_bind; [intros _; split; [done|set_solver]|]. intros [] _.
  apply disc_call_bind; [done|]. intros [] _. apply disc_call_bind; [done|]. intros [e|] _.
  - apply disc_call_bind; [done|]. intros [] _. split; [done|]. intros [] _. split; [done|]. intros ? _.
    by eapply (orch_stopped_ok (Err e)).
  - split; [done|]. intros [] _. split; [done|]. intros ? _. by eapply (orch_stopped_ok (Ok ())).
Qed.

(** Whatever its goroutines do with them, [main] has given up what it opened at any
    exit; the NATS connection may still be draining. *)
Theorem orchestrator_releases_everything others ts w :
  Forall (fun p => udisc Nobody ∅ (fun _ : SchedConfig * LandedConfig => ∅) p (fun _ _ => True) HNothing) others ->
  rtc (lpool_step proc_do)
    (threads (orch_process env url_Parse migrations decode_limits :: others), process_start) (ts, w) ->
  is_Some (pw_exit w) -> pw_open w = ∅ /\ pw_draining w ⊆ {[ RNats ]}.
Proof.
  intros Ho Hr [c Hc]. split; [|apply (draining_within {[ RNats ]} _ _ _ _ only_nats_drains Hr); set_solver].
  eapply (disciplined Nobody ∅ (fun _ => ∅) (fun _ => true)) in Hr as (_ & _ & Hx); [|apply orch_disc|done].
  by apply (Hx c).
Qed.

(** *** What comes before the work *)

Definition gate_event (out : string * string * option gerror) (cfg : OrchConfig)
    : event (procE (SchedConfig * LandedConfig) svcE) :=
  Ev (Svc (Gate (Output (oc_FFmpegPath cfg) ["-hide_banner"; "-buildconf"]))) out.
Definition mig_event : event migE -> event (procE (SchedConfig * LandedConfig) svcE) :=
  lift_event (fun X e => Svc (Mig e)).

(** Nothing but the gate, the migrations and the way out. *)
Definition at_gate (ev : event (procE (SchedConfig * LandedConfig) svcE)) : Prop :=
  match ev with Ev (Svc (Gate _)) _ | Ev (CancelCtx 0) _ | Ev (Exit _) _ => True | _ => False end.
Definition migrating (ev : event (procE (SchedConfig * LandedConfig) svcE)) : Prop :=
  match ev with Ev (Svc (Mig _)) _ | Ev (CancelCtx 0) _ | Ev (Exit _) _ => True | _ => False end.

Definition leaving (ev : event (procE (SchedConfig * LandedConfig) svcE)) : Prop :=
  match ev with Ev (CancelCtx 0) _ | Ev (Exit _) _ => True | _ => False end.

Lemma leaving_at_gate t : Forall leaving t -> Forall at_gate t.
Proof. intros H. eapply Forall_impl; [exact H|]. by intros [X []]. Qed.
Lemma leaving_migrating t : Forall leaving t -> Forall migrating t.
Proof. intros H. eapply Forall_impl; [exact H|]. by intros [X []]. Qed.

Lemma lift_event_compose {E F G} (i : forall X, F X -> G X) (j : forall X, E X -> F X) (tr : list (event E)) :
  lift_event i <$> (lift_event j <$> tr) = lift_event (fun X e => i X (j X e)) <$> tr.
Proof. rewrite <-list_fmap_compose. apply list_fmap_ext. by intros ? [X e x] _. Qed.

(** [run] is its body and the way out. *)
Lemma run_exec_leaving body tr u :
  exec (running (deferring (call (CancelCtx 0)) body)) tr u ->
  exists tb r te, tr = tb ++ te /\ exec body tb r /\ Forall leaving te.
Proof.
  intros (t1 & t2 & r & -> & H1 & H2)%exec_bind. apply exec_bind in H1 as (tb & tc & rb & -> & Hb & Hc).
  exists tb, rb, (tc ++ t2). rewrite (assoc (++)). split; [done|]. split; [done|].
  destruct rb as [a|].
  - destruct Hc as ([] & t3 & -> & [-> ->]). apply Forall_app. split; [by repeat constructor|].
    destruct a; destruct H2 as ([] & t4 & -> & [-> _]); by repeat constructor.
  - destruct Hc as [-> ->]. destruct H2 as [-> _]. constructor.
Qed.

Lemma gate_exec cfg tg r :
  exec (FFmpeg.New {| FFmpegPath := oc_FFmpegPath cfg; FFprobePath := oc_FFprobePath cfg |}) tg r ->
  Forall (fun ev => at_gate (lift_event (fun X e => Svc (Gate e)) ev)) tg /\
  (r = Ok () -> exists stdout stderr,
    lift_event (fun X e => Svc (Gate e)) <$> tg = [gate_event (stdout, stderr, None) cfg] /\
    CheckBuildconf (stdout +:+ String "010" stderr) = Ok ()).
Proof.
  unfold FFmpeg.New. simpl. destruct (_ || _); [by intros [-> ->]|].
  intros ([[stdout stderr] err] & t & -> & H). destruct err; destruct H as [-> ->]; (split; [by repeat constructor|]); [done|].
  intros Hg. by exists stdout, stderr.
Qed.

(** C36: the license gate and the migrations come first.  In every run of the
    orchestrator's [main], whatever answers it gets, either it does nothing but run
    [ffmpeg -buildconf] and exit, or that build passed the license gate, its output
    having none of the forbidden flags; and then either it does nothing more than try
    the schema migrations and exit, or they ran to completion before anything else.
    No store, bucket, queue, scheduler or listener is touched before both. *)
Theorem license_gate_comes_first cfg tr u :
  orch_FromEnv env = Ok cfg -> exec (orch_process env url_Parse migrations decode_limits) tr u ->
  Forall at_gate tr \/
  exists stdout stderr rest,
    tr = gate_event (stdout, stderr, None) cfg :: rest /\
    CheckBuildconf (stdout +:+ String "010" stderr) = Ok () /\
    (Forall migrating rest \/
     exists tm rest', rest = (mig_event <$> tm) ++ rest' /\ exec (orch_Migrate migrations) tm (Ok ())).
Proof.
  intros Hcfg. unfold orch_process, orch_run. rewrite Hcfg.
  intros (tb & r & te & -> & Hb & Hte)%run_exec_leaving. apply exec_bind in Hb as (t1 & t2 & gate & -> & Hg & Hb).
  apply exec_embed in Hg as (t1' & -> & Hg). apply exec_embed in Hg as (tg & -> & Hg).
  rewrite lift_event_compose. cbv beta. apply gate_exec in Hg as [Hat Hpass]. destruct gate as [[]|e].
  2:{ left. rewrite <-(assoc (++)). apply Forall_app. split; [by apply Forall_fmap|]. apply Forall_app. split; [|by apply leaving_at_gate].
      destruct (is_forbidden e); [destruct Hb as ([] & t & -> & [-> _])|destruct Hb as [-> _]]; by repeat constructor. }
  right. destruct (Hpass eq_refl) as (stdout & stderr & Htg & Hok). exists stdout, stderr, (t2 ++ te).
  split; [exact (f_equal (fun l => (l ++ t2) ++ te) Htg)|]. split; [done|].
  apply exec_bind in Hb as (t3 & t4 & mig & -> & Hm & Hb).
  apply exec_embed in Hm as (t3' & -> & Hm). apply exec_embed in Hm as (tm & -> & Hm). rewrite lift_event_compose.
  rewrite <-app_assoc. destruct mig as [[]|e]; [right; exists tm, (t4 ++ te); split; [done|exact Hm]|].
  left. destruct Hb as [-> _]. apply Forall_app. split; [|by apply leaving_migrating].
  apply Forall_fmap, Forall_forall. by intros [X e' x] _.
Qed.
End orchestrator.

Definition ex_orch_process :=
  orch_process ex_orch_env (fun s => Some ("https", s)) (Ok [("1_init.up.sql", Ok "CREATE")])
    (fun _ => Ok {| Events.Defaults := {| MaxActiveJobs := 1; Events.MaxUploadBytes := 1 |}; Events.Workspaces := ∅ |}).

(** *** The orchestrator does not wait for its scheduler

    [run] returns when the server is shut down; nothing waits for [sched.Run] and the
    jobs it waits for, and the pool is closed under them. *)
Definition ex_orch_threads :=
  ex_orch_process :: orch_serving ::
  orch_scheduling (_ ← call (Svc (Orch (OStore ClaimNextQueued))); Ret (Some ECanceled)) :: [signalled].

Example pool_closes_under_the_scheduler :
  let sch := (fun i => (i, true)) <$> (replicate 23 0 ++ [2; 3; 0; 0; 0; 0; 0; 0; 2])%nat in
  outcome_of (proc_sched svc_ans sch (ex_orch_threads, process_start)) = Some (None, [], [RPool]).
Proof. vm_compute. reflexivity. Qed.

(** A main that gets [svc_ans] for its calls and a signal at the end. *)
Definition main_sem {V} (v : V) : sem (procE V svcE) () := fun X e w =>
  (match e in procE _ _ X return X with
   | Svc e => svc_ans _ e
   | Started _ | Accept => v
   | CtxDone _ | SelectTick _ | Dispatch => true
   | SelectStop => None
   | Listen _ | ShutdownWait => Ok ()
   | Serve => ErrServerClosed
   | Go _ _ | CancelCtx _ | AwaitDone _ | CloseChan _ | RecvClosed _ | SendErr _ | ShutdownBegin | Finish | Drained _ | Exit _ => tt
   end, w).

Definition ex_orch_trace : list (event (procE (SchedConfig * LandedConfig) svcE)) :=
  run_log (main_sem ({| Slots := 1; PollInterval := 0; StagingDir := ""; ProgressPersistEvery := 0 |},
                     {| ScratchDir := ""; AutoCreateJobs := true |})) ex_orch_process ().

(** A trace does not satisfy what one of its events does not. *)
Lemma ex_not_all (tr : list (event (procE (SchedConfig * LandedConfig) svcE))) P i :
  Forall P tr -> match tr !! i with Some ev => P ev | None => True end.
Proof. intros H. destruct (tr !! i) eqn:Hi; [by eapply Forall_lookup_1|done]. Qed.

Lemma license_gate_comes_first_witness :
  exists stdout stderr rest tm rest',
    ex_orch_trace = gate_event (stdout, stderr, None) ex_orch_config :: rest /\
    CheckBuildconf (stdout +:+ String "010" stderr) = Ok () /\
    rest = (mig_event <$> tm) ++ rest' /\ length ex_orch_trace = 31%nat.
Proof.
  destruct (license_gate_comes_first ex_orch_env (fun s => Some ("https", s)) (Ok [("1_init.up.sql", Ok "CREATE")])
    (fun _ => Ok {| Events.Defaults := {| MaxActiveJobs := 1; Events.MaxUploadBytes := 1 |}; Events.Workspaces := ∅ |})
    ex_orch_config ex_orch_trace () ltac:(vm_compute; reflexivity) (run_log_exec _ _ _))
    as [H|(stdout & stderr & rest & Htr & Hok & [H|(tm & rest' & Hrest & _)])].
  - apply (ex_not_all _ at_gate 1) in H. vm_compute in H. destruct H.
  - assert (Ht : Forall migrating (tail ex_orch_trace)) by (by rewrite Htr).
    apply (ex_not_all _ migrating 11) in Ht. vm_compute in Ht. destruct Ht.
  - exists stdout, stderr, rest, tm, rest'. split; [exact Htr|]. split; [exact Hok|].
    split; [exact Hrest|vm_compute; reflexivity].
Defined.
