(* ===== verification/Farm.v ===== *)
(** * The transcode farm: workers, bucket, local disk and ffmpeg together

    The orchestrator's parts run against one world: the job database of OrchStore.v,
    the bucket and the local files of ObjStore.v, and ffmpeg as a child process.  A
    worker's calls of the object store and of the engine are replaced by the programs
    that implement them (objstore/s3.go and ffmpegadapter/adapter.go), so that the
    steps of concurrent workers interleave at the level of S3 requests, file
    operations, statements and processes.  What an [ffmpeg] that exits with 0 may have
    written is the relation [encodes].  [fm_runs] is an auxiliary record of who claimed
    which running job, [fm_dirs] of who made which scratch directory. *)
From S2P Require Export ObjStore RunnerProofs.
#[local] Open Scope Z_scope.

(** ** The calls *)

Inductive farmE : Type -> Type :=
| FObj {X} (e : objE X) : farmE X
| FProc {X} (e : runnerE X) : farmE X
| FOrch {X} (e : orchE X) : farmE X.

(** [Transcode] with its callbacks: the samples it reported, and its outcome. *)
Fixpoint collect {A} (acc : list Progress) (p : prog runnerE A) : prog farmE (list Progress * A) :=
  match p with
  | Ret a => Ret (rev acc, a)
  | @Vis _ _ X e k =>
      let go acc x := collect acc (k x) in
      match e in runnerE Y return (list Progress -> Y -> prog farmE (list Progress * A)) -> _ with
      | OnProgress p => fun go => go (p :: acc) ()
      | e => fun go => Vis (FProc e) (go acc)
      end go
  end.

Section farm.
Context (ParseFloat : string -> option spec_float) (json_ffprobe : string -> result ffprobeOut).
Context (fcfg : FFmpeg.Config).
Context (encodes : list string -> string -> node -> Prop).

(** A worker's call, as the components implement it. *)
Definition orch_call X (e : orchE X) : prog farmE X :=
  match e in orchE X return prog farmE X with
  | Exists key => embed (fun X e => FObj e) (obj_Exists key)
  | Download key dst => embed (fun X e => FObj e) (obj_Download key dst)
  | PutDir prefix dir => embed (fun X e => FObj e) (obj_PutDir prefix dir)
  | EngProbe path => embed (fun X e => FProc e) (Probe ParseFloat json_ffprobe fcfg path)
  | EngTranscode path out => collect [] (Transcode ParseFloat fcfg path out true)
  | e => call (FOrch e)
  end.

Definition farm_prog {A} (p : prog orchE A) : prog farmE A := interp orch_call p.

(** ** The world *)

Record farm := {
  fm_obj : obj_world;
  fm_db : db;
  fm_dirs : gmap string nat;       (* scratch directory, and the worker that made it *)
  fm_runs : gmap string nat        (* running job, and the worker that claimed it *)
}.
Definition set_obj (f : farm) (o : obj_world) : farm :=
  {| fm_obj := o; fm_db := fm_db f; fm_dirs := fm_dirs f; fm_runs := fm_runs f |}.
Definition set_dirs (f : farm) (m : gmap string nat) : farm :=
  {| fm_obj := fm_obj f; fm_db := fm_db f; fm_dirs := m; fm_runs := fm_runs f |}.

(** The directory and everything below it. *)
Definition within (dir p : string) : Prop := p = dir \/ exists rest, p = dir +:+ "/" +:+ rest.

(** Only what is within [dir] changes. *)
Record only_in (dir : string) (o o' : obj_world) : Prop := {
  oi_objects : w_objects o' = w_objects o;
  oi_files : forall p, ~ within dir p -> w_files o' !! p = w_files o !! p;
  oi_trees : forall d, ~ within dir d -> w_trees o' !! d = w_trees o !! d
}.

(** *** The child process

    Its argument vector names the input after [-i] and the output last; it writes in
    the output's directory. *)
Fixpoint input_arg (args : list string) : option string :=
  match args with
  | [] => None
  | a :: l => if String.eqb a "-i" then head l else input_arg l
  end.

Definition output_arg (args : list string) (dir name : string) : Prop :=
  last args = Some (dir +:+ "/" +:+ name) /\ no_char "/" name = true.

Definition proc_do {X} (e : runnerE X) (o : obj_world) (child : option (list string))
    : X -> obj_world -> option (list string) -> Prop :=
  match e in runnerE X return X -> obj_world -> option (list string) -> Prop with
  | Start _ args => fun x o' child' =>
      o' = o /\ match x with Ok _ => child' = Some args | Err _ => child' = child end
  | Wait => fun x o' child' => child' = None /\
      match child with
      | None => is_Some x.2 /\ o' = o
      | Some args =>
          (is_Some x.2 /\ o' = o) \/
          exists dir name t, output_arg args dir name /\ only_in dir o o' /\ mirrors o' dir t /\
            (x.2 = None -> exists input data, input_arg args = Some input /\
               w_files o !! input = Some data /\ encodes args data t)
      end
  | _ => fun _ o' child' => o' = o /\ child' = child
  end.

(** *** The worker's own calls *)

Definition running (d : db) (id : string) : bool :=
  match jobs d !! id with Some j => in_state StateRunning j | None => false end.

(** After a statement of worker [i]: a job that starts to run is its own. *)
Definition claims (i : nat) (d d' : db) (runs : gmap string nat) : gmap string nat :=
  map_imap (fun id j => if in_state StateRunning j then if running d id then runs !! id else Some i else None)
    (jobs d').

Definition store_done (i : nat) (f : farm) (d' : db) : farm :=
  {| fm_obj := fm_obj f; fm_db := d'; fm_dirs := fm_dirs f; fm_runs := claims i (fm_db f) d' (fm_runs f) |}.

(** [os.MkdirTemp(dir, pattern)], for a pattern without a star. *)
Definition tmp_path (dir name : string) : string :=
  (if HasSuffix dir "/" then dir else dir +:+ "/") +:+ name.
Definition temp_name (pattern name : string) : Prop :=
  exists rand, name = pattern +:+ rand /\ rand <> "" /\ all_chars is_digit rand = true /\
               no_char "/" pattern = true.

Definition orch_do (i : nat) {X} (e : orchE X) (f : farm) : X -> farm -> Prop :=
  match e in orchE X return X -> farm -> Prop with
  | OStore e => fun x f' => exists now uid d',
      no_char "/" uid = true /\ up_to_fault (ostore_apply now uid e (fm_db f)) (fm_db f) x d' /\
      f' = store_done i f d'
  | MkdirTemp dir pattern => fun x f' =>
      (is_ok x = false /\ f' = f) \/
      exists name o', temp_name pattern name /\ x = Ok (tmp_path dir name) /\
        fm_dirs f !! tmp_path dir name = None /\
        only_in (tmp_path dir name) (fm_obj f) o' /\ mirrors o' (tmp_path dir name) (Dir (Ok [])) /\
        f' = set_dirs (set_obj f o') (<[tmp_path dir name := i]> (fm_dirs f))
  | RemoveAll dir => fun _ f' =>
      exists o' dirs', only_in dir (fm_obj f) o' /\ (dirs' = fm_dirs f \/ dirs' = delete dir (fm_dirs f)) /\
        f' = set_dirs (set_obj f o') dirs'
  | _ => fun _ f' => f' = f
  end.

(** A step of worker [i], whose session is its running child. *)
Definition farm_do (i : nat) : nsem farmE (farm * option (list string)) := fun X e w x w' =>
  match e in farmE X return X -> Prop with
  | FObj e => fun x => exists o', obj_nsem _ e (fm_obj w.1) x o' /\ w' = (set_obj w.1 o', w.2)
  | FProc e => fun x => exists o' child', proc_do e (fm_obj w.1) w.2 x o' child' /\ w' = (set_obj w.1 o', child')
  | FOrch e => fun x => exists f', orch_do i e w.1 x f' /\ w' = (f', w.2)
  end x.

(** ** The workers *)

Context (uuid_Parse : string -> option string) (lcfg : LandedConfig) (scfg : SchedConfig).

(** A slot of the scheduler: claim the oldest queued job and run it. *)
Definition slot : prog orchE () :=
  j ← call (OStore ClaimNextQueued);
  match j with
  | Ok j => runJob scfg j
  | Err _ => Ret ()
  end.

Inductive farm_work :=
| FSlot
| FApi (rt : oroute) (r : orequest)
| FLanded (data : result UploadLanded) (more : bool).

Definition farm_work_prog (w : farm_work) : prog orchE () :=
  match w with
  | FSlot => slot
  | FApi rt r => _ ← Handler uuid_Parse rt r; Ret ()
  | FLanded data more => handle uuid_Parse lcfg data more
  end.

(** ** What a completed job promises *)

(** The output [o] of a rung is in the bucket: ffmpeg, run as the preset and the
    probed source prescribe on the bytes [data], left the tree [t]; every file of [t]
    is an object under the rung's prefix, and the recorded key is its artifact. *)
Definition rung_stored (objs : gmap string string) (j : Job) (preset : Preset) (data : string)
    (rung : Rung) (o : OutputProgress) : Prop :=
  exists src input staging args artifact t content,
    buildTranscodeArgs input (rung_spec preset src rung staging) = Ok (args, artifact) /\
    encodes args data t /\
    op_Name o = r_Name rung /\ op_State o = "completed" /\
    op_ObjectKey o = out_prefix j rung +:+ "/" +:+ artifact_name (p_Container preset) (r_Name rung) /\
    objs !! op_ObjectKey o = Some content /\
    ([artifact_name (p_Container preset) (r_Name rung)], content) ∈ tree_files [] t /\
    Forall (fun f => objs !! file_key (out_prefix j rung) f.1 = Some f.2) (tree_files [] t).

Definition outputs_stored (objs : gmap string string) (j : Job) (outs : list OutputProgress) : Prop :=
  exists preset data,
    p_ID preset = j_PresetID j /\ p_WorkspaceID preset = j_WorkspaceID j /\
    objs !! j_SourceObjectKey j = Some data /\
    Forall2 (rung_stored objs j preset data) (p_Ladder preset) outs.

(** What a row is named after. *)
Definition row_named (id : string) (j : Job) : Prop :=
  no_char "/" id = true /\ no_char "/" (j_WorkspaceID j) = true /\
  exists rest, j_SourceObjectKey j = "assets/" +:+ rest.

(** A scratch directory below [root]. *)
Definition scratch_dir (root d : string) : Prop :=
  exists name, d = tmp_path root name /\ no_char "/" name = true /\ name <> "" /\ name <> "." /\ name <> "..".

Record farm_wf (root : string) (f : farm) : Prop := {
  fw_db : db_wf (fm_db f);
  fw_presets : presets_valid (fm_db f);
  fw_named : forall id j, jobs (fm_db f) !! id = Some j -> row_named id j;
  fw_runs : forall id i, fm_runs f !! id = Some i -> running (fm_db f) id = true;
  fw_dirs : forall d i, fm_dirs f !! d = Some i -> scratch_dir root d;
  fw_done : forall id j, jobs (fm_db f) !! id = Some j -> j_State j = StateCompleted ->
    outputs_stored (w_objects (fm_obj f)) j (j_Outputs j)
}.
End farm.
