(* ===== verification/FarmOwn.v ===== *)
(** * The transcode farm: who owns what

    The output keys of different jobs and the scratch directories of different workers
    are disjoint; what a statement does to the rows; what it means that a worker finds
    its own things as it left them. *)
From S2P Require Export Farm.
#[local] Open Scope Z_scope.

(** ** Keys and paths *)

(** The keys below the prefix of a job. *)
Definition job_root (j : Job) : string := "outputs/" +:+ j_WorkspaceID j +:+ "/" +:+ j_ID j +:+ "/".
Definition in_root (j : Job) (key : string) : Prop := exists rest, key = job_root j +:+ rest.
Definition is_output (key : string) : Prop := exists rest, key = "outputs/" +:+ rest.

Lemma in_root_output j key : in_root j key -> is_output key.
Proof. intros [rest ->]. unfold job_root. eexists. by rewrite !sapp_assoc. Qed.

Lemma asset_not_output rest : ~ is_output ("assets/" +:+ rest).
Proof. by intros [r Hr]. Qed.

Lemma slash_cut a b x y :
  no_char "/" a = true -> no_char "/" b = true -> a +:+ "/" +:+ x = b +:+ "/" +:+ y -> a = b /\ x = y.
Proof. apply cut_first. Qed.

Lemma roots_disjoint id1 id2 j1 j2 key :
  row_named id1 j1 -> row_named id2 j2 -> j_ID j1 = id1 -> j_ID j2 = id2 ->
  in_root j1 key -> in_root j2 key -> id1 = id2.
Proof.
  intros (Hi1 & Hw1 & _) (Hi2 & Hw2 & _) <- <- [r1 ->] [r2 Heq]. unfold job_root in Heq.
  rewrite !sapp_assoc in Heq. apply (inj (String.append "outputs/")) in Heq.
  apply slash_cut in Heq as [_ Heq]; [|done..]. by apply slash_cut in Heq as [].
Qed.

Lemma artifact_in_root j rung name : in_root j (out_prefix j rung +:+ "/" +:+ name).
Proof.
  unfold out_prefix, in_root, job_root. exists (r_Name rung +:+ "/" +:+ name). by rewrite !sapp_assoc.
Qed.

Lemma within_disjoint root d1 d2 p :
  scratch_dir root d1 -> scratch_dir root d2 -> within d1 p -> within d2 p -> d1 = d2.
Proof.
  intros (n1 & -> & H1 & _) (n2 & -> & H2 & _). unfold tmp_path.
  set (r := if HasSuffix root "/" then root else root +:+ "/"). intros W1 W2.
  assert (Hcut : forall n, within (r +:+ n) p -> no_char "/" n = true ->
    exists rest, p +:+ "/" = r +:+ n +:+ "/" +:+ rest).
  { intros n [->|[rest ->]] _; [exists ""|exists (rest +:+ "/")]; by rewrite ?sapp_nil_r, !sapp_assoc. }
  destruct (Hcut n1 W1 H1) as [x Hx]. destruct (Hcut n2 W2 H2) as [y Hy]. rewrite Hx in Hy.
  apply (inj (String.append r)) in Hy. by apply slash_cut in Hy as [-> _].
Qed.

(** *** filepath.Join below a clean absolute directory *)

Definition clean_part (s : string) : Prop := no_char "/" s = true /\ s <> "" /\ s <> "." /\ s <> "..".

(** [filepath.Clean] of an absolute path other than the root. *)
Definition clean_root (root : string) : Prop :=
  exists parts, parts <> [] /\ Forall clean_part parts /\ root = "/" +:+ GoLib.join "/" parts.

Lemma clean_parts_plain b l kept : Forall clean_part l -> clean_parts b l kept = rev l ++ kept.
Proof.
  revert kept. induction l as [|s l IH]; intros kept; [done|]. intros [(_ & H1 & H2 & H3) Hl]%Forall_cons. simpl.
  rewrite !(proj2 (String.eqb_neq _ _)) by done. simpl. rewrite IH by done. by rewrite <-app_assoc.
Qed.

Lemma Split_rooted l : l <> [] -> Forall clean_part l -> Split "/" ("/" +:+ GoLib.join "/" l) = "" :: l.
Proof.
  intros Hl H. change ("/" +:+ ?x) with ("" +:+ String "/" x). rewrite Split_app by done.
  rewrite Split_join; [done|done|]. eapply Forall_impl; [exact H|]. by intros s [].
Qed.

Lemma Clean_rooted l : l <> [] -> Forall clean_part l -> Clean ("/" +:+ GoLib.join "/" l) = "/" +:+ GoLib.join "/" l.
Proof.
  intros Hl H. pose proof (Split_rooted l Hl H) as Hs. unfold Clean.
  change ("/" +:+ GoLib.join "/" l) with (String "/" (GoLib.join "/" l)) in Hs |- *. cbv beta iota. rewrite Hs.
  cbn [clean_parts String.eqb orb]. rewrite clean_parts_plain by done. by rewrite app_nil_r, rev_involutive.
Qed.

Lemma join_snoc l x : l <> [] -> GoLib.join "/" (l ++ [x]) = GoLib.join "/" l +:+ "/" +:+ x.
Proof.
  induction l as [|y l IH]; [done|]. intros _. destruct l as [|z l]; [done|].
  change (GoLib.join "/" ((y :: z :: l) ++ [x])) with (y +:+ "/" +:+ GoLib.join "/" ((z :: l) ++ [x])).
  rewrite IH by done. change (GoLib.join "/" (y :: z :: l)) with (y +:+ "/" +:+ GoLib.join "/" (z :: l)).
  by rewrite !sapp_assoc.
Qed.

Lemma clean_root_open root : clean_root root -> HasSuffix root "/" = false.
Proof.
  intros (l & Hl & H & ->). apply not_true_iff_false. intros [a Ha]%HasSuffix_split.
  pose proof (Split_rooted l Hl H) as Hs. rewrite Ha in Hs.
  rewrite Split_app_sep in Hs. destruct (exists_last Hl) as (l' & x & ->). rewrite app_comm_cons in Hs.
  apply app_inj_tail in Hs as [_ Hx]. apply Forall_app in H as [_ [(_ & Hne & _) _]%Forall_cons]. done.
Qed.

Lemma Join_scratch root d name :
  clean_root root -> scratch_dir root d -> clean_part name -> FFmpeg.Join d name = d +:+ "/" +:+ name.
Proof.
  intros Hr (n & -> & Hn) Hname. unfold tmp_path. rewrite (clean_root_open root Hr).
  destruct Hr as (l & Hl & H & ->).
  assert (Heq : (("/" +:+ GoLib.join "/" l) +:+ "/") +:+ n = "/" +:+ GoLib.join "/" (l ++ [n])).
  { rewrite join_snoc by done. by rewrite !sapp_assoc. }
  rewrite Heq. unfold FFmpeg.Join. rewrite (proj2 (String.eqb_neq _ _)) by done.
  rewrite (proj2 (String.eqb_neq _ _)) by apply Hname.
  assert (Heq2 : ("/" +:+ GoLib.join "/" (l ++ [n])) +:+ "/" +:+ name = "/" +:+ GoLib.join "/" ((l ++ [n]) ++ [name])).
  { rewrite (join_snoc (l ++ [n])) by (by destruct l). by rewrite !sapp_assoc. }
  rewrite Heq2. apply Clean_rooted; [by destruct l|]. rewrite !Forall_app, !Forall_singleton. split_and!; done.
Qed.

Lemma within_refl d : within d d.
Proof. by left. Qed.

(** ** What each worker owns *)

(** The rows, the output keys and the scratch directories of worker [i] are as they
    were. *)
Record kept (i : nat) (f f' : farm) : Prop := {
  kp_runs : forall id, fm_runs f !! id = Some i ->
    fm_runs f' !! id = Some i /\ jobs (fm_db f') !! id = jobs (fm_db f) !! id;
  kp_root : forall id j key, fm_runs f !! id = Some i -> jobs (fm_db f) !! id = Some j -> in_root j key ->
    w_objects (fm_obj f') !! key = w_objects (fm_obj f) !! key;
  kp_dirs : forall d, fm_dirs f !! d = Some i ->
    fm_dirs f' !! d = Some i /\ w_trees (fm_obj f') !! d = w_trees (fm_obj f) !! d /\
    forall p, within d p -> w_files (fm_obj f') !! p = w_files (fm_obj f) !! p
}.

Definition inputs_kept (f f' : farm) : Prop :=
  forall key, ~ is_output key -> w_objects (fm_obj f') !! key = w_objects (fm_obj f) !! key.

(** The uploaded objects stay. *)
Definition sources_kept (f f' : farm) : Prop :=
  forall rest data, w_objects (fm_obj f) !! ("assets/" +:+ rest) = Some data ->
    w_objects (fm_obj f') !! ("assets/" +:+ rest) = Some data.

#[export] Instance sources_kept_preorder : PreOrder sources_kept.
Proof. split; [by intros f rest data|]. intros f1 f2 f3 H1 H2 rest data H. by apply H2, H1. Qed.

Lemma inputs_sources f f' : inputs_kept f f' -> sources_kept f f'.
Proof. intros H rest data Hd. rewrite H; [done|]. apply asset_not_output. Qed.

#[export] Instance kept_preorder i : PreOrder (kept i).
Proof.
  split; [by intros f; split|]. intros f1 f2 f3 [R1 O1 D1] [R2 O2 D2]. split.
  - intros id Hid. destruct (R1 id Hid) as [Hid2 Hj]. destruct (R2 id Hid2) as [? ?]. split; congruence.
  - intros id j key Hid Hj Hk. destruct (R1 id Hid) as [Hid2 Hj2].
    rewrite (O2 id j key Hid2 ltac:(congruence) Hk). by apply (O1 id j).
  - intros d Hd. destruct (D1 d Hd) as (Hd2 & Ht & Hf). destruct (D2 d Hd2) as (? & ? & Hf2).
    split_and!; [done|congruence|]. intros p Hp. rewrite Hf2 by done. by apply Hf.
Qed.

#[export] Instance inputs_kept_preorder : PreOrder inputs_kept.
Proof.
  split; [done|]. intros f1 f2 f3 H1 H2 key Hk. rewrite (H2 key Hk). by apply H1.
Qed.

Lemma kept_trees i f f' d o : kept i f f' -> fm_dirs f !! d = Some i ->
  w_trees (fm_obj f) !! d = o -> w_trees (fm_obj f') !! d = o.
Proof. intros Hk Hd <-. by apply (kp_dirs _ _ _ Hk). Qed.

(** The same objects where a job and its source have them. *)
Lemma rung_stored_same encodes objs objs' j preset data rung o :
  (forall x, let key := out_prefix j rung +:+ "/" +:+ x in objs' !! key = objs !! key) ->
  rung_stored encodes objs j preset data rung o -> rung_stored encodes objs' j preset data rung o.
Proof.
  intros Hr (src & input & staging & args & artifact & t & content & H1 & H2 & H3 & H4 & H5 & H6 & H7 & H8).
  exists src, input, staging, args, artifact, t, content. split_and!; try done.
  - rewrite H5 in H6 |- *. by rewrite Hr.
  - eapply Forall_impl; [exact H8|]. intros x Hx. unfold file_key, visit_key. by rewrite Hr.
Qed.

Lemma outputs_stored_same encodes objs objs' j outs :
  (forall key, in_root j key -> objs' !! key = objs !! key) ->
  objs' !! j_SourceObjectKey j = objs !! j_SourceObjectKey j ->
  outputs_stored encodes objs j outs -> outputs_stored encodes objs' j outs.
Proof.
  intros Hr Hs (preset & data & Hp & Hws & Hd & Hf). exists preset, data. split_and!; [done..|congruence|].
  eapply Forall2_impl; [exact Hf|]. intros ? ?. apply rung_stored_same. intros name. apply Hr, artifact_in_root.
Qed.

(** Only the job's identity matters. *)
Lemma job_key_fields j j' : job_key j' = job_key j ->
  j_ID j' = j_ID j /\ j_WorkspaceID j' = j_WorkspaceID j /\ j_PresetID j' = j_PresetID j /\
  j_SourceObjectKey j' = j_SourceObjectKey j.
Proof. unfold job_key. intros. by simplify_eq. Qed.

Lemma in_root_key j j' key : job_key j' = job_key j -> in_root j' key <-> in_root j key.
Proof. intros (Hi & Hw & _)%job_key_fields. unfold in_root, job_root. by rewrite Hi, Hw. Qed.

Lemma rung_stored_key encodes objs j j' preset data rung o :
  job_key j' = job_key j -> rung_stored encodes objs j preset data rung o ->
  rung_stored encodes objs j' preset data rung o.
Proof. intros (Hi & Hw & _)%job_key_fields. unfold rung_stored, out_prefix. by rewrite Hi, Hw. Qed.

Lemma outputs_stored_key encodes objs j j' outs :
  job_key j' = job_key j -> outputs_stored encodes objs j outs -> outputs_stored encodes objs j' outs.
Proof.
  intros Hk (preset & data & Hp & Hws & Hd & Hf). exists preset, data.
  destruct (job_key_fields _ _ Hk) as (_ & -> & -> & ->). split_and!; [done..|].
  eapply Forall2_impl; [exact Hf|]. intros ? ?. by apply rung_stored_key.
Qed.

(** ** Statements *)

Definition marks {Y} (e : ostoreE Y) (id : string) (outs : list OutputProgress) : Prop :=
  match e with MarkCompleted k o => k = id /\ o = outs | _ => False end.

(** A new job is named after a workspace and an uploaded object. *)
Definition named_insert (Y : Type) (e : ostoreE Y) : Prop :=
  match e with
  | CreateJob j => no_char "/" (j_WorkspaceID j) = true /\ exists rest, j_SourceObjectKey j = "assets/" +:+ rest
  | _ => True
  end.

(** Where a row comes from. *)
Definition row_before {Y} (e : ostoreE Y) (d : db) (id : string) (j' : Job) : Prop :=
  (j_State j' = StateQueued /\ row_named id j') \/
  exists j, jobs d !! id = Some j /\ job_key j' = job_key j /\
    (j_State j' = StateCompleted ->
     j' = j \/ (j_State j = StateRunning /\ marks e id (j_Outputs j'))).

Lemma update_job_row id p f d k j' :
  jobs (update_job id p f d).2 !! k = Some j' ->
  jobs d !! k = Some j' \/ exists j, k = id /\ jobs d !! k = Some j /\ p j = true /\ j' = f j.
Proof.
  unfold update_job. destruct (jobs d !! id) as [j|] eqn:Hj; [|by left]. destruct (p j) eqn:Hp; [|by left].
  simpl. destruct (decide (id = k)) as [<-|Hne]; [|rewrite lookup_insert_ne by done; by left].
  rewrite lookup_insert_eq. intros [= <-]. right. eauto.
Qed.

Lemma row_unchanged {Y} (e : ostoreE Y) d id j : jobs d !! id = Some j -> row_before e d id j.
Proof. intros Hj. right. exists j. split_and!; [done|done|by left]. Qed.

Lemma apply_row now uid {Y} (e : ostoreE Y) d id j' :
  ids_match d -> named_insert _ e -> no_char "/" uid = true ->
  jobs (ostore_apply now uid e d).2 !! id = Some j' -> row_before e d id j'.
Proof.
  intros Hid Hn Hu H.
  assert (Hupd : forall p f, (forall j, p j = true -> job_key (f j) = job_key j /\
      (j_State (f j) = StateCompleted -> j_State j = StateRunning /\ marks e id (j_Outputs (f j)))) ->
    forall k, jobs (update_job k p f d).2 !! id = Some j' -> row_before e d id j').
  { intros p f Hf k [Hj|(j & -> & Hj & Hp & ->)]%update_job_row; [by apply row_unchanged|].
    right. exists j. split; [done|]. destruct (Hf j Hp) as [Hk Hc]. split; [done|]. intros Hs. right. by apply Hc. }
  destruct e; cbn [ostore_apply snd fst] in H; try (by apply row_unchanged).
  - unfold pg_CreatePreset in H. case_match; by apply row_unchanged.
  - unfold pg_UpdatePreset in H. repeat case_match; by apply row_unchanged.
  - unfold pg_CreateJob in H. case_match; [|by apply row_unchanged]. simpl in H.
    destruct (decide (uid = id)) as [<-|Hne]; [|rewrite lookup_insert_ne in H by done; by apply row_unchanged].
    rewrite lookup_insert_eq in H. injection H as <-. left. destruct Hn as [Hw Hs]. done.
  - unfold pg_ClaimNextQueued in H. destruct (oldest _) as [j|] eqn:Ho; [|by apply row_unchanged].
    apply oldest_Some in Ho as [Hin _]. apply list_elem_of_filter in Hin as [Hq Hin].
    apply (elem_of_all_jobs _ _ Hid) in Hin. simpl in H.
    destruct (decide (j_ID j = id)) as [<-|Hne]; [|rewrite lookup_insert_ne in H by done; by apply row_unchanged].
    rewrite lookup_insert_eq in H. injection H as <-. right. by exists j.
  - eapply Hupd; [|exact H]. intros j Hj%String.eqb_eq. split; [done|]. simpl. by rewrite Hj.
  - unfold pg_MarkCompleted in H. rewrite or_conflict_db in H. apply update_job_row in H as [H|(j & -> & Hj & Hp & ->)];
      [by apply row_unchanged|]. apply String.eqb_eq in Hp. right. exists j. split_and!; [done|done|]. by right.
  - unfold pg_MarkFailed in H. case_match; [by apply row_unchanged|]. rewrite or_conflict_db in H.
    eapply Hupd; [|exact H]. done.
  - unfold pg_RetryJob in H. rewrite or_missing_db in H. eapply Hupd; [|exact H]. done.
  - unfold pg_CancelQueued in H. rewrite or_missing_db in H. eapply Hupd; [|exact H]. done.
Qed.

(** What a statement, faulty or not, does to the rows. *)
Record statement {Y} (e : ostoreE Y) (d d' : db) : Prop := {
  st_wf : db_wf d';
  st_presets : presets_valid d';
  st_rows : forall id j', jobs d' !! id = Some j' -> row_before e d id j';
  st_spared : forall id j, jobs d !! id = Some j -> j_State j = StateRunning -> spares id _ e ->
    jobs d' !! id = Some j
}.

Lemma statement_done now uid {Y} (e : ostoreE Y) d r d' :
  db_wf d -> presets_valid d -> named_insert _ e -> preset_write _ e -> no_char "/" uid = true ->
  up_to_fault (ostore_apply now uid e d) d r d' -> statement e d d'.
Proof.
  intros Hwf Hp Hn Hw Hu Hs.
  assert (Happ : statement e d (ostore_apply now uid e d).2).
  { split; [by apply apply_wf|by apply apply_presets_valid| |].
    - intros id j'. by apply apply_row; [apply db_wf_ids|..].
    - intros id j. by apply apply_spares, db_wf_ids. }
  assert (Hsame : statement e d d) by (split; auto using row_unchanged).
  destruct Hs as [Hs|(er & _ & [-> | ->])]; [|done..]. by rewrite <-Hs in Happ.
Qed.

Lemma running_Some d id : running d id = true <-> exists j, jobs d !! id = Some j /\ j_State j = StateRunning.
Proof.
  unfold running, in_state. destruct (jobs d !! id) as [j|]; [rewrite String.eqb_eq|]; naive_solver.
Qed.

Lemma claims_lookup i d d' runs id k :
  claims i d d' runs !! id = Some k <->
  running d' id = true /\ (if running d id then runs !! id = Some k else k = i).
Proof.
  unfold claims. rewrite map_lookup_imap. unfold running at 2. destruct (jobs d' !! id) as [j|]; simpl; [|naive_solver].
  destruct (in_state StateRunning j); [|naive_solver]. destruct (running d id); naive_solver.
Qed.
