(* ===== verification/FarmProofs.v ===== *)
(** * The transcode farm: completed jobs have their outputs

    Rely-guarantee reasoning over the world of Farm.v: every worker keeps what the
    others own, the scratch directories they made and the output keys of the jobs they
    claimed, and nobody writes outside the outputs. *)
From S2P Require Export Triples FarmOwn.
#[local] Open Scope Z_scope.

Section workers.
Context (ParseFloat : string -> option spec_float) (json_ffprobe : string -> result ffprobeOut).
Context (fcfg : FFmpeg.Config) (encodes : list string -> string -> node -> Prop).
Context (root : string).
(** Who may rely on nobody writing other objects than outputs. *)
Context (strict : nat -> Prop).

Abbreviation wf := (farm_wf encodes root).
Abbreviation do := (farm_do encodes).

(** What a worker relies on, and what it lets the others rely on. *)
Definition frely (i : nat) (f f' : farm) : Prop :=
  wf f -> wf f' /\ sources_kept f f' /\ kept i f f' /\ (strict i -> inputs_kept f f').
Definition fguar (i : nat) (f f' : farm) : Prop :=
  wf f' /\ inputs_kept f f' /\ forall k, k <> i -> kept k f f'.

#[local] Instance frely_preorder i : PreOrder (frely i).
Proof.
  split; [by intros f Hf|]. intros f1 f2 f3 H12 H23 H1. destruct (H12 H1) as (H2 & S2 & K2 & I2).
  destruct (H23 H2) as (H3 & S3 & K3 & I3). split_and!; [done|by etrans|by etrans|].
  intros Hi. etrans; [by apply I2|by apply I3].
Qed.

Lemma guar_rely i f f' k : fguar i f f' -> k <> i -> frely k f f'.
Proof. intros (Hw & Hi & Hk) Hne _. split_and!; [done|by apply inputs_sources|auto..]. Qed.

Lemma guar_refl i f : wf f -> fguar i f f.
Proof. intros Hf. split; [done|]. by split. Qed.

(** A statement that spares the others' jobs and completes only what is stored. *)
Lemma store_guar i f now uid {Y} (e : ostoreE Y) x d' :
  wf f -> up_to_fault (ostore_apply now uid e (fm_db f)) (fm_db f) x d' -> no_char "/" uid = true ->
  named_insert _ e -> preset_write _ e ->
  (forall id k, k <> i -> fm_runs f !! id = Some k -> spares id _ e) ->
  (forall id outs j, marks e id outs -> jobs (fm_db f) !! id = Some j -> j_State j = StateRunning ->
     outputs_stored encodes (w_objects (fm_obj f)) j outs) ->
  fguar i f (store_done i f d').
Proof.
  intros Hf Hs Hu Hn Hw Hsp Hm. eapply statement_done in Hs as [H1 H2 H3 H4]; [|apply Hf..|done|done|done].
  split; [split; simpl|split; [done|]].
  - done.
  - done.
  - intros id j' Hj'. destruct (H3 _ _ Hj') as [[_ Hr]|(j & Hj & Hk & _)]; [done|].
    destruct (fw_named _ _ _ Hf _ _ Hj) as (Hi & Hws & Ha). destruct (job_key_fields _ _ Hk) as (_ & Ew & _ & Es).
    unfold row_named. by rewrite Ew, Es.
  - intros id k Hk. by apply claims_lookup in Hk as [Hk _].
  - apply Hf.
  - intros id j' Hj' Hc. destruct (H3 _ _ Hj') as [[Hq _]|(j & Hj & Hk & Hd)]; [by rewrite Hc in Hq|].
    destruct (Hd Hc) as [->|[Hr Hma]]; [by apply (fw_done _ _ _ Hf id)|].
    eapply outputs_stored_key; [exact Hk|]. by apply (Hm id).
  - intros k Hne. split; [|done|done]. simpl. intros id Hk.
    pose proof (fw_runs _ _ _ Hf _ _ Hk) as Hr. pose proof Hr as (j & Hj & Hjr)%running_Some.
    assert (Hj' : jobs d' !! id = Some j) by (apply H4; eauto).
    rewrite Hj, Hj'. split; [|done]. apply claims_lookup. rewrite Hr. split; [|done].
    apply running_Some. eauto.
Qed.

(** ** Files, objects and directories *)

Definition own_key (i : nat) (f : farm) (key : string) : Prop :=
  exists id j, fm_runs f !! id = Some i /\ jobs (fm_db f) !! id = Some j /\ in_root j key.
Definition own_path (i : nat) (f : farm) (p : string) : Prop :=
  exists d, fm_dirs f !! d = Some i /\ within d p.

(** A scratch directory nobody else has. *)
Definition free_path (i : nat) (f : farm) (p : string) : Prop :=
  exists d, scratch_dir root d /\ (forall k, fm_dirs f !! d = Some k -> k = i) /\ within d p.

Lemma own_free i f p : wf f -> own_path i f p -> free_path i f p.
Proof.
  intros Hf (d & Hd & Hp). exists d. split; [by eapply (fw_dirs _ _ _ Hf)|]. split; [|done].
  intros k Hk. congruence.
Qed.

Lemma change_guar i f f' :
  wf f -> fm_db f' = fm_db f -> fm_runs f' = fm_runs f ->
  (forall d k, fm_dirs f' !! d = Some k -> scratch_dir root d) ->
  (forall d k, k <> i -> fm_dirs f !! d = Some k -> fm_dirs f' !! d = Some k) ->
  (forall key, ~ own_key i f key -> w_objects (fm_obj f') !! key = w_objects (fm_obj f) !! key) ->
  (forall p, ~ free_path i f p -> w_files (fm_obj f') !! p = w_files (fm_obj f) !! p) ->
  (forall d, ~ free_path i f d -> w_trees (fm_obj f') !! d = w_trees (fm_obj f) !! d) ->
  fguar i f f'.
Proof.
  intros Hf Hdb Hruns Hscr Hdirs Hobj Hfile Htree.
  assert (Hin : inputs_kept f f').
  { intros key Hk. apply Hobj. intros (id & j & _ & _ & Hr). by destruct Hk; eapply in_root_output. }
  assert (Hroot : forall id j key, fm_runs f !! id <> Some i -> jobs (fm_db f) !! id = Some j -> in_root j key ->
    w_objects (fm_obj f') !! key = w_objects (fm_obj f) !! key).
  { intros id j key Hid Hj Hr. apply Hobj. intros (id2 & j2 & Hi2 & Hj2 & Hr2). destruct Hid.
    rewrite (roots_disjoint id id2 j j2 key); [done|by apply (fw_named _ _ _ Hf)..| | |done|done];
      by eapply (db_wf_ids _ (fw_db _ _ _ Hf)). }
  assert (Hfree : forall d k p, fm_dirs f !! d = Some k -> k <> i -> within d p -> ~ free_path i f p).
  { intros d k p Hd Hne Hp (d2 & Hs & Ho & Hp2).
    assert (d = d2) as <- by (eapply within_disjoint; [by eapply (fw_dirs _ _ _ Hf)|done|done|done]).
    by apply Ho in Hd. }
  split; [split|split; [done|]].
  - rewrite Hdb. apply Hf.
  - rewrite Hdb. apply Hf.
  - rewrite Hdb. apply (fw_named _ _ _ Hf).
  - rewrite Hdb, Hruns. apply (fw_runs _ _ _ Hf).
  - done.
  - rewrite Hdb. intros id j Hj Hc. eapply outputs_stored_same; [| |by apply (fw_done _ _ _ Hf id)].
    + intros key. eapply Hroot; [|done]. intros Hr. apply (fw_runs _ _ _ Hf), running_Some in Hr as (j2 & Hj2 & Hs).
      assert (j2 = j) as -> by congruence. by rewrite Hc in Hs.
    + destruct (fw_named _ _ _ Hf _ _ Hj) as (_ & _ & r & Hr). apply Hin. rewrite Hr. apply asset_not_output.
  - intros k Hne. split.
    + intros id Hid. by rewrite Hdb, Hruns.
    + intros id j key Hid. apply Hroot. congruence.
    + intros d Hd. split; [by apply Hdirs|]. split; [|intros p Hp].
      * apply Htree. exact (Hfree d k d Hd Hne (within_refl d)).
      * apply Hfile. exact (Hfree d k p Hd Hne Hp).
Qed.

Lemma only_in_free i f d p : free_path i f d -> within d p -> free_path i f p.
Proof.
  intros (d0 & Hs & Ho & Hd) Hp. exists d0. split; [done|]. split; [done|].
  destruct Hd as [->|[r ->]]; [done|]. right.
  destruct Hp as [->|[r' ->]]; eexists; rewrite ?sapp_assoc; reflexivity.
Qed.

(** Work inside a scratch directory of its own, or a fresh one. *)
Lemma scratch_guar i f d o' dirs' :
  wf f -> free_path i f d -> only_in d (fm_obj f) o' ->
  (forall d k, dirs' !! d = Some k -> scratch_dir root d) ->
  (forall d k, k <> i -> fm_dirs f !! d = Some k -> dirs' !! d = Some k) ->
  fguar i f (set_dirs (set_obj f o') dirs').
Proof.
  intros Hf Hd [Ho Hfi Ht] H1 H2. apply change_guar; simpl; try done.
  - intros key _. by rewrite Ho.
  - intros p Hn. apply Hfi. intros Hp. by destruct Hn; eapply only_in_free.
  - intros p Hn. apply Ht. intros Hp. by destruct Hn; eapply only_in_free.
Qed.

(** The calls of the object store that touch only what the worker owns. *)
Definition obj_own (i : nat) (f : farm) X (e : objE X) : Prop :=
  match e with
  | PutObject key _ _ _ => own_key i f key
  | OpenTrunc p | CopyTo p _ | CloseFile p | Remove p => own_path i f p
  | _ => True
  end.

Lemma obj_guar i f X (e : objE X) x o' :
  wf f -> obj_own i f X e -> obj_nsem X e (fm_obj f) x o' -> fguar i f (set_obj f o').
Proof.
  intros Hf He Hs.
  assert (Hsame : o' = fm_obj f -> fguar i f (set_obj f o')).
  { intros ->. destruct f. by apply guar_refl. }
  assert (Hfile : forall p m u, own_path i f p -> (forall q, q <> p -> m !! q = w_files (fm_obj f) !! q) ->
    o' = {| w_objects := w_objects (fm_obj f); w_files := m; w_trees := w_trees (fm_obj f); w_undeleted := u |} ->
    fguar i f (set_obj f o')).
  { intros p m u Hp Hm ->. apply change_guar; simpl; try done; [apply Hf|].
    intros q Hn. apply Hm. intros ->. by destruct Hn; apply own_free. }
  assert (Hins : forall p c q, q <> p -> <[p := c]> (w_files (fm_obj f)) !! q = w_files (fm_obj f) !! q)
    by (intros; by rewrite lookup_insert_ne).
  destruct e; simpl in *; unfold fails in *.
  - destruct Hs as [[_ ->]|[_ ->]]; auto.
  - destruct Hs as [[_ ->]|(st & data & _ & -> & _)]; auto.
  - auto.
  - destruct Hs as [[_ ->]|[_ ->]]; [auto|]. eapply Hfile; [exact He|apply Hins|reflexivity].
  - destruct Hs as (c & -> & _). eapply Hfile; [exact He|apply Hins|reflexivity].
  - destruct Hs as [[_ ->]|(_ & c & ->)]; [auto|]. eapply Hfile; [exact He|apply Hins|reflexivity].
  - destruct Hs as [[_ ->]|[_ ->]]; (eapply Hfile; [exact He| |reflexivity]); intros q Hq; [|done].
    by rewrite lookup_delete_ne.
  - auto.
  - destruct Hs as [[_ ->]|(data & _ & -> & _)]; auto.
  - destruct Hs as [[_ ->]|(data & _ & ->)]; [auto|]. apply change_guar; simpl; try done; [apply Hf|].
    intros k Hn. rewrite lookup_insert_ne; [done|]. by intros ->.
  - destruct Hs as [-> _]. auto.
Qed.

(** ** Every call *)

Definition store_own (i : nat) (f : farm) {Y} (e : ostoreE Y) : Prop :=
  named_insert _ e /\ preset_write _ e /\
  (forall id k, k <> i -> fm_runs f !! id = Some k -> spares id _ e) /\
  (forall id outs j, marks e id outs -> jobs (fm_db f) !! id = Some j -> j_State j = StateRunning ->
     outputs_stored encodes (w_objects (fm_obj f)) j outs).

Definition farm_own (i : nat) (f : farm) (child : option (list string)) X (e : farmE X) : Prop :=
  match e with
  | FObj e => obj_own i f _ e
  | FProc e => match e with
               | Wait => forall args dir name, child = Some args -> output_arg args dir name -> fm_dirs f !! dir = Some i
               | _ => True
               end
  | FOrch e => match e with
               | OStore e => store_own i f e
               | MkdirTemp dir _ => dir = root
               | RemoveAll dir => fm_dirs f !! dir = Some i
               | _ => True
               end
  end.

Lemma digits_not_dots rand : all_chars is_digit rand = true -> rand <> "" ->
  forall pattern, pattern +:+ rand <> "" /\ pattern +:+ rand <> "." /\ pattern +:+ rand <> "..".
Proof.
  intros Hd Hne pattern. destruct rand as [|c r]; [done|]. simpl in Hd. bool_prop.
  assert (c <> "."%char) by (by intros ->).
  destruct pattern as [|a [|b [|d p]]]; simpl; split_and!; intros [=]; subst; try done.
Qed.

Lemma temp_scratch pattern name : temp_name pattern name -> scratch_dir root (tmp_path root name).
Proof.
  intros (rand & -> & Hne & Hd & Hp). exists (pattern +:+ rand).
  destruct (digits_not_dots rand Hd Hne pattern) as (H1 & H2 & H3). split_and!; try done.
  unfold no_char in *. rewrite all_chars_app, Hp. eapply all_chars_impl; [|exact Hd].
  intros c. destruct c as [[][][][][][][][]]; vm_compute; congruence.
Qed.

Lemma own_path_refl i f d : fm_dirs f !! d = Some i -> own_path i f d.
Proof. intros Hd. exists d. split; [done|apply within_refl]. Qed.

Lemma set_dirs_same f o : set_dirs (set_obj f o) (fm_dirs f) = set_obj f o.
Proof. done. Qed.

Lemma step_guar i f c X (e : farmE X) x f' c' :
  wf f -> farm_own i f c X e -> do i X e (f, c) x (f', c') -> fguar i f f'.
Proof.
  intros Hf He. unfold farm_do. destruct e as [X e|X e|X e]; simpl in He.
  - intros (o' & Hs & [= -> ->]). by eapply obj_guar.
  - intros (o' & child' & Hs & [= -> ->]). assert (Hsame : fguar i f (set_obj f (fm_obj f))) by (destruct f; by apply guar_refl).
    destruct e; simpl in Hs; try (by destruct Hs as [-> _]). destruct Hs as [_ Hs].
    destruct c as [args|]; [|by destruct Hs as [_ ->]].
    destruct Hs as [[_ ->]|(dir & name & t & Ha & Ho & _)]; [done|].
    rewrite <-(set_dirs_same f o'). apply (scratch_guar i f dir); [done| |done|apply Hf|done].
    apply own_free; [done|]. apply own_path_refl. by eapply He.
  - intros (g & Hs & [= -> ->]). destruct e; simpl in Hs; try (subst; by apply guar_refl).
    + destruct Hs as (now & uid & d' & Hu & Hs & ->). destruct He as (H1 & H2 & H3 & H4). by eapply store_guar.
    + destruct Hs as [[_ ->]|(name & o' & Hn & _ & Hfr & Ho & _ & ->)]; [by apply guar_refl|]. subst dir.
      pose proof (temp_scratch _ _ Hn) as Hs.
      apply (scratch_guar i f (tmp_path root name)); [done| |done|..].
      * exists (tmp_path root name). split_and!; [done| |apply within_refl]. intros k Hk. congruence.
      * intros d k. destruct (decide (tmp_path root name = d)) as [<-|Hne]; [done|].
        rewrite lookup_insert_ne by done. apply Hf.
      * intros d k Hne Hd. rewrite lookup_insert_ne; [done|]. intros Heq. congruence.
    + destruct Hs as (o' & dirs' & Ho & Hd & ->).
      apply (scratch_guar i f dir); [done| |done|..].
      * apply own_free; [done|]. by apply own_path_refl.
      * intros d k. destruct Hd as [->| ->]; [apply Hf|]. intros [_ Hk]%lookup_delete_Some. by apply (fw_dirs _ _ _ Hf d k).
      * intros d k Hne Hk. destruct Hd as [->| ->]; [done|]. rewrite lookup_delete_ne; [done|]. intros ->. congruence.
Qed.

(** ** Triples *)

#[local] Instance frely_relied : Relied wf frely.
Proof. split; [apply frely_preorder|]. intros i f f' Hf Hr. by apply Hr. Qed.

Abbreviation assertion := (Triples.assertion farm (option (list string))).
Abbreviation tri := (Triples.tri do wf frely).
Abbreviation stable := (Triples.stable (L := option (list string)) wf frely).

(** A call of what the worker owns. *)
Lemma tri_call i {X B} (e : farmE X) (P : assertion) (R : X -> assertion) (Q : B -> assertion) k :
  stable i P -> (forall f c, wf f -> P f c -> farm_own i f c X e) ->
  (forall f c x f' c', wf f -> P f c -> do i X e (f, c) x (f', c') -> wf f' -> R x f' c') ->
  (forall x, tri i (R x) (k x) Q) -> tri i P (Vis e k) Q.
Proof.
  intros Hs Ho HR. apply tri_vis; [done|]. intros f c x f' c' Hf Hp Hstep.
  pose proof (step_guar i f c X e x f' c' Hf (Ho _ _ Hf Hp) Hstep) as Hg. destruct (Hg) as [Hf' _].
  split; [done|]. split; [|by apply (HR f c x f' c')]. intros j Hne. by eapply guar_rely.
Qed.

(** Programs of the workers. *)
Abbreviation fprog := (farm_prog ParseFloat json_ffprobe fcfg).
Abbreviation fcall := (orch_call ParseFloat json_ffprobe fcfg).

Lemma tri_oret i {A} (a : A) (P : assertion) (Q : A -> assertion) :
  stable i P -> (forall f c, wf f -> P f c -> Q a f c) -> tri i P (fprog (Ret a)) Q.
Proof. apply tri_ret. Qed.

Lemma tri_obind i {A B} (P : assertion) (R : A -> assertion) (Q : B -> assertion) (p : prog orchE A) k :
  tri i P (fprog p) R -> (forall a, tri i (R a) (fprog (k a)) Q) -> tri i P (fprog (p ≫= k)) Q.
Proof. apply tri_interp_bind. Qed.

Lemma tri_ocall i {X B} (e : orchE X) (P : assertion) (R : X -> assertion) (Q : B -> assertion) k :
  tri i P (fcall X e) R -> (forall x, tri i (R x) (fprog (k x)) Q) -> tri i P (fprog (call e ≫= k)) Q.
Proof. apply tri_interp_call. Qed.

(** ** A run at work *)

(** The job is this worker's to run. *)
Definition owns (i : nat) (j : Job) (f : farm) : Prop :=
  fm_runs f !! j_ID j = Some i /\ exists row, jobs (fm_db f) !! j_ID j = Some row /\ job_key row = job_key j.

Lemma owns_named i j f : wf f -> owns i j f -> row_named (j_ID j) j.
Proof.
  intros Hf (_ & row & Hrow & Hk). destruct (fw_named _ _ _ Hf _ _ Hrow) as (Hi & Hw & Hs).
  destruct (job_key_fields _ _ Hk) as (_ & Ew & _ & Es). unfold row_named. by rewrite <-Ew, <-Es.
Qed.

Lemma owns_key i j f key : owns i j f -> in_root j key -> own_key i f key.
Proof. intros (Hr & row & Hrow & Hk) Hin. exists (j_ID j), row. split_and!; [done..|]. by apply (in_root_key j). Qed.

Lemma owns_kept i j f f' : owns i j f -> kept i f f' -> owns i j f'.
Proof.
  intros (Hr & row & Hrow & Hk) K. destruct (kp_runs _ _ _ K _ Hr) as [Hr' Hj]. split; [done|]. exists row.
  split; [congruence|done].
Qed.

(** The source of job [j], [data], was downloaded into the scratch directory [dir], and
    the outputs of [rungs] are stored. *)
Definition source_path (dir : string) : string := dir +:+ "/source".

Record working (i : nat) (j : Job) (preset : Preset) (dir data : string) (rungs : list Rung)
    (outs : list OutputProgress) (f : farm) : Prop := {
  wk_owns : owns i j f;
  wk_dir : fm_dirs f !! dir = Some i;
  wk_file : w_files (fm_obj f) !! source_path dir = Some data;
  wk_source : w_objects (fm_obj f) !! j_SourceObjectKey j = Some data;
  wk_done : Forall2 (rung_stored encodes (w_objects (fm_obj f)) j preset data) rungs outs
}.

Lemma source_within dir : within dir (source_path dir).
Proof. right. by exists "source". Qed.

Lemma working_step i j preset dir data rungs outs f f' :
  working i j preset dir data rungs outs f -> owns i j f' -> fm_dirs f' !! dir = Some i ->
  w_files (fm_obj f') !! source_path dir = w_files (fm_obj f) !! source_path dir ->
  w_objects (fm_obj f') !! j_SourceObjectKey j = w_objects (fm_obj f) !! j_SourceObjectKey j ->
  (forall rung x, rung ∈ rungs -> let key := out_prefix j rung +:+ "/" +:+ x in
     w_objects (fm_obj f') !! key = w_objects (fm_obj f) !! key) ->
  working i j preset dir data rungs outs f'.
Proof.
  intros [Ho Hd Hf Hs Hdone] Ho' Hd' Hf' Hs' Hk. split; [done|done|congruence|congruence|].
  rewrite Forall2_lookup in Hdone |- *. intros n. specialize (Hdone n).
  destruct (rungs !! n) as [r|] eqn:Hr; inversion Hdone; constructor.
  eapply rung_stored_same; [|done]. intros name. apply Hk. by eapply list_elem_of_lookup_2.
Qed.

Lemma working_stable i j preset dir data rungs outs :
  stable i (fun f _ => working i j preset dir data rungs outs f).
Proof.
  intros f f' _ Hf Hw Hr. destruct (Hr Hf) as (Hf' & Hin & K & _). pose proof (wk_owns _ _ _ _ _ _ _ _ Hw) as Ho.
  eapply working_step; [exact Hw|by eapply owns_kept|..].
  - apply (kp_dirs _ _ _ K), Hw.
  - apply (kp_dirs _ _ _ K dir); [apply Hw|apply source_within].
  - destruct (owns_named _ _ _ Hf Ho) as (_ & _ & r & Hs). destruct Hw as [_ _ _ Hd _]. rewrite Hd. rewrite Hs in Hd |- *.
    by apply Hin.
  - intros rung x _ key. destruct Ho as (Hru & row & Hrow & Hk). apply (kp_root _ _ _ K (j_ID j) row); [done|done|].
    apply (in_root_key j row); [done|]. apply artifact_in_root.
Qed.

Lemma dir_stable i d : stable i (fun f _ => fm_dirs f !! d = Some i).
Proof. intros f f' _ Hf Hd Hr. destruct (Hr Hf) as (_ & _ & K & _). by apply (kp_dirs _ _ _ K). Qed.

Lemma owns_stable i j : stable i (fun f _ => owns i j f).
Proof. intros f f' _ Hf Ho Hr. destruct (Hr Hf) as (_ & _ & K & _). by eapply owns_kept. Qed.

(** What happens within another scratch directory. *)
Lemma other_dir_kept root' d d' o o' p :
  scratch_dir root' d -> scratch_dir root' d' -> d <> d' -> only_in d' o o' -> within d p ->
  w_files o' !! p = w_files o !! p.
Proof.
  intros Hd Hd' Hne Ho Hp. apply (oi_files _ _ _ Ho). intros Hp'. apply Hne. by eapply within_disjoint.
Qed.

Lemma working_elsewhere i j preset dir data rungs outs f d o' dirs' :
  wf f -> working i j preset dir data rungs outs f -> scratch_dir root d -> dir <> d -> only_in d (fm_obj f) o' ->
  dirs' !! dir = Some i ->
  working i j preset dir data rungs outs (set_dirs (set_obj f o') dirs').
Proof.
  intros Hf Hw Hd Hne Ho Hdirs. eapply working_step; [exact Hw|apply Hw|done|..].
  - eapply other_dir_kept; [|exact Hd|done|exact Ho|apply source_within].
    eapply (fw_dirs _ _ _ Hf), Hw.
  - simpl. by rewrite (oi_objects _ _ _ Ho).
  - intros rung x _ key. simpl. by rewrite (oi_objects _ _ _ Ho).
Qed.

(** ** Calls that change nothing the run depends on *)

Definition quiet (X : Type) (e : orchE X) : Prop :=
  match e with
  | OStore _ | Exists _ | Download _ _ | PutDir _ _ | MkdirTemp _ _ | RemoveAll _ | EngProbe _
  | EngTranscode _ _ => False
  | _ => True
  end.

Lemma quiet_call X (e : orchE X) : quiet X e ->
  fcall X e = call (FOrch e) /\
  (forall i f c, farm_own i f c X (FOrch e)) /\
  forall i f c x f' c', do i X (FOrch e) (f, c) x (f', c') -> f' = f /\ c' = c.
Proof.
  intros He. destruct e; simpl in He; try done; (split; [done|]; split; [done|]);
    intros i f c x f' c' (g & -> & [= -> ->]); done.
Qed.

Lemma tri_quiet_call i X (e : orchE X) (P : assertion) : quiet X e -> stable i P -> tri i P (fcall X e) (fun _ => P).
Proof.
  intros He Hs. destruct (quiet_call X e He) as (-> & Ho & Hd).
  apply (tri_call i _ P (fun _ => P)); [done|done| |intros x; by apply tri_ret].
  intros f c x f' c' _ Hp Hx _. by apply Hd in Hx as [-> ->].
Qed.

(** Induction over a worker's calls. *)
Lemma tri_ocalls i {A} (P : assertion) (C : forall X, orchE X -> Prop) (p : prog orchE A) :
  stable i P -> all_calls C p -> (forall X (e : orchE X), C X e -> tri i P (fcall X e) (fun _ => P)) ->
  tri i P (fprog p) (fun _ => P).
Proof. apply tri_interp_calls. Qed.

Lemma tri_quiet i {A} (P : assertion) (p : prog orchE A) :
  stable i P -> all_calls quiet p -> tri i P (fprog p) (fun _ => P).
Proof. intros Hs Hc. eapply tri_ocalls; [done|exact Hc|]. intros X e He. by apply tri_quiet_call. Qed.

(** ** Statements of a run *)

Lemma store_step i {Y} (e : ostoreE Y) f c x f' c' :
  do i _ (FOrch (OStore e)) (f, c) x (f', c') ->
  exists now uid d', up_to_fault (ostore_apply now uid e (fm_db f)) (fm_db f) x d' /\ f' = store_done i f d' /\ c' = c.
Proof. intros (g & (now & uid & d' & _ & Hu & ->) & [= -> ->]). eauto 6. Qed.

Lemma owns_running i j f : wf f -> owns i j f -> exists row,
  jobs (fm_db f) !! j_ID j = Some row /\ j_State row = StateRunning /\ job_key row = job_key j.
Proof.
  intros Hf (Hr & row & Hrow & Hk). exists row. split_and!; [done| |done].
  apply (fw_runs _ _ _ Hf), running_Some in Hr as (row2 & Hrow2 & Hs). congruence.
Qed.

Lemma owns_after i j f d' row' :
  wf f -> owns i j f -> jobs d' !! j_ID j = Some row' -> j_State row' = StateRunning -> job_key row' = job_key j ->
  owns i j (store_done i f d').
Proof.
  intros Hf Ho Hj Hs Hk. destruct (owns_running _ _ _ Hf Ho) as (row & Hrow & Hr & _). split; [|by exists row'].
  simpl. apply claims_lookup. split; [apply running_Some; eauto|].
  rewrite (proj2 (running_Some _ _)) by eauto. apply Ho.
Qed.

(** The statements of a run, the settling ones apart. *)
Definition run_statement (k : string) (Y : Type) (e : ostoreE Y) : Prop :=
  match e with GetPreset _ _ | GetSource _ _ => True | UpdateProgress id _ _ _ _ _ => id = k | _ => False end.

Lemma run_statement_own i j f {Y} (e : ostoreE Y) :
  owns i j f -> run_statement (j_ID j) Y e -> store_own i f e.
Proof.
  intros [Hr _] He. split_and!; destruct e; try done. simpl in He. subst. intros id k Hne Hk. simpl. congruence.
Qed.

Lemma run_statement_owns i j f {Y} (e : ostoreE Y) now uid x d' :
  wf f -> owns i j f -> run_statement (j_ID j) Y e -> up_to_fault (ostore_apply now uid e (fm_db f)) (fm_db f) x d' ->
  owns i j (store_done i f d').
Proof.
  intros Hf Ho He Hu. destruct (owns_running _ _ _ Hf Ho) as (row & Hrow & Hr & Hk).
  assert (Hsame : owns i j (store_done i f (fm_db f))) by (by eapply owns_after).
  assert (Happ : owns i j (store_done i f (ostore_apply now uid e (fm_db f)).2)).
  { destruct e; try done. simpl in He. subst. simpl. unfold update_job. rewrite Hrow.
    unfold in_state. rewrite Hr. simpl.
    eapply owns_after; [done|done|simpl; by rewrite lookup_insert_eq|done|done]. }
  destruct Hu as [Hu|(er & _ & [-> | ->])]; [|done..]. by rewrite <-Hu in Happ.
Qed.

Lemma tri_statement i j {Y} (e : ostoreE Y) (P : assertion) (R : result Y -> assertion) :
  stable i P -> (forall x, stable i (R x)) -> run_statement (j_ID j) Y e ->
  (forall f c, wf f -> P f c -> owns i j f) ->
  (forall f c now uid x d', wf f -> P f c -> up_to_fault (ostore_apply now uid e (fm_db f)) (fm_db f) x d' ->
     owns i j (store_done i f d') -> R x (store_done i f d') c) ->
  tri i P (fcall _ (OStore e)) R.
Proof.
  intros Hs HsR He Ho HR. apply (tri_call i _ P R); [done| | |intros x; by apply tri_ret].
  - intros f c Hf Hp. eapply (run_statement_own i j); [by eapply Ho|done].
  - intros f c x f' c' Hf Hp (now & uid & d' & Hu & -> & ->)%store_step _.
    eapply HR; [done|done|exact Hu|]. eapply run_statement_owns; [done|by eapply Ho|done|exact Hu].
Qed.

(** A statement leaves the files and the objects alone. *)
Lemma working_statement i j preset dir data rungs outs f d' :
  working i j preset dir data rungs outs f -> owns i j (store_done i f d') ->
  working i j preset dir data rungs outs (store_done i f d').
Proof. intros Hw Ho. eapply working_step; [exact Hw|done|apply Hw|done..]. Qed.

(** ** Settling, directories *)

Definition holds (i : nat) (ds : list string) (f : farm) : Prop := Forall (fun d => fm_dirs f !! d = Some i) ds.

Lemma holds_stable i ds : stable i (fun f _ => holds i ds f).
Proof.
  intros f f' c Hf Hd Hr. eapply Forall_impl; [exact Hd|]. intros d Hdd. by eapply (dir_stable i d f f' c).
Qed.

Lemma owns_holds_stable i j ds : stable i (fun f _ => owns i j f /\ holds i ds f).
Proof. apply stable_and; [apply owns_stable|apply holds_stable]. Qed.

Lemma publish_quiet j st a b c d : all_calls quiet (publish_state j st a b c d).
Proof. unfold publish_state. worker_calls. Qed.
Lemma meter_quiet j k s : all_calls quiet (meter_emit j k s).
Proof. unfold meter_emit, Emit. worker_calls. Qed.

(** After the settling statement nothing more is needed of the job. *)
Lemma tri_settle i ds {B} (e : ostoreE Job) (P : assertion) (k : result Job -> prog orchE B) Q :
  stable i P -> (forall f c, wf f -> P f c -> store_own i f e /\ holds i ds f) ->
  (forall x, tri i (fun f _ => holds i ds f) (fprog (k x)) Q) ->
  tri i P (fprog (call (OStore e) ≫= k)) Q.
Proof.
  intros Hs Ho Hk. apply (tri_ocall i _ P (fun _ f _ => holds i ds f)); [|done].
  apply (tri_call i _ P (fun _ f _ => holds i ds f)); [done| | |intros x; apply tri_ret; [apply holds_stable|done]].
  - intros f c Hf Hp. by apply (Ho f c).
  - intros f c x f' c' Hf Hp (now & uid & d' & Hu & -> & ->)%store_step _. by apply (Ho f c).
Qed.

Lemma tri_fail i j ds class msg :
  tri i (fun f _ => owns i j f /\ holds i ds f) (fprog (fail j class msg)) (fun _ f _ => holds i ds f).
Proof.
  unfold fail. apply (tri_settle i ds).
  - apply owns_holds_stable.
  - intros f c Hf [[Hr _] Hd]. split; [|done]. split_and!; [done|done| |done].
    intros id k Hne Hk. simpl. congruence.
  - intros x. apply tri_quiet; [apply holds_stable|]. apply all_calls_bind; [apply publish_quiet|].
    intros _. apply meter_quiet.
Qed.

Lemma tri_fail_canceled i j ds :
  tri i (fun f _ => owns i j f /\ holds i ds f) (fprog (fail_canceled j)) (fun _ f _ => holds i ds f).
Proof.
  unfold fail_canceled. eapply tri_ocall; [by apply tri_quiet_call, owns_holds_stable|]. intros p. apply tri_fail.
Qed.

Lemma tri_mkdir i pattern (P : assertion) (R : result string -> assertion) :
  stable i P -> (forall x, stable i (R x)) -> (forall f c e, wf f -> P f c -> R (Err e) f c) ->
  (forall f c d o', wf f -> P f c -> scratch_dir root d -> fm_dirs f !! d = None -> only_in d (fm_obj f) o' ->
     R (Ok d) (set_dirs (set_obj f o') (<[d := i]> (fm_dirs f))) c) ->
  tri i P (fcall _ (MkdirTemp root pattern)) R.
Proof.
  intros Hs HsR He Hok. apply (tri_call i _ P R); [done|done| |intros x; by apply tri_ret].
  intros f c x f' c' Hf Hp (g & Hg & [= -> ->]) _. destruct Hg as [[Hx ->]|(name & o' & Hn & -> & Hfr & Ho & _ & ->)].
  - destruct x; [done|]. by apply He.
  - apply Hok; try done. by eapply temp_scratch.
Qed.

Lemma tri_remove i d (P R : assertion) :
  stable i P -> stable i R -> (forall f c, wf f -> P f c -> fm_dirs f !! d = Some i) ->
  (forall f c o' dirs', wf f -> P f c -> only_in d (fm_obj f) o' ->
     (forall d', d' <> d -> dirs' !! d' = fm_dirs f !! d') -> R (set_dirs (set_obj f o') dirs') c) ->
  tri i P (fcall _ (RemoveAll d)) (fun _ => R).
Proof.
  intros Hs HsR Hd HR. apply (tri_call i _ P (fun _ => R)); [done|done| |intros x; by apply tri_ret].
  intros f c x f' c' Hf Hp (g & (o' & dirs' & Ho & Hdirs & ->) & [= -> ->]) _. eapply HR; [done|done|done|].
  intros d' Hne. destruct Hdirs as [->| ->]; [done|]. by rewrite lookup_delete_ne.
Qed.

(** ** Encoding *)

Lemma last_slash a b x y :
  no_char "/" x = true -> no_char "/" y = true -> a +:+ "/" +:+ x = b +:+ "/" +:+ y -> a = b /\ x = y.
Proof. apply cut_last. Qed.

(** The vector names its input after [-i] and its artifact last. *)
Lemma transcode_args input spec args artifact :
  buildTranscodeArgs input spec = Ok (args, artifact) -> input_arg args = Some input /\ last args = Some artifact.
Proof.
  unfold buildTranscodeArgs. destruct (encoderFor _) as [enc|]; [|done]. simpl.
  destruct (rate_args _) as [rate|]; [|done]. simpl. destruct (mux_args spec) as [[m art]|] eqn:Hm; [|done].
  simpl. intros [= <- <-]. split; [done|].
  assert (Hl : last m = Some art).
  { unfold mux_args in Hm. repeat (case_match; [by injection Hm as <- <-|]). done. }
  apply last_Some in Hl as [l ->]. rewrite !app_comm_cons, !app_assoc. apply last_snoc.
Qed.

#[local] Arguments collect : simpl never.

(** Every call but the callback is passed on. *)
Lemma collect_call {A X} acc (e : runnerE X) (k : X -> prog runnerE A) :
  match e with OnProgress _ => False | _ => True end ->
  collect acc (call e ≫= k) = Vis (FProc e) (fun x => collect acc (k x)).
Proof. by destruct e. Qed.
Lemma collect_ret {A} acc (a : A) : collect acc (Ret a) = Ret (rev acc, a).
Proof. done. Qed.

Lemma collect_report {A} out samples acc (k : () -> prog runnerE A) :
  exists acc', collect acc (report out samples ≫= k) = collect acc' (k ()).
Proof.
  revert acc. induction samples as [|s ss IH]; intros acc; [by exists acc|].
  destruct (IH (sample_progress out s :: acc)) as [acc' H]. exists acc'. exact H.
Qed.

Lemma mirrors_stable i d t : stable i (fun f _ => fm_dirs f !! d = Some i /\ mirrors (fm_obj f) d t).
Proof.
  intros f f' _ Hf [Hd [Ht Hda Hnd Hn]] Hr. destruct (Hr Hf) as (_ & _ & K & _).
  destruct (kp_dirs _ _ _ K d Hd) as (Hd' & Ht' & Hfi). split; [done|]. split; [congruence| |done|done].
  eapply Forall_impl; [exact Hda|]. intros x Hx. rewrite Hfi; [done|]. unfold file_path, visit_path. simpl.
  destruct x.1; [apply within_refl|right; by eexists].
Qed.

(** The stored files of a rung are this worker's to keep. *)
Definition tree_stored (j : Job) (rung : Rung) (l : list (list string * string)) (f : farm) : Prop :=
  Forall (fun x => w_objects (fm_obj f) !! file_key (out_prefix j rung) x.1 = Some x.2) l.

Lemma tree_stored_stable i j rung l f f' : wf f -> owns i j f -> frely i f f' -> tree_stored j rung l f -> tree_stored j rung l f'.
Proof.
  intros Hf (Hru & row & Hrow & Hk) Hr Hst. destruct (Hr Hf) as (_ & _ & K & _).
  eapply Forall_impl; [exact Hst|]. intros x Hx. rewrite <-Hx. apply (kp_root _ _ _ K (j_ID j) row); [done|done|].
  apply (in_root_key j row); [done|]. apply artifact_in_root.
Qed.

Section rung.
Context (i : nat) (j : Job) (preset : Preset) (dir data : string) (rungs : list Rung) (outs : list OutputProgress).
Context (staging : string) (Hne : dir <> staging).

Abbreviation work := (working i j preset dir data rungs outs).

(** At work, with a staging directory. *)
Definition staged (f : farm) (_ : option (list string)) : Prop := work f /\ fm_dirs f !! staging = Some i.

Lemma staged_stable : stable i staged.
Proof. apply stable_and; [apply working_stable|apply dir_stable]. Qed.

(** What ffmpeg left in it. *)
Definition encoded (args : list string) (f : farm) : Prop :=
  exists t, encodes args data t /\ mirrors (fm_obj f) staging t.

Lemma encoded_stable args :
  stable i (fun f c => staged f c /\ encoded args f).
Proof.
  intros f f' c Hf [Hs (t & He & Hm)] Hr. split; [by apply (staged_stable f)|]. exists t. split; [done|].
  apply (mirrors_stable i staging t f f' None); [done|split; [apply Hs|done]|done].
Qed.

Definition waited (args : list string) (ok : bool) (f : farm) (c : option (list string)) : Prop :=
  if ok then staged f c /\ encoded args f else staged f c.

Lemma waited_stable args ok : stable i (waited args ok).
Proof. destruct ok; [apply encoded_stable|apply staged_stable]. Qed.

Lemma waited_staged args ok f c : waited args ok f c -> staged f c.
Proof. destruct ok; [by intros []|done]. Qed.

Lemma waited_error args ok (e : engine_error) f c : waited args ok f c -> waited args (bool_decide (Some e = None)) f c.
Proof. rewrite bool_decide_eq_false_2 by done. apply waited_staged. Qed.

(** A call of the child's process that changes nothing. *)
Lemma tri_proc {X B} (e : runnerE X) (P : assertion) (k : X -> prog farmE B) Q :
  stable i P -> match e with Wait | Start _ _ => False | _ => True end ->
  (forall x, tri i P (k x) Q) -> tri i P (Vis (FProc e) k) Q.
Proof.
  intros Hs He Hk. apply (tri_call i _ P (fun _ => P)); [done|intros; by destruct e| |done].
  intros f c x f' c' Hf Hp (o' & child' & Hx & [= -> ->]) _.
  assert (o' = fm_obj f /\ child' = c) as [-> ->] by (by destruct e). by destruct f.
Qed.

Lemma tri_transcode spec artifact args name :
  buildTranscodeArgs (source_path dir) spec = Ok (args, artifact) ->
  artifact = staging +:+ "/" +:+ name -> no_char "/" name = true ->
  tri i staged (collect [] (Transcode ParseFloat fcfg (source_path dir) spec true))
    (fun r => waited args (bool_decide (r.2 = None))).
Proof.
  intros Hb Hart Hname. pose proof (transcode_args _ _ _ _ Hb) as [Hin Hlast]. unfold Transcode. rewrite Hb.
  assert (Hout : forall d n, output_arg args d n -> d = staging).
  { intros d n [Hl Hn]. rewrite Hlast, Hart in Hl. injection Hl as Hl. by apply last_slash in Hl as [<- _]. }
  rewrite collect_call by done.
  apply (tri_call i _ staged (fun x f c => staged f c /\ (is_ok x = true -> c = Some args)));
    [apply staged_stable|done| |].
  { intros f c x f' c' Hf Hp (o' & child' & [-> Hx] & [= -> ->]) _. destruct f. split; [done|]. by destruct x. }
  intros [stdout|e].
  2:{ rewrite collect_ret. apply tri_ret; [apply stable_and; [apply staged_stable|exact (stable_own i (fun c => _ -> c = _))]|]. intros f c _ [H _]. by apply (waited_error args false). }
  destruct (ScanProgress ParseFloat stdout) as [samples scanErr].
  match goal with |- tri _ _ (collect ?acc (mbind ?k (report ?out ?samples))) _ =>
    destruct (collect_report out samples acc k) as [acc' ->] end.
  rewrite collect_call by done.
  apply (tri_call i _ _ (fun x => waited args (bool_decide (x.2 = None))));
    [apply stable_and; [apply staged_stable|exact (stable_own i (fun c => _ -> c = _))]| | |].
  - intros f c _ [[Hw Hst] Hc]. specialize (Hc eq_refl). subst c. simpl. intros a d n [= <-] Ho.
    by rewrite (Hout d n Ho).
  - intros f c x f' c' Hf [[Hw Hst] Hc] (o' & child' & [-> Hx] & [= -> ->]) _.
    specialize (Hc eq_refl). subst c. destruct Hx as [[He ->]|(d & n & t & Ho & Honly & Hm & Henc)].
    { rewrite bool_decide_eq_false_2; [by destruct f|]. intros H. rewrite H in He. by destruct He. }
    rewrite (Hout d n Ho) in Honly, Hm.
    assert (Hs : staged (set_obj f o') None).
    { split; [|done]. rewrite <-(set_dirs_same f o'). apply (working_elsewhere i j preset dir data rungs outs f staging);
        [done|done|by eapply (fw_dirs _ _ _ Hf)|done|done|apply Hw]. }
    case_bool_decide as Hok; [|done]. split; [done|].
    destruct (Henc Hok) as (input & data' & Hi & Hd & He). rewrite Hin in Hi. injection Hi as <-.
    pose proof (wk_file _ _ _ _ _ _ _ _ Hw) as Hd'. simpl in Hd. rewrite Hd in Hd'. injection Hd' as ->. by exists t.
  - intros [stderr waitErr]. rewrite collect_call by done. apply tri_proc; [apply waited_stable|done|]. intros ctx.
    destruct ctx as [e|]; [apply tri_ret; [apply waited_stable|intros f c _; apply waited_error]|].
    destruct waitErr as [e|]; [apply tri_ret; [apply waited_stable|intros f c _; apply waited_error]|].
    destruct scanErr as [e|]; (apply tri_ret; [apply waited_stable|intros f c _]); [apply waited_error|done].
Qed.

(** ** Storing

    The tree [t] in the staging directory is stored below the prefix of [rung]. *)
Abbreviation eobj := (embed (fun X (e : objE X) => FObj e)).

Lemma tri_eobj {X B} (e : objE X) (P : assertion) (R : X -> assertion) (Q : B -> assertion) (k : X -> prog objE B) :
  stable i P -> (forall f c, wf f -> P f c -> obj_own i f X e) ->
  (forall f c x o', wf f -> P f c -> obj_nsem X e (fm_obj f) x o' -> R x (set_obj f o') c) ->
  (forall x, tri i (R x) (eobj (k x)) Q) -> tri i P (eobj (call e ≫= k)) Q.
Proof.
  intros Hs Ho HR Hk. apply (tri_call i (FObj e) P R); [done|done| |exact Hk].
  intros f c x f' c' Hf Hp (o' & Hx & [= -> ->]) _. by apply HR.
Qed.

Lemma tri_ebind {A B} (P : assertion) (R : A -> assertion) (Q : B -> assertion) (p : prog objE A) k :
  tri i P (eobj p) R -> (forall a, tri i (R a) (eobj (k a)) Q) -> tri i P (eobj (p ≫= k)) Q.
Proof. apply tri_embed_bind. Qed.

(** A call that changes nothing. *)
Lemma tri_eread {X B} (e : objE X) (P : assertion) (Q : B -> assertion) (k : X -> prog objE B) :
  stable i P -> (forall f, obj_own i f X e) -> (forall o x o', obj_nsem X e o x o' -> o' = o) ->
  (forall x, tri i P (eobj (k x)) Q) -> tri i P (eobj (call e ≫= k)) Q.
Proof.
  intros Hs Ho He Hk. apply (tri_eobj e P (fun _ => P)); [done|done| |done].
  intros f c x o' _ Hp ->%He. by destruct f.
Qed.

Context (rung : Rung) (t : node).
Context (Hname : no_char "/" (r_Name rung) = true).
Context (Hnames : Forall (fun r => no_char "/" (r_Name r) = true /\ r_Name r <> r_Name rung) rungs).
Abbreviation prefix := (out_prefix j rung).

Definition storing (stored : list (list string * string)) (f : farm) (c : option (list string)) : Prop :=
  staged f c /\ mirrors (fm_obj f) staging t /\ tree_stored j rung stored f.

Lemma storing_stable stored : stable i (storing stored).
Proof.
  intros f f' c Hf (Hs & Hm & Hst) Hr. split; [by apply (staged_stable f)|]. split.
  - exact (proj2 (mirrors_stable i staging t f f' c Hf (conj (proj2 Hs) Hm) Hr)).
  - eapply tree_stored_stable; [exact Hf|apply Hs|exact Hr|exact Hst].
Qed.

Lemma rung_keys r x y :
  no_char "/" (r_Name r) = true -> out_prefix j r +:+ "/" +:+ x = prefix +:+ "/" +:+ y -> r_Name r = r_Name rung /\ x = y.
Proof.
  intros Hr Heq. unfold out_prefix in Heq. rewrite !sapp_assoc in Heq.
  apply (inj (String.append "outputs/")), (inj (String.append (j_WorkspaceID j))), (inj (String.append "/")),
    (inj (String.append (j_ID j))), (inj (String.append "/")) in Heq. by apply slash_cut in Heq.
Qed.

(** Writing an object of the rung. *)
Lemma staged_put f c rel content :
  wf f -> staged f c -> staged (set_obj f (set_objects (fm_obj f) (<[file_key prefix rel := content]> (w_objects (fm_obj f))))) c.
Proof.
  intros Hf [Hw Hst]. split; [|done]. pose proof (wk_owns _ _ _ _ _ _ _ _ Hw) as Ho.
  eapply working_step; [exact Hw|exact Ho|apply Hw|done|..]; simpl.
  - destruct (owns_named _ _ _ Hf Ho) as (_ & _ & r & Hs). rewrite lookup_insert_ne; [done|].
    rewrite Hs. intros Heq. apply (asset_not_output r). rewrite <-Heq. eapply in_root_output, artifact_in_root.
  - intros r x Hr. rewrite lookup_insert_ne; [done|]. intros Heq. rewrite Forall_forall in Hnames.
    destruct (Hnames r Hr) as [Hnr Hdiff]. apply Hdiff. symmetry in Heq. by apply rung_keys in Heq as [].
Qed.

Lemma tri_put_file rel content stored :
  Forall plain_name rel -> Forall (fun x => Forall plain_name x.1) stored ->
  rel ∉ stored.*1 -> (rel, content) ∈ tree_files [] t ->
  tri i (storing stored) (eobj (obj_PutFile (file_key prefix rel) (file_path staging rel) ""))
    (fun r f c => match r with Ok _ => storing (stored ++ [(rel, content)]) f c | Err _ => staged f c end).
Proof.
  intros Hp Hps Hnin Hin. unfold obj_PutFile, with_key.
  assert (Hret : forall (P : assertion) (e : gerror), stable i P -> (forall f c, P f c -> staged f c) ->
    tri i P (eobj (Ret (Err e) : prog objE (result ()))) (fun r f c =>
      match r with Ok _ => storing (stored ++ [(rel, content)]) f c | Err _ => staged f c end)).
  { intros P e Hs HP. apply tri_ret; [done|]. intros f c _. apply HP. }
  destruct (validateKey _); [|apply Hret; [apply storing_stable|by intros f c []]].
  apply tri_eread; [apply storing_stable|done|done|]. intros [[]|e]; [|apply Hret; [apply storing_stable|by intros f c []]].
  apply tri_eread; [apply storing_stable|done|by intros o x o' [[_ ->]|(d & _ & -> & _)]|].
  intros [size|e]; [|apply Hret; [apply storing_stable|by intros f c []]].
  apply (tri_eobj _ _ (fun x f c => match x with Ok _ => storing (stored ++ [(rel, content)]) f c | Err _ => staged f c end)).
  - apply storing_stable.
  - intros f c _ ([Hw _] & _). simpl. eapply owns_key; [apply Hw|]. apply artifact_in_root.
  - intros f c x o' Hf (Hs & Hm & Hst) [[Hx ->]|(data' & Hd & ->)].
    { destruct x; [done|]. by destruct f. }
    pose proof (mr_data _ _ _ Hm) as Hdata. rewrite Forall_forall in Hdata. specialize (Hdata _ Hin). simpl in Hdata.
    rewrite Hd in Hdata. injection Hdata as ->. pose proof (staged_put f c rel content Hf Hs) as Hs'.
    destruct x; [|done]. split; [done|]. split; [by destruct Hm|]. apply Forall_app. simpl. split.
    + unfold tree_stored in Hst. rewrite Forall_forall in Hst |- *. intros y Hy. rewrite lookup_insert_ne; [by apply Hst|].
      intros Heq. apply Hnin. apply (inj (String.append prefix)) in Heq. injection Heq as Heq.
      rewrite Forall_forall in Hps. apply rel_string_inj in Heq; [|done|by apply Hps].
      simpl in Heq. subst rel. apply list_elem_of_fmap. by exists y.
    + apply Forall_singleton. simpl. by rewrite lookup_insert_eq.
  - intros [[]|e].
    + by apply tri_ret; [apply storing_stable|].
    + apply Hret; [apply staged_stable|done].
Qed.

Definition put_result (r : result (list string)) (f : farm) (c : option (list string)) : Prop :=
  match r with
  | Ok keys => storing (tree_files [] t) f c /\ keys = file_key prefix <$> (tree_files [] t).*1
  | Err _ => staged f c
  end.

Lemma tri_put_visits vs keys stored rest :
  NoDup (tree_files [] t).*1 -> Forall (fun x => Forall plain_name x.1) (tree_files [] t) ->
  tree_files [] t = stored ++ rest -> file_visits vs = (fun x => file_visit x.1) <$> rest ->
  keys = file_key prefix <$> stored.*1 ->
  tri i (storing stored) (eobj (put_visits prefix staging keys vs)) put_result.
Proof.
  intros Hnd Hpl. revert keys stored rest. induction vs as [|v vs IH]; intros keys stored rest Ht Hv ->.
  { unfold file_visits in Hv. simpl in Hv. symmetry in Hv. apply fmap_nil_inv in Hv as ->.
    apply tri_ret; [apply storing_stable|]. intros f c _ Hst. rewrite app_nil_r in Ht. simpl. by rewrite Ht. }
  cbn [put_visits]. destruct (v_err v) as [e|] eqn:Herr.
  { apply tri_ret; [apply storing_stable|]. by intros f c _ []. }
  unfold file_visits in Hv. destruct (v_dir v) eqn:Hd.
  { rewrite filter_cons_False in Hv by congruence. by eapply IH. }
  rewrite filter_cons_True in Hv by done. destruct rest as [|[rel content] rest]; [done|]. injection Hv as -> Hv.
  rewrite Ht, fmap_app, NoDup_app in Hnd. rewrite Ht, Forall_app in Hpl.
  destruct Hnd as (_ & Hnin & _). destruct Hpl as [Hps [Hp _]%Forall_cons].
  apply (tri_ebind _ (fun r f c => match r with Ok _ => storing (stored ++ [(rel, content)]) f c | Err _ => staged f c end)).
  - apply tri_put_file; [done|done| |rewrite Ht; set_solver]. intros Hin. by apply (Hnin _ Hin); left.
  - intros [[]|e]; [|apply tri_ret; [apply staged_stable|done]].
    apply (IH _ _ rest); [by rewrite Ht, <-app_assoc|done|]. by rewrite !fmap_app.
Qed.

Lemma tri_put_dir :
  tri i (fun f c => staged f c /\ mirrors (fm_obj f) staging t) (fcall _ (PutDir prefix staging)) put_result.
Proof.
  assert (Hst : forall f c, staged f c /\ mirrors (fm_obj f) staging t -> storing [] f c)
    by (intros f c [Hs Hm]; split; [done|]; split; [done|constructor]).
  simpl. unfold obj_PutDir, with_key.
  apply (tri_weaken i _ (storing []) _ put_result); [intros f c _; apply Hst| |done].
  destruct (validateKey _); [|apply tri_ret; [apply storing_stable|by intros f c _ []]].
  apply (tri_eobj _ _ (fun vs f c => vs = walk [] t /\ mirrors (fm_obj f) staging t /\ storing [] f c)).
  - apply storing_stable.
  - done.
  - intros f c x o' _ (Hs & Hm & Hn) [-> Hx]. rewrite (mr_tree _ _ _ Hm) in Hx. destruct f. by split_and!.
  - intros vs. apply tri_pure. intros ->. intros f c Hf [Hm Hs]. eapply (tri_put_visits _ _ [] (tree_files [] t)); [apply Hm|apply Hm|done|apply file_visits_walk|done|done|done].
Qed.
End rung.

(** ** A run *)

Context (scfg : SchedConfig) (Hscratch : StagingDir scfg = root) (Hroot : clean_root root).
(** An ffmpeg that exits with 0 has written its output file. *)
Context (encodes_writes : forall args data t dir name, encodes args data t -> output_arg args dir name ->
  exists content, ([name], content) ∈ tree_files [] t).

Lemma tri_ostatement i j {Y B} (e : ostoreE Y) (P : assertion) (k : result Y -> prog orchE B) Q :
  stable i P -> run_statement (j_ID j) Y e -> (forall f c, wf f -> P f c -> owns i j f) ->
  (forall f c d', wf f -> P f c -> owns i j (store_done i f d') -> P (store_done i f d') c) ->
  (forall x, tri i P (fprog (k x)) Q) -> tri i P (fprog (call (OStore e) ≫= k)) Q.
Proof.
  intros Hs He Ho HP Hk. apply (tri_ocall i _ P (fun _ => P)); [|done].
  apply (tri_statement i j e P (fun _ => P)); [done|done|done|done|].
  intros f c now uid x d' Hf Hp _ Hod. by apply HP.
Qed.

Section run.
Context (i : nat) (j : Job) (preset : Preset) (src : Source) (dir data : string).
Context (Hvalid : preset_wf preset).

Abbreviation at_work rungs outs := (working i j preset dir data rungs outs).

(** Failing the job and leaving the ladder. *)
Lemma tri_leaving {B} rungs outs (p : prog orchE ()) (P : assertion) :
  (forall ds, tri i (fun f _ => owns i j f /\ holds i ds f) (fprog p) (fun _ f _ => holds i ds f)) ->
  (forall f c, wf f -> P f c -> at_work rungs outs f) ->
  tri i P (fprog (p ≫= fun _ => Ret (None : option B))) (fun r f _ => r = None /\ fm_dirs f !! dir = Some i).
Proof.
  intros Hp HP. apply (tri_weaken i _ (fun f _ => owns i j f /\ holds i [dir] f) _ (fun r f _ => r = None /\ holds i [dir] f)).
  - intros f c Hf Hpre%HP; [|done]. split; [apply Hpre|]. apply Forall_singleton, Hpre.
  - eapply tri_obind; [apply Hp|]. intros []. by apply tri_oret; [apply holds_stable|].
  - intros r f c [-> H]. split; [done|]. exact (Forall_inv H).
Qed.

(** The samples change the percentage of the rung's output only. *)
Lemma tri_on_samples (P : assertion) n total ps s :
  stable i P -> (forall f c, wf f -> P f c -> owns i j f) ->
  (forall f c d', wf f -> P f c -> owns i j (store_done i f d') -> P (store_done i f d') c) ->
  tri i P (fprog (on_samples scfg j src n total ps s)) (fun s' f c =>
    (exists g, (forall o, op_Name (g o) = op_Name o) /\ ls_outputs s' = alter g n (ls_outputs s)) /\ P f c).
Proof.
  intros Hs Ho HP. revert s. induction ps as [|p ps IH]; intros s; cbn [on_samples].
  { apply tri_oret; [done|]. intros f c _ Hp. split; [|done]. exists id. split; [done|]. by rewrite list_alter_id. }
  apply (tri_obind i _ (fun s' f c => ls_outputs s' = set_output (ls_outputs s) n (out_pct (pg_ProgressPct p)) /\ P f c)).
  - unfold onProgress. apply (tri_ocall i _ P (fun _ => P)); [by apply tri_quiet_call|]. intros now. case_match.
    { by apply tri_oret. }
    apply (tri_ostatement i j); [done|done|done|done|]. intros x.
    eapply tri_obind; [apply tri_quiet; [done|apply publish_quiet]|]. intros []. by apply tri_oret.
  - intros s'. apply tri_pure. intros Hs'. eapply tri_weaken; [by intros f c _ Hp; exact Hp|apply IH|].
    intros s2 f c [(g & Hg & Heq) Hp]. split; [|done]. exists (g ∘ out_pct (pg_ProgressPct p)).
    split; [intros o; exact (Hg (out_pct _ o))|]. rewrite Heq, Hs'. apply list_alter_alter_eq.
Qed.

Lemma alter_at {A} (g : A -> A) l x k : alter g (length l) (l ++ x :: k) = l ++ g x :: k.
Proof. replace (length l) with (length l + 0)%nat by lia. by rewrite alter_app_r. Qed.

Lemma artifact_part rung : rung ∈ p_Ladder preset -> clean_part (artifact_name (p_Container preset) (r_Name rung)).
Proof.
  intros Hin. pose proof (wf_ladder _ Hvalid) as Hl. rewrite Forall_forall in Hl. destruct (Hl _ Hin) as (Hn & _).
  pose proof (rung_segment _ Hn) as Hseg%segment_no_slash.
  assert (Hext : no_char "/" (default "" (artifact_ext (p_Container preset))) = true).
  { unfold artifact_ext. by repeat case_match. }
  destruct (r_Name rung) as [|ch n] eqn:Hr; [done|]. unfold rungNamePattern in Hn. apply andb_true_iff in Hn as [Hch _].
  assert (ch <> "."%char) by (by intros ->).
  unfold artifact_name. split.
  - unfold no_char in *. by rewrite all_chars_app, Hseg, Hext.
  - split_and!; intros [=]; done.
Qed.

Lemma rung_no_slash rung : rung ∈ p_Ladder preset -> no_char "/" (r_Name rung) = true.
Proof.
  intros Hin. pose proof (wf_ladder _ Hvalid) as Hl. rewrite Forall_forall in Hl. destruct (Hl _ Hin) as (Hn & _).
  by apply rung_segment, segment_no_slash in Hn.
Qed.

Definition rung_post rungs outs rung rest (r : option loop_state) (f : farm) (_ : option (list string)) : Prop :=
  match r with
  | None => fm_dirs f !! dir = Some i
  | Some s' => exists o, ls_outputs s' = (outs ++ [o]) ++ (pending_output <$> rest) /\
                         at_work (rungs ++ [rung]) (outs ++ [o]) f
  end.

Lemma tri_run_rung rungs outs rung rest s :
  p_Ladder preset = rungs ++ rung :: rest -> length outs = length rungs ->
  ls_outputs s = outs ++ (pending_output <$> rung :: rest) ->
  tri i (fun f _ => at_work rungs outs f)
    (fprog (run_rung scfg j preset src (source_path dir) (length rungs) rung s)) (rung_post rungs outs rung rest).
Proof.
  intros Hlad Hlen Hls. set (name := artifact_name (p_Container preset) (r_Name rung)).
  assert (Hin : rung ∈ p_Ladder preset) by (rewrite Hlad; set_solver).
  assert (Hleave : forall (p : prog orchE ()) (P : assertion), (forall ds, tri i (fun f _ => owns i j f /\ holds i ds f) (fprog p) (fun _ f _ => holds i ds f)) ->
    (forall f c, wf f -> P f c -> at_work rungs outs f) ->
    tri i P (fprog (p ≫= fun _ => Ret (None : option loop_state))) (rung_post rungs outs rung rest)).
  { intros p P Hp HP. eapply tri_weaken; [intros f c _ H; exact H|by eapply tri_leaving|]. by intros r f c [-> H]. }
  assert (Hws : stable i (fun f _ => at_work rungs outs f)) by apply working_stable.
  unfold run_rung. eapply tri_ocall; [by apply tri_quiet_call|]. intros [e|].
  { apply Hleave; [intros; apply tri_fail_canceled|done]. }
  eapply (tri_ocall i _ _ (fun x f c => match x with
    | Ok d => (dir <> d /\ scratch_dir root d) /\ staged i j preset dir data rungs outs d f c
    | Err _ => at_work rungs outs f end)).
  { rewrite Hscratch. apply tri_mkdir; [done| |done|].
    - intros [d|e]; [apply stable_pure, staged_stable|done].
    - intros f c d o' Hf Hw Hsd Hfr Ho. pose proof (wk_dir _ _ _ _ _ _ _ _ Hw) as Hd.
      assert (dir <> d) by (by intros ->; rewrite Hfr in Hd).
      split; [done|]. split; [|simpl; by rewrite lookup_insert_eq].
      apply (working_elsewhere i j preset dir data rungs outs f d); try done. by rewrite lookup_insert_ne. }
  intros [staging|e]; [|apply Hleave; [intros; apply tri_fail|done]].
  apply tri_pure. intros [Hne Hsd].
  destruct (preset_args preset src rung staging (source_path dir) Hvalid) as (Hext & args & Hargs).
  rewrite (Join_scratch root) in Hargs; [|done|done|by apply artifact_part].
  eapply tri_ocall.
  { eapply (tri_transcode i j preset dir data rungs outs staging Hne); [exact Hargs|reflexivity|].
    by apply (artifact_part rung). }
  intros [samples outcome]. cbn [snd].
  eapply tri_obind.
  { apply tri_on_samples; [apply waited_stable|intros f c _ Hp; apply waited_staged in Hp; apply Hp|].
    intros f c d' _ Hp Ho. assert (Hs : staged i j preset dir data rungs outs staging (store_done i f d') c).
    { apply waited_staged in Hp as [Hw Hd]. split; [by apply working_statement|done]. }
    unfold waited in *. case_bool_decide; [|done]. split; [done|]. exact (proj2 Hp). }
  intros s1. apply tri_pure. intros (g & Hg & Hs1). cbn [ls_outputs] in Hs1. rewrite Hls in Hs1.
  unfold set_output in Hs1. rewrite <-Hlen in Hs1. cbn [fmap list_fmap] in Hs1. rewrite !alter_at in Hs1.
  assert (Hrem : forall P, stable i P -> (forall f c, P f c -> staged i j preset dir data rungs outs staging f c) ->
    tri i P (fcall _ (RemoveAll staging)) (fun _ f _ => at_work rungs outs f)).
  { intros P HsP HP. apply tri_remove; [done|done|by intros f c _ [_ H]%HP|].
    intros f c o' dirs' Hf [Hw _]%HP Ho Hd. apply (working_elsewhere i j preset dir data rungs outs f staging); try done.
    rewrite Hd by done. apply Hw. }
  destruct outcome as [er|].
  { eapply tri_ocall; [apply Hrem; [apply waited_stable|intros f c; apply waited_staged]|]. intros [].
    eapply tri_ocall; [by apply tri_quiet_call|].
    intros [e|]; (apply Hleave; [intros; first [apply tri_fail_canceled|apply tri_fail]|done]). }
  rewrite bool_decide_eq_true_2 by done.
  apply (tri_weaken i _ (fun f c => exists t, encodes args data t /\
    staged i j preset dir data rungs outs staging f c /\ mirrors (fm_obj f) staging t) _ (rung_post rungs outs rung rest));
    [|apply tri_exists; intros t|done].
  { intros f c _ [Hs (t & He & Hm)]. by exists t. }
  apply tri_pure. intros Henct. pose proof (transcode_args _ _ _ _ Hargs) as [_ Hlast].
  destruct (encodes_writes args data t staging name Henct) as [content Hcont].
  { split; [exact Hlast|]. by apply (artifact_part rung). }
  eapply tri_ocall.
  { apply (tri_put_dir i j preset dir data rungs outs staging Hne rung t); [by apply rung_no_slash|].
    apply Forall_forall. intros r Hr. split; [apply rung_no_slash; rewrite Hlad; set_solver|].
    pose proof (wf_unique _ Hvalid) as Hnd. rewrite Hlad, fmap_app, NoDup_app in Hnd. destruct Hnd as (_ & Hnd & _).
    intros Heq. apply (Hnd (r_Name r)); [apply list_elem_of_fmap; by exists r|]. rewrite Heq. left. }
  intros [ks|e].
  2:{ eapply tri_ocall; [apply Hrem; [apply staged_stable|done]|]. intros [].
      eapply tri_ocall; [by apply tri_quiet_call|].
      intros [e'|]; (apply Hleave; [intros; first [apply tri_fail_canceled|apply tri_fail]|done]). }
  apply (tri_weaken i _ (fun f c => ks = file_key (out_prefix j rung) <$> (tree_files [] t).*1 /\
    storing i j preset dir data rungs outs staging rung t (tree_files [] t) f c) _ (rung_post rungs outs rung rest));
    [by intros f c _ []| |done].
  apply tri_pure. intros ->.
  assert (Hst : stable i (fun f _ => at_work rungs outs f /\ tree_stored j rung (tree_files [] t) f)).
  { intros f f' c Hf [Hw Ht] Hr. split; [by apply (Hws f)|]. eapply tree_stored_stable; [exact Hf|apply Hw|exact Hr|exact Ht]. }
  apply (tri_ocall i _ _ (fun _ f _ => at_work rungs outs f /\ tree_stored j rung (tree_files [] t) f)).
  { apply tri_remove; [apply storing_stable|exact Hst|by intros f c _ [[_ H] _]|].
    intros f c o' dirs' Hf ((Hw & _) & _ & Ht) Ho Hd. split.
    - apply (working_elsewhere i j preset dir data rungs outs f staging); try done. rewrite Hd by done. apply Hw.
    - unfold tree_stored. simpl. by rewrite (oi_objects _ _ _ Ho). }
  intros []. apply tri_oret; [exact Hst|]. intros f c _ [Hw Ht]. cbn [rung_post ls_outputs].
  unfold set_output. rewrite <-Hlen, Hs1, alter_at. eexists. split; [by rewrite <-app_assoc|].
  destruct Hw as [Ho Hd Hfi Hsrc Hdone]. split; try done. apply Forall2_app; [done|]. constructor; [|constructor].
  assert (Hkey : out_prefix j rung +:+ "/" +:+ name ∈ file_key (out_prefix j rung) <$> (tree_files [] t).*1).
  { apply list_elem_of_fmap. exists [name]. split; [done|]. apply list_elem_of_fmap. by exists ([name], content). }
  rewrite primaryArtifact_found by done.
  exists src, (source_path dir), staging, args, (staging +:+ "/" +:+ name), t, content. split_and!; try done.
  - simpl. by rewrite Hg.
  - unfold tree_stored in Ht. rewrite Forall_forall in Ht. by apply (Ht ([name], content)).
Qed.

Lemma tri_run_ladder rungs outs rest s :
  p_Ladder preset = rungs ++ rest -> length outs = length rungs -> ls_outputs s = outs ++ (pending_output <$> rest) ->
  tri i (fun f _ => at_work rungs outs f)
    (fprog (run_ladder scfg j preset src (source_path dir) (length rungs) rest s))
    (fun r f _ => match r with
                  | None => fm_dirs f !! dir = Some i
                  | Some s' => at_work (p_Ladder preset) (ls_outputs s') f
                  end).
Proof.
  revert rungs outs s. induction rest as [|rung rest IH]; intros rungs outs s Hlad Hlen Hls; cbn [run_ladder].
  { apply tri_oret; [apply working_stable|]. intros f c _ Hw. rewrite Hlad, Hls, !app_nil_r. done. }
  eapply tri_obind; [by apply tri_run_rung|]. intros [s'|].
  2:{ by apply tri_oret; [apply dir_stable|]. }
  apply tri_exists. intros o. apply tri_pure. intros Hls'.
  assert (Hl : S (length rungs) = length (rungs ++ [rung])) by (rewrite length_app; simpl; lia). rewrite Hl.
  apply (IH _ (outs ++ [o])); [by rewrite <-app_assoc|rewrite !length_app; simpl; lia|done].
Qed.

Lemma tri_encode_all started :
  p_ID preset = j_PresetID j -> p_WorkspaceID preset = j_WorkspaceID j ->
  tri i (fun f _ => at_work [] [] f) (fprog (encode_all scfg j preset src (source_path dir) started))
    (fun _ f _ => fm_dirs f !! dir = Some i).
Proof.
  intros Hid Hws. unfold encode_all. eapply tri_obind; [by apply (tri_run_ladder [] [])|]. intros [s|].
  2:{ by apply tri_oret; [apply dir_stable|]. }
  apply (tri_weaken i _ (fun f _ => at_work (p_Ladder preset) (ls_outputs s) f) _ (fun _ f _ => holds i [dir] f));
    [done| |by intros _ f c H; exact (Forall_inv H)].
  apply (tri_settle i [dir]); [apply working_stable| |].
  - intros f c Hf Hw. split; [|by apply Forall_singleton, Hw]. pose proof (wk_owns _ _ _ _ _ _ _ _ Hw) as Ho.
    destruct (owns_running _ _ _ Hf Ho) as (row & Hrow & _ & Hk). split_and!; [done|done| |].
    + intros id k Hne Hr. simpl. destruct Ho as [Hr' _]. congruence.
    + intros id outs j' [<- <-] Hj' _. assert (j' = row) as -> by congruence.
      apply (outputs_stored_key _ _ j); [done|]. exists preset, data. split_and!; [done|done|apply Hw|apply Hw].
  - intros [j'|e]; [|by apply tri_oret; [apply holds_stable|]].
    eapply tri_ocall; [by apply tri_quiet_call, holds_stable|]. intros now.
    apply tri_quiet; [apply holds_stable|]. apply all_calls_bind; [apply publish_quiet|]. intros _. apply meter_quiet.
Qed.
End run.

(** *** Download *)

Lemma tri_ecalls i {A} (P : assertion) (C : forall X, objE X -> Prop) (p : prog objE A) :
  stable i P -> all_calls C p ->
  (forall X (e : objE X) f c, C X e -> wf f -> P f c -> obj_own i f X e) ->
  (forall X (e : objE X) f c x o', C X e -> wf f -> P f c -> obj_nsem X e (fm_obj f) x o' -> P (set_obj f o') c) ->
  tri i P (embed (fun X e => FObj e) p) (fun _ => P).
Proof.
  intros Hs Hc Ho HP. induction p as [a|X e k IH]; [by apply tri_ret|]. destruct Hc as [He Hk].
  apply (tri_eobj i e P (fun _ => P)); [done|intros f c Hf Hp; by apply (Ho X e f c)| |intros x; by apply IH].
  intros f c x o' Hf Hp Hx. by apply (HP X e f c x o').
Qed.

Definition downloads (path : string) (X : Type) (e : objE X) : Prop :=
  match e with
  | OpenTrunc p | CopyTo p _ | CloseFile p | Remove p => p = path
  | PutObject _ _ _ _ => False
  | _ => True
  end.

Lemma download_calls key path : all_calls (downloads path) (obj_Download key path).
Proof. apply with_key_calls. intros _. unfold try, try_as. calls_tac. Qed.

(** A worker's download into its own directory keeps that directory its own. *)
Lemma tri_download_dir i d key path :
  within d path ->
  tri i (fun f _ => fm_dirs f !! d = Some i) (fcall _ (Download key path)) (fun _ f _ => fm_dirs f !! d = Some i).
Proof.
  intros Hp. apply (tri_ecalls i _ (downloads path)); [apply dir_stable|apply download_calls| |done].
  intros X e f c He Hf Hd. destruct e; simpl in *; subst; try done; by exists d.
Qed.

(** For the run of a job it is all or nothing. *)
Definition sourced (i : nat) (j : Job) (d : string) (f : farm) : Prop := owns i j f /\ fm_dirs f !! d = Some i.
Definition fetched (i : nat) (j : Job) (d data : string) (f : farm) : Prop :=
  sourced i j d f /\ w_objects (fm_obj f) !! j_SourceObjectKey j = Some data.
Definition filed (i : nat) (j : Job) (d data content : string) (f : farm) : Prop :=
  fetched i j d data f /\ w_files (fm_obj f) !! source_path d = Some content.

Lemma sourced_stable i j d : stable i (fun f _ => sourced i j d f).
Proof. apply stable_and; [apply owns_stable|apply dir_stable]. Qed.

Lemma fetched_stable i j d data : stable i (fun f _ => fetched i j d data f).
Proof.
  intros f f' c Hf [Hs Ho] Hr. split; [by apply (sourced_stable i j d f)|]. destruct (Hr Hf) as (_ & Hin & _).
  destruct (owns_named _ _ _ Hf (proj1 Hs)) as (_ & _ & r & Hk). rewrite Hk in Ho |- *. by apply Hin.
Qed.

Lemma filed_stable i j d data content : stable i (fun f _ => filed i j d data content f).
Proof.
  intros f f' c Hf [Hs Ho] Hr. split; [by apply (fetched_stable i j d data f)|]. destruct (Hr Hf) as (_ & _ & K & _).
  rewrite <-Ho. apply (kp_dirs _ _ _ K d); [apply Hs|apply source_within].
Qed.

Definition download_post (i : nat) (j : Job) (d : string) (r : result ()) (f : farm) (_ : option (list string)) : Prop :=
  match r with
  | Ok _ => exists data, filed i j d data data f
  | Err _ => sourced i j d f
  end.

(** A step on the destination only. *)
Lemma filed_set i j d data content f m :
  fetched i j d data f -> filed i j d data content (set_obj f (set_files (fm_obj f) (<[source_path d := content]> m))).
Proof. intros H. split; [exact H|]. simpl. by rewrite lookup_insert_eq. Qed.

Lemma tri_undo i j d data e :
  tri i (fun f _ => fetched i j d data f)
    (embed (fun X e => FObj e) (_ ← call (Remove (source_path d)); Ret (Err e))) (download_post i j d).
Proof.
  apply (tri_eobj i _ _ (fun _ f _ => fetched i j d data f)); [apply fetched_stable| | |].
  - intros f c _ [[_ Hd] _]. exists d. split; [done|apply source_within].
  - intros f c x o' _ H [[_ ->]|[_ ->]]; exact H.
  - intros _. apply tri_ret; [apply fetched_stable|]. by intros f c _ [].
Qed.

Lemma tri_download i j d :
  tri i (fun f _ => sourced i j d f) (fcall _ (Download (j_SourceObjectKey j) (source_path d))) (download_post i j d).
Proof.
  simpl. unfold obj_Download, with_key.
  assert (Hown : forall data f (c : option (list string)), wf f -> fetched i j d data f -> own_path i f (source_path d)).
  { intros data f c _ [[_ Hd] _]. exists d. split; [done|apply source_within]. }
  destruct (validateKey _); [|by apply tri_ret; [apply sourced_stable|]].
  apply (tri_eobj i _ _ (fun x f _ => match x with
    | Ok st => exists data, (st_err st = None -> st_bytes st = data) /\ fetched i j d data f
    | Err _ => sourced i j d f end)).
  { apply sourced_stable. }
  { done. }
  { intros f c x o' _ Hs [[Hx ->]|(st & data & -> & -> & Hd & Hst)]; [destruct x; [done|by destruct f]|].
    exists data. split; [done|]. split; [exact Hs|exact Hd]. }
  intros [st|e]; [|by apply tri_ret; [apply sourced_stable|]].
  apply tri_exists. intros data. apply tri_pure. intros Hst.
  assert (Herr : forall e, tri i (fun f _ => fetched i j d data f) (embed (fun X e => FObj e) (Ret (Err e))) (download_post i j d)).
  { intros e. apply tri_ret; [apply fetched_stable|]. by intros f c _ []. }
  apply tri_eread; [apply fetched_stable|done|done|]. intros [[]|e]; [|done].
  apply (tri_eobj i _ _ (fun _ f _ => fetched i j d data f)); [apply fetched_stable|intros f c; by apply Hown| |].
  { intros f c x o' _ H [[_ ->]|[_ ->]]; [by destruct f|exact H]. }
  intros [[]|e]; [|done].
  apply (tri_eobj i _ _ (fun x f _ => match x with
    | Ok _ => st_err st = None /\ filed i j d data (st_bytes st) f
    | Err _ => fetched i j d data f end)); [apply fetched_stable|intros f c; by apply Hown| |].
  { intros f c x o' _ H (content & -> & Hx). destruct x as [[]|e]; [|exact H].
    destruct (Hx eq_refl) as [He ->]. split; [done|]. by apply filed_set. }
  intros [[]|e].
  - apply tri_pure. intros He. rewrite (Hst He).
    apply (tri_eobj i _ _ (fun x f _ => match x with
      | Ok _ => filed i j d data data f
      | Err _ => fetched i j d data f end)); [apply filed_stable|intros f c Hf [H _]; by eapply Hown| |].
    { intros f c x o' _ H [[-> ->]|(Hx & content & ->)]; [by destruct f|]. destruct x; [done|]. exact (proj1 H). }
    intros [[]|e]; [|apply tri_undo]. apply tri_ret; [apply filed_stable|]. intros f c _ H. by exists data.
  - apply (tri_eobj i _ _ (fun _ f _ => fetched i j d data f)); [apply fetched_stable|intros f c; by apply Hown| |].
    { intros f c x o' _ H [[_ ->]|(_ & content & ->)]; [by destruct f|exact H]. }
    intros _. apply tri_undo.
Qed.

(** *** The run and the slot *)

Definition any : assertion := fun _ _ => True.

Lemma sourced_holds i j d f : sourced i j d f -> owns i j f /\ holds i [d] f.
Proof. intros [Ho Hd]. split; [done|by apply Forall_singleton]. Qed.

Lemma tri_fail_any i j (p : prog orchE ()) :
  (forall ds, tri i (fun f _ => owns i j f /\ holds i ds f) (fprog p) (fun _ f _ => holds i ds f)) ->
  tri i (fun f _ => owns i j f) (fprog p) (fun _ => any).
Proof.
  intros Hp. eapply (tri_weaken i _ (fun f _ => owns i j f /\ holds i [] f)); [|apply Hp|done].
  intros f c _ Ho. split; [done|constructor].
Qed.

Lemma tri_drop_dir i d : tri i (fun f _ => fm_dirs f !! d = Some i) (fcall _ (RemoveAll d)) (fun _ => any).
Proof. by apply tri_remove; [apply dir_stable|..]. Qed.

Lemma tri_with_input i j preset src started :
  preset_wf preset -> p_ID preset = j_PresetID j -> p_WorkspaceID preset = j_WorkspaceID j ->
  tri i (fun f _ => owns i j f) (fprog (with_input scfg j preset src started)) (fun _ => any).
Proof.
  intros Hv Hid Hws. unfold with_input.
  eapply (tri_ocall i _ _ (fun x f _ => match x with
    | Ok d => scratch_dir root d /\ sourced i j d f
    | Err _ => owns i j f end)).
  { rewrite Hscratch. apply tri_mkdir; [apply owns_stable| |done|].
    - intros [d|e]; [apply stable_pure, sourced_stable|apply owns_stable].
    - intros f c d o' _ Ho Hsd _ Honly. split; [done|]. split; [exact Ho|]. simpl. by rewrite lookup_insert_eq. }
  intros [d|e]; [|apply tri_fail_any; intros; apply tri_fail].
  apply tri_pure. intros Hsd. cbn zeta.
  rewrite (Join_scratch root d "source"); [|done|done|by split_and!]. fold (source_path d).
  eapply tri_ocall; [apply tri_download|]. intros [[]|e].
  - apply tri_exists. intros data.
    eapply (tri_obind i _ (fun _ f _ => fm_dirs f !! d = Some i)); [|intros []; apply tri_drop_dir].
    eapply (tri_weaken i _ (fun f _ => working i j preset d data [] [] f)); [|by apply tri_encode_all|done].
    intros f c _ [[[Ho Hd] Hsrc] Hf]. by split.
  - eapply (tri_obind i _ (fun _ f _ => holds i [d] f));
      [|intros []; eapply (tri_weaken i _ (fun f _ => fm_dirs f !! d = Some i)); [|apply tri_drop_dir|done];
        intros f c _ H; exact (Forall_inv H)].
    apply (tri_weaken i _ (fun f _ => owns i j f /\ holds i [d] f) _ (fun _ f _ => holds i [d] f));
      [intros f c _; apply sourced_holds| |done].
    eapply tri_ocall; [apply tri_quiet_call; [done|apply owns_holds_stable]|].
    intros [e'|]; [apply tri_fail_canceled|apply tri_fail].
Qed.

Lemma read_after now uid {Y} (e : ostoreE Y) d x d' :
  (ostore_apply now uid e d).2 = d -> up_to_fault (ostore_apply now uid e d) d x d' ->
  d' = d /\ (forall y, x = Ok y -> (ostore_apply now uid e d).1 = Ok y).
Proof.
  intros Hd [Hs|(er & -> & [-> | ->])]; [|done|done].
  rewrite (surjective_pairing (ostore_apply now uid e d)) in Hs. injection Hs as Hx Hd'. rewrite Hd in Hd'.
  subst. done.
Qed.

Lemma tri_run_claimed i j : tri i (fun f _ => owns i j f) (fprog (run_claimed scfg j)) (fun _ => any).
Proof.
  unfold run_claimed. pose proof (owns_stable i j) as Hs.
  eapply tri_ocall; [by apply tri_quiet_call|]. intros started.
  eapply tri_obind; [apply tri_quiet; [done|apply publish_quiet]|]. intros [].
  eapply tri_obind; [apply tri_quiet; [done|apply meter_quiet]|]. intros [].
  eapply (tri_ocall i _ _ (fun x f _ => match x with
    | Ok p => (preset_wf p /\ p_ID p = j_PresetID j /\ p_WorkspaceID p = j_WorkspaceID j) /\ owns i j f
    | Err _ => owns i j f end)).
  { apply (tri_statement i j); [done|intros [p|e]; [by apply stable_pure|done]|done|done|].
    intros f c now uid x d' Hf _ Hu Ho. destruct x as [p|e]; [|done]. split; [|done].
    apply read_after in Hu as [_ Hp]; [|done]. specialize (Hp p eq_refl). simpl in Hp. unfold pg_GetPreset in Hp.
    destruct (presets (fm_db f) !! j_PresetID j) as [q|] eqn:Hq; [|done].
    destruct (String.eqb_spec (p_WorkspaceID q) (j_WorkspaceID j)) as [Hw|]; [|done]. injection Hp as ->.
    split_and!; [by apply (fw_presets _ _ _ Hf _ _ Hq)|by apply (proj2 (fw_db _ _ _ Hf) _ _ Hq)|done]. }
  intros [preset|e]; [|apply tri_fail_any; intros; apply tri_fail].
  apply tri_pure. intros (Hv & Hid & Hws).
  apply (tri_ostatement i j); [done|done|done|done|]. intros [src|e]; [|apply tri_fail_any; intros; apply tri_fail].
  apply (tri_ocall i _ _ (fun _ f _ => owns i j f)).
  { simpl. unfold obj_Exists, with_key. destruct (validateKey _); [|by apply tri_ret].
    apply tri_eread; [done|done|by intros o x o' [[_ ->]|[_ ->]]|]. intros [found|e]; apply tri_ret; done. }
  intros [[]|e]; [by apply tri_with_input|apply tri_fail_any; intros; apply tri_fail..].
Qed.

Lemma tri_slot i : tri i any (fprog (slot scfg)) (fun _ => any).
Proof.
  unfold slot. eapply (tri_ocall i _ _ (fun x f _ => match x with Ok j => owns i j f | Err _ => True end)).
  { apply (tri_call i _ any (fun x f _ => match x with Ok j => owns i j f | Err _ => True end)); [done| | |].
    - intros f c _ _. by split_and!.
    - intros f c x f' c' Hf _ (now & uid & d' & Hu & -> & ->)%store_step _. destruct x as [j|e]; [|done].
      destruct Hu as [Hu|(er & [=] & _)]. simpl in Hu.
      pose proof (claim_takes_oldest now (fm_db f) (db_wf_ids _ (fw_db _ _ _ Hf))) as Hc. rewrite <-Hu in Hc.
      destruct Hc as (j0 & Hj0 & Hq & _ & -> & Hr & _ & Hjobs & _).
      split; [|exists (claimed now j0); simpl; by rewrite Hjobs, lookup_insert_eq].
      simpl. apply claims_lookup. split; [apply running_Some; exists (claimed now j0); by rewrite Hjobs, lookup_insert_eq|].
      destruct (running (fm_db f) (j_ID j0)) eqn:Hrun; [|done].
      apply running_Some in Hrun as (j1 & Hj1 & Hs). assert (j1 = j0) as -> by congruence. by rewrite Hq in Hs.
    - intros x. apply tri_ret; [destruct x; [apply owns_stable|done]|done]. }
  intros [j|e]; [|by apply tri_oret]. unfold runJob.
  eapply tri_ocall; [apply tri_quiet_call; [done|apply owns_stable]|]. intros [].
  eapply tri_obind; [apply tri_run_claimed|]. intros []. by apply (tri_quiet_call i _ (Deregister (j_ID j))).
Qed.

(** ** The API and the landed consumer *)

Context (uuid_Parse : string -> option string) (lcfg : LandedConfig) (Hlscratch : ScratchDir lcfg = root).

(** Statements that settle no run and name their new jobs properly. *)
Definition bystander (X : Type) (e : orchE X) : Prop :=
  match e with
  | OStore e => named_insert _ e /\ preset_write _ e /\
                match e with UpdateProgress _ _ _ _ _ _ | MarkCompleted _ _ | MarkFailed _ _ _ => False | _ => True end
  | e => quiet _ e
  end.

Lemma tri_bystander i (P : assertion) X (e : orchE X) :
  bystander X e -> stable i P -> (forall f c d', P f c -> P (store_done i f d') c) -> tri i P (fcall X e) (fun _ => P).
Proof.
  intros He Hs HP. destruct e; try by apply tri_quiet_call.
  apply (tri_call i _ P (fun _ => P)); [done| | |intros x; by apply tri_ret].
  - intros f c _ _. destruct He as (H1 & H2 & H3). split_and!; [done|done| |].
    + intros id k _ _. by destruct e.
    + intros id outs j Hm. by destruct e.
  - intros f c x f' c' _ Hp (now & uid & d' & _ & -> & ->)%store_step _. by apply HP.
Qed.

Lemma Emit_bystander ws u k j b s : all_calls bystander (Emit ws u k j b s).
Proof. unfold Emit. worker_calls. Qed.
#[local] Hint Resolve Emit_bystander : calls.

Lemma ws_no_slash ws : match_class ws_char 1 64 ws = true -> no_char "/" ws = true.
Proof. intros H. by apply segment_no_slash, ws_segment. Qed.

Lemma createJob_bystander r : all_calls bystander (createJob uuid_Parse r).
Proof.
  unfold createJob, with_identity, decodeStrict. destruct (or_identity r) as [id|]; [|done].
  destruct (or_read r); [|done]. destruct (or_job r) as [req|]; [|worker_calls]. destruct (or_more r); [worker_calls|].
  destruct (ObjectKeyPattern (cjr_ObjectKey req)) as [[ws sha]|] eqn:Hk; [|worker_calls].
  apply ObjectKeyPattern_spec in Hk as (Hk & Hw & _).
  destruct (String.eqb_spec ws (id_WorkspaceID id)) as [Heq|]; [|done]. simpl. destruct (uuid_Parse _); [|done].
  assert (Hn : forall src, named_insert _ (CreateJob (new_job id req src))).
  { intros src. split; simpl; [rewrite <-Heq; by apply ws_no_slash|]. rewrite Hk. by eexists. }
  unfold admit_job, meterEmit, publishState. worker_calls.
Qed.

Lemma Handler_bystander rt r : all_calls bystander (Handler uuid_Parse rt r).
Proof.
  destruct rt; unfold Handler; try apply createJob_bystander;
    unfold listJobs, getJob, retryJob, cancelJob, cancel_queued, meterEmit, publishState,
    listPresets, createPreset, getPreset, patchPreset, with_identity, decodeStrict; worker_calls.
  all: match goal with H : Validate _ = Ok ?u |- _ => by destruct u end.
Qed.

Lemma tri_api i rt r : tri i any (fprog (Handler uuid_Parse rt r)) (fun _ => any).
Proof.
  eapply tri_ocalls; [done|apply Handler_bystander|]. intros X e He. by apply tri_bystander.
Qed.

Lemma persist_bystander ev mi :
  landed_wf uuid_Parse ev -> all_calls bystander (persist lcfg ev mi).
Proof.
  intros Hev. assert (Hn : forall p, named_insert _ (CreateJob (landed_job ev p))).
  { intros p. split; [apply ws_no_slash, Hev|]. simpl. rewrite (lw_key _ _ Hev). by eexists. }
  unfold persist, autoCreateJob, nak. worker_calls.
Qed.

Lemma tri_pcalls {A} i (P : assertion) (p : prog runnerE A) :
  stable i P -> all_calls (fun _ e => match e with Wait | Start _ _ => False | _ => True end) p ->
  tri i P (embed (fun X e => FProc e) p) (fun _ => P).
Proof.
  intros Hs. induction p as [a|X e k IH]; [intros _; by apply tri_ret|]. intros [He Hk]. cbn [embed].
  apply tri_proc; [done|done|]. intros x. by apply IH.
Qed.

Lemma tri_probe i (P : assertion) path : stable i P -> tri i P (fcall _ (EngProbe path)) (fun _ => P).
Proof. intros Hs. apply tri_pcalls; [done|]. unfold Probe. worker_calls. Qed.

Lemma tri_landed i data more : tri i any (fprog (handle uuid_Parse lcfg data more)) (fun _ => any).
Proof.
  assert (Hq : forall (P : assertion) (p : prog orchE ()), stable i P -> all_calls bystander p ->
    (forall f c d', P f c -> P (store_done i f d') c) -> tri i P (fprog p) (fun _ => P)).
  { intros P p HsP Hc HP. eapply tri_ocalls; [done|exact Hc|]. intros X e He. by apply tri_bystander. }
  unfold handle. destruct (ParseUploadLanded uuid_Parse data more) as [ev|e] eqn:Hev; [|by apply Hq].
  apply ParseUploadLanded_sound in Hev as (_ & _ & Hev).
  apply (tri_ocall i _ _ (fun _ => any)).
  { simpl. unfold obj_Exists, with_key. destruct (validateKey _); [|by apply tri_ret].
    apply tri_eread; [done|done|by intros o x o' [[_ ->]|[_ ->]]|]. intros [found|e]; by apply tri_ret. }
  intros [[]|e]; try by apply Hq.
  apply (tri_ocall i _ _ (fun x f _ => match x with Ok d => scratch_dir root d /\ fm_dirs f !! d = Some i | Err _ => True end)).
  { rewrite Hlscratch. apply tri_mkdir; [done| |done|].
    - intros [d|e]; [apply stable_pure, dir_stable|done].
    - intros f c d o' _ _ Hsd _ _. split; [done|]. simpl. by rewrite lookup_insert_eq. }
  intros [d|e]; [|by apply Hq]. apply tri_pure. intros Hsd.
  apply (tri_obind i _ (fun _ f _ => fm_dirs f !! d = Some i)); [|intros []; apply tri_drop_dir].
  unfold probe_in. cbn zeta. rewrite (Join_scratch root d "source"); [|done|done|by split_and!].
  eapply tri_ocall; [apply tri_download_dir, source_within|].
  intros [[]|e]; [|by apply Hq; [apply dir_stable|..]].
  apply (tri_ocall i _ _ (fun _ f _ => fm_dirs f !! d = Some i)).
  { apply tri_probe, dir_stable. }
  intros mi. apply Hq; [apply dir_stable| |done].
  destruct mi as [[stage msg|e]|mi]; [by case_match|done|by apply persist_bystander].
Qed.

Lemma tri_work i w : tri i any (fprog (farm_work_prog uuid_Parse lcfg scfg w)) (fun _ => any).
Proof.
  destruct w as [|rt r|data more]; simpl; [by apply tri_slot| |by apply tri_landed].
  eapply (tri_obind i any (fun _ => any)); [apply tri_api|by intros; apply tri_oret].
Qed.
End workers.

(** C5: a completed job has its outputs.  Whatever slots of the scheduler, API requests
    and deliveries of landed events run at the same time, interleaved at every S3
    request, file operation, statement and step of an ffmpeg process, with any of them
    failing before or after it took effect, jobs cancelled and retried, and any progress
    reported: whenever the row of a job says completed, its source is still the object
    it was encoded from, its outputs are one per rung of a preset of its workspace, and
    for each of them ffmpeg, run with the arguments that preset prescribes on exactly
    the bytes of the source, left files which are all in the bucket under the rung's own
    prefix with the content it wrote, the recorded key being that of the artifact.  No
    rung, job or retry overwrites another's outputs, and no object outside the outputs
    changes. *)
Theorem completed_jobs_have_outputs (ParseFloat : string -> option spec_float)
    (json_ffprobe : string -> result ffprobeOut) (fcfg : FFmpeg.Config) (encodes : list string -> string -> node -> Prop)
    (root : string) (uuid_Parse : string -> option string) (lcfg : LandedConfig) (scfg : SchedConfig)
    (works : list farm_work) f ts f' :
  StagingDir scfg = root -> ScratchDir lcfg = root -> clean_root root ->
  (forall args data t dir name, encodes args data t -> output_arg args dir name ->
     exists content, ([name], content) ∈ tree_files [] t) ->
  farm_wf encodes root f ->
  rtc (lpool_step (farm_do encodes))
    ((fun w => (farm_prog ParseFloat json_ffprobe fcfg (farm_work_prog uuid_Parse lcfg scfg w), None)) <$> works, f) (ts, f') ->
  (forall id j, jobs (fm_db f') !! id = Some j -> j_State j = StateCompleted ->
     outputs_stored encodes (w_objects (fm_obj f')) j (j_Outputs j)) /\
  (forall key, ~ is_output key -> w_objects (fm_obj f') !! key = w_objects (fm_obj f) !! key).
Proof.
  intros Hs Hl Hroot Henc Hf Hr.
  pose proof (frely_relied encodes root (fun _ => True)) as Hrel.
  apply (tri_sound (inv := farm_wf encodes root) (rely := frely encodes root (fun _ => True)) (fun _ _ => any))
    in Hr as (Hf' & Hin & _); [|done|].
  - destruct (Hin _ (le_n _) Hf) as (_ & _ & _ & Hk). split; [apply (fw_done _ _ _ Hf')|by apply Hk].
  - intros i p c Hi. rewrite list_lookup_fmap in Hi. destruct (works !! i) as [w|]; [|done].
    injection Hi as <- <-. exists any. split; [done|]. by apply (tri_work ParseFloat json_ffprobe fcfg encodes root).
Qed.

(** ** A concrete farm *)

(** An ffmpeg that writes one file, the artifact, with the source's bytes marked. *)
Definition mark_file (name data : string) : node := Dir (Ok [(name, File ("enc:" +:+ data))]).
Definition mark_encodes (args : list string) (data : string) (t : node) : Prop :=
  exists dir name, output_arg args dir name /\ t = mark_file name data.

Lemma mark_writes args data t dir name : mark_encodes args data t -> output_arg args dir name ->
  exists content, ([name], content) ∈ tree_files [] t.
Proof.
  intros (d & n & [H1 Hn1] & ->) [H2 Hn2]. rewrite H1 in H2. injection H2 as H2.
  apply last_slash in H2 as [_ <-]; [|done..]. eexists. by left.
Qed.

Definition ex_wait (o : obj_world) (args : list string) : option (string * string * string) :=
  out ← last args;
  name ← last (Split "/" out);
  let dir := substring 0 (String.length out - String.length name - 1) out in
  input ← input_arg args;
  data ← w_files o !! input;
  if String.eqb out (dir +:+ "/" +:+ name) && no_char "/" name && negb (String.eqb name ".")
  then Some (dir, name, data) else None.

Definition ex_temp (f : farm) (dir pattern : string) : option string :=
  name ← head (filter (fun n => fm_dirs f !! tmp_path dir n = None) [pattern +:+ "0"; pattern +:+ "1"; pattern +:+ "2"]);
  if no_char "/" pattern then Some name else None.

(** Every call answered as favourably as [farm_do] allows. *)
Definition farm_exec (i : nat) : sem farmE (farm * option (list string)) := fun X e w =>
  match e in farmE X return X * (farm * option (list string)) with
  | FObj e => let '(x, o) := obj_sem _ e (fm_obj w.1) in (x, (set_obj w.1 o, w.2))
  | FProc e =>
      match e in runnerE X return X * (farm * option (list string)) with
      | Output _ _ => (("", "", None), w)
      | Start _ args => (Ok {| st_bytes := ""; st_err := None |}, (w.1, Some args))
      | Wait =>
          match w.2 ≫= ex_wait (fm_obj w.1) with
          | None => (("", Some (EMsg "exit status 1")), (w.1, None))
          | Some (dir, name, data) =>
              let o := fm_obj w.1 in
              (("", None), (set_obj w.1
                {| w_objects := w_objects o; w_undeleted := w_undeleted o;
                   w_files := <[dir +:+ "/" +:+ name := "enc:" +:+ data]> (w_files o);
                   w_trees := <[dir := mark_file name data]> (w_trees o) |}, None))
          end
      | FFmpeg.CtxErr => (None, w)
      | OnProgress _ => (tt, w)
      end
  | FOrch e =>
      match e in orchE X return X * (farm * option (list string)) with
      | OStore e => let '(x, d') := ostore_apply 100 "new" e (fm_db w.1) in (x, (store_done i w.1 d', w.2))
      | MkdirTemp dir pattern =>
          match ex_temp w.1 dir pattern with
          | None => (Err (EMsg "file exists"), w)
          | Some name =>
              let o := fm_obj w.1 in
              (Ok (tmp_path dir name), (set_dirs (set_obj w.1
                {| w_objects := w_objects o; w_undeleted := w_undeleted o; w_files := w_files o;
                   w_trees := <[tmp_path dir name := Dir (Ok [])]> (w_trees o) |})
                (<[tmp_path dir name := i]> (fm_dirs w.1)), w.2))
          end
      | RemoveAll dir => (tt, (set_dirs w.1 (delete dir (fm_dirs w.1)), w.2))
      | e => ((ex_env _ e (ex_world.1) ()).1, w)
      end
  end.

Lemma set_obj_same f : set_obj f (fm_obj f) = f.
Proof. by destruct f. Qed.

Lemma wait_spec o args dir name data : ex_wait o args = Some (dir, name, data) ->
  output_arg args dir name /\ name <> "." /\ exists input, input_arg args = Some input /\ w_files o !! input = Some data.
Proof.
  unfold ex_wait. destruct (last args) as [out|] eqn:Hl; [|done]. simpl.
  destruct (last (Split "/" out)) as [n|]; [|done]. simpl. destruct (input_arg args) as [input|]; [|done]. simpl.
  destruct (w_files o !! input) as [d|] eqn:Hd; [|done]. simpl. case_match eqn:Hc; [|done]. intros [= <- <- <-].
  apply andb_true_iff in Hc as [[Ho%String.eqb_eq Hn]%andb_true_iff Hdot%negb_true_iff%String.eqb_neq].
  split_and!; [split; [by rewrite Hl, Ho at 1|done]|done|by exists input].
Qed.

Lemma temp_spec f dir pattern name : ex_temp f dir pattern = Some name ->
  temp_name pattern name /\ fm_dirs f !! tmp_path dir name = None.
Proof.
  unfold ex_temp. intros (n & Hn & Ht)%bind_Some. destruct (no_char "/" pattern) eqn:Hp; [|done].
  injection Ht as <-. apply head_Some_elem_of, list_elem_of_filter in Hn as [Hf Hin]. split; [|done].
  rewrite !elem_of_cons in Hin. destruct Hin as [->|[->|[->|[]%not_elem_of_nil]]]; eexists; by split_and!.
Qed.

Lemma farm_exec_spec i X (e : farmE X) w :
  farm_do mark_encodes i X e w (farm_exec i X e w).1 (farm_exec i X e w).2.
Proof.
  destruct w as [f c]. destruct e as [X e|X e|X e]; unfold farm_do, farm_exec; cbn [fst snd].
  - pose proof (obj_sem_spec X e (fm_obj f)) as H. destruct (obj_sem X e (fm_obj f)) as [x o]. by exists o.
  - assert (Hsame : (f, c) = (set_obj f (fm_obj f), c)) by by rewrite set_obj_same.
    destruct e; cbn [fst snd]; try (by exists (fm_obj f), c); [exists (fm_obj f), (Some args); by rewrite set_obj_same|].
    destruct c as [args|]; [|exists (fm_obj f), None; rewrite set_obj_same; simpl; eauto]. cbn [mbind option_bind].
    destruct (ex_wait (fm_obj f) args) as [[[dir name] data]|] eqn:Hw; cbn [fst snd];
      [|exists (fm_obj f), None; rewrite set_obj_same; simpl; eauto].
    apply wait_spec in Hw as (Hout & Hdot & input & Hi & Hd). eexists _, None. split; [|done]. split; [done|].
    right. exists dir, name, (mark_file name data). split_and!; [done| | |].
    + split; simpl; [done| |].
      * intros p Hp. rewrite lookup_insert_ne; [done|]. intros <-. destruct Hp. right. by eexists.
      * intros p Hp. rewrite lookup_insert_ne; [done|]. intros <-. destruct Hp. by left.
    + split; simpl; [by rewrite lookup_insert_eq| | |].
      * apply Forall_singleton. unfold file_path, visit_path. simpl. by rewrite lookup_insert_eq.
      * apply NoDup_singleton.
      * apply Forall_singleton, Forall_singleton. split; [apply Hout|done].
    + intros _. exists input, data. split_and!; [done|done|]. by exists dir, name.
  - destruct e; cbn [fst snd]; try (by exists f).
    + destruct (ostore_apply 100 "new" e (fm_db f)) as [x d'] eqn:Ha. cbn [fst snd].
      eexists. split; [|done]. exists 100, "new", d'. split_and!; [done| |done]. left. by rewrite Ha.
    + destruct (ex_temp f dir pattern) as [name|] eqn:Ht; cbn [fst snd]; [|exists f; split; [by left|done]].
      apply temp_spec in Ht as [Hn Hf]. eexists. split; [right|done]. eexists name, _.
      split; [done|]. split; [done|]. split; [done|]. split; [|split; [|reflexivity]].
      * split; simpl; [done|done|]. intros p Hp. rewrite lookup_insert_ne; [done|]. intros <-. destruct Hp. by left.
      * split; simpl; [by rewrite lookup_insert_eq|constructor..].
    + eexists. split; [|done]. exists (fm_obj f), (delete dir (fm_dirs f)). rewrite set_obj_same.
      split_and!; [by split|by right|done].
Qed.

(** One queued job whose source was uploaded. *)
Definition ex_farm_job : Job :=
  fresh_job {| j_ID := ""; j_WorkspaceID := "ws"; j_UserID := "u"; j_PresetID := "p1";
     j_SourceObjectKey := ex_key; j_SourceSHA256 := ex_hex; j_State := ""; j_ErrorClass := "";
     j_ErrorMessage := ""; j_Attempts := 0; j_ProgressPct := f0; j_FPS := f0; j_SpeedX := f0;
     j_ETASeconds := f0; j_Outputs := []; j_CreatedAt := 0; j_QueuedAt := 0; j_StartedAt := None;
     j_FinishedAt := None; j_UpdatedAt := 0 |} "j1" 5.
Definition ex_farm : farm :=
  {| fm_obj := {| w_objects := {[ ex_key := "movie" ]}; w_files := ∅; w_trees := ∅; w_undeleted := ∅ |};
     fm_db := {| sources := {[ ex_key := ex_source ]}; presets := {[ "p1" := ex_preset ]};
                 jobs := {[ "j1" := ex_farm_job ]} |};
     fm_dirs := ∅; fm_runs := ∅ |}.

Lemma ex_farm_wf : farm_wf mark_encodes "/tmp" ex_farm.
Proof.
  split; simpl; try done.
  - split.
    + intros id j. simpl. rewrite lookup_singleton_Some. intros [<- <-]. split; [|by vm_compute; eexists].
      split; simpl; try done; [by split; [lia|intros [|]]|by intros [|]|split; [by intros [? [=]]|by intros [|]]].
    + intros id p. simpl. rewrite lookup_singleton_Some. by intros [<- <-].
  - exact ex_presets_valid.
  - intros id j. rewrite lookup_singleton_Some. intros [<- <-]. split_and!; [done..|by eexists].
  - intros id j. rewrite lookup_singleton_Some. by intros [<- <-].
Qed.

(** Two slots and a request take turns; one slot gets the job. *)
Lemma completed_jobs_have_outputs_witness :
  let no_probe : string -> result ffprobeOut := fun _ => Err (EMsg "no probe") in
  let fcfg := {| FFmpegPath := "ffmpeg"; FFprobePath := "ffprobe" |} in
  let works := [FSlot; FApi OGetJob (ex_request "ws" "j1"); FSlot] in
  let c := lrun_sched farm_exec (concat (replicate 100 [0; 1; 2]%nat))
    ((fun w => (farm_prog (fun _ => None) no_probe fcfg (farm_work_prog Some ex_lcfg ex_sched w), None))
       <$> works, ex_farm) in
  w_objects (fm_obj c.2) !! "outputs/ws/j1/720p/720p.mp4" = Some "enc:movie" /\
  exists j, jobs (fm_db c.2) !! "j1" = Some j /\ j_State j = StateCompleted /\
    outputs_stored mark_encodes (w_objects (fm_obj c.2)) j (j_Outputs j).
Proof.
  intros no_probe fcfg works c. split; [vm_compute; reflexivity|].
  assert (Hs : (j_State <$> jobs (fm_db c.2) !! "j1") = Some StateCompleted) by (vm_compute; reflexivity).
  apply fmap_Some in Hs as (j & Hj & Hs). exists j. split; [exact Hj|]. split; [done|].
  refine (proj1 (completed_jobs_have_outputs (fun _ => None) no_probe fcfg mark_encodes "/tmp" Some ex_lcfg ex_sched
    works ex_farm c.1 c.2 eq_refl eq_refl _ mark_writes ex_farm_wf _) "j1" j Hj (eq_sym Hs)).
  - exists ["tmp"]. by repeat constructor.
  - rewrite <-surjective_pairing. apply (lrun_sched_reachable farm_exec (farm_do mark_encodes)).
    intros. apply farm_exec_spec.
Defined.
