(* ===== verification/EndToEnd.v ===== *)
(** * From the client's chunks to the encoded outputs

    The world of Landing.v and the world of Farm.v around one bucket: requests of the
    upload service and workers of the orchestrator interleave at every S3 request,
    statement, file operation and step of a process. *)
From S2P Require Export FarmProofs LandingProofs.
#[local] Open Scope Z_scope.

Inductive wholeE : Type -> Type :=
| WUp {X} (e : landE X) : wholeE X
| WFarm {X} (e : farmE X) : wholeE X.

(** Both worlds show the bucket's objects; a step of one is a step of the other's bucket. *)
Record whole (S : Type) `{!StoreImpl S} := { wh_land : landing S; wh_farm : farm }.
Arguments wh_land {_ _} _.
Arguments wh_farm {_ _} _.

Inductive whole_work :=
| WkUpload (q : route * request)
| WkFarm (w : farm_work).

Section whole.
Context {S : Type} `{!StoreImpl S}.
Abbreviation whole := (whole S).
Context (sha256hex : string -> string) (uuid_Parse : string -> option string).
Context (PathEscape : string -> string) (PathUnescape : string -> option string).
Context (srv : Server) (bucketName : string).
Context (ParseFloat : string -> option spec_float) (json_ffprobe : string -> result ffprobeOut).
Context (fcfg : FFmpeg.Config) (encodes : list string -> string -> node -> Prop).
Context (lcfg : LandedConfig) (scfg : SchedConfig).

Definition from_upload (w : whole) (l : landing S) : whole :=
  {| wh_land := l;
     wh_farm := set_obj (wh_farm w) (set_objects (fm_obj (wh_farm w)) (lg_objects l)) |}.
Definition from_farm (w : whole) (f : farm) : whole :=
  {| wh_land := set_bucket (wh_land w) (set_b_objects (lg_bucket (wh_land w)) (w_objects (fm_obj f)));
     wh_farm := f |}.

(** A worker of the farm has a child process; a request has not. *)
Definition whole_do (i : nat) : nsem wholeE (whole * option (list string)) := fun X e c x c' =>
  match e in wholeE X return X -> Prop with
  | WUp e => fun x => exists l', land_do PathUnescape i _ e (wh_land c.1, ()) x (l', ()) /\
      c' = (from_upload c.1 l', c.2)
  | WFarm e => fun x => exists f' child, farm_do encodes i _ e (wh_farm c.1, c.2) x (f', child) /\
      c' = (from_farm c.1 f', child)
  end x.

Definition whole_prog (w : whole_work) : prog wholeE () :=
  match w with
  | WkUpload q => embed (fun X e => WUp e)
      (_ ← land_request sha256hex uuid_Parse PathEscape srv bucketName q; Ret ())
  | WkFarm w => embed (fun X e => WFarm e)
      (farm_prog ParseFloat json_ffprobe fcfg (farm_work_prog uuid_Parse lcfg scfg w))
  end.

Context (sent : string -> Z -> string -> Prop) (root : string).

Record whole_wf (w : whole) : Prop := {
  ww_land : land_wf sha256hex sent (wh_land w);
  ww_farm : farm_wf encodes root (wh_farm w);
  ww_objects : w_objects (fm_obj (wh_farm w)) = lg_objects (wh_land w)
}.

(** No two of the contents that clients sent have the same SHA-256. *)
Definition no_collision : Prop := forall s s' c c',
  made_of sent s c -> made_of sent s' c' -> sha256hex c = sha256hex c' -> c = c'.

(** ** Each side lets the other rely on its own *)

Section steps.
Context (sha256hex_hex : forall s, hex64 (sha256hex s) = true) (Hcf : no_collision).
(** The number of workers; everybody else is an observer, who sees both sides. *)
Context (N : nat).
Definition observer (i : nat) : Prop := (N <= i)%nat.

Abbreviation lrely := (lrely sha256hex sent observer).
Abbreviation frely := (frely encodes root observer).

Definition whole_rely (i : nat) (w w' : whole) : Prop :=
  whole_wf w -> whole_wf w' /\
    ((i < N)%nat -> lrely i (wh_land w) (wh_land w') /\ frely i (wh_farm w) (wh_farm w')).

#[local] Instance whole_rely_relied : Relied whole_wf whole_rely.
Proof.
  pose proof (lrely_relied sha256hex sent observer (S := S)) as HL. pose proof (frely_relied encodes root observer) as HF.
  split; [|intros i w w' Hw Hr; by apply Hr]. intros i. split.
  - intros w Hw. split; [done|]. intros _. split; reflexivity.
  - intros w1 w2 w3 H12 H23 H1. destruct (H12 H1) as [H2 R12]. destruct (H23 H2) as [H3 R23]. split; [done|].
    intros Hi. destruct (R12 Hi) as [L12 F12]. destruct (R23 Hi) as [L23 F23]. split; by etrans.
Qed.

Lemma output_not_asset key : is_output key -> ~ is_asset key.
Proof. by intros [r ->] [r' ?]. Qed.
Lemma output_not_staging key : is_output key -> ~ is_staging key.
Proof. by intros [r ->] [r' ?]. Qed.

(** A step of an upload, seen by the farm. *)
Section upload_step.
Context (w : whole) (l : landing S) (Hw : whole_wf w) (Hl : land_wf sha256hex sent l).
Context (He : evolves sha256hex sent (wh_land w) l) (Ho : others_kept (wh_land w) l).

Lemma upload_sources : sources_kept (wh_farm w) (wh_farm (from_upload w l)).
Proof.
  intros rest c Hc. change (lg_objects l !! ("assets/" +:+ rest) = Some c). rewrite (ww_objects _ Hw) in Hc.
  assert (Ha : is_asset ("assets/" +:+ rest)) by by eexists.
  destruct (ev_assets _ _ _ _ He _ _ Ha Hc) as (c' & Hc' & Hs). rewrite Hc'. f_equal.
  destruct (lw_assets _ _ _ (ww_land _ Hw) _ _ Ha Hc) as (_ & id & en & _ & Hm).
  destruct (lw_assets _ _ _ Hl _ _ Ha Hc') as (_ & id' & en' & _ & Hm'). by apply (Hcf (en_session en') (en_session en)).
Qed.

Lemma upload_outputs key : is_output key ->
  w_objects (fm_obj (wh_farm (from_upload w l))) !! key = w_objects (fm_obj (wh_farm w)) !! key.
Proof.
  intros Hk. simpl. rewrite (ww_objects _ Hw). apply Ho; [by apply output_not_asset|by apply output_not_staging].
Qed.

Lemma upload_wf : whole_wf (from_upload w l).
Proof.
  split; [done| |done]. pose proof (ww_farm _ Hw) as Hf. split; try apply Hf. intros id j Hj Hc.
  destruct (fw_named _ _ _ Hf id j Hj) as (_ & _ & rest & Hsrc).
  pose proof (fw_done _ _ _ Hf id j Hj Hc) as Hdone. pose proof Hdone as (preset & data & _ & _ & Hd & _).
  eapply outputs_stored_same; [|rewrite Hd|exact Hdone].
  - intros key Hk. by apply upload_outputs, (in_root_output j).
  - rewrite Hsrc in Hd |- *. by apply upload_sources.
Qed.

Lemma upload_frely i : ~ observer i -> frely i (wh_farm w) (wh_farm (from_upload w l)).
Proof.
  intros Hi _. split; [apply upload_wf|]. split; [apply upload_sources|]. split; [|done].
  split; [done| |done]. intros id j key _ _ Hk. by apply upload_outputs, (in_root_output j).
Qed.
End upload_step.

(** A step of a worker, seen by the uploads. *)
Section farm_step.
Context (w : whole) (f : farm) (Hw : whole_wf w) (Hf : farm_wf encodes root f).
Context (Hi : inputs_kept (wh_farm w) f).

Lemma farm_objects key : ~ is_output key -> lg_objects (wh_land (from_farm w f)) !! key = lg_objects (wh_land w) !! key.
Proof. intros Hk. unfold lg_objects. simpl. rewrite (Hi key Hk). by rewrite (ww_objects _ Hw). Qed.

Lemma farm_asset key : is_asset key -> lg_objects (wh_land (from_farm w f)) !! key = lg_objects (wh_land w) !! key.
Proof. intros Ha. apply farm_objects. intros Hk. by apply (output_not_asset key). Qed.

Lemma farm_staging id :
  lg_objects (wh_land (from_farm w f)) !! staging_key id = lg_objects (wh_land w) !! staging_key id.
Proof. apply farm_objects. intros Hk. apply (output_not_staging _ Hk). by eexists. Qed.

Lemma farm_landed s : landed_session sha256hex sent (lg_objects (wh_land w)) s ->
  landed_session sha256hex sent (lg_objects (wh_land (from_farm w f))) s.
Proof. apply landed_mono. intros key c Ha Hc. exists c. by rewrite farm_asset. Qed.

Lemma farm_step_wf : whole_wf (from_farm w f).
Proof.
  pose proof (ww_land _ Hw) as HL. split; [|done|done].
  split; try apply HL.
  - intros uid u id Hu Hk. destruct (lw_uploads _ _ _ HL uid u id Hu Hk) as (H1 & H2 & H3).
    split_and!; [done|done|by rewrite farm_staging].
  - intros id c. rewrite farm_staging. apply HL.
  - intros key c Ha. rewrite farm_asset by done. by apply HL.
  - intros id en Hen Hs. apply farm_landed. by apply (lw_landed _ _ _ HL id).
  - eapply Forall_impl; [apply (lw_events _ _ _ HL)|]. intros e (s & H1 & H2 & H3). exists s.
    split_and!; [done|done|by apply farm_landed].
Qed.

Lemma farm_lrely i : ~ observer i -> lrely i (wh_land w) (wh_land (from_farm w f)).
Proof.
  intros Hob _. split; [apply farm_step_wf|]. split; [|by split].
  split; [done| | | |done|done|done].
  - intros id en Hen Hl. exists en. split; [done|]. by apply farm_landed.
  - intros id _ Hn. split; [done|]. left. apply farm_staging.
  - intros key c Ha Hc. exists c. by rewrite farm_asset.
Qed.
End farm_step.

(** ** The programs of each side keep their triples *)

Abbreviation rg_whole := (rg whole_do whole_rely).

Lemma rg_upload i {A} (p : prog landE A) w child :
  (i < N)%nat -> whole_wf w ->
  rg (land_do PathUnescape) lrely i (fun _ _ _ => True) p (wh_land w) () ->
  rg_whole i (fun _ w _ => whole_wf w) (embed (fun X e => WUp e) p) w child.
Proof.
  intros HiN. revert w child. induction p as [a|X e k IH]; intros w child Hw Hp.
  - intros w2 Hr. by apply Hr.
  - intros w2 x w' child' Hr (l' & Hs & [= -> ->]). destruct (Hr Hw) as [Hw2 R]. destruct (R HiN) as [HL _].
    destruct (Hp _ x l' () HL Hs) as [Hg Hk].
    destruct (Hg N ltac:(lia) (ww_land _ Hw2)) as (Hl' & He & _ & Ho). specialize (Ho (le_n N)).
    pose proof (upload_wf w2 l' Hw2 Hl' He Ho) as Hw'. split; [|by apply IH].
    intros j Hj _. split; [done|]. intros HjN. split; [by apply Hg|].
    apply upload_frely; [done..|]. unfold observer. lia.
Qed.

Lemma rg_farm i {A} (p : prog farmE A) w child :
  (i < N)%nat -> whole_wf w ->
  rg (farm_do encodes) frely i (fun _ _ _ => True) p (wh_farm w) child ->
  rg_whole i (fun _ w _ => whole_wf w) (embed (fun X e => WFarm e) p) w child.
Proof.
  intros HiN. revert w child. induction p as [a|X e k IH]; intros w child Hw Hp.
  - intros w2 Hr. by apply Hr.
  - intros w2 x w' child' Hr (f' & l' & Hs & [= -> ->]). destruct (Hr Hw) as [Hw2 R]. destruct (R HiN) as [_ HF].
    destruct (Hp _ x f' l' HF Hs) as [Hg Hk].
    destruct (Hg N ltac:(lia) (ww_farm _ Hw2)) as (Hf' & _ & _ & Hin). specialize (Hin (le_n N)).
    pose proof (farm_step_wf w2 f' Hw2 Hf' Hin) as Hw'. split; [|by apply IH].
    intros j Hj _. split; [done|]. intros HjN. split; [|by apply Hg].
    apply farm_lrely; [done..|]. unfold observer. lia.
Qed.

(** Every worker. *)
Lemma rg_work i work w child :
  (forall s, PathUnescape (PathEscape s) = Some s) -> 0 < chunkSize srv <= 2 ^ 59 -> maxObjectBytes srv <= 2 ^ 59 ->
  (forall rt r, work = WkUpload (rt, r) -> rt = RPutChunk -> forall id n, uuid_Parse (rq_id r) = Some id ->
     Atoi (rq_n r) = Some n -> sha256hex (st_bytes (rq_body r)) = ToLower (rq_ChunkSha256 r) ->
     sent id n (st_bytes (rq_body r))) ->
  StagingDir scfg = root -> ScratchDir lcfg = root -> clean_root root ->
  (forall args data t dir name, encodes args data t -> output_arg args dir name ->
     exists content, ([name], content) ∈ tree_files [] t) ->
  (i < N)%nat -> whole_wf w -> rg_whole i (fun _ w _ => whole_wf w) (whole_prog work) w child.
Proof.
  intros Hun Hchunk Hmax Hsent Hs Hl Hroot Henc HiN Hw. destruct work as [[rt r]|work].
  - apply rg_upload; [done..|]. pose proof (lrely_relied sha256hex sent observer (S := S)) as HL.
    assert (Htri : Triples.tri (land_do PathUnescape) (land_wf sha256hex sent) lrely i (lift (fun _ => True))
      (_ ← land_request sha256hex uuid_Parse PathEscape srv bucketName (rt, r); Ret ()) (fun _ _ _ => True)).
    { apply (tri_bind i _ (fun _ _ _ => True)); [|by intros a; apply tri_ret; [apply stable_True|]].
      apply tri_serve; [done..|]. intros Hrt id n. by apply (Hsent rt r). }
    eapply rg_mono; [apply Htri; [apply Hw|done]|done].
  - apply rg_farm; [done..|].
    pose proof (tri_work ParseFloat json_ffprobe fcfg encodes root observer scfg Hs Hroot Henc uuid_Parse lcfg Hl i work)
      as Htri. eapply rg_mono; [apply Htri; [apply Hw|done]|done].
Qed.
End steps.
End whole.

(** C2: every output was encoded from what a client sent.  Requests of the upload service
    and workers of the orchestrator (scheduler slots, API requests, deliveries of landed
    events) run at the same time on one bucket, interleaved at every S3 request, statement,
    publication, file operation and step of an ffmpeg process, with any of them failing
    before or after it took effect, sessions completed twice or cancelled, jobs retried.
    Whenever a job says completed: the key of its source is made of the SHA-256 of the
    object in the bucket; that object is the concatenation, of exactly the declared size,
    of one body per chunk that a client sent for that very chunk with that chunk's SHA-256;
    and for each rung of the job's preset ffmpeg was run on exactly these bytes with the
    arguments the preset prescribes, and every file it left is in the bucket under the
    rung's own prefix, the recorded key being the artifact's.  And every landed event is
    about such an object.  (That no two of the contents sent collide is all that is asked
    of SHA-256.) *)
Theorem outputs_come_from_what_was_sent {S} `{!StoreImpl S} (sha256hex : string -> string)
    (uuid_Parse : string -> option string) (PathEscape : string -> string) (PathUnescape : string -> option string)
    (srv : Server) (bucketName : string) (ParseFloat : string -> option spec_float)
    (json_ffprobe : string -> result ffprobeOut) (fcfg : FFmpeg.Config) (encodes : list string -> string -> node -> Prop)
    (lcfg : LandedConfig) (scfg : SchedConfig) (root : string)
    (reqs : list (route * request)) (works : list whole_work) (w w' : whole S) ts :
  (forall s, hex64 (sha256hex s) = true) -> (forall s, PathUnescape (PathEscape s) = Some s) ->
  0 < chunkSize srv <= 2 ^ 59 -> maxObjectBytes srv <= 2 ^ 59 ->
  StagingDir scfg = root -> ScratchDir lcfg = root -> clean_root root ->
  (forall args data t dir name, encodes args data t -> output_arg args dir name ->
     exists content, ([name], content) ∈ tree_files [] t) ->
  let sent := sent_by sha256hex uuid_Parse reqs in
  no_collision sha256hex sent -> (forall q, WkUpload q ∈ works -> q ∈ reqs) ->
  whole_wf sha256hex encodes sent root w ->
  rtc (lpool_step (whole_do PathUnescape encodes))
    ((fun k => (whole_prog sha256hex uuid_Parse PathEscape srv bucketName ParseFloat json_ffprobe fcfg lcfg scfg k,
                None)) <$> works, w) (ts, w') ->
  let objs := lg_objects (wh_land w') in
  (forall id j, jobs (fm_db (wh_farm w')) !! id = Some j -> j_State j = StateCompleted ->
     exists preset ws content,
       p_ID preset = j_PresetID j /\ p_WorkspaceID preset = j_WorkspaceID j /\
       j_SourceObjectKey j = object_key ws (sha256hex content) /\
       objs !! j_SourceObjectKey j = Some content /\ sent_data sent (lg_rows (wh_land w')) content /\
       Forall2 (rung_stored encodes objs j preset content) (p_Ladder preset) (j_Outputs j)) /\
  Forall (event_landed sha256hex sent (lg_rows (wh_land w')) objs) (lg_landed (wh_land w')).
Proof.
  intros Hhex Hun Hchunk Hmax Hs Hl Hroot Henc sent Hcf Hreqs Hw Hr objs.
  pose proof (whole_rely_relied sha256hex encodes sent root (length works) (S := S)) as Hrel.
  assert (Hw' : whole_wf sha256hex encodes sent root w').
  { apply (rg_observed _ (whole_rely sha256hex encodes sent root (length works)) (fun _ _ w _ =>
      whole_wf sha256hex encodes sent root w) _ _ _ _ (length works)) in Hr; [by apply Hr| |by rewrite length_fmap].
    intros i p c Hi. rewrite list_lookup_fmap in Hi. destruct (works !! i) as [work|] eqn:Hi'; [|done].
    injection Hi as <- <-. apply rg_work; try done; [|by eapply lookup_lt_Some].
    intros rt r -> -> id n H1 H2 H3. exists r. split_and!; [|done..]. apply Hreqs. by eapply list_elem_of_lookup_2. }
  split; [|apply (lw_events _ _ _ (ww_land _ _ _ _ _ Hw'))]. intros id j Hj Hc. pose proof (ww_farm _ _ _ _ _ Hw') as Hf.
  destruct (fw_done _ _ _ Hf id j Hj Hc) as (preset & content & Hp & Hws & Hd & Hrungs).
  destruct (fw_named _ _ _ Hf id j Hj) as (_ & _ & rest & Hsrc). rewrite (ww_objects _ _ _ _ _ Hw') in Hd, Hrungs.
  destruct (lw_assets _ _ _ (ww_land _ _ _ _ _ Hw') (j_SourceObjectKey j) content) as [[ws Hkey] Hsent]; [|done|].
  - rewrite Hsrc. by eexists.
  - by exists preset, ws, content.
Qed.

(** ** A concrete run *)

Definition whole_exec (i : nat) : sem wholeE (whole postgres * option (list string)) := fun X e c =>
  match e in wholeE X return X * (whole postgres * option (list string)) with
  | WUp e => let r := land_exec i _ e (wh_land c.1, ()) in (r.1, (from_upload c.1 r.2.1, c.2))
  | WFarm e => let r := farm_exec i _ e (wh_farm c.1, c.2) in (r.1, (from_farm c.1 r.2.1, r.2.2))
  end.

Lemma whole_exec_spec i X (e : wholeE X) c :
  whole_do Some mark_encodes i X e c (whole_exec i X e c).1 (whole_exec i X e c).2.
Proof.
  destruct e as [X e|X e]; simpl.
  - eexists. split; [|done]. pose proof (land_exec_spec i X e (wh_land c.1, ())) as H.
    by destruct (land_exec i X e _) as [x [l []]].
  - eexists _, _. split; [|done]. pose proof (farm_exec_spec i X e (wh_farm c.1, c.2)) as H.
    by destruct (farm_exec i X e _) as [x [f child]].
Qed.

(** An empty bucket, and a workspace with one preset. *)
Definition ex_whole : whole postgres :=
  {| wh_land := ex_landing;
     wh_farm := {| fm_obj := {| w_objects := ∅; w_files := ∅; w_trees := ∅; w_undeleted := ∅ |};
                   fm_db := {| sources := ∅; presets := {[ "p1" := ex_preset ]}; jobs := ∅ |};
                   fm_dirs := ∅; fm_runs := ∅ |} |}.

Lemma ex_whole_wf sha256hex sent : whole_wf sha256hex mark_encodes sent "/tmp" ex_whole.
Proof.
  split; [apply ex_landing_wf| |done]. split; simpl; try done; try (intros *; rewrite lookup_empty; done).
  - split; [done|]. intros id p. simpl. rewrite lookup_singleton_Some. by intros [<- <-].
  - exact ex_presets_valid.
Qed.

Definition ex_requests : list (route * request) :=
  [(RCreate, land_req "" ""); (RPutChunk, land_req "1" "ef"); (RPutChunk, land_req "0" "abcd"); (RComplete, land_req "" "")].

(** What these requests can make up are three contents with three digests. *)
Lemma ex_no_collision : no_collision (toy_hash 32) (sent_by (toy_hash 32) Some ex_requests).
Proof.
  assert (Hsent : forall id n b, sent_by (toy_hash 32) Some ex_requests id n b -> (n = 0 /\ b = "abcd") \/ (n = 1 /\ b = "ef")).
  { intros id n b (r & Hr & _ & Hn & -> & _). unfold ex_requests in Hr. rewrite !elem_of_cons in Hr.
    destruct Hr as [[=]|[[= ->]|[[= ->]|[[=]|[]%not_elem_of_nil]]]]; vm_compute in Hn; injection Hn as <-; auto. }
  assert (Hmade : forall s c, made_of (sent_by (toy_hash 32) Some ex_requests) s c -> c ∈ [""; "abcd"; "abcdef"]).
  { intros s c (bodies & _ & -> & Hb).
    assert (H : forall i b, bodies !! i = Some b -> (i = 0%nat /\ b = "abcd") \/ (i = 1%nat /\ b = "ef")).
    { intros i b Hi. destruct (Hsent _ _ _ (proj1 (Hb i b Hi))) as [[? ->]|[? ->]]; [left|right]; split; (done || lia). }
    destruct bodies as [|b0 [|b1 [|b2 l]]].
    - by left.
    - destruct (H 0%nat b0 eq_refl) as [[_ ->]|[? _]]; [|done]. by right; left.
    - destruct (H 0%nat b0 eq_refl) as [[_ ->]|[? _]]; [|done]. destruct (H 1%nat b1 eq_refl) as [[? _]|[_ ->]]; [done|].
      by right; right; left.
    - by destruct (H 2%nat b2 eq_refl) as [[? _]|[? _]]. }
  intros s s' c c' Hc%Hmade Hc'%Hmade Heq. rewrite !elem_of_cons, elem_of_nil in Hc, Hc'.
  destruct Hc as [->|[->|[->|[]]]], Hc' as [->|[->|[->|[]]]]; try done; vm_compute in Heq; discriminate Heq.
Qed.

(** A file is uploaded in two chunks that arrive at the same time; its landed event is
    delivered, queues a job of the default preset, and a slot encodes it. *)
Lemma outputs_come_from_what_was_sent_witness :
  let ev := {| ul_UploadID := "u0"; ul_WorkspaceID := "ws"; ul_UserID := "user";
               ul_ObjectKey := object_key "ws" (toy_hash 32 "abcdef"); ul_SHA256 := toy_hash 32 "abcdef";
               ul_SizeBytes := 6; ul_Mime := "video/mp4"; ul_LandedAt := 0 |} in
  let works := (WkUpload <$> ex_requests) ++ [WkFarm (FLanded (Ok ev) false); WkFarm FSlot] in
  let probed : string -> result ffprobeOut := fun _ => Ok {| ff_FormatName := "mov"; ff_Duration := "1"; ff_BitRate := "";
    ff_Streams := [{| fs_CodecType := "video"; fs_CodecName := "h264"; fs_Width := 1920; fs_Height := 1080; fs_PixFmt := "yuv420p" |}] |} in
  let prog := whole_prog (toy_hash 32) Some id ex_srv "bkt" (fun _ => None) probed
    {| FFmpegPath := "ffmpeg"; FFprobePath := "ffprobe" |} ex_lcfg ex_sched in
  let c := lrun_sched whole_exec
    (replicate 30 0 ++ concat (replicate 30 [1; 2]) ++ replicate 40 3 ++ replicate 40 4 ++ replicate 60 5)%nat
    ((fun k => (prog k, None)) <$> works, ex_whole) in
  (fun j => (j_State j, j_SourceObjectKey j)) <$> jobs (fm_db (wh_farm c.2)) !! "new"
    = Some (StateCompleted, object_key "ws" (toy_hash 32 "abcdef")) /\
  lg_objects (wh_land c.2) !! "outputs/ws/new/720p/720p.mp4" = Some "enc:abcdef" /\
  Forall (event_landed (toy_hash 32) (sent_by (toy_hash 32) Some ex_requests) (lg_rows (wh_land c.2))
    (lg_objects (wh_land c.2))) (lg_landed (wh_land c.2)).
Proof.
  intros ev works probed prog c. split; [vm_compute; reflexivity|]. split; [vm_compute; reflexivity|].
  refine (proj2 (outputs_come_from_what_was_sent (toy_hash 32) Some id Some ex_srv "bkt" (fun _ => None) probed
    {| FFmpegPath := "ffmpeg"; FFprobePath := "ffprobe" |} mark_encodes ex_lcfg ex_sched "/tmp" ex_requests works
    ex_whole c.2 c.1 toy_hash_hex (fun s => eq_refl) _ _ eq_refl eq_refl _ mark_writes ex_no_collision _
    (ex_whole_wf _ _) _)).
  - by vm_compute.
  - by vm_compute.
  - exists ["tmp"]. by repeat constructor.
  - intros q Hq. unfold works in Hq. rewrite elem_of_app in Hq. destruct Hq as [(q' & [= ->] & Hq)%list_elem_of_fmap|Hq]; [done|].
    rewrite !elem_of_cons in Hq. by destruct Hq as [[=]|[[=]|[]%not_elem_of_nil]].
  - rewrite <-surjective_pairing. apply (lrun_sched_reachable whole_exec (whole_do Some mark_encodes)).
    intros. apply whole_exec_spec.
Defined.
