(* ===== verification/ClientUpload.v ===== *)
(** * An upload, from the client's side

    A client that follows services/upload/README.md, as a program that makes the requests
    of UploadServer.v one after the other: it creates a session, sends every chunk, in any
    order and any number of times, and completes.  When nothing fails ([calm_do]: the
    steps of [land_do] with the faults left out) this succeeds. *)
From S2P Require Export LandingProofs.
#[local] Open Scope Z_scope.

(** ** Text of numbers and digests *)

Lemma digits_value_go (x : N) s : digits_value 0 (pretty_N_go x s) = digits_value (Z.of_N x) s.
Proof.
  revert s. induction (N.lt_wf_0 x) as [x _ IH]; intros s.
  assert (x = 0%N \/ (0 < x)%N) as [->|Hx] by lia; [by rewrite pretty_N_go_0|].
  rewrite pretty_N_go_step, IH by (done || by apply N.div_lt). simpl.
  pose proof (N.div_mod x 10 ltac:(done)) as Hdm. pose proof (N.mod_lt x 10 ltac:(done)) as Hm.
  clear IH. revert Hdm Hm. generalize (x / 10)%N as q, (x mod 10)%N as d. intros q d -> Hd.
  assert (Hc : Z.of_nat (nat_of_ascii (pretty_N_char d)) - 48 = Z.of_N d).
  { assert (d = 0 \/ d = 1 \/ d = 2 \/ d = 3 \/ d = 4 \/ d = 5 \/ d = 6 \/ d = 7 \/ d = 8 \/ d = 9)%N as H by lia.
    by destruct_or! H; subst. }
  rewrite Hc, (proj2 (Z.leb_le 0 _)), (proj2 (Z.leb_le _ 9)) by lia. simpl. f_equal. lia.
Qed.

Lemma Atoi_itoa n : 0 <= n < 2 ^ 63 -> Atoi (itoa n) = Some n.
Proof.
  intros Hn. pose proof (itoa_digits n ltac:(lia)) as Hd. unfold Atoi.
  assert (Hp : parse_digits (itoa n) = Some n).
  { destruct n as [|p|p]; [done| |lia]. unfold itoa, pretty, pretty_Z, pretty, pretty_positive, pretty, pretty_N.
    pose proof (digits_value_go (N.pos p) "") as Hv. simpl in Hv. rewrite decide_False by done.
    destruct (pretty_N_go (N.pos p) "") as [|c s] eqn:Hg; [done|exact Hv]. }
  destruct (itoa n) as [|c s]; [done|]. simpl in Hd. apply andb_true_iff in Hd as [Hc _].
  assert (Hv : match String c s with
    | String "-" s' => Z.opp <$> parse_digits s'
    | String "+" s' => parse_digits s'
    | _ => parse_digits (String c s) end = Some n).
  { by destruct c as [[][][][][][][][]]. }
  rewrite Hv. simpl. by rewrite (proj2 (Z.leb_le _ _)), (proj2 (Z.leb_le n max_i64)) by (unfold max_i64; lia).
Qed.

Lemma ToLower_hex s : hex64 s = true -> ToLower s = s.
Proof.
  intros [_ H]%match_class_spec. induction s as [|c s IH]; [done|]. simpl in *. apply andb_true_iff in H as [Hc Hs].
  rewrite IH by done. f_equal. by destruct c as [[][][][][][][][]].
Qed.

(** ** Nothing fails *)

Section calm.
Context (sha256hex : string -> string) (uuid_Parse : string -> option string).
Context (PathEscape : string -> string) (PathUnescape : string -> option string).
Context (srv : Server) (bucketName : string) {S : Type} `{!StoreImpl S}.

(** An S3 request that failed, a stream that breaks included. *)
Definition s3_failed {X} (e : s3E X) : X -> bool :=
  match e in s3E X return X -> bool with
  | s3_GetObject _ _ => fun x => match x with inr st => bool_decide (st_err st <> None) | inl _ => true end
  | CreateMultipartUpload _ _ _ | s3_UploadPart _ _ _ _ _ | UploadPartCopy _ _ _ _ _ _
  | CompleteMultipartUpload _ _ _ _ | AbortMultipartUpload _ _ _ | s3_HeadObject _ _ | CopyObject _ _ _
  | DeleteObject _ _ => is_error
  end.

(** S3 takes the parts 1 to 10,000 of an upload. *)
Definition maxParts : Z := 10000.
Definition within_limits {X} (e : s3E X) : Prop :=
  match e with
  | s3_UploadPart _ _ _ n _ | UploadPartCopy _ _ _ n _ _ => 1 <= n <= maxParts
  | _ => True
  end.

(** A request fails only when it could not have succeeded. *)
Definition s3_calm (i : nat) {X} (e : s3E X) (b : bucket) (x : X) : Prop :=
  within_limits e -> s3_failed e x = true ->
  forall y b', s3_do PathUnescape i _ e b y b' -> s3_failed e y = true.

(** Statements do what they say, the quota grants, ids parse as themselves, the gauge
    admits, and messages are acknowledged. *)
Definition up_calm {X} (e : upE X) (w w' : landing S) : X -> Prop :=
  match e in upE X return X -> Prop with
  | Store e => fun x => (x, lg_rows w') = store_nominal e (lg_rows w)
  | Quota _ _ => fun x => exists d, x = Ok d /\ Allowed d = true
  | Publish _ _ => fun x => x = Ok ()
  | NewV7 => fun x => exists id, x = Ok id /\ uuid_Parse id = Some id
  | Gauge_TryAcquire _ => fun x => x = true
  | Now => fun x => marshal_time_ok x = true
  | _ => fun _ => True
  end.

Definition calm_do (i : nat) : nsem landE (landing S * ()) := fun X e w x w' =>
  land_do PathUnescape i X e w x w' /\
  match e in landE X return X -> Prop with
  | LS3 e => s3_calm i e (lg_bucket w.1)
  | LUp e => up_calm e w.1 w'.1
  end x.

(** ** The client *)

Context (ident : Identity) (filename mime content : string).

Definition empty_body : stream := {| st_bytes := ""; st_err := None |}.

Definition create_request : request :=
  {| rq_identity := Some ident; rq_id := ""; rq_n := "";
     rq_decode := Ok {| cr_Filename := filename; cr_SizeBytes := slen content; cr_Mime := mime |};
     rq_more := false; rq_ContentLength := -1; rq_ChunkSha256 := ""; rq_body := empty_body |}.

Definition complete_request (id : string) : request :=
  {| rq_identity := Some ident; rq_id := id; rq_n := ""; rq_decode := Err (EMsg "no body"); rq_more := false;
     rq_ContentLength := 0; rq_ChunkSha256 := ""; rq_body := empty_body |}.

Definition chunk_data (size n : Z) : string := substring (Z.to_nat (n * size)) (Z.to_nat size) content.

Definition chunk_request (id : string) (size n : Z) : request :=
  let data := chunk_data size n in
  {| rq_identity := Some ident; rq_id := id; rq_n := itoa n; rq_decode := Err (EMsg "no JSON"); rq_more := false;
     rq_ContentLength := slen data; rq_ChunkSha256 := sha256hex data;
     rq_body := {| st_bytes := data; st_err := None |} |}.

(** What the client reads of the answer to its first request. *)
Definition created_fields (r : response) : option (string * Z * Z) :=
  body ← rs_body r;
  match jfield "uploadId" body, jfield "chunkSizeBytes" body, jfield "chunkCount" body with
  | Some (JStr id), Some (JNum size), Some (JNum count) => Some (id, size, count)
  | _, _, _ => None
  end.

Abbreviation ask := (land_request sha256hex uuid_Parse PathEscape srv bucketName).

Fixpoint send_chunks (id : string) (size : Z) (order : list Z) : prog landE (list response) :=
  match order with
  | [] => Ret []
  | n :: order' =>
      sent ← ask (RPutChunk, chunk_request id size n);
      rest ← send_chunks id size order';
      Ret (sent :: rest)
  end.

(** The chunks are sent in the order [order] makes of their count. *)
Definition client (order : Z -> list Z) : prog landE (list response) :=
  created ← ask (RCreate, create_request);
  match created_fields created with
  | None => Ret [created]
  | Some (id, size, count) =>
      sent ← send_chunks id size (order count);
      done ← ask (RComplete, complete_request id);
      Ret (created :: sent ++ [done])
  end.
End calm.

(** ** Chunks of a string *)

Lemma substring_length a n s : String.length (substring a n s) = Nat.min n (String.length s - a).
Proof.
  revert a n. induction s as [|c s IH]; intros [|a] n; [by destruct n..| |apply IH].
  destruct n as [|n]; [done|]. simpl. rewrite IH. lia.
Qed.

Lemma chunks_join content size k :
  0 <= size -> 0 <= k -> sconcat (chunk_data content size <$> seqZ 0 k) = bytes_to content (k * size).
Proof.
  intros Hs Hk. revert k Hk. apply natlike_ind; [by destruct content|]. intros k Hk IH.
  rewrite <-Z.add_1_r, seqZ_app by lia. rewrite fmap_app, sconcat_app, IH. simpl. rewrite sapp_nil_r.
  unfold bytes_to, chunk_data. rewrite substring_join. f_equal. lia.
Qed.

(** The object of listed parts that are there. *)
Lemma assembled_parts parts (f : Z -> string) l :
  (forall n e, (n, e) ∈ l -> exists etag, e = Some etag /\ parts !! n = Some (etag, f n)) ->
  assembled parts l = Some (sconcat (f <$> l.*1)).
Proof.
  induction l as [|[n e] l IH]; intros H; [done|]. simpl. destruct (H n e) as (etag & -> & Hn); [by left|].
  rewrite Hn, IH by (intros m e2 Hm; apply H; by right). by rewrite bool_decide_eq_true_2.
Qed.

(** ** Steps when nothing fails *)

Lemma wp_unbind {E W A B} (h : nsem E W) (p : prog E A) (f : A -> prog E B) Q w :
  wp h (p ≫= f) Q w -> wp h p (fun a w1 => wp h (f a) Q w1) w.
Proof.
  rewrite !wp_nrun. intros H a w1 H1. apply wp_nrun. intros b w2 H2. apply H, nrun_bind. by exists a, w1.
Qed.

Lemma wp_interp_bind {E F W A B} (h : nsem E W) (c : forall X, F X -> prog E X) (p : prog F A) (k : A -> prog F B) Q w :
  wp h (interp c p) (fun a w1 => wp h (interp c (k a)) Q w1) w -> wp h (interp c (p ≫= k)) Q w.
Proof.
  revert w. induction p as [a|X e p IH]; intros w H; [done|]. simpl in *. apply (wp_bind (A:=_)).
  apply (wp_unbind (A:=_)) in H. eapply wp_mono; [exact H|]. intros x w1. apply IH.
Qed.

Lemma wp_embed_bind {E F W A B} (h : nsem E W) (c : forall X, F X -> E X) (p : prog F A) (k : A -> prog F B) Q w :
  wp h (embed c p) (fun a w1 => wp h (embed c (k a)) Q w1) w -> wp h (embed c (p ≫= k)) Q w.
Proof.
  revert w. induction p as [a|X e p IH]; intros w H; [done|]. intros x w1 Hx. apply IH. by apply H.
Qed.

Section steps.
Context (sha256hex : string -> string) (uuid_Parse : string -> option string).
Context (PathEscape : string -> string) (PathUnescape : string -> option string).
Context (srv : Server) (bucketName : string) {S : Type} `{!StoreImpl S} (i : nat).
Abbreviation h := (calm_do uuid_Parse PathUnescape i (S := S)).
Abbreviation lprog := (interp (land_call PathEscape bucketName)).
Abbreviation es3 := (embed (fun X (e : s3E X) => LS3 e)).

(** What the proofs follow of the world. *)
Record view := { v_objects : gmap string string; v_uploads : gmap string multipart;
                 v_rows : gmap string entry; v_landed : list LandedObjectEvent }.
Definition view_of (w : landing S) : view :=
  {| v_objects := lg_objects w; v_uploads := b_uploads (lg_bucket w); v_rows := lg_rows w; v_landed := lg_landed w |}.
Definition with_rows (v : view) (m : gmap string entry) : view :=
  {| v_objects := v_objects v; v_uploads := v_uploads v; v_rows := m; v_landed := v_landed v |}.
Definition with_bucket (v : view) (b : bucket) : view :=
  {| v_objects := b_objects b; v_uploads := b_uploads b; v_rows := v_rows v; v_landed := v_landed v |}.
Definition with_landed (v : view) (l : list LandedObjectEvent) : view :=
  {| v_objects := v_objects v; v_uploads := v_uploads v; v_rows := v_rows v; v_landed := l |}.

Lemma wp_store {Y B} (e : storeE Y) (k : result Y -> prog upE B) Q w :
  (forall w', view_of w' = with_rows (view_of w) (store_nominal e (lg_rows w)).2 ->
     wp h (lprog (k (store_nominal e (lg_rows w)).1)) Q (w', ())) ->
  wp h (lprog (call (Store e) ≫= k)) Q (w, ()).
Proof.
  intros H x [w' []] [(w1 & [_ ->] & [= ->]) Hc]. simpl in Hc. rewrite <-Hc in H. by apply H.
Qed.

(** The calls that touch neither the bucket, nor the store, nor the stream. *)
Definition aside {X} (e : upE X) : Prop :=
  match e with Store _ | Blob _ | Publish _ _ => False | _ => True end.

Lemma wp_aside {X B} (e : upE X) (k : X -> prog upE B) Q w :
  aside e ->
  (forall x w', view_of w' = view_of w -> up_do i X e w x w' -> up_calm uuid_Parse e w w' x ->
     wp h (lprog (k x)) Q (w', ())) ->
  wp h (lprog (call e ≫= k)) Q (w, ()).
Proof.
  intros He H. assert (Hl : land_call PathEscape bucketName X e = call (LUp e)) by by destruct e.
  simpl. rewrite Hl. apply (wp_call_bind (X:=X)). intros x [w1 []] [(w2 & Hs & [= <-]) Hc].
  apply H; [|done..]. destruct e; try done; try by (simpl in Hs; subst). destruct Hs as [[_ ->]|(id & _ & _ & ->)]; done.
Qed.

Lemma wp_s3 {X B} (e : s3E X) (k : X -> prog landE B) Q w :
  (forall x b', s3_do PathUnescape i X e (lg_bucket w) x b' -> s3_calm PathUnescape i e (lg_bucket w) x ->
     wp h (k x) Q (set_bucket w b', ())) ->
  wp h (Vis (LS3 e) k) Q (w, ()).
Proof. intros H x [w1 []] [(b' & Hs & [= ->]) Hc]. by apply H. Qed.

(** A message that can be marshalled. *)
Lemma wp_publish {B} subject v (k : result () -> prog upE B) Q w :
  (0 < publishRetries srv)%nat -> marshal_ok v = true ->
  (forall w', view_of w' = with_landed (view_of w) (received v (lg_landed w)) -> wp h (lprog (k (Ok ()))) Q (w', ())) ->
  wp h (lprog (publishJSON srv subject v ≫= k)) Q (w, ()).
Proof.
  intros Hr Hm H. unfold publishJSON. rewrite Hm. cbn [negb]. destruct (publishRetries srv) as [|n]; [lia|].
  intros x [w1 []] [(w2 & Hs & [= <-]) Hc]. simpl in Hc. subst. destruct Hs as [->|[? _]]; [|done]. by apply H.
Qed.

Lemma wp_metering {B} id kind b job (k : result () -> prog upE B) Q w :
  (0 < publishRetries srv)%nat ->
  (forall w', view_of w' = view_of w -> wp h (lprog (k (Ok ()))) Q (w', ())) ->
  wp h (lprog (publishMetering srv id kind b job ≫= k)) Q (w, ()).
Proof.
  intros Hr H. unfold publishMetering. apply wp_aside; [done|]. intros x w1 Hv1 _ (eid & -> & _).
  apply wp_aside; [done|]. intros now w2 Hv2 _ Hnow. apply wp_publish; [done|exact Hnow|].
  intros w3 Hv3. apply H. rewrite Hv3. simpl. by rewrite <-Hv1, <-Hv2.
Qed.

(** A call of the object store. *)
Lemma wp_blob {Y B} (e : blobE Y) (R : result Y -> landing S -> Prop) (k : result Y -> prog upE B) Q w :
  wp h (es3 (S3BlobStore bucketName PathEscape e)) (fun r w' => R r w'.1) (w, ()) ->
  (forall r w', R r w' -> wp h (lprog (k r)) Q (w', ())) ->
  wp h (lprog (call (Blob e) ≫= k)) Q (w, ()).
Proof.
  intros H Hk. apply (wp_bind (A:=_)). eapply wp_mono; [exact H|]. intros r [w' []] HR. by apply Hk.
Qed.

Lemma calm_succeeds {X} (e : s3E X) b x :
  s3_calm PathUnescape i e b x -> within_limits e ->
  (exists y b', s3_failed e y = false /\ s3_do PathUnescape i X e b y b') -> s3_failed e x = false.
Proof.
  intros Hc Hl (y & b' & Hy & Hs). destruct (s3_failed e x) eqn:Hx; [|done]. specialize (Hc Hl Hx _ _ Hs). congruence.
Qed.

Lemma request_done {Y} (b : bucket) (effect : Y -> bucket -> Prop) x b' :
  request_out b effect x b' -> is_error x = false -> exists y, x = inr y /\ effect y b'.
Proof. intros [[Hx _]|(y & Hy & [->|Hx])] He; [congruence|by exists y|congruence]. Qed.

(** *** Copies *)

Section copy.
Context (PathUnescape_law : forall s, PathUnescape (PathEscape s) = Some s).
Context (src dst data : string) (Hne : src <> dst).
Let source : string := PathEscape (bucketName +:+ "/" +:+ src).

Lemma source_read b c : copy_source PathUnescape b bucketName source c <-> b_objects b !! src = Some c.
Proof.
  unfold copy_source, source. split.
  - intros (key & Hk & Hc). rewrite PathUnescape_law in Hk. injection Hk as Hk.
    by apply (inj (String.append bucketName)), (inj (String.append "/")) in Hk as <-.
  - intros Hc. exists src. by rewrite PathUnescape_law.
Qed.

(** A copy that has [off] bytes in [n - 1] parts. *)
Record copy_at (v : view) (uid : string) (parts : list (Z * option string)) (off n : Z) (w : landing S) : Prop := {
  ca_view : view_of w = with_bucket v (lg_bucket w);
  ca_objects : lg_objects w = v_objects v;
  ca_numbers : parts.*1 = seqZ 1 (n - 1);
  ca_upload : exists u, b_uploads (lg_bucket w) !! uid = Some u /\ mp_key u = dst /\
    assembled (mp_parts u) parts = Some (bytes_to data off)
}.

Lemma copy_part_calm v uid parts off n (k : s3_err + option string -> prog landE (result (list (Z * option string)))) Q w :
  v_objects v !! src = Some data -> 0 <= off < slen data -> off + copyPartSize <= 2 ^ 60 -> 1 <= n <= maxParts ->
  copy_at v uid parts off n w ->
  (forall etag w', copy_at v uid (parts ++ [(n, etag)]) (part_end off (slen data) + 1) (n + 1) w' ->
     wp h (k (inr etag)) Q (w', ())) ->
  wp h (Vis (LS3 (UploadPartCopy bucketName dst uid n source (range_header off (part_end off (slen data))))) k) Q (w, ()).
Proof.
  intros Hsrc Hoff Hbig Hn [Hv Ho Hnum (u & Hu & Hk & Ha)] H. assert (Hcp : copyPartSize = 2 ^ 29) by done.
  assert (Hend : off <= part_end off (slen data) < slen data).
  { unfold part_end. rewrite i64_id by lia. destruct (Z.leb_spec (slen data) (off + copyPartSize - 1)); lia. }
  assert (Hdata : b_objects (lg_bucket w) !! src = Some data) by (change (lg_objects w !! src = Some data); by rewrite Ho).
  apply wp_s3. intros x b' Hs Hc.
  assert (Hx : is_error x = false).
  { apply (calm_succeeds _ _ _ Hc Hn). exists (inr (Some "e")). eexists. split; [done|]. right. eexists. split; [|by left].
    exists u, "e", data, off, (part_end off (slen data)). split; [done|]. split; [by apply source_read|]. split_and!; [lia|lia|lia|done|done|reflexivity]. }
  destruct (request_done _ _ _ _ Hs Hx) as (y & -> & (u2 & et & c & from & to & [Hu2 _] & Hc2%source_read & Hft & Hto & Hrange & -> & ->)).
  assert (u2 = u) as -> by congruence. assert (c = data) as -> by congruence.
  apply range_header_inj in Hrange as [<- <-]; [|lia|done]. apply H. split; simpl; [|done| |].
  - unfold view_of in *. injection Hv as Hr Hl. unfold with_bucket. simpl. f_equal; [exact Hr|exact Hl].
  - rewrite fmap_app, Hnum. simpl. replace (n + 1 - 1) with ((n - 1) + 1) by lia. rewrite seqZ_app by lia.
    f_equal. rewrite (seqZ_cons (1 + (n - 1)) 1) by lia. simpl. f_equal. lia.
  - eexists. rewrite lookup_insert_eq. split; [done|]. split; [done|]. simpl.
    rewrite assembled_app, (assembled_insert _ _ _ parts), Ha.
    2:{ rewrite Hnum, elem_of_seqZ. lia. }
    simpl. rewrite lookup_insert_eq, bool_decide_eq_true_2 by done. simpl. by rewrite sapp_nil_r, bytes_to_range by lia.
Qed.

Lemma copy_loop_calm v fuel uid off n parts w :
  v_objects v !! src = Some data -> slen data <= 2 ^ 59 -> slen data <= maxParts * copyPartSize ->
  0 <= off -> 1 <= n -> (off < slen data -> off = (n - 1) * copyPartSize) ->
  (1 <= fuel)%nat -> slen data - off <= (Z.of_nat fuel - 1) * copyPartSize ->
  copy_at v uid parts off n w ->
  wp h (es3 (copy_loop bucketName fuel source dst uid (slen data) off n parts))
    (fun r w' => exists parts n, r = Ok parts /\ copy_at v uid parts (slen data) n w'.1) (w, ()).
Proof.
  intros Hsrc Hsize Hmax. assert (Hcp : copyPartSize = 2 ^ 29) by done.
  revert off n parts w. induction fuel as [|fuel IH]; intros off n parts w Hoff Hn Hpos Hf Hfuel Hw; [lia|].
  cbn [copy_loop]. destruct (Z.ltb_spec off (slen data)) as [Hlt|Hge]; cbn [negb].
  2:{ exists parts, n. split; [done|]. destruct Hw as [H1 H2 H3 (u & H4 & H5 & H6)]. split; [done..|]. exists u.
      split_and!; [done..|]. by rewrite bytes_to_all by lia; rewrite bytes_to_all in H6 by lia. }
  specialize (Hpos Hlt).
  assert (Hend : part_end off (slen data) = Z.min (off + copyPartSize) (slen data) - 1).
  { unfold part_end. rewrite i64_id by lia. destruct (Z.leb_spec (slen data) (off + copyPartSize - 1)); lia. }
  apply (copy_part_calm v uid parts off n); [done|lia|lia|unfold maxParts in *; lia|done|].
  intros etag w' Hw'. simpl. rewrite (i64_id (off + copyPartSize)) by lia. rewrite (i32_id (n + 1)) by (unfold maxParts in *; lia).
  apply IH; [lia..|]. destruct Hw' as [H1 H2 H3 (u & H4 & H5 & H6)]. split; [done..|]. exists u. split_and!; [done..|].
  rewrite H6, Hend. f_equal. destruct (Z.min_spec (off + copyPartSize) (slen data)) as [[_ ->]|[Hge ->]].
  - f_equal. lia.
  - by rewrite !bytes_to_all by lia.
Qed.

(** The object is at its destination, and nothing else of the objects has changed. *)
Definition copied_to (v : view) (w : landing S) : Prop :=
  exists uploads, view_of w = {| v_objects := <[dst := data]> (v_objects v); v_uploads := uploads;
                                 v_rows := v_rows v; v_landed := v_landed v |}.

Lemma copy_calm w :
  lg_objects w !! src = Some data -> 0 < slen data <= 2 ^ 59 -> slen data <= maxParts * copyPartSize ->
  wp h (es3 (S3BlobStore bucketName PathEscape (Copy src dst (slen data))))
    (fun r w' => r = Ok () /\ copied_to (view_of w) w'.1) (w, ()).
Proof.
  intros Hsrc Hsize Hmax. assert (Hcp : copyPartSize = 2 ^ 29) by done.
  simpl. unfold s3_Copy. fold source. destruct (slen data <=? singleCopyLimit).
  - apply wp_s3. intros x b' Hs Hc.
    assert (Hx : is_error x = false).
    { apply (calm_succeeds _ _ _ Hc I). exists (inr ()). eexists. split; [done|]. right. exists (). split; [|by left].
      exists data. split; [by apply source_read|reflexivity]. }
    destruct (request_done _ _ _ _ Hs Hx) as ([] & -> & (c & Hc2%source_read & ->)). split; [done|].
    assert (c = data) as -> by (unfold lg_objects in Hsrc; congruence). by eexists.
  - apply wp_s3. intros x b' Hs Hc.
    assert (Hx : is_error x = false).
    { destruct (exist_fresh (b_used (lg_bucket w))) as [uid Huid].
      apply (calm_succeeds _ _ _ Hc I). exists (inr (Some uid)). eexists. split; [done|]. right. exists (Some uid). split; [|by left].
      exists uid. split_and!; [done|done|reflexivity]. }
    destruct (request_done _ _ _ _ Hs Hx) as (y & -> & (uid & _ & -> & ->)). simpl.
    set (w1 := set_bucket w _). apply (wp_embed_bind (A:=_)). eapply wp_mono.
    + apply (copy_loop_calm (view_of w)); [done|lia|done|lia|lia|lia| | |].
      * unfold copy_fuel. pose proof (Z.div_pos (slen data) copyPartSize). lia.
      * unfold copy_fuel. pose proof (Z.div_mod (slen data) copyPartSize). pose proof (Z.mod_pos_bound (slen data) copyPartSize).
        pose proof (Z.div_pos (slen data) copyPartSize). rewrite Hcp in *. lia.
      * split; [done|done|done|]. eexists. split; [apply lookup_insert_eq|]. by rewrite bytes_to_0.
    + intros r [w2 []] (parts & n & -> & [Hv Ho Hnum (u & Hu & Hk & Ha)]). rewrite bytes_to_all in Ha by lia.
      apply wp_s3. intros x b' Hs2 Hc2.
      assert (Hx2 : is_error x = false).
      { apply (calm_succeeds _ _ _ Hc2 I). exists (inr ()). eexists. split; [done|]. right. exists (). split; [|by left].
        exists u, data. split_and!; [by split| |rewrite Hnum; apply seqZ_ascending|done|reflexivity].
        intros ->. simpl in Ha. injection Ha as Ha. subst. simpl in Hsize. unfold slen in Hsize. simpl in Hsize. lia. }
      destruct (request_done _ _ _ _ Hs2 Hx2) as ([] & -> & (u2 & c & [Hu2 _] & _ & _ & Ha2 & ->)).
      assert (u2 = u) as -> by (simpl in *; congruence). assert (c = data) as -> by (simpl in *; congruence). split; [done|].
      unfold view_of, with_bucket in Hv. injection Hv as Hr Hl. eexists. unfold view_of, lg_objects. simpl.
      f_equal; [|exact Hr|exact Hl]. f_equal. exact Ho.
Qed.
End copy.

(** *** The requests of the client *)

Context (ident : Identity) (filename mime content : string).
Let creq : createRequest := {| cr_Filename := filename; cr_SizeBytes := slen content; cr_Mime := mime |}.
Let cs : Z := chunkSize srv.
Let count : Z := chunk_count srv (slen content).
Let chunk (n : Z) : string := chunk_data content cs n.
Let session (id mp : string) : Session := new_session srv id ident creq mp.

Context (sha256hex_hex : forall s, hex64 (sha256hex s) = true).
Context (PathUnescape_law : forall s, PathUnescape (PathEscape s) = Some s).
Context (Hchunk : 0 < chunkSize srv <= 2 ^ 59) (Hmax : maxObjectBytes srv <= 2 ^ 59).
Context (Hvalid : validateCreate creq (maxObjectBytes srv) = "").
Context (Hparts : count <= maxParts) (Hcopy : slen content <= maxParts * copyPartSize).
Context (Hretries : (0 < publishRetries srv)%nat).

Lemma content_size : 0 < slen content <= 2 ^ 59.
Proof.
  pose proof Hvalid as Hv. unfold validateCreate in Hv. repeat (case_match; [done|]). bool_prop. unfold creq in *. simpl in *. lia.
Qed.

Lemma layout id mp :
  1 <= count /\ cs * (count - 1) < slen content <= cs * count /\
  forall n, 0 <= n < count -> slen (chunk n) = expected_size (session id mp) n.
Proof.
  pose proof content_size as Hs. destruct (session_chunks srv ident creq mp id) as (H1 & H2 & H3); [simpl; lia..|].
  split; [done|]. split; [done|]. intros n Hn. unfold session. rewrite H3. unfold chunk, chunk_data, slen.
  rewrite substring_length. change (ChunkCount _) with count in *. change (cr_SizeBytes creq) with (slen content) in *. unfold slen, cs in *.
  destruct (Z.eqb_spec n (count - 1)) as [->|]; nia.
Qed.

(** A session with some chunks sent: [done], and perhaps others. *)
Record sending_with (v0 : view) (id mp : string) (done : gset Z) (chunks : list Chunk) (u : multipart) (w : landing S) : Prop := {
  sn_view : view_of w =
    {| v_objects := v_objects v0; v_uploads := b_uploads (lg_bucket w);
       v_rows := <[id := {| en_session := session id mp; en_chunks := chunks |}]> (v_rows v0); v_landed := v_landed v0 |};
  sn_length : Z.of_nat (length chunks) = count;
  sn_chunks : forall k c, chunks !! k = Some c -> Index c = Z.of_nat k /\ (Z.of_nat k ∈ done -> CState c = ChunkDone) /\
    (CState c = ChunkDone -> mp_parts u !! (Z.of_nat k + 1) = Some (ETag c, chunk (Z.of_nat k)));
  sn_upload : b_uploads (lg_bucket w) !! mp = Some u;
  sn_key : mp_key u = staging_key id
}.
Definition sending (v0 : view) (id mp : string) (done : gset Z) (w : landing S) : Prop :=
  exists chunks u, sending_with v0 id mp done chunks u w.

Lemma sending_view v0 id mp done w w' : view_of w' = view_of w -> sending v0 id mp done w -> sending v0 id mp done w'.
Proof.
  intros Hv (chunks & u & [H1 H2 H3 H4 H5]). exists chunks, u.
  assert (Hu : b_uploads (lg_bucket w') = b_uploads (lg_bucket w)) by exact (f_equal v_uploads Hv).
  split; [by rewrite Hv, Hu|done|done|by rewrite Hu|done].
Qed.

Lemma wp_session r id en k Q w :
  rq_identity r = Some ident -> uuid_Parse (rq_id r) = Some id -> lg_rows w !! id = Some en ->
  WorkspaceID (en_session en) = id_WorkspaceID ident ->
  (forall w', view_of w' = view_of w -> wp h (lprog (k (en_session en) ident)) Q (w', ())) ->
  wp h (lprog (with_session uuid_Parse r k)) Q (w, ()).
Proof.
  intros Hi Hp Hr Hws H. unfold with_session, loadOwnedSession. rewrite Hi, Hp. apply wp_interp_bind, wp_store.
  intros w' Hv. cbn [store_nominal] in *. rewrite Hr in *. cbn [fst snd] in *. rewrite Hws, String.eqb_refl. by apply H.
Qed.

Lemma create_calm w :
  (forall id, lg_ids w !! id = None -> lg_rows w !! id = None) ->
  wp h (land_request sha256hex uuid_Parse PathEscape srv bucketName (RCreate, create_request ident filename mime content))
    (fun resp w' => exists id mp, uuid_Parse id = Some id /\ lg_rows w !! id = None /\
       resp = writeJSON 201 (JObj [("uploadId", JStr id); ("chunkSizeBytes", JNum cs); ("chunkCount", JNum count)]) /\
       sending (view_of w) id mp ∅ w'.1) (w, ()).
Proof.
  intros Hids. unfold land_request. cbn [fst snd UploadServer.serve]. unfold handleCreate. cbn [create_request rq_identity rq_decode rq_more].
  fold creq. rewrite Hvalid. cbn [String.eqb negb]. cbv zeta.
  apply wp_aside; [done|]. intros x w1 Hv1 Hd1 (d & -> & Hd). rewrite Hd. cbn [negb]. simpl in Hd1. subst w1. clear Hv1.
  apply wp_aside; [done|]. intros x w2 Hv2 Hd2 (id & -> & Hid).
  destruct Hd2 as [[? _]|(id2 & [= <-] & Hfresh & _)]; [done|].
  apply (wp_blob _ (fun r w3 => exists mp, r = Ok mp /\ b_uploads (lg_bucket w3) !! mp = Some {| mp_key := staging_key id; mp_owner := i; mp_parts := ∅ |}
    /\ view_of w3 = {| v_objects := v_objects (view_of w); v_uploads := b_uploads (lg_bucket w3); v_rows := lg_rows w; v_landed := lg_landed w |})).
  { apply wp_s3. intros x b' Hs Hc.
    assert (Hx : is_error x = false).
    { destruct (exist_fresh (b_used (lg_bucket w2))) as [mp Hmp]. apply (calm_succeeds _ _ _ Hc I).
      exists (inr (Some mp)). eexists. split; [done|]. right. exists (Some mp). split; [|by left]. exists mp. split_and!; [done|done|reflexivity]. }
    destruct (request_done _ _ _ _ Hs Hx) as (y & -> & (mp & _ & -> & ->)). exists mp. split; [done|].
    split; [apply lookup_insert_eq|]. unfold view_of in *. simpl in *. injection Hv2 as Ho _ Hr Hl.
    f_equal; [exact Ho|exact Hr|exact Hl]. }
  intros r w3 (mp & -> & Hu & Hv3). pose proof (layout id mp) as (Hl1 & Hl2 & _). pose proof content_size as Hsz.
  assert (Hr3 : lg_rows w3 = lg_rows w) by exact (f_equal v_rows Hv3). specialize (Hids _ Hfresh).
  apply wp_store. fold (session id mp). cbn [store_nominal]. rewrite Hr3.
  assert (Hok : row_ok (session id mp) = true).
  { unfold row_ok, session, maxParts in *. simpl. fold cs count. rewrite !andb_true_iff, !Z.ltb_lt. lia. }
  rewrite Hok. replace (ID (session id mp)) with id by done. rewrite Hids. cbn [negb fst snd].
  intros w4 Hv4. unfold create_publish. apply wp_metering; [done|].
  intros w5 Hv5. exists id, mp. split_and!; [done..|]. rewrite Hv4, Hv3 in Hv5.
  assert (Hu5 : b_uploads (lg_bucket w5) = b_uploads (lg_bucket w3)) by exact (f_equal v_uploads Hv5).
  exists (pending <$> seqZ 0 count), {| mp_key := staging_key id; mp_owner := i; mp_parts := ∅ |}.
  split; cbn [fst]; [by rewrite Hv5, Hu5|rewrite length_fmap, length_seqZ; lia| |by rewrite Hu5|done].
  intros k c. rewrite list_lookup_fmap. intros (z & Hz & ->)%fmap_Some. apply lookup_seqZ in Hz as [-> Hz].
  split_and!; [simpl; lia|set_solver|done].
Qed.

Lemma read_all_chunk data : read_limited (slen data + 1) {| st_bytes := data; st_err := None |} = (data, None).
Proof. unfold read_limited. cbn [st_bytes st_err]. by rewrite (proj2 (Z.leb_gt (slen data + 1) _)) by lia. Qed.

(** The chunk [n] of the session in the table. *)
Lemma chunk_found v0 id mp done chunks u w n c :
  sending_with v0 id mp done chunks u w -> 0 <= n -> chunks !! Z.to_nat n = Some c ->
  (lg_rows w !! id ≫= fun en => (en,.) <$> chunk_at en n) = Some ({| en_session := session id mp; en_chunks := chunks |}, c).
Proof.
  intros Hw Hn Hc. rewrite (f_equal v_rows (sn_view _ _ _ _ _ _ _ Hw) : lg_rows w = _). cbn [v_rows]. rewrite lookup_insert_eq. simpl.
  unfold chunk_at. rewrite (proj2 (Z.ltb_ge n 0)) by done. simpl. by rewrite Hc.
Qed.

(** The view after chunk [n] has become [c]. *)
Lemma chunk_set v0 id mp done chunks u w n c v :
  sending_with v0 id mp done chunks u w ->
  v = with_rows (view_of w) (<[id := set_chunk {| en_session := session id mp; en_chunks := chunks |} n c]> (lg_rows w)) ->
  v = {| v_objects := v_objects v0; v_uploads := b_uploads (lg_bucket w);
         v_rows := <[id := {| en_session := session id mp; en_chunks := <[Z.to_nat n := c]> chunks |}]> (v_rows v0);
         v_landed := v_landed v0 |}.
Proof.
  intros Hw ->. rewrite (f_equal v_rows (sn_view _ _ _ _ _ _ _ Hw) : lg_rows w = _), (sn_view _ _ _ _ _ _ _ Hw). cbn [v_rows].
  unfold with_rows. cbn. by rewrite insert_insert_eq.
Qed.

Lemma chunk_update v0 id mp done done' chunks u u' w w' n c :
  sending_with v0 id mp done chunks u w -> 0 <= n ->
  view_of w' = {| v_objects := v_objects v0; v_uploads := b_uploads (lg_bucket w');
    v_rows := <[id := {| en_session := session id mp; en_chunks := <[Z.to_nat n := c]> chunks |}]> (v_rows v0);
    v_landed := v_landed v0 |} ->
  b_uploads (lg_bucket w') !! mp = Some u' -> mp_key u' = mp_key u ->
  (forall m, m <> n + 1 -> mp_parts u' !! m = mp_parts u !! m) ->
  Index c = n -> (n ∈ done' -> CState c = ChunkDone) ->
  (CState c = ChunkDone -> mp_parts u' !! (n + 1) = Some (ETag c, chunk n)) ->
  (forall m, m ∈ done' -> m <> n -> m ∈ done) ->
  sending_with v0 id mp done' (<[Z.to_nat n := c]> chunks) u' w'.
Proof.
  intros [_ Hlen Hch _ Hkey] Hn Hv Hu Hk Hold Hi Hd Hp Hdone. split; [done|by rewrite length_insert| |done|congruence].
  intros k ck [(Hkn & <- & _)|(Hkn & Hck)]%list_lookup_insert_Some.
  - replace (Z.of_nat k) with n by lia. done.
  - destruct (Hch k ck Hck) as (H1 & H2 & H3). split_and!; [done| |].
    + intros Hin. apply H2, Hdone; [done|lia].
    + intros Hs. rewrite Hold by lia. auto.
Qed.

Lemma admitted_calm v0 id mp done n w :
  0 <= n < count -> sending v0 id mp done w ->
  wp h (lprog (put_admitted sha256hex (session id mp) n (slen (chunk n)) (sha256hex (chunk n)) {| st_bytes := chunk n; st_err := None |}))
    (fun resp w' => rs_status resp = 200 /\ sending v0 id mp ({[ n ]} ∪ done) w'.1) (w, ()).
Proof.
  intros Hn (chunks & u & Hw). pose proof (sn_length _ _ _ _ _ _ _ Hw) as Hlen. pose proof (sn_chunks _ _ _ _ _ _ _ Hw) as Hch.
  destruct (lookup_lt_is_Some_2 chunks (Z.to_nat n)) as [c Hc]; [lia|]. unfold put_admitted. apply wp_store. cbn [store_nominal].
  replace (ID (session id mp)) with id by done. rewrite (chunk_found _ _ _ _ _ _ _ n c Hw) by (lia || done).
  destruct (decide (CState c = ChunkDone)) as [Hdone|Hnot]; cbn [fst snd].
  { intros w1 Hv1. split; [done|]. apply (sending_view _ _ _ _ w); [exact Hv1|]. exists chunks, u. destruct Hw as [H1 H2 H3 H4 H5].
    split; [done|done| |done|done]. intros k ck Hk. destruct (Hch k ck Hk) as (Hi & Hd & Hp). split_and!; [done| |done].
    intros [Hkn%elem_of_singleton|?]%elem_of_union; [|auto]. replace k with (Z.to_nat n) in Hk by lia. congruence. }
  intros w1 Hv1. apply (chunk_set _ _ _ _ _ _ _ n _ _ Hw) in Hv1. rewrite read_all_chunk, Z.eqb_refl, String.eqb_refl.
  rewrite bool_decide_eq_false_2 by (intros H; by apply H). cbn [negb orb]. unfold maxParts in *. rewrite (i32_id (n + 1)) by lia.
  change (StagingKey (session id mp)) with (staging_key id). change (S3UploadID (session id mp)) with mp.
  assert (Hu1 : b_uploads (lg_bucket w1) !! mp = Some u).
  { rewrite (f_equal v_uploads Hv1 : b_uploads (lg_bucket w1) = _). apply Hw. }
  apply (wp_blob _ (fun r w2 => exists etag, r = Ok etag /\ view_of w2 = with_bucket (view_of w1) (lg_bucket w2) /\
    lg_objects w2 = lg_objects w1 /\ b_uploads (lg_bucket w2) !! mp = Some (add_part u (n + 1) etag (chunk n)))).
  { apply wp_s3. intros x b' Hs Hc2.
    assert (Hx : is_error x = false).
    { apply (calm_succeeds _ _ _ Hc2); [simpl; unfold maxParts; lia|]. exists (inr (Some "etag")). eexists. split; [done|]. right.
      exists (Some "etag"). split; [|by left]. exists u, "etag". split; [by split; [|apply Hw]|]. split; [done|reflexivity]. }
    destruct (request_done _ _ _ _ Hs Hx) as (y & -> & (u2 & etag & [Hu2 _] & -> & ->)). assert (u2 = u) as -> by congruence.
    exists etag. split_and!; [done|done|done|apply lookup_insert_eq]. }
  intros r w2 (etag & -> & Hv2 & Ho2 & Hu2).
  assert (Hw2 : sending_with v0 id mp (done ∖ {[ n ]}) (<[Z.to_nat n := set_cstate c ChunkInflight]> chunks)
    (add_part u (n + 1) etag (chunk n)) w2).
  { eapply (chunk_update _ _ _ _ _ _ _ _ _ w2 n); [exact Hw|lia| |exact Hu2|done| | | |done|].
    - rewrite Hv2, Hv1. unfold with_bucket. cbn. f_equal. exact (eq_trans Ho2 (f_equal v_objects Hv1)).
    - intros m Hm. simpl. by rewrite lookup_insert_ne.
    - destruct (Hch _ _ Hc) as [Hi _]. simpl. lia.
    - set_solver.
    - set_solver. }
  assert (Hc1 : <[Z.to_nat n := set_cstate c ChunkInflight]> chunks !! Z.to_nat n = Some (set_cstate c ChunkInflight)).
  { apply list_lookup_insert_eq. lia. }
  apply wp_store. cbn [store_nominal]. replace (ID (session id mp)) with id by done.
  rewrite (chunk_found _ _ _ _ _ _ _ n _ Hw2) by (lia || done). cbn [fst snd]. intros w3 Hv3.
  apply (chunk_set _ _ _ _ _ _ _ n _ _ Hw2) in Hv3.
  assert (Hu3 : b_uploads (lg_bucket w3) = b_uploads (lg_bucket w2)) by exact (f_equal v_uploads Hv3).
  apply wp_aside; [done|]. intros [] w4 Hv4 _ _. split; [done|]. apply (sending_view _ _ _ _ w3); [exact Hv4|]. eexists _, _.
  eapply (chunk_update _ _ _ _ _ _ _ _ _ w3 n (set_done _ _ _ _)); [exact Hw2|lia| |rewrite Hu3; exact Hu2|done|done| |done| |].
  - by rewrite Hv3, Hu3.
  - destruct (Hch _ _ Hc) as [Hi _]. simpl. lia.
  - intros _. simpl. by rewrite lookup_insert_eq.
  - set_solver.
Qed.
(** A chunk that is sent is done, and so are those that were. *)
Lemma chunk_calm v0 id mp done n w :
  uuid_Parse id = Some id -> 0 <= n < count -> sending v0 id mp done w ->
  wp h (land_request sha256hex uuid_Parse PathEscape srv bucketName (RPutChunk, chunk_request sha256hex ident content id cs n))
    (fun resp w' => rs_status resp = 200 /\ sending v0 id mp ({[ n ]} ∪ done) w'.1) (w, ()).
Proof.
  intros Hid Hn (chunks & u & Hw). pose proof (layout id mp) as (Hl1 & Hl2 & Hlen).
  assert (Hrow : lg_rows w !! id = Some {| en_session := session id mp; en_chunks := chunks |}).
  { rewrite (f_equal v_rows (sn_view _ _ _ _ _ _ _ Hw) : lg_rows w = _). apply lookup_insert_eq. }
  unfold land_request. cbn [fst snd UploadServer.serve]. unfold handlePutChunk. eapply wp_session; [done|done|done|done|].
  intros w1 Hv1. cbn [en_session]. unfold put_chunk. cbn [chunk_request rq_n rq_ContentLength rq_ChunkSha256 rq_body].
  fold (chunk n). unfold maxParts in *. rewrite Atoi_itoa by lia. change (ChunkCount (session id mp)) with count.
  rewrite (proj2 (Z.ltb_ge n 0)), (proj2 (Z.leb_gt count n)) by lia. cbn [orb]. rewrite bool_decide_eq_true_2 by done. cbn [negb]. cbv zeta.
  rewrite Hlen by done. set (ex := expected_size (session id mp) n).
  assert (Hex : 0 <= ex) by (unfold ex; rewrite <-Hlen by done; unfold slen; lia).
  rewrite (proj2 (Z.ltb_ge ex 0)), Z.eqb_refl by lia. cbn [negb]. rewrite ToLower_hex, sha256hex_hex by done. cbn [negb].
  apply wp_aside; [done|]. intros x w2 Hv2 Hd2 Hc2. simpl in Hc2. subst x. cbn [negb].
  apply wp_interp_bind. apply (wp_mono _ _ (fun resp w' => rs_status resp = 200 /\ sending v0 id mp ({[ n ]} ∪ done) w'.1)).
  - unfold ex. rewrite <-Hlen by done. apply admitted_calm; [done|]. apply (sending_view _ _ _ _ w); [by rewrite Hv2|].
    by exists chunks, u.
  - intros resp [w3 []] [Hresp Hw3]. apply wp_aside; [done|]. intros [] w4 Hv4 _ _. split; [done|].
    by apply (sending_view _ _ _ _ w3).
Qed.

Lemma sort_chunks_done chunks missing parts :
  Forall (fun c => CState c = ChunkDone) chunks ->
  sort_chunks chunks missing parts =
    (missing, parts ++ ((fun c => {| PartNumber := i32 (Index c + 1); cp_ETag := ETag c |}) <$> chunks)).
Proof.
  intros H. revert parts. induction H as [|c chunks Hc _ IH]; intros parts; simpl; [by rewrite app_nil_r|].
  rewrite bool_decide_eq_true_2 by done. simpl. by rewrite IH, <-app_assoc.
Qed.

Definition all_chunks : gset Z := list_to_set (seqZ 0 count).
Definition chunk_part (c : Chunk) : CompletedPart := {| PartNumber := i32 (Index c + 1); cp_ETag := ETag c |}.

(** The parts of a session all of whose chunks are done make up the file. *)
Lemma parts_content v0 id mp done chunks u w :
  sending_with v0 id mp done chunks u w -> all_chunks ⊆ done ->
  Forall (fun c => CState c = ChunkDone) chunks /\
  (completed (chunk_part <$> chunks)).*1 = seqZ 1 count /\
  assembled (mp_parts u) (completed (chunk_part <$> chunks)) = Some content.
Proof.
  intros [_ Hlen Hch _ _] Hall. pose proof (layout id mp) as (Hl1 & Hl2 & _).
  assert (Hdone : forall k c, chunks !! k = Some c -> CState c = ChunkDone).
  { intros k c Hk. apply (Hch k c Hk), Hall. unfold all_chunks. rewrite elem_of_list_to_set, elem_of_seqZ.
    pose proof (lookup_lt_Some _ _ _ Hk). lia. }
  split; [by apply Forall_lookup|].
  assert (Hnum : PartNumber <$> (chunk_part <$> chunks) = seqZ 1 count).
  { apply (chunk_parts (session id mp) {| en_session := session id mp; en_chunks := chunks |}); [done| |].
    - unfold maxParts in *. change (ChunkCount (session id mp)) with count. lia.
    - split; [exact Hlen|]. intros k c Hk. by destruct (Hch k c Hk). }
  assert (Hcn : (completed (chunk_part <$> chunks)).*1 = seqZ 1 count) by (apply completed_numbers; by rewrite Hnum).
  split; [done|].
  rewrite (assembled_parts _ (fun n => chunk (n - 1))).
  - rewrite Hcn. f_equal.
    replace (seqZ 1 count) with (Z.add 1 <$> seqZ 0 count) by (by rewrite fmap_add_seqZ).
    rewrite <-list_fmap_compose, (list_fmap_ext _ chunk) by (intros k z Hz; simpl; f_equal; lia).
    unfold chunk. rewrite chunks_join by (unfold cs; lia). apply bytes_to_all. lia.
  - intros n e Hin. rewrite (proj2 (completed_sorted _ ltac:(rewrite Hnum; apply NoDup_seqZ))) in Hin.
    apply list_elem_of_fmap in Hin as (p & [= -> ->] & (c & -> & Hc)%list_elem_of_fmap).
    apply list_elem_of_lookup in Hc as [k Hk]. destruct (Hch k c Hk) as (Hi & _ & Hp). exists (ETag c). split; [done|].
    pose proof (lookup_lt_Some _ _ _ Hk). unfold maxParts in *. cbn [chunk_part PartNumber]. rewrite Hi, i32_id by lia. rewrite Hp by eauto. do 2 f_equal. by rewrite Z.add_simpl_r.
Qed.

Let sha : string := sha256hex content.
Let key : string := object_key (id_WorkspaceID ident) sha.

(** The session of the uploaded file. *)
Definition landed_as (id mp : string) : Session := set_state (set_assembled (session id mp) sha key) SessionCompleted.

Lemma finalize_calm id mp w en :
  lg_rows w !! id = Some en -> en_session en = set_assembled (session id mp) sha key ->
  wp h (lprog (finalize srv (set_assembled (session id mp) sha key)))
    (fun resp w' => resp = writeJSON 200 (completeResponse (landed_as id mp)) /\ exists now,
       view_of w'.1 = {| v_objects := lg_objects w; v_uploads := b_uploads (lg_bucket w);
         v_rows := <[id := {| en_session := landed_as id mp; en_chunks := en_chunks en |}]> (lg_rows w);
         v_landed := lg_landed w ++ [landed_event (landed_as id mp) now] |}) (w, ()).
Proof.
  intros Hrow Hen. unfold finalize. apply wp_aside; [done|]. intros now w1 Hv1 _ Hnow. apply wp_publish; [done|exact Hnow|].
  intros w2 Hv2. apply wp_metering; [done|]. intros w3 Hv3. apply wp_store. cbn [store_nominal].
  change (ID (set_assembled _ _ _)) with id. rewrite Hv2, Hv1 in Hv3.
  rewrite (f_equal v_rows Hv3 : lg_rows w3 = _). cbn [v_rows with_landed view_of]. rewrite Hrow. cbn [fst snd].
  intros w4 Hv4. split; [done|]. exists now. cbn [fst]. rewrite Hv4, Hv3. unfold with_rows. cbn. unfold set_session. rewrite Hen.
  by rewrite (f_equal v_landed Hv1 : lg_landed w1 = _).
Qed.

Lemma key_staging id : key <> staging_key id.
Proof. apply asset_not_staging, object_key_asset. Qed.

(** From the staging object to the assembled session. *)
Lemma staged_calm id mp chunks w :
  lg_rows w !! id = Some {| en_session := session id mp; en_chunks := chunks |} ->
  lg_objects w !! staging_key id = Some content ->
  wp h (lprog (assemble_staged sha256hex (session id mp)))
    (fun r w' => r = Ok (set_assembled (session id mp) sha key) /\ exists uploads,
       view_of w'.1 = {| v_objects := delete (staging_key id) (<[key := content]> (lg_objects w)); v_uploads := uploads;
         v_rows := <[id := {| en_session := set_assembled (session id mp) sha key; en_chunks := chunks |}]> (lg_rows w);
         v_landed := lg_landed w |}) (w, ()).
Proof.
  intros Hrow Hobj. pose proof content_size as Hsz. unfold assemble_staged.
  change (StagingKey (session id mp)) with (staging_key id). change (SizeBytes (session id mp)) with (slen content).
  change (WorkspaceID (session id mp)) with (id_WorkspaceID ident). change (ID (session id mp)) with id.
  apply (wp_blob _ (fun r w1 => r = Ok {| st_bytes := content; st_err := None |} /\ view_of w1 = view_of w)).
  { apply wp_s3. intros x b' [-> Hs] Hc.
    assert (Hx : s3_failed (s3_GetObject bucketName (staging_key id)) x = false).
    { apply (calm_succeeds _ _ _ Hc I). exists (inr {| st_bytes := content; st_err := None |}), (lg_bucket w).
      split; [by vm_compute|]. split; [done|]. by exists content. }
    destruct x as [er|st]; [done|]. simpl in Hx. apply bool_decide_eq_false, dec_stable in Hx.
    destruct Hs as (c & Hc2 & Hb). specialize (Hb Hx). assert (c = content) as -> by (unfold lg_objects in Hobj; congruence).
    split; [|done]. destruct st as [bytes er]. simpl in *. by subst. }
  intros r w1 [-> Hv1]. cbn [st_err st_bytes]. rewrite Z.eqb_refl. cbn [negb]. cbv zeta. fold sha. fold key.
  assert (Ho1 : lg_objects w1 = lg_objects w) by exact (f_equal v_objects Hv1).
  eapply (wp_blob _ (fun r w2 => r = Ok () /\ copied_to key content (view_of w1) w2)).
  { apply (copy_calm PathUnescape_law); [by apply not_eq_sym, key_staging|by rewrite Ho1|lia|done]. }
  intros r w2 [-> [uploads Hv2]].
  apply (wp_blob _ (fun _ w3 => view_of w3 = {| v_objects := delete (staging_key id) (<[key := content]> (lg_objects w));
    v_uploads := uploads; v_rows := lg_rows w; v_landed := lg_landed w |})).
  { apply wp_s3. intros x b' Hs Hc.
    assert (Hx : is_error x = false).
    { apply (calm_succeeds _ _ _ Hc I). exists (inr ()). eexists. split; [done|]. right. exists (). split; [reflexivity|by left]. }
    destruct (request_done _ _ _ _ Hs Hx) as ([] & -> & ->). cbn [fst].
    rewrite Hv1 in Hv2. unfold view_of in *. injection Hv2 as Ho Hu Hr Hl. cbn in Ho. f_equal; [|exact Hu|exact Hr|exact Hl].
    unfold lg_objects in *. cbn. by rewrite Ho. }
  intros r w3 Hv3. apply wp_store. cbn [store_nominal]. rewrite (f_equal v_rows Hv3 : lg_rows w3 = _). cbn [v_rows]. rewrite Hrow.
  cbn [fst snd]. intros w4 Hv4. split; [done|]. exists uploads. cbn [fst]. by rewrite Hv4, Hv3.
Qed.

Lemma complete_calm v0 id mp done w :
  uuid_Parse id = Some id -> all_chunks ⊆ done -> sending v0 id mp done w ->
  wp h (land_request sha256hex uuid_Parse PathEscape srv bucketName (RComplete, complete_request ident id))
    (fun resp w' => resp = writeJSON 200 (completeResponse (landed_as id mp)) /\ exists now chunks uploads,
       view_of w'.1 = {| v_objects := <[key := content]> (delete (staging_key id) (v_objects v0)); v_uploads := uploads;
         v_rows := <[id := {| en_session := landed_as id mp; en_chunks := chunks |}]> (v_rows v0);
         v_landed := v_landed v0 ++ [landed_event (landed_as id mp) now] |}) (w, ()).
Proof.
  intros Hid Hall (chunks & u & Hw). destruct (parts_content _ _ _ _ _ _ _ Hw Hall) as (Hdone & Hnum & Hcontent).
  assert (Hrow : lg_rows w !! id = Some {| en_session := session id mp; en_chunks := chunks |}).
  { rewrite (f_equal v_rows (sn_view _ _ _ _ _ _ _ Hw) : lg_rows w = _). apply lookup_insert_eq. }
  unfold land_request. cbn [fst snd UploadServer.serve]. unfold handleComplete. eapply wp_session; [done|done|done|done|].
  intros w1 Hv1. cbn [en_session]. unfold complete. change (State (session id mp)) with SessionActive. cbv iota.
  unfold complete_open. apply wp_store. cbn [store_nominal]. change (ID (session id mp)) with id.
  rewrite (f_equal v_rows Hv1 : lg_rows w1 = lg_rows w), Hrow. cbn [fst snd en_chunks]. intros w2 Hv2.
  rewrite sort_chunks_done by done. cbn [app]. fold chunk_part. rewrite bool_decide_eq_true_2 by done. cbn [negb orb].
  rewrite length_fmap, (sn_length _ _ _ _ _ _ _ Hw). change (ChunkCount (session id mp)) with count. rewrite Z.eqb_refl. cbn [negb].
  change (State (session id mp)) with SessionActive. rewrite bool_decide_eq_true_2 by done.
  assert (Hv2' : view_of w2 = view_of w) by (rewrite Hv2, Hv1; done). clear w1 Hv1 Hv2.
  apply wp_interp_bind. unfold assemble. change (StagingKey (session id mp)) with (staging_key id).
  change (S3UploadID (session id mp)) with mp.
  assert (Hu2 : b_uploads (lg_bucket w2) !! mp = Some u).
  { rewrite (f_equal v_uploads Hv2' : b_uploads (lg_bucket w2) = _). apply Hw. }
  apply (wp_blob _ (fun r w3 => r = Ok () /\ lg_objects w3 = <[staging_key id := content]> (lg_objects w2) /\
    lg_rows w3 = lg_rows w2 /\ lg_landed w3 = lg_landed w2)).
  { apply wp_s3. intros x b' Hs Hc. pose proof (layout id mp) as (Hl1 & _ & _).
    assert (Hx : is_error x = false).
    { apply (calm_succeeds _ _ _ Hc I). exists (inr ()). eexists. split; [done|]. right. exists (). split; [|by left].
      exists u, content. split_and!; [split; [done|apply Hw]| |rewrite Hnum; apply seqZ_ascending|done|reflexivity].
      intros Hnil. rewrite Hnil, seqZ_cons in Hnum by lia. done. }
    destruct (request_done _ _ _ _ Hs Hx) as ([] & -> & (u2 & c & [Hu3 _] & _ & _ & Ha & ->)).
    assert (u2 = u) as -> by congruence. assert (c = content) as -> by congruence. done. }
  intros r w3 (-> & Ho3 & Hr3 & Hl3). eapply wp_mono.
  { apply (staged_calm id mp chunks).
    - by rewrite Hr3, (f_equal v_rows Hv2' : lg_rows w2 = lg_rows w).
    - rewrite Ho3. apply lookup_insert_eq. }
  intros r [w4 []] [-> [uploads Hv4]]. cbn [fst] in Hv4.
  eapply wp_mono; [apply (finalize_calm id mp _ {| en_session := set_assembled (session id mp) sha key; en_chunks := chunks |})|].
  - rewrite (f_equal v_rows Hv4 : lg_rows w4 = _). apply lookup_insert_eq.
  - done.
  - intros resp [w5 []] [-> [now Hv5]]. split; [done|]. exists now, chunks. cbn [fst en_chunks] in *. eexists. rewrite Hv5.
    rewrite (f_equal v_objects Hv4 : lg_objects w4 = _), (f_equal v_rows Hv4 : lg_rows w4 = _), (f_equal v_landed Hv4 : lg_landed w4 = _).
    cbn [v_objects v_rows v_landed]. rewrite Ho3, Hr3, Hl3.
    pose proof (sn_view _ _ _ _ _ _ _ Hw) as Hv. rewrite <-Hv2' in Hv.
    rewrite (f_equal v_objects Hv : lg_objects w2 = _), (f_equal v_rows Hv : lg_rows w2 = _), (f_equal v_landed Hv : lg_landed w2 = _).
    cbn [v_objects v_rows v_landed]. rewrite !insert_insert_eq. f_equal.
    rewrite delete_insert_ne, delete_insert_eq by apply not_eq_sym, key_staging. reflexivity.
Qed.

(** The chunks one after the other. *)
Lemma send_calm v0 id mp order done w :
  uuid_Parse id = Some id -> (forall n, n ∈ order -> 0 <= n < count) -> sending v0 id mp done w ->
  wp h (send_chunks sha256hex uuid_Parse PathEscape srv bucketName ident content id cs order)
    (fun resps w' => rs_status <$> resps = replicate (length order) 200 /\
       sending v0 id mp (list_to_set order ∪ done) w'.1) (w, ()).
Proof.
  intros Hid. revert done w. induction order as [|n order IH]; intros done w Hin Hw; simpl.
  { split; [done|]. by replace (∅ ∪ done) with done by set_solver. }
  apply wp_bind. eapply wp_mono; [apply chunk_calm; [done|apply Hin; by left|exact Hw]|].
  intros resp [w1 []] [Hr Hw1]. apply wp_bind. eapply wp_mono; [apply IH; [intros m Hm; apply Hin; by right|exact Hw1]|].
  intros resps w2 [Hrs Hw2]. split; [rewrite fmap_cons; by rewrite Hr, Hrs|].
  by replace ({[n]} ∪ list_to_set order ∪ done) with (list_to_set order ∪ ({[n]} ∪ done)) by set_solver.
Qed.
End steps.

(** C4: a client's upload succeeds.  Against any session store and any bucket, when nothing
    fails: a client that creates a session for a file within the service's limits, sends
    every chunk with its SHA-256, in any order and any number of times, and completes, is
    answered 201, 200 for each chunk and 200; the file is in the bucket under the key named
    after the caller's workspace and its SHA-256, which the last answer gives; the session,
    with a row of its own, is completed; exactly one landed event, about this file, has been
    published; and no other object and no other session has changed.  (S3 numbers parts up
    to 10,000: both the chunks and the 512 MiB ranges of the copy must be within that.) *)
Theorem conforming_upload_lands {S} `{!StoreImpl S} (sha256hex : string -> string) (uuid_Parse : string -> option string)
    (PathEscape : string -> string) (PathUnescape : string -> option string) (srv : Server) (bucketName : string) (i : nat)
    (ident : Identity) (filename mime content : string) (order : Z -> list Z) (w w' : landing S * ()) out :
  (forall s, hex64 (sha256hex s) = true) -> (forall s, PathUnescape (PathEscape s) = Some s) ->
  0 < chunkSize srv <= 2 ^ 59 -> maxObjectBytes srv <= 2 ^ 59 -> (0 < publishRetries srv)%nat ->
  validateCreate {| cr_Filename := filename; cr_SizeBytes := slen content; cr_Mime := mime |} (maxObjectBytes srv) = "" ->
  let count := chunk_count srv (slen content) in
  count <= maxParts -> slen content <= maxParts * copyPartSize ->
  (forall n, n ∈ order count <-> 0 <= n < count) ->
  (forall id, lg_ids w.1 !! id = None -> lg_rows w.1 !! id = None) ->
  nrun (calm_do uuid_Parse PathUnescape i)
    (client sha256hex uuid_Parse PathEscape srv bucketName ident filename mime content order) w out w' ->
  exists id mp now chunks,
    let s := landed_as sha256hex srv ident filename mime content id mp in
    rs_status <$> out = 201 :: replicate (length (order count)) 200 ++ [200] /\
    last out = Some (writeJSON 200 (completeResponse s)) /\
    SHA256 s = sha256hex content /\ ObjectKey s = object_key (id_WorkspaceID ident) (sha256hex content) /\
    State s = SessionCompleted /\ lg_rows w.1 !! id = None /\
    lg_rows w'.1 = <[id := {| en_session := s; en_chunks := chunks |}]> (lg_rows w.1) /\
    lg_objects w'.1 = <[ObjectKey s := content]> (delete (staging_key id) (lg_objects w.1)) /\
    lg_landed w'.1 = lg_landed w.1 ++ [landed_event s now].
Proof.
  intros Hhex Hun Hchunk Hmax Hretry Hvalid count Hparts Hcopy Horder Hids. revert out w'. apply wp_nrun.
  destruct w as [w []]. unfold client. apply (wp_bind (A:=response)). eapply wp_mono; [by apply create_calm|].
  intros created [w1 []] (id & mp & Hid & Hnew & -> & Hw1). cbn [fst] in *.
  change (created_fields _) with (Some (id, chunkSize srv, count)). cbv iota.
  apply (wp_bind (A:=list response)). eapply wp_mono; [apply send_calm; try done; intros n; apply Horder|].
  intros sent [w2 []] [Hsent Hw2]. cbn [fst] in *. apply (wp_bind (A:=response)).
  eapply wp_mono; [eapply complete_calm; [done..| |exact Hw2]|].
  { intros n. unfold all_chunks. rewrite elem_of_union, !elem_of_list_to_set, elem_of_seqZ, Horder. fold count. lia. }
  intros resp [w3 []] (-> & now & chunks & uploads & Hv). exists id, mp, now, chunks. cbn [fst] in *.
  split_and!; [|by rewrite app_comm_cons, last_snoc|done|done|done|done|exact (f_equal v_rows Hv)|exact (f_equal v_objects Hv)|exact (f_equal v_landed Hv)].
  rewrite fmap_cons, fmap_app, Hsent. done.
Qed.

(** ** A concrete run *)

(** A session store that is the map of its interface. *)
#[export, program] Instance map_store : StoreImpl (gmap string entry) := {
  store_exec Y e m := store_nominal e m;
  store_wf m := forall id en, m !! id = Some en -> ID (en_session en) = id;
  store_abs m := m
}.
Next Obligation.
  intros Y e m Hm. split; [|left; by rewrite <-surjective_pairing]. intros id en' H.
  apply (nominal_rows Some Datatypes.id Some (fun _ _ _ => True)) in H. unfold row_from in H.
  destruct (m !! id) as [en|] eqn:Hid.
  - apply Hm in Hid. destruct H as [->|H]; [done|]. by destruct e; try done; destruct H as [_ ->].
  - destruct e; try done. by destruct H as (-> & _ & ->).
Qed.
Next Obligation. intros m id en Hm. apply Hm. Qed.

(** A bucket that fails only what it cannot do. *)
Definition ranges (c range : string) : option (Z * Z) :=
  head (filter (fun p => p.1 <= p.2 /\ range = range_header p.1 p.2)
    (from ← seqZ 0 (slen c); to ← seqZ 0 (slen c); [(from, to)])).

Definition s3_calm_exec (i : nat) : sem s3E bucket := fun X e b =>
  match e in s3E X return X * bucket with
  | CreateMultipartUpload _ key _ =>
      let id := fresh (b_used b) in (inr (Some id), add_upload b id {| mp_key := key; mp_owner := i; mp_parts := ∅ |})
  | UploadPartCopy bkt key id n source range =>
      match b_uploads b !! id, GoLib.strip_prefix (bkt +:+ "/") source ≫= fun k => b_objects b !! k with
      | Some u, Some c =>
          match ranges c range with
          | Some (from, to) =>
              if String.eqb (mp_key u) key
              then (inr (Some "etag"), set_b_uploads b (<[id := add_part u n "etag" (byte_range c from to)]> (b_uploads b)))
              else (inl NoSuchUpload, b)
          | None => (inl (S3Other "range"), b)
          end
      | _, _ => (inl NoSuchUpload, b)
      end
  | e => s3_exec i _ e b
  end.

Lemma ranges_spec c range :
  match ranges c range with
  | Some (from, to) => 0 <= from <= to /\ to < slen c /\ range = range_header from to
  | None => forall from to, 0 <= from <= to -> to < slen c -> range <> range_header from to
  end.
Proof.
  unfold ranges. set (l := _ ← seqZ 0 (slen c); _).
  assert (Hl : forall from to, (from, to) ∈ l <-> 0 <= from < slen c /\ 0 <= to < slen c).
  { intros from to. unfold l. rewrite list_elem_of_bind. setoid_rewrite list_elem_of_bind.
    setoid_rewrite elem_of_seqZ. setoid_rewrite list_elem_of_singleton. split.
    - intros (f & (t & [= -> ->] & Ht) & Hf). lia.
    - intros [H1 H2]. exists from. split; [|lia]. exists to. split; [done|lia]. }
  destruct (filter _ l) as [|[from to] l'] eqn:Hf; simpl.
  - intros from to H1 H2 H3. assert (Hin : (from, to) ∈ (@nil (Z * Z))); [|by apply elem_of_nil in Hin].
    rewrite <-Hf. apply list_elem_of_filter. split; [simpl; split; [lia|done]|]. apply Hl. lia.
  - assert (Hin : (from, to) ∈ (from, to) :: l') by by left. rewrite <-Hf in Hin. apply list_elem_of_filter in Hin as [[H1 H2] H3].
    apply Hl in H3. simpl in *. split_and!; [lia..|done].
Qed.

Lemma s3_calm_exec_spec i X (e : s3E X) b : s3_do Some i X e b (s3_calm_exec i X e b).1 (s3_calm_exec i X e b).2.
Proof.
  destruct e as [bkt key mime| |bkt key id n src rg| | | | | | ]; try apply s3_exec_spec; unfold s3_calm_exec; cbv beta zeta; simpl s3_do.
  - right. eexists. split; [|by left]. eexists. split_and!; [apply is_fresh|done..].
  - destruct (b_uploads b !! id) as [u|] eqn:Hu; [|by left].
    destruct (GoLib.strip_prefix _ src ≫= _) as [c|] eqn:Hc; [|by left].
    apply bind_Some in Hc as (k & ->%strip_prefix_Some & Hc). pose proof (ranges_spec c rg) as Hr.
    destruct (ranges c rg) as [[from to]|]; [|by left]. destruct (String.eqb_spec (mp_key u) key); [|by left].
    right. eexists. split; [|by left]. exists u, "etag", c, from, to. split; [done|]. split; [|naive_solver].
    exists k. split; [by rewrite sapp_assoc|done].
Qed.

Lemma sorted_ascending l : StronglySorted Z.lt l -> ascending l = true.
Proof.
  induction 1 as [|a l _ IH H]; [done|]. simpl. rewrite IH, andb_true_r. apply forallb_forall. intros b Hb.
  rewrite Forall_forall in H. by apply Z.ltb_lt, H, list_elem_of_In.
Qed.

Lemma s3_calm_exec_calm i X (e : s3E X) b : s3_calm Some i e b (s3_calm_exec i X e b).1.
Proof.
  intros _ Hf y b' Hs.
  assert (Hno : forall {Y} (eff : Y -> bucket -> Prop) (x : s3_err + Y), (forall y, ~ eff y b') -> request_out b eff x b' -> is_error x = true).
  { intros Y eff x Hn [[Hx _]|(z & Hz & _)]; [done|by apply Hn in Hz]. }
  destruct e as [bkt key mime|bkt key id n body|bkt key id n src rg|bkt key id parts|bkt key id|bkt key|bkt key|bkt key src|bkt key];
    unfold s3_calm_exec, s3_exec in Hf; cbv beta zeta in Hf; simpl s3_do in Hs; simpl s3_failed in *; try done.
  - apply (Hno _ _ _) in Hs; [done|]. intros z (u & etag & [Hu Hk] & _). rewrite Hu in Hf. by rewrite Hk, String.eqb_refl in Hf.
  - apply (Hno _ _ _) in Hs; [done|]. intros z (u & etag & c & from & to & [Hu Hk] & (k & [= ->] & Hc) & H1 & H2 & H3 & _).
    change (String "/" k) with ("/" +:+ k) in Hf. rewrite Hu, <-sapp_assoc, strip_prefix_app in Hf. simpl in Hf. rewrite Hc in Hf. pose proof (ranges_spec c rg) as Hr.
    destruct (ranges c rg) as [[from' to']|]; [by rewrite Hk, String.eqb_refl in Hf|by apply (Hr from to)].
  - apply (Hno _ _ _) in Hs; [done|]. intros z (u & c & [Hu Hk] & Hn & Hsort & Ha & _).
    rewrite Hu, Ha, Hk, String.eqb_refl, (sorted_ascending _ Hsort), bool_decide_eq_false_2 in Hf by done. done.
  - destruct Hs as [(-> & _)|[_ Hs]]; [done|]. apply (Hno _ _ _) in Hs; [done|]. intros z [(u & Hu & Hk) _].
    by rewrite Hu, Hk, String.eqb_refl in Hf.
  - destruct Hs as [_ Hs]. destruct y as [er|st]; [done|]. destruct Hs as (c & Hc & _). by rewrite Hc in Hf.
  - destruct Hs as [_ Hs]. destruct y as [er|len]; [done|]. destruct Hs as (c & Hc & _). by rewrite Hc in Hf.
  - apply (Hno _ _ _) in Hs; [done|]. intros z (c & (k & [= ->] & Hc) & _).
    change (String "/" k) with ("/" +:+ k) in Hf. rewrite <-sapp_assoc, strip_prefix_app in Hf. simpl in Hf. by rewrite Hc in Hf.
Qed.

Definition calm_exec (i : nat) : sem landE (landing (gmap string entry) * ()) := fun X e w =>
  match e in landE X return X * (landing (gmap string entry) * ()) with
  | LS3 e => let r := s3_calm_exec i _ e (lg_bucket w.1) in (r.1, (set_bucket w.1 r.2, ()))
  | LUp e =>
      match e in upE X return X * (landing (gmap string entry) * ()) with
      | Store e => let r := store_nominal e (lg_store w.1) in (r.1, (set_store w.1 r.2, ()))
      | Blob _ => (Err (EMsg "not a step"), w)
      | Quota _ _ => (Ok allow, w)
      | Publish _ v => (Ok (), (set_landed w.1 (received v (lg_landed w.1)), ()))
      | Gauge_TryAcquire _ => (true, w)
      | Gauge_Release _ | Backoff_Reset _ => ((), w)
      | Backoff_Deny _ => (Second, w)
      | NewV7 => let id := fresh (dom (lg_ids w.1)) in (Ok id, (set_ids w.1 (<[id := i]> (lg_ids w.1)), ()))
      | Now => (0, w)
      | WaitDone _ => (None, w)
      end
  end.

Lemma calm_exec_spec i X (e : landE X) w : calm_do Some Some i X e w (calm_exec i X e w).1 (calm_exec i X e w).2.
Proof.
  destruct w as [w []]. destruct e as [X e|X e].
  - split; [eexists; split; [apply s3_calm_exec_spec|done]|apply s3_calm_exec_calm].
  - destruct e as [Y e|Y e|ws n|subject v|n|n|id|id| | |d]; (split; [eexists; split; [|done]|]); simpl; try done.
    + by rewrite <-surjective_pairing.
    + by exists allow.
    + by left.
    + right. eexists. split_and!; [done| |done]. apply not_elem_of_dom, is_fresh.
    + eauto.
Qed.

(** Two chunks, the second sent first and again at the end. *)
Lemma conforming_upload_lands_witness :
  let w : landing (gmap string entry) * () :=
    ({| lg_bucket := {| b_objects := ∅; b_uploads := ∅; b_used := ∅ |}; lg_store := ∅; lg_ids := ∅; lg_landed := [] |}, ()) in
  let order : Z -> list Z := fun _ => [1; 0; 1] in
  let r := run (calm_exec 0) (client (toy_hash 32) Some id ex_srv "bkt" ex_id "f" "video/mp4" "abcdef" order) w in
  let key := object_key "ws" (toy_hash 32 "abcdef") in
  rs_status <$> r.1 = [201; 200; 200; 200; 200] /\ lg_objects r.2.1 !! key = Some "abcdef" /\
  exists id now s, lg_landed r.2.1 = [landed_event s now] /\ ObjectKey s = key /\ State s = SessionCompleted /\
    lg_rows w.1 !! id = None.
Proof.
  intros w order r key. split; [vm_compute; reflexivity|]. split; [vm_compute; reflexivity|].
  destruct (conforming_upload_lands (toy_hash 32) Some id Some ex_srv "bkt" 0 ex_id "f" "video/mp4" "abcdef" order w r.2 r.1)
    as (id & mp & now & chunks & H1 & H2 & H3 & H4 & H5 & H6 & H7 & H8 & H9).
  - apply toy_hash_hex.
  - done.
  - by vm_compute.
  - by vm_compute.
  - simpl. lia.
  - by vm_compute.
  - by vm_compute.
  - by vm_compute.
  - change (chunk_count ex_srv (slen "abcdef")) with 2. intros n. unfold order. rewrite !elem_of_cons, elem_of_nil. lia.
  - done.
  - exact (run_refines (calm_exec 0) (calm_do Some Some 0) _ w (calm_exec_spec 0)).
  - exists id, now, (landed_as (toy_hash 32) ex_srv ex_id "f" "video/mp4" "abcdef" id mp). exact (conj H9 (conj H4 (conj H5 H6))).
Defined.
